(** * HyperMD overlay mode ([src/mode/hypermd.ts]): the tokenizer state machine

    The development embeds the CodeMirror overlay mode defined in
    [src/mode/hypermd.ts]: its state record, [startState], [copyState],
    [blankLine] and [token], together with the regular expressions the mode
    is built from, and proves properties of them.

    Conventions.
    - A line of text is a [string] of 8-bit code units.
    - A regular expression of the source is a term of [regex], run by a
      backtracking matcher with the priorities of JavaScript.
    - [nstyle] is a JavaScript number used with the 32-bit bit operators;
      it is a [Z] and every bit operator wraps through [int32].
    - [listSpaceStack] is a JavaScript array.  The tokenizer itself is written
      over a snapshot of the state (the array held by value); module [Ref]
      puts the arrays in a store and the state holds a reference, which is
      what [copyState] is about.
    - A call of [token] is a function from the stream and the state to the
      style returned, the stream and the state after the call.

    Layout: the embedding; the views and predicates the statements use,
    with the configuration objects of the mode and of [quick.ts] and the
    helpers of the mode tests; the properties of the matcher, of the bit
    operators and of one call of [token] (what it does to [nstyle], to the
    list stack, to [extra], to the stream); the claims; further properties of
    the tokenizer, construct by construct (the claim on the delimiters of
    emphasis is there, with the inline content it rests on), of the
    configuration objects and of the test helpers. *)

From Stdlib Require Import ZArith Ascii String Lia Bool DecimalString.
From stdpp Require Import base list strings gmap sorting.

Local Open Scope Z_scope.
Local Open Scope list_scope.

(** ** Characters and strings *)

Definition tab : ascii := ascii_of_nat 9.
Definition space : ascii := ascii_of_nat 32.
Definition dquote : ascii := ascii_of_nat 34.
Definition backslash : ascii := ascii_of_nat 92.

Definition code (c : ascii) : N := N_of_ascii c.

(** [\s] restricted to 8-bit code units: TAB, LF, VT, FF, CR, space, NBSP. *)
Definition isSpace (c : ascii) : bool :=
  let n := code c in
  ((9 <=? n) && (n <=? 13) || (n =? 32) || (n =? 160))%N.

(** [\w] is [[A-Za-z0-9_]]. *)
Definition isWord (c : ascii) : bool :=
  let n := code c in
  ((65 <=? n) && (n <=? 90) || (97 <=? n) && (n <=? 122)
   || (48 <=? n) && (n <=? 57) || (n =? 95))%N.

(** [.] matches everything but the line terminators LF and CR. *)
Definition isLineTerminator (c : ascii) : bool :=
  let n := code c in ((n =? 10) || (n =? 13))%N.

(** [String.prototype.slice(n)] / [substr(n)] with one argument. *)
Fixpoint dropStr (n : nat) (s : string) : string :=
  match n, s with
  | O, _ => s
  | S n', String _ s' => dropStr n' s'
  | S _, EmptyString => EmptyString
  end.

(** [String.prototype.charAt(n)]; [None] stands for the empty string. *)
Definition charAt (n : nat) (s : string) : option ascii := String.get n s.

Definition showNat (n : nat) : string := NilEmpty.string_of_uint (Nat.to_uint n).

(** ** Regular expressions

    A backtracking matcher with JavaScript's priorities: alternatives are
    tried left to right, quantifiers are greedy, an iteration of a star that
    consumes nothing is rejected.  The continuation receives the index
    reached and the rest of the input. *)

Inductive cset :=
| CChr (c : ascii)
| CRange (lo hi : ascii)
| CSpace
| CWord.

Definition inCset (c : ascii) (x : cset) : bool :=
  match x with
  | CChr d => Ascii.eqb c d
  | CRange lo hi => ((code lo <=? code c) && (code c <=? code hi))%N
  | CSpace => isSpace c
  | CWord => isWord c
  end.

Inductive regex :=
| Eps
| Chr (c : ascii)
| Dot
| OneOf (l : list cset)
| NoneOf (l : list cset)
| Seq (a b : regex)
| Alt (a b : regex)
| Star (a : regex)
| Bol
| Eol
| Ahead (a : regex).

Definition Plus (a : regex) : regex := Seq a (Star a).
Definition Opt (a : regex) : regex := Alt a Eps.
Definition AtLeast3 (a : regex) : regex := Seq a (Seq a (Seq a (Star a))).
Definition OneOrTwo (a : regex) : regex := Seq a (Opt a).
Definition Seqs (l : list regex) : regex := foldr Seq Eps l.
Definition Lit (s : string) : regex := Seqs (map Chr (list_ascii_of_string s)).

Definition cont := nat -> string -> option nat.

Definition atom (p : ascii -> bool) (i : nat) (s : string) (k : cont) : option nat :=
  match s with
  | String c s' => if p c then k (S i) s' else None
  | EmptyString => None
  end.

Fixpoint star_loop (body : nat -> string -> cont -> option nat)
    (fuel i : nat) (s : string) (k : cont) : option nat :=
  match fuel with
  | O => k i s
  | S fuel' =>
      match body i s (fun i' s' =>
                        if (String.length s' <? String.length s)%nat
                        then star_loop body fuel' i' s' k else None) with
      | Some e => Some e
      | None => k i s
      end
  end.

Fixpoint rmatch (r : regex) (i : nat) (s : string) (k : cont) {struct r} : option nat :=
  match r with
  | Eps => k i s
  | Chr c => atom (Ascii.eqb c) i s k
  | Dot => atom (fun c => negb (isLineTerminator c)) i s k
  | OneOf l => atom (fun c => existsb (inCset c) l) i s k
  | NoneOf l => atom (fun c => negb (existsb (inCset c) l)) i s k
  | Seq a b => rmatch a i s (fun i' s' => rmatch b i' s' k)
  | Alt a b =>
      match rmatch a i s k with
      | Some e => Some e
      | None => rmatch b i s k
      end
  | Star a => star_loop (rmatch a) (String.length s) i s k
  | Bol => if (i =? 0)%nat then k i s else None
  | Eol => match s with EmptyString => k i s | _ => None end
  | Ahead a =>
      match rmatch a i s (fun i' _ => Some i') with
      | Some _ => k i s
      | None => None
      end
  end.

Definition accept : cont := fun i _ => Some i.

(** The leftmost match: [(index, end)] of the matched text. *)
Fixpoint search (r : regex) (i : nat) (s : string) : option (nat * nat) :=
  match rmatch r i s accept with
  | Some e => Some (i, e)
  | None =>
      match s with
      | String _ s' => search r (S i) s'
      | EmptyString => None
      end
  end.

(** [RegExp.prototype.exec] and [RegExp.prototype.test]. *)
Definition exec (r : regex) (s : string) : option (nat * nat) := search r 0 s.
Definition test (r : regex) (s : string) : bool := bool_decide (is_Some (exec r s)).

(** [re.test(x)] where [x] may be [undefined], which is converted to the
    string "undefined". *)
Definition testOpt (r : regex) (x : option string) : bool :=
  test r (default "undefined"%string x).

(** ** The regular expressions of the mode *)

Definition ws : regex := OneOf [CSpace].
Definition digit : regex := OneOf [CRange "0" "9"].

(** The characters that could form a token: backquote, backslash, brackets,
    parentheses, angle brackets and [_ * ~ $ | ^ @ : ! # +], then the double
    quote. *)
Definition possibleTokenChars : string :=
  ("`\[]()<>_*~$|^@:!#+" +:+ String dquote EmptyString)%string.

(** One or more characters outside [possibleTokenChars], anchored: the
    source builds the class by escaping each character of the string. *)
Definition meanlessCharsRE : regex :=
  Seqs [Bol; Plus (NoneOf (map CChr (list_ascii_of_string possibleTokenChars)))].

(** [/^\s*(?:[*\-+]|[0-9]+([.)]))\s+/] *)
Definition listRE : regex :=
  Seqs [Bol; Star ws;
       Alt (OneOf [CChr "*"; CChr "-"; CChr "+"])
           (Seq (Plus digit) (OneOf [CChr "."; CChr ")"]));
       Plus ws].

(** [\s*\:?\s*\-+\s*\:?\s*], the body of a cell of the separator line. *)
Definition sepCell : regex :=
  Seqs [Star ws; Opt (Chr ":"); Star ws; Plus (Chr "-"); Star ws; Opt (Chr ":"); Star ws].

(** [/^\s*\|?(?:\s*\:?\s*\-+\s*\:?\s*\|)*\s*\:?\s*\-+\s*\:?\s*\|?\s*$/] *)
Definition tableTitleSepRE : regex :=
  Seqs [Bol; Star ws; Opt (Chr "|"); Star (Seq sepCell (Chr "|"));
       sepCell; Opt (Chr "|"); Star ws; Eol].

(** [/^(?:[^\$\\]+|\\.)+/] *)
Definition mathBodyRE : regex :=
  Seqs [Bol; Plus (Alt (Plus (NoneOf [CChr "$"; CChr backslash])) (Seq (Chr backslash) Dot))].

(** [/^```\s*$/] and [/^```/] *)
Definition fenceEndRE : regex := Seqs [Bol; Lit "```"; Star ws; Eol].
Definition fenceRE : regex := Seqs [Bol; Lit "```"].

(** [/^(?:-{3,}|={3,})$/] *)
Definition headerLineRE : regex :=
  Seqs [Bol; Alt (AtLeast3 (Chr "-")) (AtLeast3 (Chr "=")); Eol].

(** [/^\>\s*/] and [/^\s*\>\s*/] *)
Definition quoteRE : regex := Seqs [Bol; Chr ">"; Star ws].
Definition quoteMoreRE : regex := Seqs [Bol; Star ws; Chr ">"; Star ws].

(** [/^(#+)(?:\s|$)/] and [/^#+/] *)
Definition headerRE : regex := Seqs [Bol; Plus (Chr "#"); Alt ws Eol].
Definition hashesRE : regex := Seqs [Bol; Plus (Chr "#")].

(** [/\S/] and [/\w/] *)
Definition nonSpaceRE : regex := NoneOf [CSpace].
Definition wordRE : regex := OneOf [CWord].

(** An optional colon with spaces, dashes, an optional colon after spaces,
    anchored: the cell of a separator line. *)
Definition dashRE : regex :=
  Seqs [Bol; Opt (Seq (Chr ":") (Star ws)); Plus (Chr "-"); Opt (Seq (Star ws) (Chr ":"))].

(** [/^`[^`]*`?/] *)
Definition inlineCodeRE : regex :=
  Seqs [Bol; Chr "`"; Star (NoneOf [CChr "`"]); Opt (Chr "`")].

(** [/^\${1,2}/] and [/[^\\]\$/] *)
Definition dollarsRE : regex := Seqs [Bol; OneOrTwo (Chr "$")].
Definition closingDollarRE : regex := Seqs [NoneOf [CChr backslash]; Chr "$"].

(** [/^\s*\|/] *)
Definition leadingPipeRE : regex := Seqs [Bol; Star ws; Chr "|"].

(** [/^\[([^\]]+)\]/], [/^(?:[^\]]+)\]\:/] and [/^(?:[^\]]+)\](?:[^\[\(]|$)/] *)
Definition bracketRE : regex := Seqs [Bol; Chr "["; Plus (NoneOf [CChr "]"]); Chr "]"].
Definition footnoteNameRE : regex := Seqs [Bol; Plus (NoneOf [CChr "]"]); Chr "]"; Chr ":"].
Definition bareLinkRE : regex :=
  Seqs [Bol; Plus (NoneOf [CChr "]"]); Chr "]"; Alt (NoneOf [CChr "["; CChr "("]) Eol].

(** A double-quoted run, anchored, in which a backslash escapes the next
    character. *)
Definition quotedRE : regex :=
  Seqs [Bol; Chr dquote;
       Star (Alt (NoneOf [CChr dquote; CChr backslash]) (Seq (Chr backslash) Dot));
       Chr dquote].

(** [/^\\(?=.)/] *)
Definition escapeRE : regex := Seqs [Bol; Chr backslash; Ahead Dot].

(** ** Numbers

    The bit operators of JavaScript convert their operands to signed 32-bit
    integers and give a signed 32-bit result. *)

Definition int32 (z : Z) : Z := (z + 2 ^ 31) mod 2 ^ 32 - 2 ^ 31.

Definition js_and (a b : Z) : Z := int32 (Z.land (int32 a) (int32 b)).
Definition js_or (a b : Z) : Z := int32 (Z.lor (int32 a) (int32 b)).
Definition js_xor (a b : Z) : Z := int32 (Z.lxor (int32 a) (int32 b)).
Definition js_not (a : Z) : Z := int32 (Z.lnot (int32 a)).

(** ** [insideValues] and [nstyleValues] *)

Inductive insideValues :=
| nothing
| math
| listSpace
| codeFence
| tableTitleSep.

Global Instance insideValues_eq_dec : EqDecision insideValues.
Proof. solve_decision. Defined.

Module nstyleValues.
Definition _style_mask : Z := 0xFF.
Definition _style_offset : Z := 0.
Definition DEL : Z := Z.shiftl 1 0.
Definition EM : Z := Z.shiftl 1 1.
Definition STRONG : Z := Z.shiftl 1 2.
Definition ESCAPE : Z := Z.shiftl 1 3.
Definition _link_mask : Z := 0xFF00.
Definition _link_offset : Z := 8.
Definition LINK : Z := Z.shiftl 1 _link_offset.
Definition LINK_URL : Z := Z.shiftl 2 _link_offset.
Definition BARELINK : Z := Z.shiftl 3 _link_offset.
Definition FOOTREF : Z := Z.shiftl 4 _link_offset.
Definition FOOTREF_BEGIN : Z := Z.shiftl 5 _link_offset.
Definition FOOTNOTE_NAME : Z := Z.shiftl 6 _link_offset.
End nstyleValues.
Import nstyleValues.

(** These styles only need one bit to record the status. *)
Definition nstyleStandalone : list Z := [DEL; EM; STRONG; ESCAPE].

(** [HMDStyles[k]]; [None] is [undefined]. *)
Definition HMDStyles (k : Z) : option string :=
  if k =? ESCAPE then Some "hmd-escape "%string
  else if k =? LINK then Some "hmd-link "%string
  else if k =? LINK_URL then Some "hmd-link-url "%string
  else if k =? BARELINK then Some "hmd-barelink "%string
  else if k =? FOOTREF then Some "hmd-barelink hmd-footref "%string
  else if k =? FOOTREF_BEGIN then Some "hmd-barelink hmd-footref hmd-footref-lead "%string
  else if k =? FOOTNOTE_NAME then Some "hmd-footnote line-HyperMD-footnote "%string
  else None.

(** ** The state *)

(** [extra] works with [inside]: the opening token while inside math, the
    index into [listSpaceStack] while inside listSpace, [null] otherwise. *)
Inductive extra_t :=
| ExtraNull
| ExtraNum (n : nat)
| ExtraStr (s : string).

(** [combineTokens] is an optional member: absent, [null], or a boolean. *)
Inductive combine_t :=
| CombineAbsent
| CombineNull
| CombineBool (b : bool).

(** The object returned by [startState], with the member [combineTokens] of
    the interface [State].  [L] is what the member [listSpaceStack] holds: the
    array itself ([list Z]) in a snapshot, a reference in module [Ref]. *)
Record HState (L : Type) := mkState {
  atBeginning : bool;
  quoteLevel : nat;
  nstyle : Z;
  table : option string;
  tableCol : nat;
  tableRow : nat;
  inside : option insideValues;
  listSpaceStack : L;
  prevLineIsEmpty : bool;
  extra : extra_t;
  combineTokens : combine_t;
}.
Arguments mkState {L}.
Arguments atBeginning {L}.
Arguments quoteLevel {L}.
Arguments nstyle {L}.
Arguments table {L}.
Arguments tableCol {L}.
Arguments tableRow {L}.
Arguments inside {L}.
Arguments listSpaceStack {L}.
Arguments prevLineIsEmpty {L}.
Arguments extra {L}.
Arguments combineTokens {L}.

Definition State := HState (list Z).

Section Setters.
Context {L : Type}.
Implicit Type s : HState L.

Definition set_atBeginning (v : bool) s : HState L :=
  mkState v (quoteLevel s) (nstyle s) (table s) (tableCol s) (tableRow s)
    (inside s) (listSpaceStack s) (prevLineIsEmpty s) (extra s) (combineTokens s).
Definition set_quoteLevel (v : nat) s : HState L :=
  mkState (atBeginning s) v (nstyle s) (table s) (tableCol s) (tableRow s)
    (inside s) (listSpaceStack s) (prevLineIsEmpty s) (extra s) (combineTokens s).
Definition set_nstyle (v : Z) s : HState L :=
  mkState (atBeginning s) (quoteLevel s) v (table s) (tableCol s) (tableRow s)
    (inside s) (listSpaceStack s) (prevLineIsEmpty s) (extra s) (combineTokens s).
Definition set_table (v : option string) s : HState L :=
  mkState (atBeginning s) (quoteLevel s) (nstyle s) v (tableCol s) (tableRow s)
    (inside s) (listSpaceStack s) (prevLineIsEmpty s) (extra s) (combineTokens s).
Definition set_tableCol (v : nat) s : HState L :=
  mkState (atBeginning s) (quoteLevel s) (nstyle s) (table s) v (tableRow s)
    (inside s) (listSpaceStack s) (prevLineIsEmpty s) (extra s) (combineTokens s).
Definition set_tableRow (v : nat) s : HState L :=
  mkState (atBeginning s) (quoteLevel s) (nstyle s) (table s) (tableCol s) v
    (inside s) (listSpaceStack s) (prevLineIsEmpty s) (extra s) (combineTokens s).
Definition set_inside (v : option insideValues) s : HState L :=
  mkState (atBeginning s) (quoteLevel s) (nstyle s) (table s) (tableCol s) (tableRow s)
    v (listSpaceStack s) (prevLineIsEmpty s) (extra s) (combineTokens s).
Definition set_prevLineIsEmpty (v : bool) s : HState L :=
  mkState (atBeginning s) (quoteLevel s) (nstyle s) (table s) (tableCol s) (tableRow s)
    (inside s) (listSpaceStack s) v (extra s) (combineTokens s).
Definition set_extra (v : extra_t) s : HState L :=
  mkState (atBeginning s) (quoteLevel s) (nstyle s) (table s) (tableCol s) (tableRow s)
    (inside s) (listSpaceStack s) (prevLineIsEmpty s) v (combineTokens s).
Definition set_combineTokens (v : combine_t) s : HState L :=
  mkState (atBeginning s) (quoteLevel s) (nstyle s) (table s) (tableCol s) (tableRow s)
    (inside s) (listSpaceStack s) (prevLineIsEmpty s) (extra s) v.
End Setters.

Definition set_listSpaceStack {L M : Type} (v : M) (s : HState L) : HState M :=
  mkState (atBeginning s) (quoteLevel s) (nstyle s) (table s) (tableCol s) (tableRow s)
    (inside s) v (prevLineIsEmpty s) (extra s) (combineTokens s).

(** The two views the specification takes of [nstyle]. *)
Definition inlineStyleMask {L} (s : HState L) : Z := js_and (nstyle s) _style_mask.
Definition linkState {L} (s : HState L) : Z := js_and (nstyle s) _link_mask.

(** The four standalone bits, [DEL | EM | STRONG | ESCAPE]. *)
Definition standaloneBits (n : Z) : Z := js_and n (DEL + EM + STRONG + ESCAPE).

(** ** The stream

    Modelled from the spec: CodeMirror's [StringStream] is not part of the
    repository; section 6 of the specification lists what the tokenizer uses
    of it: the text of the line and the scan position, peek and consume of the
    next character, matching a pattern or a literal at the position with or
    without consuming, the text of the following line, the indentation of the
    line in columns and the line number. *)

Record StringStream := mkStream {
  str : string;
  pos : nat;
  tabSize : nat;
  lineNo : nat;
  nextLine : option string;
}.

Definition set_pos (p : nat) (s : StringStream) : StringStream :=
  mkStream (str s) p (tabSize s) (lineNo s) (nextLine s).

Definition rest (s : StringStream) : string := dropStr (pos s) (str s).

Definition peek (s : StringStream) : option ascii := charAt (pos s) (str s).

Definition eol (s : StringStream) : bool := (String.length (str s) <=? pos s)%nat.

(** [stream.next()]: the character consumed, [None] at the end of the line. *)
Definition next (s : StringStream) : option ascii * StringStream :=
  match peek s with
  | Some c => (Some c, set_pos (S (pos s)) s)
  | None => (None, s)
  end.

(** [stream.eat(ch)] *)
Definition eat (ch : ascii) (s : StringStream) : option StringStream :=
  match peek s with
  | Some c => if Ascii.eqb c ch then Some (set_pos (S (pos s)) s) else None
  | None => None
  end.

Definition skipToEnd (s : StringStream) : StringStream :=
  set_pos (String.length (str s)) s.

(** [stream.match(regexp, consume)]: the pattern is run on the rest of the
    line and must match at its first character; the result is the length of
    the match and the stream after it. *)
Definition matchRE (r : regex) (consume : bool) (s : StringStream)
    : option (nat * StringStream) :=
  match exec r (rest s) with
  | Some (O, e) => Some (e, if consume then set_pos (pos s + e) s else s)
  | _ => None
  end.

Fixpoint prefixStr (p s : string) : bool :=
  match p, s with
  | EmptyString, _ => true
  | String a p', String b s' => Ascii.eqb a b && prefixStr p' s'
  | String _ _, EmptyString => false
  end.

(** [stream.match(string)], consuming. *)
Definition matchStr (p : string) (s : StringStream) : option StringStream :=
  if prefixStr p (rest s) then Some (set_pos (pos s + String.length p) s) else None.

(** [stream.indentation()]: the column reached after the leading white space,
    a tab advancing to the next multiple of [tabSize]. *)
Fixpoint countColumn (tabSize : nat) (s : string) (n : nat) : nat :=
  match s with
  | String c s' =>
      if isSpace c
      then countColumn tabSize s'
             (if Ascii.eqb c tab then n + (tabSize - n mod tabSize) else S n)%nat
      else n
  | EmptyString => n
  end.

Definition indentation (s : StringStream) : Z :=
  Z.of_nat (countColumn (tabSize s) (str s) 0).

(** [stream.lookAhead(1)] *)
Definition lookAhead1 (s : StringStream) : option string := nextLine s.

(** ** The tokenizer *)

Local Open Scope string_scope.

(** What a call of [token] gives: the style returned ([None] is [null]), the
    stream and the state as the call leaves them.  The source is dynamically
    typed: [extra] is read as a string while inside math and as a number
    while inside listSpace.  On a state where it holds something else
    JavaScript would coerce or raise; the model stops there with [Stuck]
    (lemma [typed_token_not_stuck]: no reachable state does). *)
Inductive outcome :=
| Stuck
| Ret (style : option string) (stream : StringStream) (state : State).

(** A part of [token] either returns or falls through to the next part. *)
Inductive stage :=
| Done (o : outcome)
| Next (stream : StringStream) (state : State).

Definition charIs (c : ascii) (x : option ascii) : bool :=
  match x with
  | Some d => Ascii.eqb d c
  | None => false
  end.

(** [re.test(ch)] for a character that may be [undefined] ([stream.peek()]
    at the end of the line). *)
Definition testPeek (r : regex) (x : option ascii) : bool :=
  testOpt r (option_map (fun c => String c EmptyString) x).

(** [re.test(s.charAt(i))]: [None] is the empty string. *)
Definition testCharAt (r : regex) (x : option ascii) : bool :=
  test r (match x with Some c => String c EmptyString | None => EmptyString end).

(** Truthiness of [state.table], [state.inside] and of a number. *)
Definition truthyStr (x : option string) : bool :=
  match x with
  | Some s => negb (String.length s =? 0)%nat
  | None => false
  end.

Definition truthyInside (x : option insideValues) : bool :=
  match x with
  | Some nothing | None => false
  | Some _ => true
  end.

(** [ToNumber] of [extra] when it is not a string. *)
Definition extraNumber (e : extra_t) : nat :=
  match e with
  | ExtraNum n => n
  | _ => O
  end.

Definition after {A} (x : option (A * StringStream)) (otherwise : StringStream) : StringStream :=
  match x with
  | Some (_, s) => s
  | None => otherwise
  end.

(** [case insideValues.math] *)
Definition token_math (stream : StringStream) (state : State) : outcome :=
  match extra state with
  | ExtraStr d =>
      let start := pos stream in
      let closing :=
        if (start =? 0)%nat || negb (charIs backslash (charAt (start - 1) (str stream)))
        then matchStr d stream else None in
      match closing with
      | Some stream' =>
          Ret (Some ("formatting formatting-math formatting-math-end math math-"
                     +:+ showNat (String.length d)))
              stream' (set_inside (Some nothing) state)
      | None =>
          Ret (Some ("math math-" +:+ showNat (String.length d)))
              (after (matchRE mathBodyRE true stream) (next stream).2) state
      end
  | _ => Stuck
  end.

(** [case insideValues.codeFence] *)
Definition token_codeFence (stream : StringStream) (state : State) : outcome :=
  let state := set_combineTokens (CombineBool true) state in
  match (if (pos stream =? 0)%nat then matchRE fenceEndRE true stream else None) with
  | Some (_, stream') =>
      Ret (Some "line-HyperMD-codeblock line-background-HyperMD-codeblock-bg line-HyperMD-codeblock-end")
          stream' (set_inside (Some nothing) state)
  | None =>
      Ret (Some "line-HyperMD-codeblock line-background-HyperMD-codeblock-bg")
          (skipToEnd stream) state
  end.

(** [while (stream.match(/^\s*\>\s*/)) quoteLevel++]; every round consumes
    the [>], so the length of the rest of the line bounds the rounds. *)
Fixpoint quoteLoop (fuel : nat) (stream : StringStream) (quoteLevel : nat)
    : StringStream * nat :=
  match fuel with
  | O => (stream, quoteLevel)
  | S fuel' =>
      match matchRE quoteMoreRE true stream with
      | Some (_, stream') => quoteLoop fuel' stream' (S quoteLevel)
      | None => (stream, quoteLevel)
      end
  end.

(** The [for] loop that walks the levels of [listSpaceStack] from index [i]:
    the stack as the loop leaves it and what is left of [indentation]. *)
Fixpoint rebuildLoop (fuel i : nat) (stack : list Z) (indentation : Z) : list Z * Z :=
  match fuel with
  | O => (stack, indentation)
  | S fuel' =>
      match stack !! i with
      | Some w =>
          if (0 <? indentation)%Z
          then rebuildLoop fuel' (S i) stack (indentation - w)
          else (take i stack, indentation)
      | None => (stack, indentation)
      end
  end.

(** "rebuild state.listSpaceStack" *)
Definition rebuildStack (stack : list Z) (indentation : Z) : list Z :=
  let zero_leading := bool_decide (stack !! 0%nat = Some 0) in
  let '(stack, indentation) :=
    rebuildLoop (length stack) (if zero_leading then 1 else 0)%nat stack indentation in
  let stack := if (0 <? indentation)%Z then (stack ++ [indentation])%list else stack in
  if (length stack =? 0)%nat then (stack ++ [0])%list else stack.

(** The part under [if (start === 0)]. *)
Definition lineStart (stream : StringStream) (state : State) : stage :=
  let state := set_atBeginning true state in
  let state :=
    if truthyStr (table state) then
      let state := set_tableRow (S (tableRow state)) (set_tableCol 0 state) in
      if (tableRow state =? 1)%nat && test tableTitleSepRE (str stream)
      then set_inside (Some tableTitleSep) state
      else set_inside None state
    else state in
  let indentation := indentation stream in
  match matchRE fenceRE true stream with
  | Some (_, stream') =>
      Done (Ret (Some "line-HyperMD-codeblock line-background-HyperMD-codeblock-bg line-HyperMD-codeblock-begin")
                stream'
                (set_inside (Some codeFence) (set_combineTokens (CombineBool true) state)))
  | None =>
  if (length (listSpaceStack state) =? 0)%nat && (4 <=? indentation)%Z then
    Done (Ret (Some "line-HyperMD-codeblock line-background-HyperMD-codeblock-indented-bg")
              (skipToEnd stream) state)
  else if test headerLineRE (str stream) && negb (prevLineIsEmpty state) then
    let _hlevel := if charIs "=" (charAt 0 (str stream)) then 1%nat else 2%nat in
    Done (Ret (Some ("formatting line-HyperMD-header-line line-HyperMD-header-line-"
                     +:+ showNat _hlevel))
              (skipToEnd stream) state)
  else
  let state := set_prevLineIsEmpty false state in
  match matchRE quoteRE true stream with
  | Some (_, stream') =>
      let '(stream', quoteLevel) := quoteLoop (String.length (rest stream')) stream' 1 in
      Done (Ret (Some ("formatting formatting-quote formatting-quote-" +:+ showNat quoteLevel
                       +:+ " quote quote-" +:+ showNat quoteLevel
                       +:+ " line-HyperMD-quote line-HyperMD-quote-" +:+ showNat quoteLevel))
                stream' (set_quoteLevel quoteLevel state))
  | None =>
  if negb (quoteLevel state =? 0)%nat then
    Done (Ret (Some ("line-HyperMD-quote line-HyperMD-quote-" +:+ showNat (quoteLevel state)))
              (next stream).2 (set_combineTokens (CombineBool true) state))
  else
  match matchRE headerRE true stream with
  | Some (_, stream') =>
      match exec hashesRE (str stream') with
      | Some (i, e) =>
          Done (Ret (Some ("line-HyperMD-header line-HyperMD-header-" +:+ showNat (e - i)))
                    stream' (set_combineTokens (CombineBool true) state))
      | None => Done Stuck
      end
  | None =>
  if negb (length (listSpaceStack state) =? 0)%nat
     || bool_decide (is_Some (matchRE listRE false stream))
  then
    Next stream
      (set_extra (ExtraNum 0)
         (set_inside (Some listSpace)
            (set_listSpaceStack (rebuildStack (listSpaceStack state) indentation) state)))
  else Next stream state
  end end end.

(** [state.extra === 0], and whether [extra] holds a string. *)
Definition extraIsZero (e : extra_t) : bool :=
  match e with
  | ExtraNum O => true
  | _ => false
  end.

Definition extraIsStr (e : extra_t) : bool :=
  match e with
  | ExtraStr _ => true
  | _ => false
  end.

(** [while (indent_to_eat > 0)]: every round takes at least one unit off, so
    [indent_to_eat] itself bounds the rounds.  The result is the stream and
    the flag [corrupted]. *)
Fixpoint eatIndent (fuel : nat) (stream : StringStream) (indent_to_eat : Z)
    : StringStream * bool :=
  match fuel with
  | O => (stream, false)
  | S fuel' =>
      if (0 <? indent_to_eat)%Z then
        let '(next_ch, stream') := next stream in
        if charIs tab next_ch then eatIndent fuel' stream' (indent_to_eat - 4)
        else if charIs space next_ch then eatIndent fuel' stream' (indent_to_eat - 1)
        else (stream', true)
      else (stream, false)
  end.

(** The part under [if (state.inside === insideValues.listSpace)]. *)
Definition token_listSpace (stream : StringStream) (state : State) : outcome :=
  let stack := listSpaceStack state in
  let listLevel := length stack in
  if extraIsStr (extra state) then Stuck else
  let firstMet := extraIsZero (extra state) in
  let zeroFirst := bool_decide (stack !! 0%nat = Some 0) in
  if firstMet && zeroFirst && (listLevel =? 1)%nat then
    Ret (Some "line-HyperMD-list-line line-HyperMD-list-line-1")
        (after (matchRE listRE true stream) (next stream).2)
        (set_combineTokens (CombineBool true) (set_extra ExtraNull (set_inside None state)))
  else
  let state := if firstMet && zeroFirst then set_extra (ExtraNum 1) state else state in
  let ans := if firstMet && zeroFirst then "hmd-list-indent-virtual " else "" in
  let indent_to_eat :=
    match extra state with
    | ExtraNum n => stack !! n
    | _ => None
    end in
  let '(stream, corrupted) :=
    match indent_to_eat with
    | Some w => eatIndent (Z.to_nat w) stream w
    | None => (stream, false)
    end in
  let state := if corrupted then set_extra ExtraNull (set_inside None state) else state in
  let ans := ans +:+ "hmd-list-indent hmd-list-indent-" +:+ showNat (extraNumber (extra state) + 1) in
  let ans :=
    if firstMet
    then ans +:+ " line-HyperMD-list-line line-HyperMD-list-line-" +:+ showNat listLevel
    else ans in
  let ans := if corrupted then ans +:+ " hmd-list-indent-corrupted" else ans in
  let state := set_extra (ExtraNum (extraNumber (extra state) + 1)) state in
  let state :=
    if (listLevel <=? extraNumber (extra state))%nat
    then set_extra ExtraNull (set_inside None state)
    else state in
  Ret (Some ans) stream (set_combineTokens (CombineBool true) state).

(** The tags of a [|] once the table is known: row tags on the first column,
    then the separator tag; [tableCol++]. *)
Definition tableSep (ans : string) (stream : StringStream) (state : State) : outcome :=
  let ans :=
    if (tableCol state =? 0)%nat
    then ans +:+ "line-HyperMD-table_" +:+ default "null" (table state) +:+ " "
             +:+ "line-HyperMD-table-row line-HyperMD-table-row-"
             +:+ showNat (tableRow state) +:+ " "
    else ans in
  let ans := ans +:+ "hmd-table-sep hmd-table-sep-" +:+ showNat (tableCol state) +:+ " " in
  Ret (Some ans) stream (set_tableCol (S (tableCol state)) state).

(** "possible table" *)
Definition tablePart (stream : StringStream) (state : State) : stage :=
  let canMakeTable :=
    (nstyle state =? 0)%Z && (length (listSpaceStack state) =? 0)%nat
    && negb (truthyInside (inside state)) in
  match (if canMakeTable then eat "|" stream else None) with
  | Some stream' =>
      if negb (truthyStr (table state)) then
        if negb (test leadingPipeRE (str stream))
           && negb (testOpt tableTitleSepRE (lookAhead1 stream))
        then Done (Ret None stream' state)
        else
          let state :=
            set_tableRow 0 (set_table (Some ("T" +:+ showNat (lineNo stream))) state) in
          let ans := "line-HyperMD-table-title " in
          let ans :=
            if testOpt tableTitleSepRE (lookAhead1 stream)
            then ans +:+ "line-HyperMD-table-title-has_rowsep "
            else ans in
          Done (tableSep ans stream' state)
      else Done (tableSep "" stream' state)
  | None => Next stream state
  end.

(** "initialize style string by nstyle" *)
Definition initialStyle (nstyle : Z) : string :=
  let ans :=
    foldl (fun ans s =>
             if negb (js_and nstyle s =? 0)%Z then ans +:+ default "" (HMDStyles s) else ans)
          "" nstyleStandalone in
  let ns_link := js_and nstyle _link_mask in
  if negb (ns_link =? 0)%Z then ans +:+ default "" (HMDStyles ns_link) else ans.

(** "LINK related", from outside a link: "try to find a beginning". *)
Definition linkBegin (atBeginning : bool) (ans : string)
    (stream : StringStream) (state : State) : stage :=
  match matchRE bracketRE false stream with
  | Some _ =>
      let stream := (next stream).2 in
      let ns_link :=
        if atBeginning && bool_decide (is_Some (matchRE footnoteNameRE false stream))
        then FOOTNOTE_NAME
        else if bool_decide (is_Some (matchRE bareLinkRE false stream))
        then (if charIs "^" (peek stream) then FOOTREF_BEGIN else BARELINK)
        else LINK in
      Done (Ret (Some (ans +:+ default "undefined" (HMDStyles ns_link))) stream
                (set_nstyle (js_or (nstyle state) ns_link) state))
  | None => Next stream state
  end.

(** "LINK related", inside a link: the [switch (ns_link)], giving
    [new_ns_link] ([None] is [null]) and the stream. *)
Definition linkSwitch (ns_link : Z) (stream : StringStream) : option Z * StringStream :=
  if (ns_link =? FOOTREF_BEGIN)%Z then (Some FOOTREF, (next stream).2)
  else if (ns_link =? FOOTREF)%Z || (ns_link =? BARELINK)%Z then
    match eat "]" stream with
    | Some stream' => (Some 0%Z, stream')
    | None => (None, stream)
    end
  else if (ns_link =? FOOTNOTE_NAME)%Z then
    match matchStr "]:" stream with
    | Some stream' => (Some 0%Z, stream')
    | None => (None, stream)
    end
  else if (ns_link =? LINK)%Z then
    match eat "]" stream with
    | Some stream' => (Some LINK_URL, stream')
    | None => (None, stream)
    end
  else if (ns_link =? LINK_URL)%Z then
    match matchRE quotedRE true stream with
    | Some (_, stream') => (None, stream')
    | None =>
        match eat ")" stream with
        | Some stream' => (Some 0%Z, stream')
        | None => (None, stream)
        end
    end
  else (None, stream).

Definition linkPart (atBeginning : bool) (nstyle : Z) (ans : string)
    (stream : StringStream) (state : State) : stage :=
  let ns_link := js_and nstyle _link_mask in
  if (ns_link =? 0)%Z then linkBegin atBeginning ans stream state
  else
    let '(new_ns_link, stream) := linkSwitch ns_link stream in
    match new_ns_link with
    | Some v =>
        Done (Ret (Some ans) stream
                  (set_nstyle (js_or (js_and nstyle (js_not _link_mask)) v) state))
    | None => Next stream state
    end.

(** "ESCAPE related"; [nstyle0] is the constant [nstyle] of the source, the
    value of [state.nstyle] before the link part. *)
Definition escapePart (nstyle0 : Z) (ans : string)
    (stream : StringStream) (state : State) : stage :=
  if negb (js_and nstyle0 ESCAPE =? 0)%Z then
    Done (Ret (Some ans) (next stream).2 (set_nstyle (nstyle state - ESCAPE)%Z state))
  else
    match matchRE escapeRE true stream with
    | Some (_, stream') =>
        Done (Ret (Some (ans +:+ default "" (HMDStyles ESCAPE) +:+ "hmd-escape-backslash "))
                  stream' (set_nstyle (js_or (nstyle state) ESCAPE) state))
    | None => Next stream state
    end.

(** [state.nstyle ^= bit] *)
Definition toggle (bit : Z) (state : State) : State :=
  set_nstyle (js_xor (nstyle state) bit) state.

(** [stream.string.charAt(stream.pos - 1)] *)
Definition charBefore (stream : StringStream) : option ascii :=
  match pos stream with
  | O => None
  | S p => charAt p (str stream)
  end.

(** "DEL, EM, STRONG etc. simple styles" *)
Definition emphasisPart (ans : string) (stream : StringStream) (state : State) : stage :=
  if negb (js_and (nstyle state) _style_mask =? 0)%Z
     || negb (testCharAt wordRE (charBefore stream))
  then
    match matchStr "**" stream with
    | Some stream' => Done (Ret (Some ans) stream' (toggle STRONG state))
    | None =>
    match matchStr "__" stream with
    | Some stream' => Done (Ret (Some ans) stream' (toggle STRONG state))
    | None =>
    match eat "*" stream with
    | Some stream' => Done (Ret (Some ans) stream' (toggle EM state))
    | None =>
    match eat "_" stream with
    | Some stream' => Done (Ret (Some ans) stream' (toggle EM state))
    | None =>
    match matchStr "~~" stream with
    | Some stream' => Done (Ret (Some ans) stream' (toggle DEL state))
    | None => Next stream state
    end end end end end
  else Next stream state.

(** "Finally, if nothing changed, move on" *)
Definition fallback (ans : string) (stream : StringStream) (state : State) : outcome :=
  Ret (if (String.length ans =? 0)%nat then None else Some ans)
      (after (matchRE meanlessCharsRE true stream) (next stream).2) state.

(** "now process mixable (non-exclusive) styles" *)
Definition mixablePart (atBeginning : bool) (stream : StringStream) (state : State)
    : outcome :=
  let nstyle0 := nstyle state in
  let ans := initialStyle nstyle0 in
  match linkPart atBeginning nstyle0 ans stream state with
  | Done o => o
  | Next stream state =>
  match escapePart nstyle0 ans stream state with
  | Done o => o
  | Next stream state =>
  match emphasisPart ans stream state with
  | Done o => o
  | Next stream state => fallback ans stream state
  end end end.

(** "inline math": [tmp = stream.match(/^\${1,2}/)] consumes the dollars
    whether or not math opens; the result is the stream after it and, when
    math opens, the opening token [tmp[0]]. *)
Definition mathOpen (stream : StringStream) : StringStream * option string :=
  match matchRE dollarsRE true stream with
  | Some (n, stream') =>
      let tmp0 := String.substring (pos stream) n (str stream) in
      if String.eqb tmp0 "$$"
         || test closingDollarRE (dropStr (pos stream + 1) (str stream))
      then (stream', Some tmp0)
      else (stream', None)
  | None => (stream, None)
  end.

(** "now list bullets and quote indents are gone. Enter the content." *)
Definition token_inline (stream : StringStream) (state : State) : outcome :=
  let atBeginning := atBeginning state in
  let state :=
    if atBeginning && testPeek nonSpaceRE (peek stream)
    then set_atBeginning false state else state in
  let state := set_combineTokens (CombineBool true) state in
  match (if bool_decide (inside state = Some tableTitleSep)
         then matchRE dashRE true stream else None) with
  | Some (_, stream') =>
      Ret (Some "hmd-table-title-dash line-HyperMD-table-row line-HyperMD-table-rowsep ")
          stream' (set_combineTokens (CombineBool false) state)
  | None =>
  match matchRE inlineCodeRE true stream with
  | Some (_, stream') => Ret None stream' state
  | None =>
  match mathOpen stream with
  | (stream', Some tmp0) =>
      Ret (Some ("formatting formatting-math formatting-math-begin math math-"
                 +:+ showNat (String.length tmp0)))
          stream'
          (set_combineTokens (CombineBool false)
             (set_extra (ExtraStr tmp0) (set_inside (Some math) state)))
  | (stream, None) =>
  match tablePart stream state with
  | Done o => o
  | Next stream state => mixablePart atBeginning stream state
  end end end end.

(** [token(stream, state)] *)
Definition token (stream : StringStream) (state : State) : outcome :=
  let state := set_combineTokens CombineNull state in
  match inside state with
  | Some math => token_math stream state
  | Some codeFence => token_codeFence stream state
  | _ =>
      match (if (pos stream =? 0)%nat then lineStart stream state else Next stream state) with
      | Done o => o
      | Next stream state =>
          if bool_decide (inside state = Some listSpace)
          then token_listSpace stream state
          else token_inline stream state
      end
  end.

(** [startState()]; [combineTokens] is not a member of the object yet. *)
Definition startState : State :=
  {| atBeginning := true;
     quoteLevel := 0;
     nstyle := 0;
     table := None;
     tableCol := 0;
     tableRow := 0;
     inside := Some nothing;
     listSpaceStack := [];
     prevLineIsEmpty := false;
     extra := ExtraNull;
     combineTokens := CombineAbsent |}.

(** [blankLine(s)] on a snapshot: the style returned and the state. *)
Definition blankLine (s : State) : option string * State :=
  let s' :=
    {| atBeginning := true;
       quoteLevel := 0;
       nstyle := 0;
       table := None;
       tableCol := 0;
       tableRow := 0;
       inside := inside s;
       listSpaceStack := [];
       prevLineIsEmpty := true;
       extra := extra s;
       combineTokens := combineTokens s |} in
  (if bool_decide (inside s = Some codeFence)
   then Some "line-HyperMD-codeblock line-background-HyperMD-codeblock-bg"
   else None, s').

(** [copyState(s)] on a snapshot: the members named by [startState] are
    copied, [s.listSpaceStack.slice()] is the same sequence; the object
    literal has no member [combineTokens]. *)
Definition copyState (s : State) : State :=
  {| atBeginning := atBeginning s;
     quoteLevel := quoteLevel s;
     nstyle := nstyle s;
     table := table s;
     tableCol := tableCol s;
     tableRow := tableRow s;
     inside := inside s;
     listSpaceStack := listSpaceStack s;
     prevLineIsEmpty := prevLineIsEmpty s;
     extra := extra s;
     combineTokens := CombineAbsent |}.

(** ** The host

    Modelled from the spec: the scanning loop belongs to CodeMirror.  It
    calls [blankLine] on an empty line; on any other line it calls [token]
    from position 0, each call starting where the previous one stopped, until
    the end of the line, and gives up when a call does not advance. *)

Definition lineStream (text : string) (lineNo : nat) (following : option string)
    : StringStream :=
  {| str := text; pos := 0; tabSize := 4; lineNo := lineNo; nextLine := following |}.

(** The calls made on one line, in order, and the state after the last. *)
Fixpoint runLine (fuel : nat) (stream : StringStream) (state : State)
    : list outcome * State :=
  match fuel with
  | O => ([], state)
  | S fuel' =>
      if eol stream then ([], state)
      else
        match token stream state with
        | Stuck => ([Stuck], state)
        | Ret style stream' state' =>
            if (pos stream' <=? pos stream)%nat
            then ([Ret style stream' state'], state')
            else
              let '(calls, final) := runLine fuel' stream' state' in
              (Ret style stream' state' :: calls, final)
        end
  end.

Definition scanLine (text : string) (lineNo : nat) (following : option string)
    (state : State) : list outcome * State :=
  if (String.length text =? 0)%nat then ([], (blankLine state).2)
  else runLine (String.length text) (lineStream text lineNo following) state.

(** The state after the lines of a document, the first of them line [lineNo]. *)
Fixpoint scanDoc (lines : list string) (lineNo : nat) (state : State) : State :=
  match lines with
  | [] => state
  | text :: lines' =>
      scanDoc lines' (S lineNo) (scanLine text lineNo (head lines') state).2
  end.

(** The states the three operations of the mode can produce. *)
Inductive reachable : State -> Prop :=
| reach_start : reachable startState
| reach_token stream state style stream' state' :
    reachable state ->
    token stream state = Ret style stream' state' ->
    reachable state'
| reach_blankLine state :
    reachable state -> reachable (blankLine state).2
| reach_copyState state :
    reachable state -> reachable (copyState state).

(** ** States by reference

    In the source [listSpaceStack] holds a reference to an array that
    [token] changes in place ([splice], [push]) and that [blankLine] replaces
    by a new one.  Here the arrays live in a store and a state holds a
    location; a snapshot reads the array. *)

Module Ref.

Definition loc := positive.
Definition StateRef := HState loc.

(** A new array: a location the store does not use yet. *)
Definition alloc (h : gmap loc (list Z)) (a : list Z) : gmap loc (list Z) * loc :=
  let l := fresh (dom h) in (<[l := a]> h, l).

(** The state with the array in place of the reference. *)
Definition snapshot (h : gmap loc (list Z)) (s : StateRef) : option State :=
  match h !! listSpaceStack s with
  | Some a => Some (set_listSpaceStack a s)
  | None => None
  end.

(** [startState()]: the array literal is a new array. *)
Definition startState (h : gmap loc (list Z)) : gmap loc (list Z) * StateRef :=
  let '(h', l) := alloc h [] in (h', set_listSpaceStack l startState).

(** [copyState(s)]: a new object whose members are those of [s], but for
    [listSpaceStack], which is [s.listSpaceStack.slice()], a new array with
    the same elements.  ([s.listSpaceStack &&] guards against a value that
    is not an array, which the type of the state excludes; a location with
    no array behind it gives [None].) *)
Definition copyState (h : gmap loc (list Z)) (s : StateRef)
    : option (gmap loc (list Z) * StateRef) :=
  match h !! listSpaceStack s with
  | Some a =>
      let '(h', l) := alloc h a in
      Some (h',
            {| atBeginning := atBeginning s;
               quoteLevel := quoteLevel s;
               nstyle := nstyle s;
               table := table s;
               tableCol := tableCol s;
               tableRow := tableRow s;
               inside := inside s;
               listSpaceStack := l;
               prevLineIsEmpty := prevLineIsEmpty s;
               extra := extra s;
               combineTokens := CombineAbsent |})
  | None => None
  end.

(** [blankLine(s)]: [s.listSpaceStack = []] points the state at a new
    array and leaves the old one as it is. *)
Definition blankLine (h : gmap loc (list Z)) (s : StateRef)
    : gmap loc (list Z) * option string * StateRef :=
  let '(h', l) := alloc h [] in
  (h',
   if bool_decide (inside s = Some codeFence)
   then Some "line-HyperMD-codeblock line-background-HyperMD-codeblock-bg"
   else None,
   {| atBeginning := true;
      quoteLevel := 0;
      nstyle := 0;
      table := None;
      tableCol := 0;
      tableRow := 0;
      inside := inside s;
      listSpaceStack := l;
      prevLineIsEmpty := true;
      extra := extra s;
      combineTokens := combineTokens s |}).

(** [token(stream, state)]: the call works on the array the state points
    at and never assigns [state.listSpaceStack], so the array as the call
    leaves it is written back at the same location.  [None] when the call is
    stuck or the location has no array. *)
Definition token (stream : StringStream) (h : gmap loc (list Z)) (s : StateRef)
    : option (option string * StringStream * gmap loc (list Z) * StateRef) :=
  match snapshot h s with
  | Some st =>
      match token stream st with
      | Ret style stream' st' =>
          Some (style, stream',
                <[listSpaceStack s := listSpaceStack st']> h,
                set_listSpaceStack (listSpaceStack s) st')
      | Stuck => None
      end
  | None => None
  end.

End Ref.

(** * Views and predicates

    What the statements below are written with. *)

(** ** The specification's view of the state and of a line *)

(** The link sub-state as the specification names it. *)
Inductive linkKind :=
| LinkNone
| LinkText
| LinkUrl
| BareLink
| FootnoteRef
| FootnoteRefLead
| FootnoteName.

Definition linkKindOf (n : Z) : option linkKind :=
  if (n =? 0)%Z then Some LinkNone
  else if (n =? LINK)%Z then Some LinkText
  else if (n =? LINK_URL)%Z then Some LinkUrl
  else if (n =? BARELINK)%Z then Some BareLink
  else if (n =? FOOTREF)%Z then Some FootnoteRef
  else if (n =? FOOTREF_BEGIN)%Z then Some FootnoteRefLead
  else if (n =? FOOTNOTE_NAME)%Z then Some FootnoteName
  else None.

(** For every call made on a line: the text consumed by the call and the
    link sub-state after it. *)
Fixpoint linkTrace (text : string) (from : nat) (calls : list outcome)
    : list (string * option linkKind) :=
  match calls with
  | [] => []
  | Stuck :: _ => []
  | Ret _ stream st :: calls' =>
      (String.substring from (pos stream - from) text, linkKindOf (linkState st))
        :: linkTrace text (pos stream) calls'
  end.

Definition linkStates (text : string) : list (string * option linkKind) :=
  linkTrace text 0 (scanLine text 0 None startState).1.

(** For every call made on a line: the text consumed, the style returned and
    the style mask after the call. *)
Fixpoint styleTrace (text : string) (from : nat) (calls : list outcome)
    : list (string * option string * Z) :=
  match calls with
  | [] => []
  | Stuck :: _ => []
  | Ret style stream st :: calls' =>
      (String.substring from (pos stream - from) text, style, inlineStyleMask st)
        :: styleTrace text (pos stream) calls'
  end.

(** Follows the specification's words ("after trimming"): the line without
    its leading and trailing white space, as [String.prototype.trim] gives
    it.  The source does not trim. *)
Fixpoint trimStart (s : string) : string :=
  match s with
  | String c s' => if isSpace c then trimStart s' else s
  | EmptyString => EmptyString
  end.

Fixpoint trimEnd (s : string) : string :=
  match s with
  | String c s' =>
      match trimEnd s' with
      | EmptyString => if isSpace c then EmptyString else String c EmptyString
      | t => String c t
      end
  | EmptyString => EmptyString
  end.

Definition trim (s : string) : string := trimEnd (trimStart s).

(** The style of a setext header underline of the given level. *)
Definition headerLineStyle (level : nat) : string :=
  "formatting line-HyperMD-header-line line-HyperMD-header-line-" +:+ showNat level.

(** The text is made of the character [c] only. *)
Fixpoint allChars (c : ascii) (s : string) : Prop :=
  match s with
  | EmptyString => True
  | String d s' => d = c /\ allChars c s'
  end.

(** The last clause of C10 as it is written: inside listSpace with an index
    of 1 or more, the width to consume, [listSpaceStack[extra]], is at least 1. *)
Definition widthAtLeastOne (st : State) : Prop :=
  inside st = Some listSpace ->
  forall n, extra st = ExtraNum n -> (1 <= n)%nat ->
  exists w, listSpaceStack st !! n = Some w /\ (1 <= w)%Z.

(** ** The language of a pattern *)

(** [lang r w]: the word [w] is in the language of [r], anchors and
    lookahead read as the empty word. *)
Inductive lang : regex -> string -> Prop :=
| lang_Eps : lang Eps ""
| lang_Chr c : lang (Chr c) (String c "")
| lang_Dot c : isLineTerminator c = false -> lang Dot (String c "")
| lang_OneOf l c : existsb (inCset c) l = true -> lang (OneOf l) (String c "")
| lang_NoneOf l c : existsb (inCset c) l = false -> lang (NoneOf l) (String c "")
| lang_Seq a b u v : lang a u -> lang b v -> lang (Seq a b) (u +:+ v)
| lang_AltL a b u : lang a u -> lang (Alt a b) u
| lang_AltR a b u : lang b u -> lang (Alt a b) u
| lang_Star0 a : lang (Star a) ""
| lang_StarS a u v : lang a u -> lang (Star a) v -> lang (Star a) (u +:+ v)
| lang_Bol : lang Bol ""
| lang_Eol : lang Eol ""
| lang_Ahead a : lang (Ahead a) "".

(** The match went on to the continuation after a word of [P], and the
    continuation gave [e]. *)
Definition consumes (P : string -> Prop) (i : nat) (s : string) (k : cont) (e : nat) : Prop :=
  exists u v, s = u +:+ v /\ P u /\ k (i + String.length u)%nat v = Some e.

(** A match found with one continuation is found with any continuation
    that accepts at least as much. *)
Definition accepts_more (k k' : cont) : Prop :=
  forall i s, is_Some (k i s) -> is_Some (k' i s).

(** The least number of characters a word of the pattern has. *)
Fixpoint minLen (r : regex) : nat :=
  match r with
  | Chr _ | Dot | OneOf _ | NoneOf _ => 1
  | Seq a b => minLen a + minLen b
  | Alt a b => Nat.min (minLen a) (minLen b)
  | Eps | Star _ | Bol | Eol | Ahead _ => 0
  end.

(** ** What one call may do to the state *)

(** The ways a call leaves [nstyle]: as it was; a link begun; the link
    sub-state switched; the escape bit cleared; the escape bit set; one of
    the bits Strong, Emphasis, Strikethrough toggled. *)
Inductive nstyleStep (n : Z) : Z -> Prop :=
| step_same : nstyleStep n n
| step_linkBegin l :
    l ∈ [FOOTNOTE_NAME; FOOTREF_BEGIN; BARELINK; LINK] ->
    nstyleStep n (js_or n l)
| step_linkSwitch v :
    v ∈ [FOOTREF; 0%Z; LINK_URL] ->
    nstyleStep n (js_or (js_and n (js_not _link_mask)) v)
| step_unescape :
    js_and n ESCAPE <> 0%Z -> nstyleStep n (n - ESCAPE)%Z
| step_escape : nstyleStep n (js_or n ESCAPE)
| step_toggle b :
    b ∈ [STRONG; EM; DEL] -> nstyleStep n (js_xor n b).

(** The link bits of a value of [nstyle]. *)
Definition linkBits (n : Z) : Z := js_and n _link_mask.

(** The call has left [nstyle] as it was, or has changed it by one step. *)
Definition sameNstyle (st : State) (o : outcome) : Prop :=
  match o with
  | Stuck => True
  | Ret _ _ st' => nstyle st' = nstyle st
  end.

Definition stepsNstyle (st : State) (o : outcome) : Prop :=
  match o with
  | Stuck => True
  | Ret _ _ st' => nstyleStep (nstyle st) (nstyle st')
  end.

(** Every level is non-negative and every level but the first is positive. *)
Definition stackOk (l : list Z) : Prop :=
  forall (i : nat) (w : Z), l !! i = Some w -> (0 <= w)%Z /\ ((1 <= i)%nat -> (1 <= w)%Z).

(** The call has left the stack as it was. *)
Definition sameStack (st : State) (o : outcome) : Prop :=
  match o with
  | Stuck => True
  | Ret _ _ st' => listSpaceStack st' = listSpaceStack st
  end.

(** [extra] holds what [inside] needs: the opening token, not empty, while
    inside math; an index of 1 or more while inside listSpace. *)
Definition typed (st : State) : Prop :=
  match inside st with
  | Some math => exists d, extra st = ExtraStr d /\ d <> ""
  | Some listSpace => exists n, extra st = ExtraNum (S n)
  | _ => True
  end.

(** The call has returned and has left a typed state. *)
Definition staysTyped (o : outcome) : Prop :=
  match o with
  | Stuck => False
  | Ret _ _ st' => typed st'
  end.

(** ** What one call may do to the stream *)

(** [s'] is the stream [s] moved forward within its line. *)
Definition advance (s s' : StringStream) : Prop :=
  s' = set_pos (pos s') s /\ (pos s <= pos s' <= String.length (str s))%nat.

(** There is a character to read. *)
Definition more (s : StringStream) : Prop := (pos s < String.length (str s))%nat.

(** The stream [s], reached from [s0] within a call, has moved or still has
    a character to read. *)
Definition live (s0 s : StringStream) : Prop :=
  advance s0 s /\ ((pos s0 < pos s)%nat \/ more s).

(** The call has returned and has moved the stream forward. *)
Definition moved (s0 : StringStream) (o : outcome) : Prop :=
  match o with
  | Stuck => False
  | Ret _ s' _ => advance s0 s' /\ (pos s0 < pos s')%nat
  end.

(** Inside listSpace the index is an index of the stack. *)
Definition indexInRange (st : State) : Prop :=
  inside st = Some listSpace ->
  exists n, extra st = ExtraNum n /\ (n < length (listSpaceStack st))%nat.

(** [s'] is the stream [s] at another position: the call has touched nothing
    else of the stream. *)
Definition sameLine (s s' : StringStream) : Prop := s' = set_pos (pos s') s.

(** The call has only moved the stream. *)
Definition keepsLine (s : StringStream) (o : outcome) : Prop :=
  match o with
  | Stuck => True
  | Ret _ s' _ => sameLine s s'
  end.

(** ** Documents and states of the examples *)

(** A state between two lines of a list whose levels are [stack]. *)
Definition listState (stack : list Z) : State :=
  set_inside None (set_listSpaceStack stack startState).

(** The stack after the first call on a line. *)
Definition stackAfterFirstCall (text : string) (st : State) : option (list Z) :=
  match token (lineStream text 0 None) st with
  | Ret _ _ st' => Some (listSpaceStack st')
  | Stuck => None
  end.

(** The state after the first call on the line [[text](url)]. *)
Definition afterOpeningBracket : State :=
  {| atBeginning := false; quoteLevel := 0; nstyle := 256; table := None;
     tableCol := 0; tableRow := 0; inside := Some nothing; listSpaceStack := [];
     prevLineIsEmpty := false; extra := ExtraNull; combineTokens := CombineBool true |}.

(** A list item, a line made of one tab, an empty line. *)
Definition staleDoc : list string := [" - a"; String tab ""; ""].

(** Two nested list items, then the first call on a line indented by 3: the
    state is inside listSpace with index 1 and the stack is [2, 4]. *)
Definition nestedListState : State :=
  {| atBeginning := true; quoteLevel := 0; nstyle := 0; table := None;
     tableCol := 0; tableRow := 0; inside := Some listSpace; listSpaceStack := [2; 4]%Z;
     prevLineIsEmpty := false; extra := ExtraNum 1; combineTokens := CombineBool true |}.

(** The state after [staleDoc]: inside listSpace, index 1, no level left. *)
Definition staleState : State :=
  {| atBeginning := true; quoteLevel := 0; nstyle := 0; table := None;
     tableCol := 0; tableRow := 0; inside := Some listSpace; listSpaceStack := [];
     prevLineIsEmpty := true; extra := ExtraNum 1; combineTokens := CombineBool true |}.

(** The line [q], line 3 of the document, at position 0. *)
Definition plainLine : StringStream := lineStream "q" 3 None.

(** The state the call that does not move leaves. *)
Definition afterStall : State :=
  {| atBeginning := true; quoteLevel := 0; nstyle := 0; table := None;
     tableCol := 0; tableRow := 0; inside := None; listSpaceStack := [];
     prevLineIsEmpty := false; extra := ExtraNull; combineTokens := CombineBool true |}.

(** The line [|a|b|] as line [n] of a document, followed by [|-|-|]. *)
Definition titleLine (n : nat) : StringStream := lineStream "|a|b|" n (Some "|-|-|").

(** The state after the first call on that line. *)
Definition titleState (n : nat) : State :=
  {| atBeginning := false; quoteLevel := 0; nstyle := 0; table := Some ("T" +:+ showNat n);
     tableCol := 1; tableRow := 0; inside := Some nothing; listSpaceStack := [];
     prevLineIsEmpty := false; extra := ExtraNull; combineTokens := CombineBool true |}.

(** A store with one array, the levels [2, 4], at location 1. *)
Definition oneList : gmap Ref.loc (list Z) := {[ 1%positive := [2; 4]%Z ]}.

(** ** Shapes of lines and of states the further properties use *)

(** Every character of the text satisfies [p]. *)
Fixpoint allb (p : ascii -> bool) (s : string) : bool :=
  match s with
  | String c s' => p c && allb p s'
  | EmptyString => true
  end.

(** The text is empty or begins with a character that satisfies [p]. *)
Definition emptyOr (p : ascii -> bool) (s : string) : bool :=
  match s with
  | String c _ => p c
  | EmptyString => true
  end.

(** The text is empty or begins with a character that does not satisfy [p]:
    a run of characters of [p] stops there. *)
Definition stopsAt (p : ascii -> bool) (s : string) : bool :=
  emptyOr (fun c => negb (p c)) s.

(** [n] times the character [c]. *)
Fixpoint nchars (n : nat) (c : ascii) : string :=
  match n with
  | O => EmptyString
  | S n' => String c (nchars n' c)
  end.

(** The state as the start of a line leaves it before the line is looked
    at: [atBeginning] is set and, inside a table, the column is reset, the
    row counted and [inside] set for the separator line or cleared. *)
Definition lineBegin (stream : StringStream) (state : State) : State :=
  let state := set_atBeginning true state in
  if truthyStr (table state) then
    let state := set_tableRow (S (tableRow state)) (set_tableCol 0 state) in
    if (tableRow state =? 1)%nat && test tableTitleSepRE (str stream)
    then set_inside (Some tableTitleSep) state
    else set_inside None state
  else state.

(** The markers of a block quote: for every [w] of the list a [>] followed
    by the white space [w]. *)
Fixpoint quoteMarks (ws : list string) : string :=
  match ws with
  | [] => ""
  | w :: ws' => String ">" (w +:+ quoteMarks ws')
  end.

(** The style of the markers of a block quote of the given level. *)
Definition quoteStyle (q : nat) : string :=
  "formatting formatting-quote formatting-quote-" +:+ showNat q
  +:+ " quote quote-" +:+ showNat q
  +:+ " line-HyperMD-quote line-HyperMD-quote-" +:+ showNat q.

(** The line closes a code fence: three backquotes, then white space only. *)
Definition closesFence (s : string) : bool :=
  prefixStr "```" s && allb isSpace (dropStr 3 s).

(** The styles of the lines of a code fence. *)
Definition fenceStyle (closes : bool) : string :=
  if closes
  then "line-HyperMD-codeblock line-background-HyperMD-codeblock-bg line-HyperMD-codeblock-end"
  else "line-HyperMD-codeblock line-background-HyperMD-codeblock-bg".

(** The state after a call inside a code fence. *)
Definition afterFence (closes : bool) (st : State) : State :=
  set_inside (Some (if closes then nothing else codeFence))
    (set_combineTokens (CombineBool true) st).

(** The sum of the levels of a stack: the indentation it stands for. *)
Definition sumZ (l : list Z) : Z := foldr Z.add 0 l.

(** The style of the indentation of level [i + 1] of a list line; the first
    token of the line also carries the depth of the line. *)
Definition indentStyle (i : nat) (depth : option nat) : string :=
  let ans := "" +:+ "hmd-list-indent hmd-list-indent-" +:+ showNat (i + 1) in
  match depth with
  | Some k => ans +:+ " line-HyperMD-list-line line-HyperMD-list-line-" +:+ showNat k
  | None => ans
  end.

(** Where the list indentation stands after the level [i + 1] of a line of
    depth [depth]: at the next level, or done. *)
Definition afterLevel (i depth : nat) : option insideValues * extra_t :=
  if (depth <=? S i)%nat then (None, ExtraNull) else (Some listSpace, ExtraNum (S i)).

(** The characters of a list marker: a bullet; a digit; what closes the
    number of an ordered item. *)
Definition isBullet (c : ascii) : bool := existsb (inCset c) [CChr "*"; CChr "-"; CChr "+"].

Definition isDigit (c : ascii) : bool := existsb (inCset c) [CRange "0" "9"].

Definition isNumberEnd (c : ascii) : bool := existsb (inCset c) [CChr "."; CChr ")"].

(** A list marker: a bullet, or digits and the character [d] that closes
    the number. *)
Definition listMarker (digits : string) (d : ascii) : bool :=
  match digits with
  | EmptyString => isBullet d
  | _ => allb isDigit digits && isNumberEnd d
  end.

(** The state as the inline content takes it: [atBeginning] is cleared on
    a character that is not white space, [combineTokens] is set. *)
Definition inlineBegin (stream : StringStream) (state : State) : State :=
  let state :=
    if atBeginning state && testPeek nonSpaceRE (peek stream)
    then set_atBeginning false state else state in
  set_combineTokens (CombineBool true) state.

(** A character that cannot form a token. *)
Definition isMeanless (c : ascii) : bool :=
  negb (existsb (inCset c) (map CChr (list_ascii_of_string possibleTokenChars))).

(** A character of the body of a formula: neither a dollar nor a
    backslash. *)
Definition isMathChar (c : ascii) : bool :=
  negb (existsb (inCset c) [CChr "$"; CChr backslash]).

(** The styles of the tokens of a formula whose delimiter has [n]
    characters. *)
Definition mathBeginStyle (n : nat) : string :=
  "formatting formatting-math formatting-math-begin math math-" +:+ showNat n.

Definition mathStyle (n : nat) : string := "math math-" +:+ showNat n.

Definition mathEndStyle (n : nat) : string :=
  "formatting formatting-math formatting-math-end math math-" +:+ showNat n.

(** The state after the delimiter [d] has opened a formula. *)
Definition mathOpened (d : string) (stream : StringStream) (st : State) : State :=
  set_combineTokens (CombineBool false)
    (set_extra (ExtraStr d) (set_inside (Some math) (inlineBegin stream st))).

(** The values of the link field of [nstyle]. *)
Definition linkValues : list Z :=
  [0; LINK; LINK_URL; BARELINK; FOOTREF; FOOTREF_BEGIN; FOOTNOTE_NAME].

(** [nstyle] holds the four standalone bits and one of the link values,
    nothing else. *)
Definition nstyleOk (n : Z) : Prop :=
  exists s l, n = s + l /\ 0 <= s < 16 /\ l ∈ linkValues.

(** The same, decided from the bits of [n]. *)
Definition nstyleOkb (n : Z) : bool :=
  bool_decide (Z.land n 15 + Z.land n 65280 = n)
  && bool_decide (Z.land n 65280 ∈ linkValues).

(** Inside a formula opened by a single dollar. *)
Definition inlineMath (st : State) : Prop :=
  inside st = Some math /\ extra st = ExtraStr "$".

(** From position [p] on, the line still has a dollar that closes a
    formula: one that follows a character other than a backslash. *)
Definition dollarAhead (line : string) (p : nat) : Prop :=
  exists q c, (p <= q + 1)%nat /\ charAt q line = Some c /\ c <> backslash
              /\ charAt (S q) line = Some "$"%char.

(** In the text every dollar follows a backslash, and the text does not
    begin with a dollar. *)
Definition dollarsEscaped (u : string) : Prop :=
  charAt 0 u <> Some "$"%char
  /\ forall k, charAt (S k) u = Some "$"%char -> charAt k u = Some backslash.

(** White space, or the mark of a block quote. *)
Definition spaceOrMark (c : ascii) : bool := isSpace c || Ascii.eqb c ">".

(** A character that can begin a line of a block quote without marking it:
    not white space, not the mark of a quote, not a backquote and none of
    the characters of the line under a header. *)
Definition plainStart (c : ascii) : bool :=
  negb (isSpace c) && negb (existsb (Ascii.eqb c) [">"; "`"; "-"; "="]%char).

(** The state after the line that continues a block quote without a mark. *)
Definition quoteContinued (stream : StringStream) (st : State) : State :=
  set_combineTokens (CombineBool true)
    (set_prevLineIsEmpty false (lineBegin stream (set_combineTokens CombineNull st))).

(** The colon of the separator line of a table with the white space
    after it, when the cell begins with one. *)
Definition leadText (lead : option string) : string :=
  match lead with
  | Some l => String ":" l
  | None => ""
  end.

(** The text begins with a colon. *)
Definition colonNext (s : string) : bool :=
  match s with
  | String c _ => Ascii.eqb c ":"
  | EmptyString => false
  end.

(** The length of the token of a cell of the separator line: the colon
    and its white space, the [n + 1] dashes and, when a colon follows the
    white space [w] after them, that white space and the colon. *)
Definition dashToken (lead : option string) (n : nat) (w after : string) : nat :=
  String.length (leadText lead) + S n
  + (if colonNext after then String.length w + 1 else 0).

(** Any character but the backquote. *)
Definition notBackquote (c : ascii) : bool := negb (Ascii.eqb c "`").

(** The delimiters of the emphasis family, each with the bit of [nstyle]
    it toggles. *)
Definition emphasisDelimiters : list (string * Z) :=
  [("**", STRONG); ("__", STRONG); ("*", EM); ("_", EM); ("~~", DEL)].

(** The text begins with the delimiter [d] and with no longer one: a single
    star or underscore is not followed by the same character. *)
Definition delimiterNext (d r : string) : bool :=
  prefixStr d r && ((1 <? String.length d)%nat || negb (prefixStr (d +:+ d) r)).

(** The condition under which the delimiters are looked at: a bit of the
    style mask is set, or the character before is no word character. *)
Definition emphasisGuard (stream : StringStream) (n : Z) : bool :=
  negb (js_and n _style_mask =? 0)%Z
  || negb (testCharAt wordRE (charBefore stream)).

(** The call reaches the delimiter [d] as inline content: the state is
    outside a formula, a code fence and the indentation of a list, no escape
    is pending and no footnote reference has just been opened; at the first
    character of a line, moreover, no block quote and no list is open and the
    line is no item of a list. *)
Definition delimiterReached (d : string) (stream : StringStream) (st : State) : Prop :=
  delimiterNext d (rest stream) = true
  /\ inside st <> Some math /\ inside st <> Some codeFence /\ inside st <> Some listSpace
  /\ js_and (nstyle st) ESCAPE = 0
  /\ linkBits (nstyle st) <> FOOTREF_BEGIN
  /\ (pos stream = 0%nat ->
      quoteLevel st = 0%nat /\ listSpaceStack st = []
      /\ matchRE listRE false stream = None).

(** The first character of a delimiter. *)
Definition isDelimiterChar (c : ascii) : bool :=
  existsb (Ascii.eqb c) ["*"; "_"; "~"]%char.

(** The call has left a state that is not inside math. *)
Definition notMathOutcome (o : outcome) : Prop :=
  match o with
  | Stuck => True
  | Ret _ _ st' => inside st' <> Some math
  end.

(** The call has left an allowed value in [nstyle]. *)
Definition okOutcome (o : outcome) : Prop :=
  match o with
  | Stuck => True
  | Ret _ _ st' => nstyleOk (nstyle st')
  end.

(** What a call may do to the table and to the level of the block quote:
    the table is kept, or set from the line number where there was none; the
    level is kept, or set to 1 or more at the first character of a line. *)
Definition blockStep (stream : StringStream) (st st' : State) : Prop :=
  (table st' = table st
   \/ (truthyStr (table st) = false
       /\ table st' = Some ("T" +:+ showNat (lineNo stream))))
  /\ (quoteLevel st' = quoteLevel st
      \/ (pos stream = 0%nat /\ (1 <= quoteLevel st')%nat)).

Definition blockOutcome (stream : StringStream) (st : State) (o : outcome) : Prop :=
  match o with
  | Stuck => True
  | Ret _ _ st' => blockStep stream st st'
  end.

Definition blockStage (stream : StringStream) (st : State) (x : stage) : Prop :=
  match x with
  | Done o => blockOutcome stream st o
  | Next _ st' => table st' = table st /\ quoteLevel st' = quoteLevel st
  end.

(** The call has left the table and the level of the block quote as they
    were. *)
Definition sameBlock (st : State) (o : outcome) : Prop :=
  match o with
  | Stuck => True
  | Ret _ _ st' => table st' = table st /\ quoteLevel st' = quoteLevel st
  end.

(** What lasts until a blank line: a table, a block quote, a list. *)
Definition blocksKept (st st' : State) : Prop :=
  (truthyStr (table st) = true -> table st' = table st)
  /\ (quoteLevel st <> 0%nat -> quoteLevel st' <> 0%nat)
  /\ (listSpaceStack st <> [] -> listSpaceStack st' <> []).

(** Inside math [extra] holds one dollar or two. *)
Definition mathDelimiter (st : State) : Prop :=
  inside st = Some math -> extra st = ExtraStr "$" \/ extra st = ExtraStr "$$".

(** ** Configuration objects

    A JavaScript object used as a table of options is a finite map from
    the names of its own properties to values. *)

(** The values the configuration objects hold. *)
#[warnings="-register-all"] Inductive jsval :=
| JBool (b : bool)
| JNum (n : Z)
| JStr (s : string)
| JArr (l : list jsval)
| JObj (members : list (string * jsval)).

Abbreviation object := (gmap string jsval).

(** [for (var p in s) t[p] = s[p]]: every property of [s] is written to
    [t]. *)
Definition copyProperties (t s : object) : object :=
  map_fold (fun p v t => <[p := v]> t) t s.

(** [var gfmConfig = ...] of the mode definition. *)
Definition gfmDefaults : object :=
  {[ "name" := JStr "gfm";
     "highlightFormatting" := JBool true;
     "tokenTypeOverrides" :=
       JObj [("hr", JStr "line-HyperMD-hr hr");
             ("list1", JStr "list-1");
             ("list2", JStr "list-2");
             ("list3", JStr "list-3");
             ("code", JStr "inline-code");
             ("gitHubSpice", JBool false)] ]}.

(** The configuration the mode definition hands to the GFM mode: the
    defaults, then every attribute of [modeConfig], then the name. *)
Definition gfmConfigFor (modeConfig : object) : object :=
  <["name" := JStr "gfm"]> (copyProperties gfmDefaults modeConfig).

Module Quick.

(** [exports.suggestedEditorConfig] as the file defines it; addons may
    update the object, so the functions below take it as an argument. *)
Definition suggestedEditorConfig : object :=
  {[ "lineNumbers" := JBool true;
     "lineWrapping" := JBool true;
     "theme" := JStr "hypermd-light";
     "mode" := JStr "text/x-hypermd";
     "tabSize" := JNum 4;
     "autoCloseBrackets" := JBool true;
     "foldGutter" := JBool true;
     "gutters" := JArr [JStr "CodeMirror-linenumbers";
                        JStr "CodeMirror-foldgutter";
                        JStr "HyperMD-goback"] ]}.

(** [__assign(t, s1, ..., sn)], which is [Object.assign]: the sources are
    copied into [t] from left to right; a source that is [undefined]
    ([None]) is skipped. *)
Definition __assign (t : object) (sources : list (option object)) : object :=
  foldl (fun t s => match s with Some s => copyProperties t s | None => t end) t sources.

(** [fromTextArea(textArea, config)]: the configuration handed to
    [CodeMirror.fromTextArea]. *)
Definition fromTextArea (suggested : object) (config : option object) : object :=
  __assign ∅ [Some suggested; config].

(** The argument [options_or_theme]: absent, the name of a theme, or an
    object of options. *)
Inductive options_or_theme :=
| NoOptions
| Theme (name : string)
| Options (o : object).

(** [if (typeof options_or_theme === 'string') options_or_theme = { theme: options_or_theme }] *)
Definition asOptions (a : options_or_theme) : option object :=
  match a with
  | NoOptions => None
  | Theme name => Some {[ "theme" := JStr name ]}
  | Options o => Some o
  end.

(** [switchToNormal(editor, options_or_theme)]: the object [opt] whose
    every property is passed to [editor.setOption]. *)
Definition switchToNormal (a : options_or_theme) : object :=
  let opt : object :=
    {[ "theme" := JStr "default";
       "hmdFold" := JBool false;
       "hmdHideToken" := JBool false;
       "hmdTableAlign" := JBool false ]} in
  __assign opt [asOptions a].

(** [switchToHyperMD(editor, options_or_theme)]: the object [opt] whose
    every property is passed to [editor.setOption]. *)
Definition switchToHyperMD (suggested : object) (a : options_or_theme) : object :=
  __assign ∅ [Some suggested; asOptions a].

(** The property [k] of a source of [__assign]. *)
Definition sourceProperty (s : option object) (k : string) : option jsval :=
  match s with
  | Some o => o !! k
  | None => None
  end.

(** The first of two optional values that is there. *)
Definition orElse (a b : option jsval) : option jsval :=
  match a with
  | Some v => Some v
  | None => b
  end.

(** The options [switchToNormal] sets when its argument does not name
    them. *)
Definition normalDefaults (k : string) : option jsval :=
  if String.eqb k "theme" then Some (JStr "default")
  else if String.eqb k "hmdFold" || String.eqb k "hmdHideToken" || String.eqb k "hmdTableAlign"
  then Some (JBool false)
  else None.

End Quick.

(** ** The helpers of the mode tests ([test/src/mode/_base.ts]) *)

Module TestBase.

(** The order of [Array.prototype.sort] with no comparator on strings: by
    code units, a prefix first. *)
Fixpoint strLeb (a b : string) : bool :=
  match a, b with
  | EmptyString, _ => true
  | String _ _, EmptyString => false
  | String x a', String y b' =>
      (code x <? code y)%N || ((code x =? code y)%N && strLeb a' b')
  end.

(** The order as a relation. *)
Definition strLe (a b : string) : Prop := strLeb a b = true.

Global Instance strLe_dec a b : Decision (strLe a b).
Proof. unfold strLe. apply _. Defined.

(** [ans.sort()] *)
Definition jsSort (l : list string) : list string := merge_sort strLe l.

(** [s.split(/\s+/g)]: the pieces between the runs of white space; a run
    at the start or at the end of the text leaves an empty piece there, and
    the empty text gives one empty piece. *)
Fixpoint splitWs (s cur : string) (inRun : bool) : list string :=
  match s with
  | EmptyString => [cur]
  | String c s' =>
      if isSpace c
      then (if inRun then splitWs s' "" true else cur :: splitWs s' "" true)
      else splitWs s' (cur +:+ String c "") false
  end.

Definition split (s : string) : list string := splitWs s "" false.

(** [a.join(" ")] *)
Fixpoint join (l : list string) : string :=
  match l with
  | [] => ""
  | [x] => x
  | x :: l' => x +:+ " " +:+ join l'
  end.

(** The argument of [toStyleArray]: [null] or [undefined], a string, or an
    array of strings. *)
Inductive styles_t :=
| StylesNone
| StylesStr (s : string)
| StylesArr (a : list string).

(** [ans.length === 1 && !ans[0]] *)
Definition onlyEmpty (ans : list string) : bool :=
  match ans with
  | [x] => (String.length x =? 0)%nat
  | _ => false
  end.

(** [toStyleArray(s)]: the array returned, and the argument as the call
    leaves it (an array given is sorted in place). *)
Definition toStyleArray (s : styles_t) : list string * styles_t :=
  match s with
  | StylesNone => ([], s)
  | StylesStr x =>
      if (String.length x =? 0)%nat then ([], s)
      else
        let ans := jsSort (split (trim x)) in
        (if onlyEmpty ans then [] else ans, s)
  | StylesArr a =>
      let ans := jsSort a in
      (if onlyEmpty ans then [] else ans, StylesArr ans)
  end.

(** An entry of the answer of [runMode], with the state of type [T], and an
    entry of the expectation. *)
Record Answer (T : Type) := mkAnswer {
  text : string;
  styles : list string;
  state : T;
}.

Arguments mkAnswer {T}.

Arguments text {T}.

Arguments styles {T}.

Arguments state {T}.

Record Expect := mkExpect {
  etext : string;
  estyles : styles_t;
}.

(** The loop of [checkResult] from index [i], on what is left of [data] and
    of [expect]: the index returned and the entries of [expect] as the loop
    leaves them. *)
Fixpoint checkFrom {T} (i : Z) (data : list (Answer T)) (expect : list Expect)
    : Z * list Expect :=
  match expect with
  | [] => (match data with [] => -1 | _ :: _ => i end, [])
  | b :: expect' =>
      match data with
      | [] => (i - 1, expect)
      | a :: data' =>
          if negb (String.eqb (text a) (etext b)) then (i, expect)
          else
            let '(arr, sorted) := toStyleArray (estyles b) in
            let b' := mkExpect (etext b) sorted in
            if negb (String.eqb (join (styles a)) (join arr)) then (i, b' :: expect')
            else
              let '(r, rest) := checkFrom (i + 1) data' expect' in
              (r, b' :: rest)
      end
  end.

(** [checkResult(data, expect)] *)
Definition checkResult {T} (data : list (Answer T)) (expect : list Expect)
    : Z * list Expect :=
  checkFrom 0 data expect.

(** The entry of the answer is the one expected: the same text, and the
    same styles once those expected are put in order. *)
Definition agrees {T} (a : Answer T) (b : Expect) : Prop :=
  text a = etext b /\ join (styles a) = join (toStyleArray (estyles b)).1.

(** A style: a text that is not empty and has no white space. *)
Definition isStyle (w : string) : Prop :=
  w <> "" /\ allb (fun c => negb (isSpace c)) w = true.

End TestBase.

(** Any character but white space. *)
Definition notSpace (c : ascii) : bool := negb (isSpace c).

(** * Properties *)

(** ** Strings *)

Lemma append_cons (x : ascii) (a b : string) : String x a +:+ b = String x (a +:+ b).
Proof. reflexivity. Qed.

Lemma append_nil (b : string) : "" +:+ b = b.
Proof. reflexivity. Qed.

Lemma length_append (a b : string) :
  String.length (a +:+ b) = (String.length a + String.length b)%nat.
Proof.
  induction a as [|c a IH]; [reflexivity|].
  rewrite append_cons. simpl. now rewrite IH.
Qed.

Lemma append_assoc (a b c : string) : (a +:+ b) +:+ c = a +:+ (b +:+ c).
Proof.
  induction a as [|x a IH]; [reflexivity|].
  rewrite !append_cons. now rewrite IH.
Qed.

Lemma append_empty_r (a : string) : a +:+ "" = a.
Proof.
  induction a as [|x a IH]; [reflexivity|].
  rewrite append_cons. now rewrite IH.
Qed.

Lemma charAt_dropStr (p : nat) (s : string) (c : ascii) :
  charAt p s = Some c -> dropStr p s = String c (dropStr (S p) s).
Proof.
  unfold charAt. revert s.
  induction p as [|p IH]; intros [|d s] H; simpl in *; try discriminate.
  - now inversion H.
  - now apply IH.
Qed.

Lemma charAt_length (p : nat) (s : string) (c : ascii) :
  charAt p s = Some c -> (p < String.length s)%nat.
Proof.
  unfold charAt. revert s.
  induction p as [|p IH]; intros [|d s] H; simpl in *; try discriminate.
  - lia.
  - apply IH in H. lia.
Qed.

Lemma charAt_None (p : nat) (s : string) :
  charAt p s = None -> (String.length s <= p)%nat.
Proof.
  unfold charAt. revert s.
  induction p as [|p IH]; intros [|d s] H; simpl in *; try discriminate; try lia.
  apply IH in H. lia.
Qed.

Lemma length_dropStr (p : nat) (s : string) :
  String.length (dropStr p s) = (String.length s - p)%nat.
Proof.
  revert s. induction p as [|p IH]; intros [|d s]; simpl; try reflexivity.
  apply IH.
Qed.

(** ** The matcher

    Whatever [rmatch] consumes before it calls its continuation is a word of
    the language of the pattern. *)

Lemma atom_consumes (p : ascii -> bool) (P : string -> Prop) i s k e :
  (forall c, p c = true -> P (String c "")) ->
  atom p i s k = Some e -> consumes P i s k e.
Proof.
  intros HP H. destruct s as [|c s]; simpl in H; [discriminate|].
  destruct (p c) eqn:Hc; [|discriminate].
  exists (String c ""), s. rewrite append_cons, append_nil. simpl. rewrite Nat.add_1_r. auto.
Qed.

Lemma star_loop_consumes (a : regex) :
  (forall i s k e, rmatch a i s k = Some e -> consumes (lang a) i s k e) ->
  forall fuel i s k e,
    star_loop (rmatch a) fuel i s k = Some e -> consumes (lang (Star a)) i s k e.
Proof.
  intros IHa fuel.
  induction fuel as [|fuel IH]; intros i s k e H; simpl in H.
  - exists "", s. rewrite append_nil. simpl. rewrite Nat.add_0_r. split; [reflexivity|]. split; [constructor | exact H].
  - destruct (rmatch a i s _) as [e'|] eqn:Hbody.
    + inversion H; subst e'. clear H.
      apply IHa in Hbody. destruct Hbody as (u & v & -> & Hu & Hk).
      destruct (_ <? _)%nat; [|discriminate].
      apply IH in Hk. destruct Hk as (u' & v' & -> & Hu' & Hk).
      exists (u +:+ u'), v'. rewrite append_assoc, length_append, Nat.add_assoc.
      split; [reflexivity|]. split; [now constructor | exact Hk].
    + exists "", s. rewrite append_nil. simpl. rewrite Nat.add_0_r.
      split; [reflexivity|]. split; [constructor | exact H].
Qed.

Lemma rmatch_consumes (r : regex) :
  forall i s k e, rmatch r i s k = Some e -> consumes (lang r) i s k e.
Proof.
  induction r as [| c | | l | l | a IHa b IHb | a IHa b IHb | a IHa | | | a IHa];
    intros i s k e H; simpl in H.
  - exists "", s. rewrite append_nil. simpl. rewrite Nat.add_0_r. repeat split; [constructor | exact H].
  - eapply atom_consumes; [|exact H]. intros d Hd.
    apply Ascii.eqb_eq in Hd. subst d. constructor.
  - eapply atom_consumes; [|exact H]. intros d Hd.
    constructor. now apply negb_true_iff.
  - eapply atom_consumes; [|exact H]. intros d Hd. now constructor.
  - eapply atom_consumes; [|exact H]. intros d Hd.
    constructor. now apply negb_true_iff.
  - apply IHa in H. destruct H as (u & v & -> & Hu & Hk).
    apply IHb in Hk. destruct Hk as (u' & v' & -> & Hu' & Hk).
    exists (u +:+ u'), v'. rewrite append_assoc, length_append, Nat.add_assoc.
    split; [reflexivity|]. split; [now constructor | exact Hk].
  - destruct (rmatch a i s k) as [e'|] eqn:Ha.
    + inversion H; subst e'. apply IHa in Ha.
      destruct Ha as (u & v & -> & Hu & Hk). exists u, v. auto using lang_AltL.
    + apply IHb in H. destruct H as (u & v & -> & Hu & Hk).
      exists u, v. auto using lang_AltR.
  - eapply star_loop_consumes; eauto.
  - destruct (i =? 0)%nat; [|discriminate].
    exists "", s. rewrite append_nil. simpl. rewrite Nat.add_0_r. repeat split; [constructor | exact H].
  - destruct s; [|discriminate].
    exists "", "". rewrite append_nil. simpl. rewrite Nat.add_0_r. repeat split; [constructor | exact H].
  - destruct (rmatch a i s _); [|discriminate].
    exists "", s. rewrite append_nil. simpl. rewrite Nat.add_0_r. repeat split; [constructor | exact H].
Qed.

Lemma star_loop_mono (a : regex) :
  (forall i s k k', accepts_more k k' ->
     is_Some (rmatch a i s k) -> is_Some (rmatch a i s k')) ->
  forall fuel i s k k', accepts_more k k' ->
    is_Some (star_loop (rmatch a) fuel i s k) ->
    is_Some (star_loop (rmatch a) fuel i s k').
Proof.
  intros IHa fuel.
  induction fuel as [|fuel IH]; intros i s k k' Hk H; simpl in *.
  - now apply Hk.
  - destruct (rmatch a i s (fun i' s' => if (_ <? _)%nat then star_loop _ fuel i' s' k else None))
      as [e|] eqn:Hbody.
    + assert (Hs : is_Some (rmatch a i s
                (fun i' s' => if (String.length s' <? String.length s)%nat
                              then star_loop (rmatch a) fuel i' s' k' else None))).
      { eapply IHa; [|rewrite Hbody; eauto].
        intros j t Hj. destruct (_ <? _)%nat; [|exact Hj]. eapply IH; eauto. }
      destruct Hs as [e' ->]. eauto.
    + clear Hbody.
      match goal with |- context [rmatch a i s ?f] => destruct (rmatch a i s f) end;
        [eauto | now apply Hk].
Qed.

Lemma rmatch_mono (r : regex) :
  forall i s k k', accepts_more k k' ->
    is_Some (rmatch r i s k) -> is_Some (rmatch r i s k').
Proof.
  induction r as [| c | | l | l | a IHa b IHb | a IHa b IHb | a IHa | | | a IHa];
    intros i s k k' Hk H; simpl in *;
    try (destruct s as [|d s]; simpl in *;
         [now inversion H | match goal with |- context [if ?b then _ else _] =>
                              destruct b end; [now apply Hk | now inversion H]]).
  - now apply Hk.
  - eapply IHa; [|exact H]. intros j t Hj. eapply IHb; eauto.
  - destruct (rmatch a i s k) as [e|] eqn:Ha.
    + assert (Hs : is_Some (rmatch a i s k')) by (eapply IHa; [exact Hk | rewrite Ha; eauto]).
      destruct Hs as [e' ->]. eauto.
    + destruct (rmatch a i s k'); [eauto | eapply IHb; eauto].
  - eapply star_loop_mono; eauto.
  - destruct (i =? 0)%nat; [now apply Hk | exact H].
  - destruct s; [now apply Hk | exact H].
  - destruct (rmatch a i s _); [now apply Hk | exact H].
Qed.

(** An anchored pattern matches at index 0 or nowhere. *)
Lemma search_anchored (r : regex) (i : nat) (s : string) :
  search (Seq Bol r) (S i) s = None.
Proof.
  revert i. induction s as [|c s IH]; intros i; simpl; [reflexivity | apply IH].
Qed.

Lemma exec_anchored (r : regex) (s : string) :
  exec (Seq Bol r) s =
  match rmatch r 0 s accept with
  | Some e => Some (0%nat, e)
  | None => None
  end.
Proof.
  unfold exec. destruct s as [|c s]; simpl.
  - destruct (rmatch r 0 "" accept); reflexivity.
  - destruct (rmatch r 0 (String c s) accept); [reflexivity | apply search_anchored].
Qed.

(** ** The bounds of the loops

    The loops of the source are written with a bound on the number of
    rounds; each bound is enough: one more round changes nothing. *)

Lemma star_loop_ext (a : regex) :
  (forall i s k k', (forall j t, k j t = k' j t) -> rmatch a i s k = rmatch a i s k') ->
  forall fuel i s k k', (forall j t, k j t = k' j t) ->
    star_loop (rmatch a) fuel i s k = star_loop (rmatch a) fuel i s k'.
Proof.
  intros IHa fuel. induction fuel as [|fuel IH]; intros i s k k' Hk; simpl.
  - apply Hk.
  - rewrite (IHa i s _ (fun i' s' =>
               if (String.length s' <? String.length s)%nat
               then star_loop (rmatch a) fuel i' s' k' else None)).
    + now rewrite Hk.
    + intros j t. destruct (_ <? _)%nat; [now apply IH | reflexivity].
Qed.

Lemma rmatch_ext (r : regex) :
  forall i s k k', (forall j t, k j t = k' j t) -> rmatch r i s k = rmatch r i s k'.
Proof.
  induction r as [| c | | l | l | a IHa b IHb | a IHa b IHb | a IHa | | | a IHa];
    intros i s k k' Hk; simpl;
    try (destruct s as [|d s]; simpl; [reflexivity|]; now rewrite Hk).
  - apply Hk.
  - apply IHa. intros j t. now apply IHb.
  - now rewrite (IHa i s k k' Hk), (IHb i s k k' Hk).
  - now apply star_loop_ext.
  - now rewrite Hk.
  - destruct s; [apply Hk | reflexivity].
  - now rewrite Hk.
Qed.

Lemma rmatch_reject (r : regex) i s k :
  (forall j t, k j t = None) -> rmatch r i s k = None.
Proof.
  intros Hk. destruct (rmatch r i s k) as [e|] eqn:H; [|reflexivity].
  apply rmatch_consumes in H. destruct H as (u & v & _ & _ & H).
  now rewrite Hk in H.
Qed.

Lemma star_loop_fuel (a : regex) fuel i s k :
  (String.length s <= fuel)%nat ->
  star_loop (rmatch a) (S fuel) i s k = star_loop (rmatch a) fuel i s k.
Proof.
  revert i s k. induction fuel as [|fuel IH]; intros i s k Hlen.
  - simpl. rewrite rmatch_reject; [reflexivity|].
    intros j t. destruct (Nat.ltb_spec (String.length t) (String.length s)); [lia | reflexivity].
  - change (star_loop (rmatch a) (S (S fuel)) i s k)
      with (match rmatch a i s (fun i' s' =>
                    if (String.length s' <? String.length s)%nat
                    then star_loop (rmatch a) (S fuel) i' s' k else None) with
            | Some e => Some e
            | None => k i s
            end).
    change (star_loop (rmatch a) (S fuel) i s k)
      with (match rmatch a i s (fun i' s' =>
                    if (String.length s' <? String.length s)%nat
                    then star_loop (rmatch a) fuel i' s' k else None) with
            | Some e => Some e
            | None => k i s
            end).
    rewrite (rmatch_ext a i s _ (fun i' s' =>
               if (String.length s' <? String.length s)%nat
               then star_loop (rmatch a) fuel i' s' k else None)); [reflexivity|].
    intros j t. destruct (Nat.ltb_spec (String.length t) (String.length s)); [|reflexivity].
    apply IH. lia.
Qed.

Lemma rebuildLoop_fuel fuel i stack ind :
  (length stack - i <= fuel)%nat ->
  rebuildLoop (S fuel) i stack ind = rebuildLoop fuel i stack ind.
Proof.
  revert i ind. induction fuel as [|fuel IH]; intros i ind Hlen.
  - simpl. rewrite lookup_ge_None_2 by lia. reflexivity.
  - change (rebuildLoop (S (S fuel)) i stack ind)
      with (match stack !! i with
            | Some w => if (0 <? ind)%Z then rebuildLoop (S fuel) (S i) stack (ind - w)
                        else (take i stack, ind)
            | None => (stack, ind)
            end).
    change (rebuildLoop (S fuel) i stack ind)
      with (match stack !! i with
            | Some w => if (0 <? ind)%Z then rebuildLoop fuel (S i) stack (ind - w)
                        else (take i stack, ind)
            | None => (stack, ind)
            end).
    destruct (stack !! i); [|reflexivity].
    destruct (0 <? ind)%Z; [|reflexivity]. apply IH. lia.
Qed.

Lemma eatIndent_fuel fuel stream ind :
  (Z.to_nat ind <= fuel)%nat ->
  eatIndent (S fuel) stream ind = eatIndent fuel stream ind.
Proof.
  revert stream ind. induction fuel as [|fuel IH]; intros stream ind Hlen.
  - simpl. destruct (Z.ltb_spec 0 ind); [lia | reflexivity].
  - change (eatIndent (S (S fuel)) stream ind)
      with (if (0 <? ind)%Z then
              let '(next_ch, stream') := next stream in
              if charIs tab next_ch then eatIndent (S fuel) stream' (ind - 4)
              else if charIs space next_ch then eatIndent (S fuel) stream' (ind - 1)
              else (stream', true)
            else (stream, false)).
    change (eatIndent (S fuel) stream ind)
      with (if (0 <? ind)%Z then
              let '(next_ch, stream') := next stream in
              if charIs tab next_ch then eatIndent fuel stream' (ind - 4)
              else if charIs space next_ch then eatIndent fuel stream' (ind - 1)
              else (stream', true)
            else (stream, false)).
    destruct (Z.ltb_spec 0 ind); [|reflexivity].
    destruct (next stream) as [next_ch stream'].
    destruct (charIs tab next_ch); [apply IH; lia|].
    destruct (charIs space next_ch); [apply IH; lia | reflexivity].
Qed.

(** What an anchored pattern matched at the position of the stream. *)
Lemma exec_Seqs_Bol (l : list regex) (s : string) :
  exec (Seqs (Bol :: l)) s =
  match rmatch (Seqs l) 0 s accept with
  | Some e => Some (0%nat, e)
  | None => None
  end.
Proof. apply exec_anchored. Qed.

Lemma matchRE_lang (l : list regex) consume stream n stream' :
  matchRE (Seqs (Bol :: l)) consume stream = Some (n, stream') ->
  exists u v, rest stream = u +:+ v /\ lang (Seqs l) u /\ n = String.length u
              /\ stream' = (if consume then set_pos (pos stream + n) stream else stream).
Proof.
  unfold matchRE. rewrite exec_Seqs_Bol.
  destruct (rmatch (Seqs l) 0 (rest stream) accept) as [e|] eqn:Hm; [|discriminate].
  intros H. inversion H; subst. clear H.
  apply rmatch_consumes in Hm. destruct Hm as (u & v & Hr & Hu & Hk).
  inversion Hk; subst. exists u, v. auto.
Qed.

Lemma quoteMore_nonempty (u : string) :
  lang (Seqs [Star ws; Chr ">"; Star ws]) u -> (1 <= String.length u)%nat.
Proof.
  intros H.
  inversion H as [| | | | | a b u1 u2 H1 H2 | | | | | | |]; subst.
  inversion H2 as [| | | | | a b u3 u4 H3 H4 | | | | | | |]; subst.
  inversion H3; subst. rewrite !length_append. simpl. lia.
Qed.

Lemma quoteLoop_fuel fuel stream q :
  (String.length (rest stream) <= fuel)%nat ->
  quoteLoop (S fuel) stream q = quoteLoop fuel stream q.
Proof.
  revert stream q. induction fuel as [|fuel IH]; intros stream q Hlen.
  - simpl. destruct (matchRE quoteMoreRE true stream) as [[n stream']|] eqn:Hm; [|reflexivity].
    apply matchRE_lang in Hm. destruct Hm as (u & v & Hr & Hu & _).
    apply quoteMore_nonempty in Hu. rewrite Hr, length_append in Hlen. lia.
  - change (quoteLoop (S (S fuel)) stream q)
      with (match matchRE quoteMoreRE true stream with
            | Some (_, stream') => quoteLoop (S fuel) stream' (S q)
            | None => (stream, q)
            end).
    change (quoteLoop (S fuel) stream q)
      with (match matchRE quoteMoreRE true stream with
            | Some (_, stream') => quoteLoop fuel stream' (S q)
            | None => (stream, q)
            end).
    destruct (matchRE quoteMoreRE true stream) as [[n stream']|] eqn:Hm; [|reflexivity].
    apply IH.
    apply matchRE_lang in Hm. destruct Hm as (u & v & Hr & Hu & -> & ->).
    apply quoteMore_nonempty in Hu.
    unfold rest in *. simpl. rewrite length_dropStr in *.
    assert (String.length (u +:+ v) = String.length (str stream) - pos stream)%nat
      by (rewrite <- Hr; apply length_dropStr).
    rewrite length_append in *. lia.
Qed.

Lemma lang_minLen (r : regex) (u : string) : lang r u -> (minLen r <= String.length u)%nat.
Proof.
  induction 1; simpl; rewrite ?length_append; simpl in *; lia.
Qed.

Lemma substring_rest (p : nat) (s u v : string) :
  dropStr p s = u +:+ v -> String.substring p (String.length u) s = u.
Proof.
  revert s. induction p as [|p IH]; intros s H.
  - simpl in H. subst s. induction u as [|c u IHu].
    + rewrite append_nil. now destruct v.
    + rewrite append_cons. simpl. now rewrite IHu.
  - destruct s as [|c s]; simpl in *.
    + destruct u; [reflexivity | discriminate].
    + now apply IH.
Qed.

(** The token that opens math is one or two dollars: it is not empty. *)
Lemma mathOpen_delim stream stream' d :
  mathOpen stream = (stream', Some d) -> d <> "".
Proof.
  unfold mathOpen.
  destruct (matchRE dollarsRE true stream) as [[n s1]|] eqn:Hm; [|discriminate].
  apply matchRE_lang in Hm. destruct Hm as (u & v & Hr & Hu & -> & _).
  apply lang_minLen in Hu. simpl in Hu.
  rewrite (substring_rest _ _ _ _ Hr).
  destruct (_ || _); [|discriminate].
  intros H. injection H as _ <-. destruct u; [simpl in Hu; lia | discriminate].
Qed.

(** ** 32-bit operators *)

Lemma int32_range (z : Z) : (- 2 ^ 31 <= int32 z < 2 ^ 31)%Z.
Proof.
  unfold int32.
  pose proof (Z.mod_pos_bound (z + 2 ^ 31) (2 ^ 32) ltac:(lia)). lia.
Qed.

Lemma int32_small (z : Z) : (- 2 ^ 31 <= z < 2 ^ 31)%Z -> int32 z = z.
Proof. intros H. unfold int32. rewrite Z.mod_small; lia. Qed.

Lemma int32_idem (z : Z) : int32 (int32 z) = int32 z.
Proof. apply int32_small, int32_range. Qed.

Lemma int32_mod (z : Z) : (int32 z mod 2 ^ 32 = z mod 2 ^ 32)%Z.
Proof.
  unfold int32.
  rewrite Zminus_mod_idemp_l. f_equal. lia.
Qed.

(** The low 32 bits survive the conversion. *)
Lemma int32_testbit (z i : Z) :
  (0 <= i < 32)%Z -> Z.testbit (int32 z) i = Z.testbit z i.
Proof.
  intros Hi.
  rewrite <- (Z.mod_pow2_bits_low (int32 z) 32 i) by lia.
  rewrite <- (Z.mod_pow2_bits_low z 32 i) by lia.
  now rewrite int32_mod.
Qed.

Lemma testbit_above (m n i : Z) :
  (0 <= m < 2 ^ n)%Z -> (n <= i)%Z -> Z.testbit m i = false.
Proof.
  intros Hm Hi.
  destruct (Z.eq_dec m 0) as [->|Hm0]; [apply Z.bits_0|].
  assert (0 <= n)%Z.
  { destruct (Z_lt_dec n 0) as [Hn|]; [|lia]. rewrite Z.pow_neg_r in Hm; lia. }
  apply Z.bits_above_log2; [lia|].
  apply Z.lt_le_trans with n; [|lia].
  apply Z.log2_lt_pow2; lia.
Qed.

(** Under a mask that fits 31 bits the operators are the operators of [Z]. *)
Lemma land_int32 (z m : Z) :
  (0 <= m < 2 ^ 31)%Z -> Z.land (int32 z) m = Z.land z m.
Proof.
  intros Hm. apply Z.bits_inj'. intros i Hi.
  rewrite !Z.land_spec.
  destruct (Z_lt_dec i 32) as [Hlt|Hge].
  - now rewrite int32_testbit by lia.
  - rewrite (testbit_above m 31 i) by lia. now rewrite !andb_false_r.
Qed.

Lemma land_bound (z m : Z) :
  (0 <= m < 2 ^ 31)%Z -> (0 <= Z.land z m < 2 ^ 31)%Z.
Proof.
  intros Hm.
  assert (Z.land z m = Z.land z m mod 2 ^ 31)%Z as ->.
  { rewrite <- Z.land_ones by lia.
    apply Z.bits_inj'. intros i Hi.
    rewrite !Z.land_spec, Z.testbit_ones_nonneg by lia.
    destruct (Z.ltb_spec i 31) as [Hlt|Hge]; [now rewrite andb_true_r|].
    rewrite (testbit_above m 31 i) by lia. now rewrite !andb_false_r. }
  apply Z.mod_pos_bound. lia.
Qed.

Lemma js_and_land (z m : Z) : (0 <= m < 2 ^ 31)%Z -> js_and z m = Z.land z m.
Proof.
  intros Hm. unfold js_and.
  rewrite (int32_small m) by lia.
  rewrite land_int32 by lia.
  apply int32_small.
  pose proof (land_bound z m Hm). lia.
Qed.

Ltac bitwise :=
  apply Z.bits_inj'; intros ?i ?Hi;
  repeat first [ rewrite Z.land_spec | rewrite Z.lor_spec | rewrite Z.lxor_spec
               | rewrite Z.ldiff_spec | rewrite Z.bits_0 ];
  repeat match goal with
         | |- context [Z.testbit ?a ?i] => destruct (Z.testbit a i)
         end;
  try reflexivity.

Lemma land_lxor_distr (a b m : Z) :
  Z.land (Z.lxor a b) m = Z.lxor (Z.land a m) (Z.land b m).
Proof. bitwise. Qed.

Lemma land_js_or (a b m : Z) :
  (0 <= m < 2 ^ 31)%Z -> Z.land (js_or a b) m = Z.lor (Z.land a m) (Z.land b m).
Proof.
  intros Hm. unfold js_or.
  now rewrite land_int32, Z.land_lor_distr_l, !land_int32 by lia.
Qed.

Lemma land_js_xor (a b m : Z) :
  (0 <= m < 2 ^ 31)%Z -> Z.land (js_xor a b) m = Z.lxor (Z.land a m) (Z.land b m).
Proof.
  intros Hm. unfold js_xor.
  now rewrite land_int32, land_lxor_distr, !land_int32 by lia.
Qed.

Lemma land_js_and (a b m : Z) :
  (0 <= m < 2 ^ 31)%Z -> Z.land (js_and a b) m = Z.land a (Z.land (int32 b) m).
Proof.
  intros Hm. unfold js_and.
  rewrite land_int32 by lia.
  rewrite <- Z.land_assoc.
  rewrite <- (land_int32 a) by (apply land_bound; lia).
  reflexivity.
Qed.

(** Subtracting a bit that is set clears it. *)
Lemma sub_set_bit (n k : Z) :
  (0 <= k)%Z -> Z.land n (2 ^ k) <> 0%Z -> (n - 2 ^ k)%Z = Z.ldiff n (2 ^ k).
Proof.
  intros Hk Hset. apply Z.sub_nocarry_ldiff.
  apply Z.bits_inj'. intros i Hi.
  rewrite Z.ldiff_spec, Z.bits_0, Z.pow2_bits_eqb by lia.
  destruct (Z.eqb_spec k i) as [->|Hne]; [|reflexivity].
  destruct (Z.testbit n i) eqn:Hn; [reflexivity|].
  exfalso. apply Hset.
  apply Z.bits_inj'. intros j Hj.
  rewrite Z.land_spec, Z.bits_0, Z.pow2_bits_eqb by lia.
  destruct (Z.eqb_spec i j) as [->|]; [now rewrite Hn | now rewrite andb_false_r].
Qed.

Lemma ldiff_other_bits (n k m : Z) :
  (0 <= k)%Z -> Z.testbit m k = false ->
  Z.land (Z.ldiff n (2 ^ k)) m = Z.land n m.
Proof.
  intros Hk Hm. apply Z.bits_inj'. intros i Hi.
  rewrite !Z.land_spec, Z.ldiff_spec, Z.pow2_bits_eqb by lia.
  destruct (Z.eqb_spec k i) as [->|Hne].
  - now rewrite Hm, !andb_false_r.
  - now rewrite andb_true_r.
Qed.

(** ** What one call does to [nstyle] *)

Lemma linkBits_land (n : Z) : linkBits n = Z.land n 65280.
Proof. unfold linkBits, _link_mask. apply js_and_land. lia. Qed.

Lemma standaloneBits_land (n : Z) : standaloneBits n = Z.land n 15.
Proof. unfold standaloneBits. apply js_and_land. vm_compute. split; congruence. Qed.

Lemma nstyleStep_frame (n n' : Z) :
  nstyleStep n n' -> linkBits n' = linkBits n \/ standaloneBits n' = standaloneBits n.
Proof.
  intros H. rewrite !linkBits_land, !standaloneBits_land.
  destruct H as [| l Hl | v Hv | Hesc | | b Hb].
  - now left.
  - right. rewrite land_js_or by lia.
    assert (Z.land l 15 = 0%Z) as ->; [|apply Z.lor_0_r].
    repeat (apply elem_of_cons in Hl; destruct Hl as [->|Hl]; [reflexivity|]).
    now apply elem_of_nil in Hl.
  - right. rewrite land_js_or, land_js_and by lia.
    change (Z.land (int32 (js_not _link_mask)) 15) with 15%Z.
    assert (Z.land v 15 = 0%Z) as ->; [|apply Z.lor_0_r].
    repeat (apply elem_of_cons in Hv; destruct Hv as [->|Hv]; [reflexivity|]).
    now apply elem_of_nil in Hv.
  - left. unfold ESCAPE in *. rewrite js_and_land in Hesc by (vm_compute; split; congruence).
    change (Z.shiftl 1 3) with (2 ^ 3)%Z in *.
    rewrite sub_set_bit by (lia || assumption).
    apply ldiff_other_bits; [lia | reflexivity].
  - left. rewrite land_js_or by lia. change (Z.land ESCAPE 65280) with 0%Z. apply Z.lor_0_r.
  - left. rewrite land_js_xor by lia.
    assert (Z.land b 65280 = 0%Z) as ->; [|apply Z.lxor_0_r].
    repeat (apply elem_of_cons in Hb; destruct Hb as [->|Hb]; [reflexivity|]).
    now apply elem_of_nil in Hb.
Qed.

(** The parts of [token] before the mixable styles leave [nstyle] alone. *)

Ltac split_cases := repeat (case_match; simplify_eq/=); try done.

Lemma token_math_nstyle stream st : sameNstyle st (token_math stream st).
Proof. unfold token_math. split_cases. Qed.

Lemma token_codeFence_nstyle stream st : sameNstyle st (token_codeFence stream st).
Proof. unfold token_codeFence. split_cases. Qed.

Lemma lineStart_nstyle stream st :
  match lineStart stream st with
  | Done o => sameNstyle st o
  | Next _ st' => nstyle st' = nstyle st
  end.
Proof. unfold lineStart. split_cases. Qed.

Lemma token_listSpace_nstyle stream st : sameNstyle st (token_listSpace stream st).
Proof. unfold token_listSpace. split_cases. Qed.

Lemma tablePart_nstyle stream st :
  match tablePart stream st with
  | Done o => sameNstyle st o
  | Next _ st' => st' = st
  end.
Proof. unfold tablePart, tableSep. split_cases. Qed.

Lemma linkSwitch_value ns_link stream v stream' :
  linkSwitch ns_link stream = (Some v, stream') -> v ∈ [FOOTREF; 0%Z; LINK_URL].
Proof.
  unfold linkSwitch. intros H.
  repeat (case_match; simplify_eq/=); set_solver.
Qed.

Lemma linkPart_nstyle atB ans stream st :
  match linkPart atB (nstyle st) ans stream st with
  | Done o => stepsNstyle st o
  | Next _ st' => st' = st
  end.
Proof.
  unfold linkPart, linkBegin.
  destruct (js_and (nstyle st) _link_mask =? 0)%Z.
  - destruct (matchRE bracketRE false stream); [|reflexivity].
    simpl. apply step_linkBegin.
    repeat case_match; set_solver.
  - destruct (linkSwitch _ stream) as [[v|] stream'] eqn:Hsw; [|reflexivity].
    simpl. apply step_linkSwitch. eapply linkSwitch_value; eauto.
Qed.

Lemma escapePart_nstyle ans stream st :
  match escapePart (nstyle st) ans stream st with
  | Done o => stepsNstyle st o
  | Next _ st' => st' = st
  end.
Proof.
  unfold escapePart.
  destruct (js_and (nstyle st) ESCAPE =? 0)%Z eqn:Hesc; simpl.
  - destruct (matchRE escapeRE true stream) as [[n stream']|]; [|reflexivity].
    simpl. apply step_escape.
  - apply step_unescape. now apply Z.eqb_neq.
Qed.

Lemma emphasisPart_nstyle ans stream st :
  match emphasisPart ans stream st with
  | Done o => stepsNstyle st o
  | Next _ st' => st' = st
  end.
Proof.
  unfold emphasisPart, toggle.
  repeat case_match; simplify_eq/=; try reflexivity;
    apply step_toggle; set_solver.
Qed.

Lemma mixablePart_nstyle atB stream st : stepsNstyle st (mixablePart atB stream st).
Proof.
  unfold mixablePart.
  pose proof (linkPart_nstyle atB (initialStyle (nstyle st)) stream st) as Hl.
  destruct (linkPart _ _ _ _ _) as [o|stream1 st1]; [exact Hl|]. subst st1.
  pose proof (escapePart_nstyle (initialStyle (nstyle st)) stream1 st) as He.
  destruct (escapePart _ _ _ _) as [o|stream2 st2]; [exact He|]. subst st2.
  pose proof (emphasisPart_nstyle (initialStyle (nstyle st)) stream2 st) as Hm.
  destruct (emphasisPart _ _ _) as [o|stream3 st3]; [exact Hm|]. subst st3.
  simpl. constructor.
Qed.

Lemma token_inline_nstyle stream st : stepsNstyle st (token_inline stream st).
Proof.
  unfold token_inline. cbv zeta.
  remember (set_combineTokens (CombineBool true) _) as st0 eqn:Hst0.
  assert (Hn : nstyle st0 = nstyle st) by (subst st0; repeat case_match; reflexivity).
  clear Hst0.
  destruct (if bool_decide _ then _ else _) as [[n stream']|];
    [simpl; rewrite Hn; constructor|].
  destruct (matchRE inlineCodeRE true stream) as [[n stream']|];
    [simpl; rewrite Hn; constructor|].
  destruct (mathOpen stream) as [stream' [tmp0|]];
    [simpl; rewrite Hn; constructor|].
  pose proof (tablePart_nstyle stream' st0) as Ht.
  destruct (tablePart stream' st0) as [o|stream1 st1].
  - destruct o as [|style s1 st1]; [exact I|]. simpl in *. rewrite Ht, Hn. constructor.
  - subst st1. pose proof (mixablePart_nstyle (atBeginning st) stream1 st0) as Hm.
    destruct (mixablePart _ _ _) as [|style s2 st2]; [exact I|].
    simpl in *. now rewrite <- Hn.
Qed.

Theorem token_nstyleStep stream st style stream' st' :
  token stream st = Ret style stream' st' -> nstyleStep (nstyle st) (nstyle st').
Proof.
  unfold token. cbv zeta. intros H.
  remember (set_combineTokens CombineNull st) as st0 eqn:Hst0.
  assert (Hn : nstyle st0 = nstyle st) by (subst st0; reflexivity).
  clear Hst0.
  assert (Hsame : forall o, sameNstyle st0 o -> o = Ret style stream' st' ->
                            nstyleStep (nstyle st) (nstyle st')).
  { intros o Ho ->. simpl in Ho. rewrite Ho, Hn. constructor. }
  assert (Hrest : forall s1 st1, nstyle st1 = nstyle st ->
            (if bool_decide (inside st1 = Some listSpace)
             then token_listSpace s1 st1 else token_inline s1 st1) = Ret style stream' st' ->
            nstyleStep (nstyle st) (nstyle st')).
  { intros s1 st1 H1 Hr. destruct (bool_decide _).
    - pose proof (token_listSpace_nstyle s1 st1) as Hl. rewrite Hr in Hl.
      simpl in Hl. rewrite Hl, H1. constructor.
    - pose proof (token_inline_nstyle s1 st1) as Hi. rewrite Hr in Hi.
      simpl in Hi. now rewrite <- H1. }
  destruct (inside st0) as [[| | | |]|];
    try (eapply Hsame; [|exact H]; first [apply token_math_nstyle | apply token_codeFence_nstyle]);
    (destruct (pos stream =? 0)%nat; [|now apply (Hrest stream st0)];
     pose proof (lineStart_nstyle stream st0) as Hl;
     destruct (lineStart stream st0) as [o|s1 st1];
     [eapply Hsame; eauto | apply (Hrest s1 st1); [congruence | exact H]]).
Qed.

(** ** The list stack *)

Lemma stackOk_nil : stackOk [].
Proof. intros i w H. now rewrite lookup_nil in H. Qed.

Lemma stackOk_take (n : nat) (l : list Z) : stackOk l -> stackOk (take n l).
Proof.
  intros Hl i w H. apply (Hl i w).
  destruct (decide (i < n)%nat) as [Hlt|Hge].
  - now rewrite lookup_take_lt in H.
  - rewrite lookup_take_ge in H by lia. discriminate.
Qed.

Lemma stackOk_snoc (l : list Z) (w : Z) : stackOk l -> (0 < w)%Z -> stackOk (l ++ [w])%list.
Proof.
  intros Hl Hw i x H.
  destruct (decide (i < length l)%nat) as [Hlt|Hge].
  - rewrite lookup_app_l in H by exact Hlt. now apply Hl.
  - rewrite lookup_app_r in H by lia.
    destruct (i - length l)%nat; simpl in H; [|now rewrite lookup_nil in H].
    inversion H; subst x. lia.
Qed.

Lemma rebuildLoop_prefix (fuel i : nat) (stack : list Z) (ind : Z) :
  exists n, (rebuildLoop fuel i stack ind).1 = take n stack.
Proof.
  revert i ind. induction fuel as [|fuel IH]; intros i ind; simpl.
  - exists (length stack). now rewrite firstn_all.
  - destruct (stack !! i) as [w|].
    + destruct (0 <? ind)%Z; [apply IH | now exists i].
    + exists (length stack). now rewrite firstn_all.
Qed.

(** The three shapes of the rebuilt stack: a non-empty prefix of the old one;
    a prefix with one positive level pushed; or the single level 0, pushed on
    the empty stack. *)
Lemma rebuildStack_shape (stack : list Z) (ind : Z) :
  (exists n, rebuildStack stack ind = take n stack /\ rebuildStack stack ind <> [])
  \/ (exists n w, (0 < w)%Z /\ rebuildStack stack ind = (take n stack ++ [w])%list)
  \/ rebuildStack stack ind = [0%Z].
Proof.
  unfold rebuildStack.
  destruct (rebuildLoop_prefix (length stack)
              (if bool_decide (stack !! 0%nat = Some 0%Z) then 1 else 0)%nat stack ind)
    as [n Hn].
  destruct (rebuildLoop _ _ _ _) as [kept left]. simpl in Hn. subst kept.
  destruct (Z.ltb_spec 0 left) as [Hpos|Hneg].
  - right. left. exists n, left. split; [exact Hpos|].
    destruct (take n stack); reflexivity.
  - destruct (take n stack) as [|x l] eqn:Ht.
    + right. right. reflexivity.
    + left. exists n. simpl. now rewrite Ht.
Qed.

Lemma rebuildStack_ok (stack : list Z) (ind : Z) :
  stackOk stack -> stackOk (rebuildStack stack ind).
Proof.
  intros Hs.
  destruct (rebuildStack_shape stack ind) as [(n & -> & _)|[(n & w & Hw & ->)| ->]].
  - now apply stackOk_take.
  - apply stackOk_snoc; [now apply stackOk_take | exact Hw].
  - intros [|i] w H; simpl in H; [|now rewrite lookup_nil in H].
    inversion H; subst w. lia.
Qed.

Lemma rebuildStack_nonempty (stack : list Z) (ind : Z) : rebuildStack stack ind <> [].
Proof.
  destruct (rebuildStack_shape stack ind) as [(n & _ & H)|[(n & w & _ & ->)| ->]];
    [exact H | now destruct (take n stack) | discriminate].
Qed.

(** *** What one call does to the stack *)

Lemma token_math_stack stream st : sameStack st (token_math stream st).
Proof. unfold token_math. split_cases. Qed.

Lemma token_codeFence_stack stream st : sameStack st (token_codeFence stream st).
Proof. unfold token_codeFence. split_cases. Qed.

Lemma lineStart_stack stream st :
  match lineStart stream st with
  | Done o => sameStack st o
  | Next _ st' =>
      listSpaceStack st' = listSpaceStack st
      \/ listSpaceStack st' = rebuildStack (listSpaceStack st) (indentation stream)
  end.
Proof. unfold lineStart. split_cases; auto. Qed.

Lemma token_listSpace_stack stream st : sameStack st (token_listSpace stream st).
Proof. unfold token_listSpace. split_cases. Qed.

Lemma tablePart_stack stream st :
  match tablePart stream st with
  | Done o => sameStack st o
  | Next _ st' => st' = st
  end.
Proof. unfold tablePart, tableSep. split_cases. Qed.

Lemma mixablePart_stack atB stream st : sameStack st (mixablePart atB stream st).
Proof.
  unfold mixablePart, linkPart, linkBegin, escapePart, emphasisPart, fallback, toggle.
  split_cases.
Qed.

Lemma token_inline_stack stream st : sameStack st (token_inline stream st).
Proof.
  unfold token_inline. cbv zeta.
  remember (set_combineTokens (CombineBool true) _) as st0 eqn:Hst0.
  assert (Hn : listSpaceStack st0 = listSpaceStack st)
    by (subst st0; repeat case_match; reflexivity).
  clear Hst0.
  destruct (if bool_decide _ then _ else _) as [[n stream']|]; [exact Hn|].
  destruct (matchRE inlineCodeRE true stream) as [[n stream']|]; [exact Hn|].
  destruct (mathOpen stream) as [stream' [tmp0|]]; [exact Hn|].
  pose proof (tablePart_stack stream' st0) as Ht.
  destruct (tablePart stream' st0) as [o|stream1 st1].
  - destruct o as [|style s1 st1]; [exact I|]. simpl in *. congruence.
  - subst st1. pose proof (mixablePart_stack (atBeginning st) stream1 st0) as Hm.
    destruct (mixablePart _ _ _) as [|style s2 st2]; [exact I|].
    simpl in *. congruence.
Qed.

Theorem token_stack stream st style stream' st' :
  token stream st = Ret style stream' st' ->
  listSpaceStack st' = listSpaceStack st
  \/ listSpaceStack st' = rebuildStack (listSpaceStack st) (indentation stream).
Proof.
  unfold token. cbv zeta. intros H.
  remember (set_combineTokens CombineNull st) as st0 eqn:Hst0.
  assert (Hn : listSpaceStack st0 = listSpaceStack st) by (subst st0; reflexivity).
  clear Hst0. rewrite <- Hn.
  assert (Hrest : forall s1 st1,
            (if bool_decide (inside st1 = Some listSpace)
             then token_listSpace s1 st1 else token_inline s1 st1) = Ret style stream' st' ->
            listSpaceStack st' = listSpaceStack st1).
  { intros s1 st1 Hr. destruct (bool_decide _).
    - pose proof (token_listSpace_stack s1 st1) as Hl. now rewrite Hr in Hl.
    - pose proof (token_inline_stack s1 st1) as Hi. now rewrite Hr in Hi. }
  assert (Hline : (match (if (pos stream =? 0)%nat then lineStart stream st0
                           else Next stream st0) with
                    | Done o => o
                    | Next s1 st1 =>
                        if bool_decide (inside st1 = Some listSpace)
                        then token_listSpace s1 st1 else token_inline s1 st1
                    end) = Ret style stream' st' ->
                   listSpaceStack st' = listSpaceStack st0
                   \/ listSpaceStack st' = rebuildStack (listSpaceStack st0) (indentation stream)).
  { clear H. intros H.
    destruct (pos stream =? 0)%nat; [|left; now apply (Hrest stream st0)].
    pose proof (lineStart_stack stream st0) as Hl.
    destruct (lineStart stream st0) as [o|s1 st1].
    - left. subst o. exact Hl.
    - apply Hrest in H. rewrite H. exact Hl. }
  destruct (inside st0) as [[| | | |]|]; try (now apply Hline).
  - left. pose proof (token_math_stack stream st0) as Hm. now rewrite H in Hm.
  - left. pose proof (token_codeFence_stack stream st0) as Hm. now rewrite H in Hm.
Qed.

(** ** Typing of [extra]

    [extra] holds the opening token, which is not empty, while inside math
    and a positive index while inside listSpace between two calls. *)

Lemma typed_ext (st st' : State) :
  inside st' = inside st -> extra st' = extra st -> typed st -> typed st'.
Proof. unfold typed. now intros -> ->. Qed.

(** Where [/^(#+)(?:\s|$)/] matches, [/^#+/] matches. *)
Lemma header_hashes stream n stream' :
  pos stream = 0%nat ->
  matchRE headerRE true stream = Some (n, stream') ->
  is_Some (exec hashesRE (str stream')).
Proof.
  intros Hpos. unfold matchRE, rest. rewrite Hpos. simpl dropStr.
  assert (Hsome : is_Some (exec headerRE (str stream)) -> is_Some (exec hashesRE (str stream))).
  { change headerRE with (Seq Bol (Seq (Plus (Chr "#")) (Seq (Alt ws Eol) Eps))).
    change hashesRE with (Seq Bol (Seq (Plus (Chr "#")) Eps)).
    rewrite !exec_anchored.
    change (rmatch (Seq (Plus (Chr "#")) (Seq (Alt ws Eol) Eps)) 0 (str stream) accept)
      with (rmatch (Plus (Chr "#")) 0 (str stream)
              (fun i' s' => rmatch (Seq (Alt ws Eol) Eps) i' s' accept)).
    change (rmatch (Seq (Plus (Chr "#")) Eps) 0 (str stream) accept)
      with (rmatch (Plus (Chr "#")) 0 (str stream) (fun i' s' => accept i' s')).
    intros H.
    assert (Hm : is_Some (rmatch (Plus (Chr "#")) 0 (str stream) (fun i' s' => accept i' s'))).
    { destruct (rmatch (Plus (Chr "#")) 0 (str stream)
                  (fun i' s' => rmatch (Seq (Alt ws Eol) Eps) i' s' accept)) eqn:Hr;
        [|destruct H as [? H]; discriminate].
      eapply rmatch_mono; [|rewrite Hr; eauto].
      intros i s _. unfold accept. eauto. }
    destruct Hm as [e ->]. eauto. }
  destruct (exec headerRE (str stream)) as [[[|i] e]|] eqn:Hex; try discriminate.
  intros H. inversion H; subst. simpl. apply Hsome. eauto.
Qed.

Lemma token_math_typed stream st :
  typed st -> inside st = Some math -> staysTyped (token_math stream st).
Proof.
  unfold typed, token_math. intros Ht Hin. rewrite Hin in Ht.
  destruct Ht as (d & He & Hd). rewrite He.
  repeat case_match; simpl; unfold typed; simpl; rewrite ?Hin, ?He; eauto.
Qed.

Lemma token_codeFence_typed stream st :
  inside st = Some codeFence -> staysTyped (token_codeFence stream st).
Proof.
  unfold token_codeFence. intros Hin.
  repeat case_match; simpl; unfold typed; simpl; rewrite ?Hin; done.
Qed.

Lemma token_listSpace_typed stream st :
  inside st = Some listSpace -> extraIsStr (extra st) = false ->
  staysTyped (token_listSpace stream st).
Proof.
  unfold token_listSpace. intros Hin He. rewrite He. cbv zeta.
  destruct (_ && _ && _); [exact I|].
  repeat case_match; simplify_eq/=; unfold typed; simpl; rewrite ?Hin;
    try done; eexists; f_equal; rewrite Nat.add_1_r; reflexivity.
Qed.

Lemma lineStart_typed stream st :
  pos stream = 0%nat -> typed st ->
  inside st <> Some math -> inside st <> Some codeFence ->
  match lineStart stream st with
  | Done o => staysTyped o
  | Next _ st' =>
      inside st' <> Some math /\ inside st' <> Some codeFence
      /\ (typed st' \/ (inside st' = Some listSpace /\ extra st' = ExtraNum 0))
  end.
Proof.
  intros Hpos Ht Hm Hc. unfold lineStart. cbv zeta.
  remember (if truthyStr (table (set_atBeginning true st)) then _ else _) as st0 eqn:Hst0.
  assert (H0 : typed st0 /\ inside st0 <> Some math /\ inside st0 <> Some codeFence).
  { subst st0. unfold typed in *.
    repeat case_match; simplify_eq/=; repeat split; try done. }
  clear Hst0 Ht Hm Hc. destruct H0 as (Ht & Hm & Hc).
  destruct (matchRE fenceRE true stream) as [[n s1]|]; [exact I|].
  destruct (_ && _); [exact Ht|].
  destruct (_ && _); [exact Ht|].
  destruct (matchRE quoteRE true stream) as [[n s1]|].
  { destruct (quoteLoop _ _ _). exact Ht. }
  destruct (negb _); [exact Ht|].
  destruct (matchRE headerRE true stream) as [[n s1]|] eqn:Hh.
  { destruct (header_hashes _ _ _ Hpos Hh) as [[i e] ->]. exact Ht. }
  destruct (_ || _); simpl; repeat split; auto; discriminate.
Qed.

Lemma tablePart_typed stream st :
  typed st ->
  match tablePart stream st with
  | Done o => staysTyped o
  | Next _ st' => st' = st
  end.
Proof. intros Ht. unfold tablePart, tableSep. split_cases. Qed.

Lemma mixablePart_typed atB stream st : typed st -> staysTyped (mixablePart atB stream st).
Proof.
  intros Ht.
  unfold mixablePart, linkPart, linkBegin, escapePart, emphasisPart, fallback, toggle.
  split_cases.
Qed.

Lemma token_inline_typed stream st : typed st -> staysTyped (token_inline stream st).
Proof.
  intros Ht. unfold token_inline. cbv zeta.
  remember (set_combineTokens (CombineBool true) _) as st0 eqn:Hst0.
  assert (H0 : typed st0).
  { apply (typed_ext st); [| |exact Ht]; subst st0; repeat case_match; reflexivity. }
  clear Hst0.
  destruct (if bool_decide _ then _ else _) as [[n stream']|]; [exact H0|].
  destruct (matchRE inlineCodeRE true stream) as [[n stream']|]; [exact H0|].
  destruct (mathOpen stream) as [stream' [tmp0|]] eqn:Hopen.
  { apply mathOpen_delim in Hopen. simpl. unfold typed. simpl. eauto. }
  pose proof (tablePart_typed stream' st0 H0) as Hp.
  destruct (tablePart stream' st0) as [o|stream1 st1]; [exact Hp|].
  subst st1. now apply mixablePart_typed.
Qed.

Theorem token_typed stream st : typed st -> staysTyped (token stream st).
Proof.
  intros Ht. unfold token. cbv zeta.
  remember (set_combineTokens CombineNull st) as st0 eqn:Hst0.
  assert (H0 : typed st0) by (subst st0; exact Ht).
  clear Hst0 Ht.
  assert (Hrest : forall s1 st1,
            typed st1 \/ (inside st1 = Some listSpace /\ extra st1 = ExtraNum 0) ->
            staysTyped (if bool_decide (inside st1 = Some listSpace)
                        then token_listSpace s1 st1 else token_inline s1 st1)).
  { intros s1 st1 H1. destruct (bool_decide_reflect (inside st1 = Some listSpace)) as [Hin|Hin].
    - apply token_listSpace_typed; [exact Hin|].
      destruct H1 as [H1|[_ ->]]; [|reflexivity].
      unfold typed in H1. rewrite Hin in H1. destruct H1 as [n ->]. reflexivity.
    - destruct H1 as [H1|[H1 _]]; [|contradiction]. now apply token_inline_typed. }
  assert (Hline : inside st0 <> Some math -> inside st0 <> Some codeFence ->
                  staysTyped (match (if (pos stream =? 0)%nat then lineStart stream st0
                                     else Next stream st0) with
                              | Done o => o
                              | Next s1 st1 =>
                                  if bool_decide (inside st1 = Some listSpace)
                                  then token_listSpace s1 st1 else token_inline s1 st1
                              end)).
  { intros Hm Hc. destruct (Nat.eqb_spec (pos stream) 0) as [Hpos|Hpos]; [|now apply Hrest; left].
    pose proof (lineStart_typed stream st0 Hpos H0 Hm Hc) as Hl.
    destruct (lineStart stream st0) as [o|s1 st1]; [exact Hl|].
    apply Hrest. tauto. }
  destruct (inside st0) as [[| | | |]|] eqn:Hin; try (apply Hline; discriminate).
  - now apply token_math_typed.
  - now apply token_codeFence_typed.
Qed.

Corollary typed_token_not_stuck stream st : typed st -> token stream st <> Stuck.
Proof.
  intros Ht H. pose proof (token_typed stream st Ht) as Hs. now rewrite H in Hs.
Qed.

(** ** Reachable states *)

Lemma startState_typed : typed startState.
Proof. exact I. Qed.

Lemma blankLine_typed st : typed st -> typed (blankLine st).2.
Proof. intros H. exact H. Qed.

Lemma copyState_typed st : typed st -> typed (copyState st).
Proof. intros H. exact H. Qed.

Lemma reachable_typed st : reachable st -> typed st.
Proof.
  induction 1 as [| stream st style stream' st' _ IH Htok | st _ IH | st _ IH].
  - exact startState_typed.
  - pose proof (token_typed stream st IH) as Ht. now rewrite Htok in Ht.
  - now apply blankLine_typed.
  - now apply copyState_typed.
Qed.

Lemma reachable_stackOk st : reachable st -> stackOk (listSpaceStack st).
Proof.
  induction 1 as [| stream st style stream' st' _ IH Htok | st _ IH | st _ IH].
  - apply stackOk_nil.
  - destruct (token_stack _ _ _ _ _ Htok) as [-> | ->];
      [exact IH | now apply rebuildStack_ok].
  - apply stackOk_nil.
  - exact IH.
Qed.

(** The host only produces reachable states. *)
Lemma runLine_reachable fuel stream st :
  reachable st ->
  reachable (runLine fuel stream st).2
  /\ forall style stream' st',
       In (Ret style stream' st') (runLine fuel stream st).1 -> reachable st'.
Proof.
  revert stream st. induction fuel as [|fuel IH]; intros stream st Hr; simpl.
  - split; [exact Hr | intros ? ? ? []].
  - destruct (eol stream); [split; [exact Hr | intros ? ? ? []]|].
    destruct (token stream st) as [|style s1 st1] eqn:Htok.
    + split; [exact Hr|]. intros ? ? ? [H|[]]. discriminate.
    + assert (Hr1 : reachable st1) by (eapply reach_token; eauto).
      destruct (pos s1 <=? pos stream)%nat.
      * split; [exact Hr1|]. intros ? ? ? [H|[]]. now inversion H; subst.
      * specialize (IH s1 st1 Hr1). destruct (runLine fuel s1 st1) as [calls final].
        simpl in *. destruct IH as [IH1 IH2]. split; [exact IH1|].
        intros ? ? ? [H|H]; [now inversion H; subst | eauto].
Qed.

Lemma scanLine_reachable text lineNo following st :
  reachable st -> reachable (scanLine text lineNo following st).2.
Proof.
  intros Hr. unfold scanLine. destruct (_ =? _)%nat.
  - now apply reach_blankLine.
  - now apply runLine_reachable.
Qed.

Lemma scanDoc_reachable lines lineNo st :
  reachable st -> reachable (scanDoc lines lineNo st).
Proof.
  revert lineNo st. induction lines as [|text lines IH]; intros lineNo st Hr; simpl.
  - exact Hr.
  - apply IH. now apply scanLine_reachable.
Qed.

(** ** Progress of the stream *)

Lemma set_pos_pos (s : StringStream) : set_pos (pos s) s = s.
Proof. now destruct s. Qed.

Lemma advance_refl s : (pos s <= String.length (str s))%nat -> advance s s.
Proof. intros H. split; [now rewrite set_pos_pos | lia]. Qed.

Lemma advance_trans s1 s2 s3 : advance s1 s2 -> advance s2 s3 -> advance s1 s3.
Proof.
  intros [H1 L1] [H2 L2]. rewrite H1 in H2, L2. simpl in *.
  split; [exact H2 | lia].
Qed.

Lemma advance_set_pos s p :
  (pos s <= p <= String.length (str s))%nat -> advance s (set_pos p s).
Proof. intros H. split; [reflexivity | exact H]. Qed.

Lemma advance_bound s s' : advance s s' -> (pos s' <= String.length (str s'))%nat.
Proof. intros [H L]. rewrite H. simpl. lia. Qed.

Lemma live_start s : more s -> live s s.
Proof. intros H. unfold more in H. split; [apply advance_refl; lia | now right]. Qed.

Lemma live_bound s0 s : live s0 s -> (pos s <= String.length (str s))%nat.
Proof. intros [[H L] _]. rewrite H. simpl. lia. Qed.

(** A step forward from a live stream is a move of the call. *)
Lemma live_step s0 s s' :
  live s0 s -> advance s s' -> (pos s < pos s')%nat ->
  advance s0 s' /\ (pos s0 < pos s')%nat.
Proof.
  intros [Ha _] Hs Hlt. split; [eapply advance_trans; eauto|].
  destruct Ha as [_ ?]. lia.
Qed.

Lemma live_weak s0 s s' : live s0 s -> advance s s' -> live s0 s'.
Proof.
  intros [Ha Hl] Hs. split; [eapply advance_trans; eauto|].
  destruct Ha as [_ ?]. destruct Hs as [Hs ?].
  destruct Hl as [Hl|Hl]; [left; lia|].
  destruct (decide (pos s = pos s')) as [Heq|Hne]; [|left; lia].
  right. rewrite Hs. unfold more in *. simpl. lia.
Qed.

Lemma peek_more s c : peek s = Some c -> more s.
Proof. apply charAt_length. Qed.

Lemma more_peek s : more s -> exists c, peek s = Some c.
Proof.
  unfold more, peek. intros H.
  destruct (charAt (pos s) (str s)) as [c|] eqn:Hc; [eauto|].
  apply charAt_None in Hc. lia.
Qed.

Lemma next_advance s :
  (pos s <= String.length (str s))%nat -> advance s (next s).2.
Proof.
  intros H. unfold next. destruct (peek s) as [c|] eqn:Hc; simpl.
  - apply peek_more in Hc. apply advance_set_pos. unfold more in Hc. lia.
  - now apply advance_refl.
Qed.

Lemma live_next s0 s :
  live s0 s -> advance s0 (next s).2 /\ (pos s0 < pos (next s).2)%nat.
Proof.
  intros Hl. pose proof (live_bound _ _ Hl) as Hb.
  pose proof (next_advance s Hb) as Hn.
  destruct Hl as [Ha [Hlt|Hm]].
  - split; [eapply advance_trans; eauto|]. destruct Hn as [_ ?]. lia.
  - apply (live_step s0 s); [split; auto | exact Hn|].
    unfold next. destruct (more_peek s Hm) as [c ->]. simpl. lia.
Qed.

Lemma eat_advance c s s' :
  eat c s = Some s' -> advance s s' /\ (pos s < pos s')%nat.
Proof.
  unfold eat. destruct (peek s) as [d|] eqn:Hd; [|discriminate].
  destruct (Ascii.eqb d c); [|discriminate].
  intros H. inversion H; subst. apply peek_more in Hd. unfold more in Hd.
  split; [apply advance_set_pos; lia | simpl; lia].
Qed.

Lemma skipToEnd_advance s :
  (pos s <= String.length (str s))%nat -> advance s (skipToEnd s).
Proof. intros H. apply advance_set_pos. lia. Qed.

Lemma live_skipToEnd s0 s :
  live s0 s -> advance s0 (skipToEnd s) /\ (pos s0 < pos (skipToEnd s))%nat.
Proof.
  intros Hl. pose proof (live_bound _ _ Hl) as Hb.
  pose proof (skipToEnd_advance s Hb) as Hn.
  destruct Hl as [Ha [Hlt|Hm]].
  - split; [eapply advance_trans; eauto|]. destruct Hn as [_ ?]. lia.
  - apply (live_step s0 s); [split; auto | exact Hn|]. unfold more in Hm. simpl. lia.
Qed.

Lemma matchRE_advance (l : list regex) consume s n s' :
  (pos s <= String.length (str s))%nat ->
  matchRE (Seqs (Bol :: l)) consume s = Some (n, s') ->
  advance s s' /\ (consume = true -> (pos s + minLen (Seqs l) <= pos s')%nat).
Proof.
  intros Hb Hm. apply matchRE_lang in Hm. destruct Hm as (u & v & Hr & Hu & -> & ->).
  apply lang_minLen in Hu.
  assert (Hlen : (String.length u + String.length v
                  = String.length (str s) - pos s)%nat).
  { rewrite <- length_append, <- Hr. apply length_dropStr. }
  destruct consume.
  - split; [apply advance_set_pos; lia | simpl; lia].
  - split; [now apply advance_refl | discriminate].
Qed.

Lemma prefixStr_length p s : prefixStr p s = true -> (String.length p <= String.length s)%nat.
Proof.
  revert s. induction p as [|c p IH]; intros [|d s] H; simpl in *; try lia; try discriminate.
  apply andb_true_iff in H. destruct H as [_ H]. apply IH in H. lia.
Qed.

Lemma matchStr_advance p s s' :
  (pos s <= String.length (str s))%nat ->
  matchStr p s = Some s' ->
  advance s s' /\ pos s' = (pos s + String.length p)%nat.
Proof.
  intros Hb. unfold matchStr. destruct (prefixStr p (rest s)) eqn:Hp; [|discriminate].
  intros H. inversion H; subst. apply prefixStr_length in Hp.
  unfold rest in Hp. rewrite length_dropStr in Hp.
  split; [apply advance_set_pos; lia | reflexivity].
Qed.

Lemma quoteLoop_advance fuel s q :
  (pos s <= String.length (str s))%nat -> advance s (quoteLoop fuel s q).1.
Proof.
  revert s q. induction fuel as [|fuel IH]; intros s q Hb; simpl.
  - now apply advance_refl.
  - destruct (matchRE quoteMoreRE true s) as [[n s']|] eqn:Hm; [|now apply advance_refl].
    apply matchRE_advance in Hm; [|exact Hb]. destruct Hm as [Ha _].
    eapply advance_trans; [exact Ha|]. apply IH.
    eapply advance_bound; eauto.
Qed.

Lemma eatIndent_advance fuel s w :
  (pos s <= String.length (str s))%nat -> advance s (eatIndent fuel s w).1.
Proof.
  revert s w. induction fuel as [|fuel IH]; intros s w Hb; simpl.
  - now apply advance_refl.
  - destruct (0 <? w)%Z; [|now apply advance_refl].
    pose proof (next_advance s Hb) as Hn.
    destruct (next s) as [c s'] eqn:Hnext. simpl in Hn.
    assert (Hb' : (pos s' <= String.length (str s'))%nat)
      by (eapply advance_bound; eauto).
    destruct (charIs tab c); [eapply advance_trans; [exact Hn | now apply IH]|].
    destruct (charIs space c); [eapply advance_trans; [exact Hn | now apply IH]|].
    exact Hn.
Qed.

Lemma eatIndent_moves s w :
  more s -> (1 <= w)%Z -> (pos s < pos (eatIndent (Z.to_nat w) s w).1)%nat.
Proof.
  intros Hm Hw.
  destruct (Z.to_nat w) as [|fuel] eqn:Hf; [lia|]. simpl.
  destruct (Z.ltb_spec 0 w); [|lia].
  destruct (more_peek s Hm) as [c Hc].
  unfold next. rewrite Hc.
  assert (Hb : (pos (set_pos (S (pos s)) s) <= String.length (str (set_pos (S (pos s)) s)))%nat)
    by (unfold more in Hm; simpl; lia).
  destruct (charIs tab (Some c)).
  { pose proof (eatIndent_advance fuel _ (w - 4) Hb) as [_ ?]. simpl in *. lia. }
  destruct (charIs space (Some c)).
  { pose proof (eatIndent_advance fuel _ (w - 1) Hb) as [_ ?]. simpl in *. lia. }
  simpl. lia.
Qed.

Ltac unfold_REs :=
  unfold meanlessCharsRE, listRE, mathBodyRE, fenceEndRE, fenceRE, quoteRE, quoteMoreRE,
    headerRE, dashRE, inlineCodeRE, dollarsRE, bracketRE, footnoteNameRE, bareLinkRE,
    quotedRE, escapeRE in *.

Lemma live_match (l : list regex) s0 s n s' :
  live s0 s -> (1 <= minLen (Seqs l))%nat ->
  matchRE (Seqs (Bol :: l)) true s = Some (n, s') ->
  advance s0 s' /\ (pos s0 < pos s')%nat.
Proof.
  intros Hl Hmin Hm.
  apply matchRE_advance in Hm; [|eapply live_bound; eauto].
  destruct Hm as [Ha Hp]. specialize (Hp eq_refl).
  apply (live_step s0 s); [exact Hl | exact Ha | lia].
Qed.

Lemma live_after (l : list regex) s0 s :
  live s0 s -> (1 <= minLen (Seqs l))%nat ->
  advance s0 (after (matchRE (Seqs (Bol :: l)) true s) (next s).2)
  /\ (pos s0 < pos (after (matchRE (Seqs (Bol :: l)) true s) (next s).2))%nat.
Proof.
  intros Hl Hmin.
  destruct (matchRE (Seqs (Bol :: l)) true s) as [[n s']|] eqn:Hm; simpl.
  - eapply live_match; eauto.
  - now apply live_next.
Qed.

Lemma live_eat c s0 s s' :
  live s0 s -> eat c s = Some s' -> advance s0 s' /\ (pos s0 < pos s')%nat.
Proof.
  intros Hl He. apply eat_advance in He. destruct He as [Ha Hlt].
  now apply (live_step s0 s).
Qed.

Lemma live_matchStr p s0 s s' :
  live s0 s -> (1 <= String.length p)%nat -> matchStr p s = Some s' ->
  advance s0 s' /\ (pos s0 < pos s')%nat.
Proof.
  intros Hl Hp Hm. apply matchStr_advance in Hm; [|eapply live_bound; eauto].
  destruct Hm as [Ha Hlt]. apply (live_step s0 s); [exact Hl | exact Ha | lia].
Qed.

(** *** The parts of [token] *)

Lemma token_math_moved stream st :
  typed st -> inside st = Some math -> more stream -> moved stream (token_math stream st).
Proof.
  intros Ht Hin Hm. unfold typed in Ht. rewrite Hin in Ht. destruct Ht as (d & He & Hd).
  pose proof (live_start stream Hm) as Hl.
  unfold token_math. rewrite He.
  assert (Hbody : moved stream
            (Ret (Some ("math math-" +:+ showNat (String.length d)))
               (after (matchRE mathBodyRE true stream) (next stream).2) st)).
  { unfold_REs. apply (live_after _ stream stream Hl). simpl. lia. }
  destruct (_ || _); [|exact Hbody].
  destruct (matchStr d stream) as [s'|] eqn:Hc; [|exact Hbody]. simpl.
  apply (live_matchStr d stream stream s' Hl); [|exact Hc].
  destruct d; [contradiction | simpl; lia].
Qed.

Lemma token_codeFence_moved stream st : more stream -> moved stream (token_codeFence stream st).
Proof.
  intros Hm. pose proof (live_start stream Hm) as Hl.
  unfold token_codeFence. cbv zeta.
  destruct (_ =? _)%nat; [|now apply live_skipToEnd].
  destruct (matchRE fenceEndRE true stream) as [[n s']|] eqn:Hc; simpl.
  - unfold_REs. refine (live_match _ stream stream n s' Hl _ Hc); simpl; lia.
  - now apply live_skipToEnd.
Qed.

(** At the start of a line the call returns with the stream moved, or goes
    on with the stream where it was and either the stack rebuilt and the
    index 0, or the stack and the index as they were. *)
Lemma lineStart_moved stream st :
  pos stream = 0%nat -> more stream ->
  match lineStart stream st with
  | Done o => moved stream o
  | Next s' st' =>
      s' = stream
      /\ ((inside st' = Some listSpace /\ extra st' = ExtraNum 0
           /\ listSpaceStack st' = rebuildStack (listSpaceStack st) (indentation stream))
          \/ (listSpaceStack st' = listSpaceStack st /\ extra st' = extra st
              /\ (inside st' = Some listSpace -> inside st = Some listSpace)))
  end.
Proof.
  intros Hpos Hm. pose proof (live_start stream Hm) as Hl.
  unfold lineStart. cbv zeta.
  remember (if truthyStr (table (set_atBeginning true st)) then _ else _) as st0 eqn:Hst0.
  assert (H0 : listSpaceStack st0 = listSpaceStack st /\ extra st0 = extra st
               /\ (inside st0 = Some listSpace -> inside st = Some listSpace)).
  { subst st0. repeat case_match; simpl; repeat split; auto; discriminate. }
  clear Hst0. destruct H0 as (Hs0 & He0 & Hi0).
  destruct (matchRE fenceRE true stream) as [[n s1]|] eqn:Hf.
  { simpl. unfold_REs. refine (live_match _ stream stream n s1 Hl _ Hf); simpl; lia. }
  destruct (_ && _); [now apply live_skipToEnd|].
  destruct (_ && _); [now apply live_skipToEnd|].
  destruct (matchRE quoteRE true stream) as [[n s1]|] eqn:Hq.
  { destruct (quoteLoop _ s1 1) as [s2 q] eqn:Hloop. simpl.
    unfold quoteRE in Hq.
    assert (Hq' : advance stream s1 /\ (pos stream < pos s1)%nat)
      by (refine (live_match _ stream stream n s1 Hl _ Hq); simpl; lia).
    destruct Hq' as [Ha Hlt].
    pose proof (quoteLoop_advance (String.length (rest s1)) s1 1
                  (advance_bound _ _ Ha)) as Ha2.
    rewrite Hloop in Ha2. simpl in Ha2.
    split; [eapply advance_trans; eauto|]. destruct Ha2 as [_ ?]. lia. }
  destruct (negb _); [now apply live_next|].
  destruct (matchRE headerRE true stream) as [[n s1]|] eqn:Hh.
  { destruct (header_hashes _ _ _ Hpos Hh) as [[i e] ->]. simpl.
    unfold headerRE in Hh.
    refine (live_match _ stream stream n s1 Hl _ Hh); simpl; lia. }
  destruct (_ || _); simpl; (split; [reflexivity|]).
  - left. rewrite Hs0. auto.
  - right. auto.
Qed.

Lemma token_listSpace_moved stream st n :
  more stream -> stackOk (listSpaceStack st) ->
  extra st = ExtraNum n -> (n < length (listSpaceStack st))%nat ->
  moved stream (token_listSpace stream st).
Proof.
  intros Hm Hok He Hn. pose proof (live_start stream Hm) as Hl.
  unfold token_listSpace. rewrite He. simpl extraIsStr. cbv iota. cbv zeta.
  destruct (extraIsZero (ExtraNum n) && bool_decide (listSpaceStack st !! 0%nat = Some 0%Z)
            && (length (listSpaceStack st) =? 1)%nat) eqn:Hfirst.
  { simpl. unfold listRE. apply (live_after _ stream stream Hl). simpl. lia. }
  (* the width at the index that is consumed *)
  assert (Hw : exists i w,
             (if extraIsZero (ExtraNum n)
                 && bool_decide (listSpaceStack st !! 0%nat = Some 0%Z)
              then set_extra (ExtraNum 1) st else st) = set_extra (ExtraNum i) st
             /\ listSpaceStack st !! i = Some w /\ (1 <= w)%Z).
  { destruct (extraIsZero (ExtraNum n)) eqn:Hz; simpl.
    - destruct n; [|discriminate].
      destruct (bool_decide_reflect (listSpaceStack st !! 0%nat = Some 0%Z)) as [H0|H0].
      + simpl in Hfirst. apply Nat.eqb_neq in Hfirst.
        destruct (listSpaceStack st !! 1%nat) as [w|] eqn:H1.
        * exists 1%nat, w. repeat split; auto. apply (Hok 1%nat w H1). lia.
        * apply lookup_ge_None in H1. lia.
      + destruct (listSpaceStack st !! 0%nat) as [w|] eqn:Hw0.
        * exists 0%nat, w. split; [destruct st; simpl in *; now subst|]. split; [exact Hw0|].
          pose proof (Hok 0%nat w Hw0) as [? _].
          assert (w <> 0%Z) by congruence. lia.
        * apply lookup_ge_None in Hw0. lia.
    - destruct (listSpaceStack st !! n) as [w|] eqn:Hwn.
      + exists n, w. split; [destruct st; simpl in *; now subst|]. split; [exact Hwn|].
        apply (Hok n w Hwn). destruct n; [discriminate | lia].
      + apply lookup_ge_None in Hwn. lia. }
  destruct Hw as (i & w & -> & Hi & Hw). simpl. rewrite Hi.
  pose proof (eatIndent_advance (Z.to_nat w) stream w (live_bound _ _ Hl)) as Ha.
  pose proof (eatIndent_moves stream w Hm Hw) as Hlt.
  destruct (eatIndent (Z.to_nat w) stream w) as [s' corrupted]. simpl in *.
  auto.
Qed.

(** *** The inline content *)

Lemma tablePart_moved s0 stream st :
  live s0 stream ->
  match tablePart stream st with
  | Done o => moved s0 o
  | Next s' _ => s' = stream
  end.
Proof.
  intros Hl. unfold tablePart, tableSep. cbv zeta.
  destruct (_ && _ && _); [|reflexivity].
  destruct (eat "|" stream) as [s'|] eqn:He; [|reflexivity].
  pose proof (live_eat _ _ _ _ Hl He) as Hmv.
  destruct (negb (truthyStr (table st))); [destruct (_ && _)|]; exact Hmv.
Qed.

Lemma linkSwitch_live s0 stream ns_link v s' :
  live s0 stream -> linkSwitch ns_link stream = (v, s') ->
  live s0 s' /\ (v <> None -> (pos s0 < pos s')%nat).
Proof.
  intros Hl. unfold linkSwitch.
  assert (Hstay : live s0 stream /\ ((None : option Z) <> None -> (pos s0 < pos stream)%nat))
    by (split; [exact Hl | congruence]).
  assert (Hstep : forall s1, advance s0 s1 /\ (pos s0 < pos s1)%nat ->
                  forall x : option Z, live s0 s1 /\ (x <> None -> (pos s0 < pos s1)%nat)).
  { intros s1 [Ha Hlt] x. split; [split; auto | auto]. }
  repeat case_match; intros Hres; inversion Hres; subst; try exact Hstay; apply Hstep.
  - now apply live_next.
  - eapply live_eat; eauto.
  - eapply live_matchStr; eauto. simpl. lia.
  - eapply live_eat; eauto.
  - unfold quotedRE in *.
    match goal with
    | Hq : matchRE _ true stream = Some (_, _) |- _ =>
        refine (live_match _ s0 stream _ _ Hl _ Hq); simpl; lia
    end.
  - eapply live_eat; eauto.
Qed.

Lemma linkPart_moved s0 atB ns ans stream st :
  live s0 stream ->
  match linkPart atB ns ans stream st with
  | Done o => moved s0 o
  | Next s' _ => live s0 s'
  end.
Proof.
  intros Hl. unfold linkPart, linkBegin. cbv zeta.
  destruct (_ =? _)%Z.
  - destruct (matchRE bracketRE false stream); [|exact Hl].
    simpl. now apply live_next.
  - destruct (linkSwitch _ stream) as [v s'] eqn:Hsw.
    apply (linkSwitch_live s0) in Hsw; [|exact Hl]. destruct Hsw as [Hl' Hv].
    destruct v as [v|]; [|exact Hl'].
    simpl. split; [apply Hl' | apply Hv; discriminate].
Qed.

Lemma escapePart_moved s0 ns ans stream st :
  live s0 stream ->
  match escapePart ns ans stream st with
  | Done o => moved s0 o
  | Next s' _ => s' = stream
  end.
Proof.
  intros Hl. unfold escapePart.
  destruct (negb _); [simpl; now apply live_next|].
  destruct (matchRE escapeRE true stream) as [[n s']|] eqn:Hm; [|reflexivity].
  simpl. unfold escapeRE in Hm. refine (live_match _ s0 stream n s' Hl _ Hm); simpl; lia.
Qed.

Lemma emphasisPart_moved s0 ans stream st :
  live s0 stream ->
  match emphasisPart ans stream st with
  | Done o => moved s0 o
  | Next s' _ => s' = stream
  end.
Proof.
  intros Hl. unfold emphasisPart.
  destruct (_ || _); [|reflexivity].
  destruct (matchStr "**" stream) as [s'|] eqn:H1;
    [simpl; eapply live_matchStr; eauto; simpl; lia|].
  destruct (matchStr "__" stream) as [s'|] eqn:H2;
    [simpl; eapply live_matchStr; eauto; simpl; lia|].
  destruct (eat "*" stream) as [s'|] eqn:H3; [simpl; eapply live_eat; eauto|].
  destruct (eat "_" stream) as [s'|] eqn:H4; [simpl; eapply live_eat; eauto|].
  destruct (matchStr "~~" stream) as [s'|] eqn:H5;
    [simpl; eapply live_matchStr; eauto; simpl; lia|].
  reflexivity.
Qed.

Lemma fallback_moved s0 ans stream st :
  live s0 stream -> moved s0 (fallback ans stream st).
Proof.
  intros Hl. unfold fallback, meanlessCharsRE, moved.
  apply (live_after _ s0 stream Hl). simpl. lia.
Qed.

Lemma mixablePart_moved s0 atB stream st :
  live s0 stream -> moved s0 (mixablePart atB stream st).
Proof.
  intros Hl. unfold mixablePart. cbv zeta.
  pose proof (linkPart_moved s0 atB (nstyle st) (initialStyle (nstyle st)) stream st Hl) as H1.
  destruct (linkPart _ _ _ _ _) as [o|s1 st1]; [exact H1|].
  pose proof (escapePart_moved s0 (nstyle st) (initialStyle (nstyle st)) s1 st1 H1) as H2.
  destruct (escapePart _ _ _ _) as [o|s2 st2]; [exact H2|]. subst s2.
  pose proof (emphasisPart_moved s0 (initialStyle (nstyle st)) s1 st2 H1) as H3.
  destruct (emphasisPart _ _ _) as [o|s3 st3]; [exact H3|]. subst s3.
  now apply fallback_moved.
Qed.

Lemma mathOpen_live stream s' d :
  more stream -> mathOpen stream = (s', d) ->
  live stream s' /\ (d <> None -> (pos stream < pos s')%nat).
Proof.
  intros Hm. pose proof (live_start stream Hm) as Hl. unfold mathOpen.
  destruct (matchRE dollarsRE true stream) as [[n s1]|] eqn:Hd.
  - unfold dollarsRE in Hd.
    assert (Hmv : advance stream s1 /\ (pos stream < pos s1)%nat)
      by (refine (live_match _ stream stream n s1 Hl _ Hd); simpl; lia).
    destruct Hmv as [Ha Hlt].
    destruct (_ || _); intros H; inversion H; subst; (split; [split; auto | auto]).
  - intros H. inversion H; subst. split; [exact Hl | congruence].
Qed.

Lemma token_inline_moved stream st : more stream -> moved stream (token_inline stream st).
Proof.
  intros Hm. pose proof (live_start stream Hm) as Hl.
  unfold token_inline. cbv zeta.
  remember (set_combineTokens (CombineBool true) _) as st0 eqn:Hst0. clear Hst0.
  destruct (bool_decide _).
  - destruct (matchRE dashRE true stream) as [[n s']|] eqn:Hd.
    { simpl. unfold dashRE in Hd. refine (live_match _ stream stream n s' Hl _ Hd); simpl; lia. }
    destruct (matchRE inlineCodeRE true stream) as [[n s']|] eqn:Hc.
    { simpl. unfold inlineCodeRE in Hc.
      refine (live_match _ stream stream n s' Hl _ Hc); simpl; lia. }
    destruct (mathOpen stream) as [s' d] eqn:Ho.
    apply mathOpen_live in Ho; [|exact Hm]. destruct Ho as [Hl' Hd'].
    destruct d as [d|]; [simpl; split; [apply Hl' | apply Hd'; discriminate]|].
    pose proof (tablePart_moved stream s' st0 Hl') as Ht.
    destruct (tablePart s' st0) as [o|s1 st1]; [exact Ht|]. subst s1.
    now apply mixablePart_moved.
  - destruct (matchRE inlineCodeRE true stream) as [[n s']|] eqn:Hc.
    { simpl. unfold inlineCodeRE in Hc.
      refine (live_match _ stream stream n s' Hl _ Hc); simpl; lia. }
    destruct (mathOpen stream) as [s' d] eqn:Ho.
    apply mathOpen_live in Ho; [|exact Hm]. destruct Ho as [Hl' Hd'].
    destruct d as [d|]; [simpl; split; [apply Hl' | apply Hd'; discriminate]|].
    pose proof (tablePart_moved stream s' st0 Hl') as Ht.
    destruct (tablePart s' st0) as [o|s1 st1]; [exact Ht|]. subst s1.
    now apply mixablePart_moved.
Qed.

(** Progress: in a state where [extra] is typed, the levels of the stack are
    as the rebuild step leaves them and the index of listSpace is an index of
    the stack, a call on a stream with a character to read returns and moves
    the stream forward, within the line. *)
Theorem token_moved stream st :
  typed st -> stackOk (listSpaceStack st) -> indexInRange st ->
  more stream -> moved stream (token stream st).
Proof.
  intros Ht Hok Hidx Hm. unfold token. cbv zeta.
  remember (set_combineTokens CombineNull st) as st0 eqn:Hst0.
  assert (Ht0 : typed st0) by (subst st0; exact Ht).
  assert (Hok0 : stackOk (listSpaceStack st0)) by (subst st0; exact Hok).
  assert (Hidx0 : indexInRange st0) by (subst st0; exact Hidx).
  clear Hst0 Ht Hok Hidx.
  assert (Hrest : forall st1,
            listSpaceStack st1 = listSpaceStack st0 -> extra st1 = extra st0 ->
            (inside st1 = Some listSpace -> inside st0 = Some listSpace) ->
            moved stream (if bool_decide (inside st1 = Some listSpace)
                          then token_listSpace stream st1 else token_inline stream st1)).
  { intros st1 Hs He Hi.
    destruct (bool_decide_reflect (inside st1 = Some listSpace)) as [Hin|Hin];
      [|now apply token_inline_moved].
    destruct (Hidx0 (Hi Hin)) as (n & Hn & Hlt).
    apply (token_listSpace_moved stream st1 n); rewrite ?Hs, ?He; auto. }
  assert (Hline : moved stream
            (match (if (pos stream =? 0)%nat then lineStart stream st0
                    else Next stream st0) with
             | Done o => o
             | Next s1 st1 =>
                 if bool_decide (inside st1 = Some listSpace)
                 then token_listSpace s1 st1 else token_inline s1 st1
             end)).
  { destruct (Nat.eqb_spec (pos stream) 0) as [Hpos|Hpos]; [|now apply Hrest].
    pose proof (lineStart_moved stream st0 Hpos Hm) as Hl.
    destruct (lineStart stream st0) as [o|s1 st1]; [exact Hl|].
    destruct Hl as [-> [(Hin & He & Hs)|(Hs & He & Hi)]]; [|now apply Hrest].
    rewrite bool_decide_eq_true_2 by exact Hin.
    apply (token_listSpace_moved stream st1 0); auto.
    - rewrite Hs. now apply rebuildStack_ok.
    - rewrite Hs. pose proof (rebuildStack_nonempty (listSpaceStack st0) (indentation stream)).
      destruct (rebuildStack _ _); [contradiction | simpl; lia]. }
  destruct (inside st0) as [[| | | |]|] eqn:Hin; try exact Hline.
  - now apply token_math_moved.
  - now apply token_codeFence_moved.
Qed.

Corollary reachable_token_moved stream st :
  reachable st -> indexInRange st -> more stream -> moved stream (token stream st).
Proof.
  intros Hr. apply token_moved; [now apply reachable_typed | now apply reachable_stackOk].
Qed.

(** ** The stream is only moved *)

Lemma sameLine_refl s : sameLine s s.
Proof. unfold sameLine. now destruct s. Qed.

Lemma sameLine_trans s1 s2 s3 : sameLine s1 s2 -> sameLine s2 s3 -> sameLine s1 s3.
Proof. unfold sameLine. intros H1 H2. rewrite H2, H1. reflexivity. Qed.

Lemma sameLine_set_pos s p : sameLine s (set_pos p s).
Proof. reflexivity. Qed.

Lemma next_sameLine s : sameLine s (next s).2.
Proof. unfold next. destruct (peek s); [apply sameLine_set_pos | apply sameLine_refl]. Qed.

Lemma eat_sameLine c s s' : eat c s = Some s' -> sameLine s s'.
Proof.
  unfold eat. destruct (peek s); [|discriminate].
  destruct (Ascii.eqb _ _); [|discriminate]. intros H. inversion H. apply sameLine_set_pos.
Qed.

Lemma matchRE_sameLine r consume s n s' : matchRE r consume s = Some (n, s') -> sameLine s s'.
Proof.
  unfold matchRE. destruct (exec r (rest s)) as [[[|i] e]|]; try discriminate.
  intros H. inversion H. destruct consume; [apply sameLine_set_pos | apply sameLine_refl].
Qed.

Lemma matchStr_sameLine p s s' : matchStr p s = Some s' -> sameLine s s'.
Proof.
  unfold matchStr. destruct (prefixStr _ _); [|discriminate].
  intros H. inversion H. apply sameLine_set_pos.
Qed.

Lemma after_sameLine {A} (x : option (A * StringStream)) s s1 :
  (forall a s', x = Some (a, s') -> sameLine s s') -> sameLine s s1 ->
  sameLine s (after x s1).
Proof. intros Hx H1. destruct x as [[a s']|]; simpl; eauto. Qed.

Lemma quoteLoop_sameLine fuel s q : sameLine s (quoteLoop fuel s q).1.
Proof.
  revert s q. induction fuel as [|fuel IH]; intros s q; simpl; [apply sameLine_refl|].
  destruct (matchRE quoteMoreRE true s) as [[n s']|] eqn:Hm; [|apply sameLine_refl].
  eapply sameLine_trans; [eapply matchRE_sameLine; eauto | apply IH].
Qed.

Lemma eatIndent_sameLine fuel s w : sameLine s (eatIndent fuel s w).1.
Proof.
  revert s w. induction fuel as [|fuel IH]; intros s w; simpl; [apply sameLine_refl|].
  destruct (0 <? w)%Z; [|apply sameLine_refl].
  pose proof (next_sameLine s) as Hn. destruct (next s) as [c s']. simpl in Hn.
  destruct (charIs tab c); [eapply sameLine_trans; [exact Hn | apply IH]|].
  destruct (charIs space c); [eapply sameLine_trans; [exact Hn | apply IH]|].
  exact Hn.
Qed.

Lemma mathOpen_sameLine s s' d : mathOpen s = (s', d) -> sameLine s s'.
Proof.
  unfold mathOpen. destruct (matchRE dollarsRE true s) as [[n s1]|] eqn:Hm.
  - apply matchRE_sameLine in Hm. destruct (_ || _); intros H; now inversion H; subst.
  - intros H. inversion H. apply sameLine_refl.
Qed.

Lemma linkSwitch_sameLine ns_link s v s' : linkSwitch ns_link s = (v, s') -> sameLine s s'.
Proof.
  unfold linkSwitch.
  repeat case_match; intros Hres; inversion Hres; subst;
    eauto using sameLine_refl, next_sameLine, eat_sameLine, matchStr_sameLine, matchRE_sameLine.
Qed.

Ltac same_line :=
  eauto using sameLine_refl, sameLine_trans, next_sameLine, eat_sameLine, matchStr_sameLine,
    matchRE_sameLine, sameLine_set_pos.

Lemma token_math_sameLine stream st : keepsLine stream (token_math stream st).
Proof.
  unfold token_math. destruct (extra st) as [| |d]; try exact I.
  assert (Hbody : sameLine stream (after (matchRE mathBodyRE true stream) (next stream).2))
    by (apply after_sameLine; same_line).
  destruct (_ || _); [|exact Hbody].
  destruct (matchStr d stream) eqn:Hm; [|exact Hbody]. simpl. same_line.
Qed.

Lemma token_codeFence_sameLine stream st : keepsLine stream (token_codeFence stream st).
Proof.
  unfold token_codeFence. cbv zeta.
  destruct (_ =? _)%nat; [|apply sameLine_set_pos].
  destruct (matchRE fenceEndRE true stream) as [[n s']|] eqn:Hm; simpl; same_line.
Qed.

Lemma lineStart_sameLine stream st :
  match lineStart stream st with
  | Done o => keepsLine stream o
  | Next s' _ => s' = stream
  end.
Proof.
  unfold lineStart. cbv zeta.
  destruct (matchRE fenceRE true stream) as [[n s1]|] eqn:Hf; [simpl; same_line|].
  destruct (_ && _); [simpl; same_line|].
  destruct (_ && _); [simpl; same_line|].
  destruct (matchRE quoteRE true stream) as [[n s1]|] eqn:Hq.
  { pose proof (quoteLoop_sameLine (String.length (rest s1)) s1 1) as Hl.
    destruct (quoteLoop _ s1 1) as [s2 q]. simpl in *. same_line. }
  destruct (negb _); [simpl; same_line|].
  destruct (matchRE headerRE true stream) as [[n s1]|] eqn:Hh.
  { destruct (exec hashesRE _) as [[i e]|]; simpl; same_line. }
  destruct (_ || _); reflexivity.
Qed.

Lemma token_listSpace_sameLine stream st : keepsLine stream (token_listSpace stream st).
Proof.
  unfold token_listSpace. cbv zeta.
  destruct (extraIsStr _); [exact I|].
  destruct (_ && _ && _); [simpl; apply after_sameLine; same_line|].
  match goal with
  | |- context [match ?x with Some w => eatIndent (Z.to_nat w) stream w | None => _ end] =>
      destruct x as [w|]
  end.
  - pose proof (eatIndent_sameLine (Z.to_nat w) stream w) as He.
    destruct (eatIndent _ stream w) as [s' c]. exact He.
  - apply sameLine_refl.
Qed.

Lemma tablePart_sameLine stream st :
  match tablePart stream st with
  | Done o => keepsLine stream o
  | Next s' _ => s' = stream
  end.
Proof.
  unfold tablePart, tableSep. cbv zeta.
  destruct (_ && _ && _); [|reflexivity].
  destruct (eat "|" stream) as [s'|] eqn:He; [|reflexivity].
  apply eat_sameLine in He.
  destruct (negb (truthyStr (table st))); [destruct (_ && _)|]; exact He.
Qed.

Lemma linkPart_sameLine atB ns ans stream st :
  match linkPart atB ns ans stream st with
  | Done o => keepsLine stream o
  | Next s' _ => sameLine stream s'
  end.
Proof.
  unfold linkPart, linkBegin. cbv zeta.
  destruct (_ =? _)%Z.
  - destruct (matchRE bracketRE false stream); [apply next_sameLine | apply sameLine_refl].
  - destruct (linkSwitch _ stream) as [v s'] eqn:Hsw. apply linkSwitch_sameLine in Hsw.
    destruct v; exact Hsw.
Qed.

Lemma escapePart_sameLine ns ans stream st :
  match escapePart ns ans stream st with
  | Done o => keepsLine stream o
  | Next s' _ => s' = stream
  end.
Proof.
  unfold escapePart.
  destruct (negb _); [apply next_sameLine|].
  destruct (matchRE escapeRE true stream) as [[n s']|] eqn:Hm; [|reflexivity].
  simpl. same_line.
Qed.

Lemma emphasisPart_sameLine ans stream st :
  match emphasisPart ans stream st with
  | Done o => keepsLine stream o
  | Next s' _ => s' = stream
  end.
Proof.
  unfold emphasisPart.
  destruct (_ || _); [|reflexivity].
  destruct (matchStr "**" stream) eqn:H1; [simpl; same_line|].
  destruct (matchStr "__" stream) eqn:H2; [simpl; same_line|].
  destruct (eat "*" stream) eqn:H3; [simpl; same_line|].
  destruct (eat "_" stream) eqn:H4; [simpl; same_line|].
  destruct (matchStr "~~" stream) eqn:H5; [simpl; same_line|].
  reflexivity.
Qed.

Lemma mixablePart_sameLine atB stream st : keepsLine stream (mixablePart atB stream st).
Proof.
  unfold mixablePart. cbv zeta.
  pose proof (linkPart_sameLine atB (nstyle st) (initialStyle (nstyle st)) stream st) as H1.
  destruct (linkPart _ _ _ _ _) as [o|s1 st1]; [exact H1|].
  pose proof (escapePart_sameLine (nstyle st) (initialStyle (nstyle st)) s1 st1) as H2.
  destruct (escapePart _ _ _ _) as [[|style s2' st2']|s2 st2]; [exact I | | subst s2].
  { simpl in *. same_line. }
  pose proof (emphasisPart_sameLine (initialStyle (nstyle st)) s1 st2) as H3.
  destruct (emphasisPart _ _ _) as [[|style s3' st3']|s3 st3]; [exact I | | subst s3].
  { simpl in *. same_line. }
  unfold fallback. simpl.
  eapply sameLine_trans; [exact H1|]. apply after_sameLine; same_line.
Qed.

Lemma token_inline_sameLine stream st : keepsLine stream (token_inline stream st).
Proof.
  unfold token_inline. cbv zeta.
  remember (set_combineTokens (CombineBool true) _) as st0 eqn:Hst0. clear Hst0.
  destruct (if bool_decide _ then _ else _) as [[n s']|] eqn:Hd.
  { simpl. destruct (bool_decide _); [same_line | discriminate]. }
  destruct (matchRE inlineCodeRE true stream) as [[n s']|] eqn:Hc; [simpl; same_line|].
  destruct (mathOpen stream) as [s' d] eqn:Ho. apply mathOpen_sameLine in Ho.
  destruct d as [d|]; [exact Ho|].
  pose proof (tablePart_sameLine s' st0) as Ht.
  destruct (tablePart s' st0) as [[|style s1 st1]|s1 st1]; [exact I | | subst s1].
  { simpl in *. same_line. }
  pose proof (mixablePart_sameLine (atBeginning st) s' st1) as Hmx.
  destruct (mixablePart _ s' st1); [exact I|]. simpl in *. same_line.
Qed.

Theorem token_sameLine stream st style stream' st' :
  token stream st = Ret style stream' st' -> sameLine stream stream'.
Proof.
  unfold token. cbv zeta. intros H.
  remember (set_combineTokens CombineNull st) as st0 eqn:Hst0. clear Hst0.
  assert (Hrest : forall st1,
            (if bool_decide (inside st1 = Some listSpace)
             then token_listSpace stream st1 else token_inline stream st1)
            = Ret style stream' st' -> sameLine stream stream').
  { intros st1 Hr. destruct (bool_decide _).
    - pose proof (token_listSpace_sameLine stream st1) as Hl. now rewrite Hr in Hl.
    - pose proof (token_inline_sameLine stream st1) as Hi. now rewrite Hr in Hi. }
  assert (Hline : (match (if (pos stream =? 0)%nat then lineStart stream st0
                          else Next stream st0) with
                   | Done o => o
                   | Next s1 st1 =>
                       if bool_decide (inside st1 = Some listSpace)
                       then token_listSpace s1 st1 else token_inline s1 st1
                   end) = Ret style stream' st' -> sameLine stream stream').
  { clear H. intros H. destruct (pos stream =? 0)%nat; [|now apply (Hrest st0)].
    pose proof (lineStart_sameLine stream st0) as Hl.
    destruct (lineStart stream st0) as [o|s1 st1]; [now subst o|].
    subst s1. now apply (Hrest st1). }
  destruct (inside st0) as [[| | | |]|]; try (now apply Hline).
  - pose proof (token_math_sameLine stream st0) as Hm. now rewrite H in Hm.
  - pose proof (token_codeFence_sameLine stream st0) as Hm. now rewrite H in Hm.
Qed.

(** The bound of the scanning loop is enough: every call that the loop goes
    on after has moved the position forward in the same line. *)
Lemma runLine_fuel fuel stream st :
  (String.length (str stream) - pos stream <= fuel)%nat ->
  runLine (S fuel) stream st = runLine fuel stream st.
Proof.
  revert stream st. induction fuel as [|fuel IH]; intros stream st Hlen.
  - simpl. unfold eol. destruct (Nat.leb_spec (String.length (str stream)) (pos stream));
      [reflexivity | lia].
  - change (runLine (S (S fuel)) stream st)
      with (if eol stream then ([], st)
            else match token stream st with
                 | Stuck => ([Stuck], st)
                 | Ret style stream' state' =>
                     if (pos stream' <=? pos stream)%nat
                     then ([Ret style stream' state'], state')
                     else let '(calls, final) := runLine (S fuel) stream' state' in
                          (Ret style stream' state' :: calls, final)
                 end).
    change (runLine (S fuel) stream st)
      with (if eol stream then ([], st)
            else match token stream st with
                 | Stuck => ([Stuck], st)
                 | Ret style stream' state' =>
                     if (pos stream' <=? pos stream)%nat
                     then ([Ret style stream' state'], state')
                     else let '(calls, final) := runLine fuel stream' state' in
                          (Ret style stream' state' :: calls, final)
                 end).
    destruct (eol stream); [reflexivity|].
    destruct (token stream st) as [|style stream' state'] eqn:Htok; [reflexivity|].
    destruct (Nat.leb_spec (pos stream') (pos stream)); [reflexivity|].
    rewrite IH; [reflexivity|].
    apply token_sameLine in Htok. rewrite Htok. simpl. lia.
Qed.

(** * The claims *)

(** ** [blankLine] *)

(** C3: after [blankLine] the quote level is 0, the list stack is empty, the
    table is [null] with column and row 0, the style mask is 0 (the whole of
    [nstyle] is), [atBeginning] and [prevLineIsEmpty] are true; the call
    returns the code-block background style exactly when [inside] was
    [codeFence] on entry, and [null] otherwise. *)
Theorem blankLine_resets (s : State) :
  let '(style, s') := blankLine s in
  quoteLevel s' = 0%nat
  /\ listSpaceStack s' = []
  /\ table s' = None
  /\ tableCol s' = 0%nat
  /\ tableRow s' = 0%nat
  /\ nstyle s' = 0%Z
  /\ inlineStyleMask s' = 0%Z
  /\ atBeginning s' = true
  /\ prevLineIsEmpty s' = true
  /\ (inside s = Some codeFence ->
      style = Some "line-HyperMD-codeblock line-background-HyperMD-codeblock-bg")
  /\ (inside s <> Some codeFence -> style = None).
Proof.
  unfold blankLine. simpl. repeat split; try reflexivity.
  - intros H. now rewrite bool_decide_eq_true_2.
  - intros H. now rewrite bool_decide_eq_false_2.
Qed.

(** ** The link and footnote states *)

(** C4: from link state None, a footnote definition at line start enters
    FootnoteName on the opening bracket and leaves it after the closing
    bracket and colon; an inline link goes LinkText, LinkUrl after the closing
    bracket, None after the closing parenthesis; a bracket with no parenthesis
    or bracket after it is BareLink, None after the closing bracket; a
    footnote reference in mid-line is FootnoteRefLead on the bracket,
    FootnoteRef after the caret, None after the closing bracket. *)
Theorem link_footnote_transitions :
  linkStates "[^1]: note" =
    [("[", Some FootnoteName); ("^", Some FootnoteName); ("1", Some FootnoteName);
     ("]:", Some LinkNone); (" note", Some LinkNone)]
  /\ linkStates "[text](url)" =
    [("[", Some LinkText); ("text", Some LinkText); ("]", Some LinkUrl);
     ("(", Some LinkUrl); ("url", Some LinkUrl); (")", Some LinkNone)]
  /\ linkStates "please see [page1] to continue" =
    [("please see ", Some LinkNone); ("[", Some BareLink); ("page1", Some BareLink);
     ("]", Some LinkNone); (" to continue", Some LinkNone)]
  /\ linkStates "a [^ref] b" =
    [("a ", Some LinkNone); ("[", Some FootnoteRefLead); ("^", Some FootnoteRef);
     ("ref", Some FootnoteRef); ("]", Some LinkNone); (" b", Some LinkNone)].
Proof. repeat split; vm_compute; reflexivity. Qed.

(** ** The list stack, rebuilt *)

(** C7: with the stack [2,4], a line indented by 2 leaves [2] and a line
    indented by 7 leaves [2,4,1]; both for the rebuild step alone and for the
    call of [token] that runs it. *)
Theorem list_indent_rebuild :
  rebuildStack [2; 4]%Z 2 = [2]%Z
  /\ rebuildStack [2; 4]%Z 7 = [2; 4; 1]%Z
  /\ indentation (lineStream "  - b" 0 None) = 2%Z
  /\ stackAfterFirstCall "  - b" (listState [2; 4]%Z) = Some [2]%Z
  /\ indentation (lineStream "       - c" 0 None) = 7%Z
  /\ stackAfterFirstCall "       - c" (listState [2; 4]%Z) = Some [2; 4; 1]%Z.
Proof. repeat split; vm_compute; reflexivity. Qed.

(** ** Emphasis *)

(** Toggling a bit twice gives back what a mask selects of [nstyle]; the
    calls that toggle are with the delimiters of emphasis, further on. *)
Lemma toggle_twice_masked (n b m : Z) :
  (0 <= m < 2 ^ 31)%Z -> js_and (js_xor (js_xor n b) b) m = js_and n m.
Proof.
  intros Hm. rewrite !js_and_land by exact Hm.
  rewrite !land_js_xor by exact Hm.
  now rewrite Z.lxor_assoc, Z.lxor_nilpotent, Z.lxor_0_r.
Qed.

(** ** Link state and style bits *)

(** C9: in one call of [token] the link sub-state and the four standalone
    style bits never both change: a call that changes the link sub-state
    leaves the four bits as they were, and a call that changes one of the four
    bits (a toggle, an escape set or cleared) leaves the link sub-state as it
    was. *)
Theorem link_and_style_independent stream st style stream' st' :
  token stream st = Ret style stream' st' ->
  (linkState st' <> linkState st ->
   standaloneBits (nstyle st') = standaloneBits (nstyle st))
  /\ (standaloneBits (nstyle st') <> standaloneBits (nstyle st) ->
      linkState st' = linkState st).
Proof.
  intros H. apply token_nstyleStep, nstyleStep_frame in H.
  unfold linkState. fold (linkBits (nstyle st)) (linkBits (nstyle st')).
  destruct H as [H|H]; split; intros Hne; congruence.
Qed.

Lemma link_and_style_independent_witness :
  token (lineStream "[text](url)" 0 None) startState
    = Ret (Some "hmd-link ") (set_pos 1 (lineStream "[text](url)" 0 None)) afterOpeningBracket
  /\ (linkState afterOpeningBracket <> linkState startState ->
      standaloneBits (nstyle afterOpeningBracket) = standaloneBits (nstyle startState))
  /\ (standaloneBits (nstyle afterOpeningBracket) <> standaloneBits (nstyle startState) ->
      linkState afterOpeningBracket = linkState startState).
Proof.
  split; [vm_compute; reflexivity|].
  apply (link_and_style_independent (lineStream "[text](url)" 0 None) startState
           (Some "hmd-link ") (set_pos 1 (lineStream "[text](url)" 0 None))).
  vm_compute; reflexivity.
Defined.

(** ** The levels of the list stack *)

(** C10 as it is written fails on its last clause.  In [staleDoc] the tab is
    consumed whole for the first level, of width 1, so the line ends inside
    listSpace with index 1; [blankLine] then empties the stack and leaves
    [inside] and [extra] as they are: no width is left at the index. *)
Lemma stale_index_counterexample :
  reachable (scanDoc staleDoc 0 startState)
  /\ inside (scanDoc staleDoc 0 startState) = Some listSpace
  /\ extra (scanDoc staleDoc 0 startState) = ExtraNum 1
  /\ listSpaceStack (scanDoc staleDoc 0 startState) = []
  /\ ~ widthAtLeastOne (scanDoc staleDoc 0 startState).
Proof.
  split; [apply scanDoc_reachable, reach_start|].
  repeat split; try (vm_compute; reflexivity).
  intros H.
  destruct (H ltac:(vm_compute; reflexivity) 1%nat ltac:(vm_compute; reflexivity) ltac:(lia))
    as (w & Hw & _).
  vm_compute in Hw. discriminate.
Qed.

(** C10, amended: in every reachable state every level of the stack is
    non-negative and every level at index 1 or more is positive; the rebuild
    step pushes a 0 only as the single level of an otherwise empty stack;
    and inside listSpace the index is a number of 1 or more and, as long as
    it is an index of the stack, the width to consume there is at least 1. *)
Theorem list_levels_positive (st : State) :
  reachable st ->
  (forall (i : nat) (w : Z), listSpaceStack st !! i = Some w ->
     (0 <= w)%Z /\ ((1 <= i)%nat -> (1 <= w)%Z))
  /\ (forall ind : Z,
        (exists n, rebuildStack (listSpaceStack st) ind = take n (listSpaceStack st)
                   /\ rebuildStack (listSpaceStack st) ind <> [])
        \/ (exists n w, (0 < w)%Z
                        /\ rebuildStack (listSpaceStack st) ind
                           = (take n (listSpaceStack st) ++ [w])%list)
        \/ rebuildStack (listSpaceStack st) ind = [0%Z])
  /\ (inside st = Some listSpace ->
      exists n, extra st = ExtraNum n /\ (1 <= n)%nat
                /\ forall w, listSpaceStack st !! n = Some w -> (1 <= w)%Z).
Proof.
  intros Hr. split; [|split].
  - exact (reachable_stackOk st Hr).
  - intros ind. apply rebuildStack_shape.
  - intros Hin. pose proof (reachable_typed st Hr) as Ht.
    unfold typed in Ht. rewrite Hin in Ht. destruct Ht as [n Hn].
    exists (S n). split; [exact Hn|]. split; [lia|].
    intros w Hw. apply (reachable_stackOk st Hr) in Hw. apply Hw. lia.
Qed.

Lemma nestedListState_reachable : reachable nestedListState.
Proof.
  apply (reach_token (lineStream "   c" 2 None) (scanDoc ["  - a"; "      - b"] 0 startState)
           (Some "hmd-list-indent hmd-list-indent-1 line-HyperMD-list-line line-HyperMD-list-line-2")
           (set_pos 2 (lineStream "   c" 2 None)) nestedListState).
  - apply scanDoc_reachable, reach_start.
  - vm_compute. reflexivity.
Qed.

Lemma list_levels_positive_witness :
  reachable nestedListState
  /\ inside nestedListState = Some listSpace
  /\ exists n, extra nestedListState = ExtraNum n /\ (1 <= n)%nat
               /\ forall w, listSpaceStack nestedListState !! n = Some w -> (1 <= w)%Z.
Proof.
  split; [exact nestedListState_reachable|].
  split; [reflexivity|].
  destruct (list_levels_positive nestedListState nestedListState_reachable) as (_ & _ & H).
  apply H. reflexivity.
Defined.

(** ** Progress *)

(** C1 fails on the code.  After [staleDoc] (a list item, a line made of
    one tab, an empty line) the state is still inside listSpace with index 1
    while [blankLine] has emptied the stack.  On the next line, [q], nothing
    rebuilds the stack (it is empty and the line is no list item), so the
    first call, at position 0 with one character to read, finds no width at
    the index, consumes nothing and returns a list-indent style with the
    position unchanged; the scanning loop stops on that call.  (In every
    reachable state where the index of listSpace is an index of the stack
    the call does move forward: [reachable_token_moved].) *)
Theorem token_stalls_on_stale_listSpace :
  scanDoc staleDoc 0 startState = staleState
  /\ reachable staleState
  /\ eol plainLine = false
  /\ peek plainLine = Some "q"%char
  /\ token plainLine staleState
     = Ret (Some "hmd-list-indent hmd-list-indent-2") plainLine afterStall
  /\ (scanLine "q" 3 None staleState).1
     = [Ret (Some "hmd-list-indent hmd-list-indent-2") plainLine afterStall].
Proof.
  assert (Hs : scanDoc staleDoc 0 startState = staleState) by (vm_compute; reflexivity).
  split; [exact Hs|].
  split; [rewrite <- Hs; apply scanDoc_reachable, reach_start|].
  repeat split; vm_compute; reflexivity.
Qed.

(** ** Tables *)

(** A pattern that begins with a literal character does not match a text
    that begins with another one. *)
Lemma matchRE_first_char (c : ascii) (l : list regex) consume stream d :
  peek stream = Some d -> Ascii.eqb c d = false ->
  matchRE (Seqs (Bol :: Chr c :: l)) consume stream = None.
Proof.
  intros Hp Hc. unfold matchRE, rest. rewrite (charAt_dropStr _ _ _ Hp).
  rewrite exec_Seqs_Bol. simpl. now rewrite Hc.
Qed.

Lemma leadingPipe_at_start (r : string) : test leadingPipeRE (String "|" r) = true.
Proof. unfold test, leadingPipeRE. rewrite exec_Seqs_Bol. reflexivity. Qed.

Lemma pipe_without_table stream st :
     peek stream = Some "|"%char ->
     nstyle st = 0%Z -> listSpaceStack st = [] -> truthyInside (inside st) = false ->
     table st = None ->
     test leadingPipeRE (str stream) = false ->
     testOpt tableTitleSepRE (lookAhead1 stream) = false ->
     exists st',
       token stream st = Ret None (set_pos (S (pos stream)) stream) st'
       /\ table st' = None /\ tableCol st' = tableCol st /\ tableRow st' = tableRow st.
Proof.
  intros Hpeek Hn Hstack Hin Htab Hlead Hsep.
  assert (Hpos : (pos stream =? 0)%nat = false).
  { apply Nat.eqb_neq. intros Hpos. unfold peek in Hpeek. rewrite Hpos in Hpeek.
    destruct (str stream) as [|c r]; [discriminate|]. simpl in Hpeek.
    inversion Hpeek; subst c. now rewrite leadingPipe_at_start in Hlead. }
  destruct st as [atB ql ns tb tc tr ins stack ple ex ct]. simpl in *. subst ns stack tb.
  unfold token. simpl.
  assert (Hcode : matchRE inlineCodeRE true stream = None)
    by (eapply matchRE_first_char; eauto).
  assert (Hdollar : matchRE dollarsRE true stream = None).
  { unfold matchRE, rest, dollarsRE. rewrite (charAt_dropStr _ _ _ Hpeek).
    rewrite exec_Seqs_Bol. reflexivity. }
  assert (Heat : eat "|" stream = Some (set_pos (S (pos stream)) stream))
    by (unfold eat; now rewrite Hpeek).
  destruct ins as [[| | | |]|]; try discriminate; rewrite Hpos; simpl;
    unfold token_inline, mathOpen, tablePart; simpl; rewrite Hpeek;
    destruct atB; simpl;
    rewrite Hcode, Hdollar; simpl; rewrite Heat; simpl;
    rewrite Hlead, Hsep; simpl; eexists; repeat split.
Qed.

(** C6: the first call on [|a|b|], with [|-|-|] as the following line,
    consumes the pipe, sets the table to T followed by the line number and
    returns the table-title style with the has-separator marker; after both
    lines the table is still set, the row is 1 and the second line was read
    as the separator line.  Conversely a pipe consumed where a table can
    start (no style, no list, no block mode, no table yet), on a line that
    does not begin with a pipe and is not followed by a separator line, gets
    no style and leaves the table fields as they were. *)
Theorem table_detection :
  (forall n,
     token (titleLine n) startState =
     Ret (Some (("line-HyperMD-table-title line-HyperMD-table-title-has_rowsep line-HyperMD-table_"
                 +:+ ("T" +:+ showNat n)
                 +:+ " line-HyperMD-table-row line-HyperMD-table-row-0 ")
                +:+ "hmd-table-sep hmd-table-sep-0 "))
         (set_pos 1 (titleLine n)) (titleState n))
  /\ (table (scanDoc ["|a|b|"; "|-|-|"] 0 startState) = Some "T0"
      /\ tableRow (scanDoc ["|a|b|"; "|-|-|"] 0 startState) = 1%nat
      /\ inside (scanDoc ["|a|b|"; "|-|-|"] 0 startState) = Some tableTitleSep)
  /\ (forall stream st,
        peek stream = Some "|"%char ->
        nstyle st = 0%Z -> listSpaceStack st = [] -> truthyInside (inside st) = false ->
        table st = None ->
        test leadingPipeRE (str stream) = false ->
        testOpt tableTitleSepRE (lookAhead1 stream) = false ->
        exists st',
          token stream st = Ret None (set_pos (S (pos stream)) stream) st'
          /\ table st' = None /\ tableCol st' = tableCol st /\ tableRow st' = tableRow st).
Proof.
  split; [intros n; vm_compute; reflexivity|].
  split; [repeat split; vm_compute; reflexivity|].
  exact pipe_without_table.
Qed.

Lemma table_detection_witness :
  peek (set_pos 1 (lineStream "a|b" 0 None)) = Some "|"%char
  /\ test leadingPipeRE "a|b" = false
  /\ testOpt tableTitleSepRE None = false
  /\ exists st',
       token (set_pos 1 (lineStream "a|b" 0 None)) startState
         = Ret None (set_pos 2 (lineStream "a|b" 0 None)) st'
       /\ table st' = None /\ tableCol st' = 0%nat /\ tableRow st' = 0%nat.
Proof.
  split; [reflexivity|].
  split; [vm_compute; reflexivity|].
  split; [vm_compute; reflexivity|].
  apply (proj2 (proj2 table_detection) (set_pos 1 (lineStream "a|b" 0 None)) startState);
    vm_compute; reflexivity.
Defined.

(** ** Setext header underlines *)

Lemma allChars_append c u v : allChars c u -> allChars c v -> allChars c (u +:+ v).
Proof.
  induction u as [|d u IH]; intros Hu Hv; [exact Hv|].
  destruct Hu as [-> Hu]. rewrite append_cons. split; [reflexivity | now apply IH].
Qed.

Lemma lang_Chr_inv c u : lang (Chr c) u -> u = String c "".
Proof. now inversion 1. Qed.

Lemma lang_Star_Chr c u : lang (Star (Chr c)) u -> allChars c u.
Proof.
  intros H. remember (Star (Chr c)) as r eqn:Hr.
  induction H; try discriminate; [exact I|].
  inversion Hr; subst a. apply lang_Chr_inv in H. subst u.
  rewrite append_cons, append_nil. split; [reflexivity | now apply IHlang2].
Qed.

Lemma lang_AtLeast3_Chr c u :
  lang (AtLeast3 (Chr c)) u ->
  exists w, u = String c (String c (String c w)) /\ allChars c w.
Proof.
  unfold AtLeast3. intros H.
  inversion H as [| | | | | a b u1 v1 H1 H23 | | | | | | |]; subst.
  inversion H23 as [| | | | | a b u2 v2 H2 H3s | | | | | | |]; subst.
  inversion H3s as [| | | | | a b u3 v3 H3 Hs | | | | | | |]; subst.
  apply lang_Chr_inv in H1, H2, H3. subst.
  exists v3. split; [reflexivity | now apply lang_Star_Chr].
Qed.

(** What [/^(?:-{3,}|={3,})$/] matches: three or more dashes, or three or
    more equal signs, and nothing else. *)
Lemma headerLine_chars (s : string) :
  test headerLineRE s = true ->
  exists c w, (c = "-"%char \/ c = "="%char)
              /\ s = String c (String c (String c w)) /\ allChars c w.
Proof.
  unfold test, headerLineRE. rewrite exec_Seqs_Bol.
  intros H. apply bool_decide_eq_true in H.
  destruct (rmatch _ 0 s accept) as [e|] eqn:Hm; [clear H | now destruct H].
  change (rmatch (Seqs [Alt (AtLeast3 (Chr "-")) (AtLeast3 (Chr "=")); Eol]) 0 s accept)
    with (rmatch (Alt (AtLeast3 (Chr "-")) (AtLeast3 (Chr "="))) 0 s
            (fun i' s' => rmatch (Seq Eol Eps) i' s' accept)) in Hm.
  apply rmatch_consumes in Hm. destruct Hm as (u & v & -> & Hu & Hk).
  destruct v; [|discriminate]. rewrite append_empty_r.
  inversion Hu as [| | | | | | a b u' Ha | a b u' Hb | | | | |]; subst;
    [apply lang_AtLeast3_Chr in Ha; destruct Ha as (w & -> & Hw)
    |apply lang_AtLeast3_Chr in Hb; destruct Hb as (w & -> & Hw)];
    eauto 10.
Qed.

(** C5 as it is written fails: three dashes followed by a space match the
    pattern after trimming, the previous line was not blank, and the call at
    column 0 consumes the line as plain text with no style.  (And inside a
    code fence a line of three dashes is code-block content: the line-prefix
    classifier is not reached.) *)
Lemma setext_trimmed_counterexample :
  test headerLineRE (trim "--- ") = true
  /\ prevLineIsEmpty startState = false
  /\ (exists st', token (lineStream "--- " 0 None) startState
                  = Ret None (skipToEnd (lineStream "--- " 0 None)) st')
  /\ (exists st', token (lineStream "---" 0 None) (set_inside (Some codeFence) startState)
                  = Ret (Some "line-HyperMD-codeblock line-background-HyperMD-codeblock-bg")
                        (skipToEnd (lineStream "---" 0 None)) st').
Proof.
  split; [vm_compute; reflexivity|].
  split; [reflexivity|].
  split; eexists; vm_compute; reflexivity.
Qed.

(** C5, amended: at column 0, outside math and a code fence, when the line
    itself (not trimmed) matches the pattern and the previous line was not
    blank, the call consumes the whole line and returns the header-line style
    of level 1 when the line is made of equal signs and of level 2 when it is
    made of dashes. *)
Theorem setext_underline stream st :
  pos stream = 0%nat ->
  inside st <> Some math -> inside st <> Some codeFence ->
  prevLineIsEmpty st = false ->
  test headerLineRE (str stream) = true ->
  exists level st',
    token stream st = Ret (Some (headerLineStyle level)) (skipToEnd stream) st'
    /\ ((level = 1%nat /\ allChars "=" (str stream))
        \/ (level = 2%nat /\ allChars "-" (str stream)))
    /\ (3 <= String.length (str stream))%nat.
Proof.
  intros Hpos Hm Hc Hprev Htest.
  destruct (headerLine_chars _ Htest) as (c & w & Hcw & Hstr & Hw).
  assert (Hfence : matchRE fenceRE true stream = None).
  { unfold matchRE, rest, fenceRE. rewrite Hpos, Hstr. simpl dropStr.
    rewrite exec_Seqs_Bol. destruct Hcw as [-> | ->]; reflexivity. }
  assert (Hind : indentation stream = 0%Z).
  { unfold indentation. rewrite Hstr. destruct Hcw as [-> | ->]; reflexivity. }
  exists (if Ascii.eqb c "=" then 1%nat else 2%nat).
  assert (Hline : exists st',
            lineStart stream (set_combineTokens CombineNull st)
            = Done (Ret (Some (headerLineStyle (if Ascii.eqb c "=" then 1%nat else 2%nat)))
                        (skipToEnd stream) st')).
  { destruct st as [atB ql ns tb tc tr ins stack ple ex ct]. simpl in *. subst ple.
    unfold lineStart. cbv zeta. rewrite Hfence, Hind, Htest.
    replace (4 <=? 0)%Z with false by reflexivity. rewrite andb_false_r.
    assert (Hlvl : charIs "=" (charAt 0 (str stream)) = Ascii.eqb c "=")
      by (rewrite Hstr; reflexivity).
    rewrite Hlvl.
    simpl. destruct (truthyStr tb); [destruct (_ && _)|]; simpl; eexists; reflexivity. }
  destruct Hline as [st' Hline].
  exists st'. split; [|split].
  - unfold token. cbv zeta. rewrite Hline, Hpos.
    change (inside (set_combineTokens CombineNull st)) with (inside st).
    destruct (inside st) as [[| | | |]|]; try contradiction; reflexivity.
  - rewrite Hstr. destruct Hcw as [-> | ->]; simpl; auto 10.
  - rewrite Hstr. simpl. lia.
Qed.

Lemma setext_underline_witness :
  pos (lineStream "====" 1 None) = 0%nat
  /\ prevLineIsEmpty startState = false
  /\ test headerLineRE (str (lineStream "====" 1 None)) = true
  /\ exists level st',
       token (lineStream "====" 1 None) startState
         = Ret (Some (headerLineStyle level)) (skipToEnd (lineStream "====" 1 None)) st'
       /\ ((level = 1%nat /\ allChars "=" (str (lineStream "====" 1 None)))
           \/ (level = 2%nat /\ allChars "-" (str (lineStream "====" 1 None))))
       /\ (3 <= String.length (str (lineStream "====" 1 None)))%nat.
Proof.
  split; [reflexivity|]. split; [reflexivity|]. split; [vm_compute; reflexivity|].
  apply (setext_underline (lineStream "====" 1 None) startState);
    first [discriminate | vm_compute; reflexivity].
Defined.

(** ** Cloning *)

Lemma alloc_fresh (h : gmap Ref.loc (list Z)) (a : list Z) (l : Ref.loc) :
  is_Some (h !! l) -> (Ref.alloc h a).2 <> l.
Proof.
  intros Hl Heq. unfold Ref.alloc in Heq. simpl in Heq. subst l.
  apply elem_of_dom in Hl. now apply is_fresh in Hl.
Qed.

(** On snapshots the operations by reference are the operations above. *)
Lemma snapshot_copyState h s st :
  Ref.snapshot h s = Some st ->
  exists h' c, Ref.copyState h s = Some (h', c) /\ Ref.snapshot h' c = Some (copyState st).
Proof.
  unfold Ref.snapshot, Ref.copyState, Ref.alloc.
  destruct (h !! listSpaceStack s) as [a|] eqn:Ha; [|discriminate].
  intros H. inversion H; subst st.
  eexists _, _. split; [reflexivity|].
  simpl. now rewrite lookup_insert_eq.
Qed.

Lemma snapshot_blankLine h s st :
  Ref.snapshot h s = Some st ->
  Ref.snapshot (Ref.blankLine h s).1.1 (Ref.blankLine h s).2 = Some (blankLine st).2
  /\ (Ref.blankLine h s).1.2 = (blankLine st).1.
Proof.
  unfold Ref.snapshot, Ref.blankLine, Ref.alloc.
  destruct (h !! listSpaceStack s) as [a|] eqn:Ha; [|discriminate].
  intros H. inversion H; subst st. simpl.
  now rewrite lookup_insert_eq.
Qed.

Lemma snapshot_token stream h s st style stream' st' :
  Ref.snapshot h s = Some st ->
  token stream st = Ret style stream' st' ->
  exists h' s', Ref.token stream h s = Some (style, stream', h', s')
                /\ Ref.snapshot h' s' = Some st'
                /\ listSpaceStack s' = listSpaceStack s.
Proof.
  intros Hs Ht. unfold Ref.token. rewrite Hs, Ht.
  eexists _, _. split; [reflexivity|]. split; [|reflexivity].
  unfold Ref.snapshot. simpl. rewrite lookup_insert_eq.
  now destruct st'.
Qed.

(** C2: [copyState] gives a state whose members are those of [s], with a
    list stack that holds the same levels in an array of its own: whatever is
    written afterwards into the array of the copy, by any update or by a call
    of [token] on the copy, leaves the array of the original as it was, and
    the other way round. *)
Theorem copyState_independent (h : gmap Ref.loc (list Z)) (s : Ref.StateRef) (a : list Z) :
  h !! listSpaceStack s = Some a ->
  exists h' c,
    Ref.copyState h s = Some (h', c)
    /\ atBeginning c = atBeginning s
    /\ quoteLevel c = quoteLevel s
    /\ nstyle c = nstyle s
    /\ table c = table s
    /\ tableCol c = tableCol s
    /\ tableRow c = tableRow s
    /\ inside c = inside s
    /\ prevLineIsEmpty c = prevLineIsEmpty s
    /\ extra c = extra s
    /\ h' !! listSpaceStack c = Some a
    /\ h' !! listSpaceStack s = Some a
    /\ listSpaceStack c <> listSpaceStack s
    /\ (forall a', <[listSpaceStack c := a']> h' !! listSpaceStack s = Some a)
    /\ (forall a', <[listSpaceStack s := a']> h' !! listSpaceStack c = Some a)
    /\ (forall stream style stream' h'' c',
          Ref.token stream h' c = Some (style, stream', h'', c') ->
          h'' !! listSpaceStack s = Some a)
    /\ (forall stream style stream' h'' s',
          Ref.token stream h' s = Some (style, stream', h'', s') ->
          h'' !! listSpaceStack c = Some a).
Proof.
  intros Ha.
  assert (Hne : (Ref.alloc h a).2 <> listSpaceStack s) by (apply alloc_fresh; eauto).
  unfold Ref.copyState. rewrite Ha.
  unfold Ref.alloc in *. simpl in Hne.
  eexists _, _. split; [reflexivity|]. simpl.
  repeat (split; [reflexivity|]).
  split; [apply lookup_insert_eq|].
  split; [now rewrite lookup_insert_ne|].
  split; [exact Hne|].
  split; [intros a'; now rewrite !lookup_insert_ne|].
  split; [intros a'; rewrite lookup_insert_ne by congruence; apply lookup_insert_eq|].
  split.
  - intros stream style stream' h'' c' Ht. unfold Ref.token in Ht.
    destruct (Ref.snapshot _ _); [|discriminate].
    destruct (token stream _); [discriminate|].
    inversion Ht; subst. simpl. now rewrite !lookup_insert_ne.
  - intros stream style stream' h'' s' Ht. unfold Ref.token in Ht.
    destruct (Ref.snapshot _ _); [|discriminate].
    destruct (token stream _); [discriminate|].
    inversion Ht; subst. rewrite lookup_insert_ne by congruence. apply lookup_insert_eq.
Qed.

Lemma copyState_independent_witness :
  oneList !! listSpaceStack (set_listSpaceStack 1%positive startState) = Some [2; 4]%Z
  /\ exists h' c,
       Ref.copyState oneList (set_listSpaceStack 1%positive startState) = Some (h', c)
       /\ h' !! listSpaceStack c = Some [2; 4]%Z
       /\ listSpaceStack c <> 1%positive
       /\ (forall a', <[listSpaceStack c := a']> h' !! 1%positive = Some [2; 4]%Z).
Proof.
  split; [reflexivity|].
  destruct (copyState_independent oneList (set_listSpaceStack 1%positive startState)
              [2; 4]%Z eq_refl)
    as (h' & c & Hc & _ & _ & _ & _ & _ & _ & _ & _ & _ & Hl & _ & Hne & Hw & _).
  exists h', c. auto.
Defined.

(** * Further properties *)

#[local] Arguments Ascii.eqb : simpl never.

(** ** Runs of characters, and the views of one call *)

Lemma dropStr_append (u v : string) : dropStr (String.length u) (u +:+ v) = v.
Proof. induction u as [|c u IH]; [now destruct v|]. rewrite append_cons. simpl. exact IH. Qed.

Lemma length_nchars n c : String.length (nchars n c) = n.
Proof. induction n; simpl; congruence. Qed.

Lemma allb_nchars (p : ascii -> bool) n c : p c = true -> allb p (nchars n c) = true.
Proof. intros H. induction n; simpl; [done|]. now rewrite H. Qed.

(** A star over a class of characters takes the whole run when the rest of
    the pattern matches after it. *)
Lemma star_run (body : nat -> string -> cont -> option nat) (p : ascii -> bool) :
  (forall i s k, body i s k = atom p i s k) ->
  forall run tl fuel i k e,
    allb p run = true -> stopsAt p tl = true ->
    (String.length (run +:+ tl) <= fuel)%nat ->
    k (i + String.length run)%nat tl = Some e ->
    star_loop body fuel i (run +:+ tl) k = Some e.
Proof.
  intros Ha run. induction run as [|c run IH]; intros tl fuel i k e Hrun Hstop Hfuel Hk.
  - rewrite append_nil. simpl in Hk. rewrite Nat.add_0_r in Hk.
    destruct fuel as [|fuel]; simpl; [done|].
    rewrite Ha. destruct tl as [|d tl]; simpl; [done|].
    simpl in Hstop. apply negb_true_iff in Hstop. now rewrite Hstop.
  - simpl in Hrun. apply andb_true_iff in Hrun as [Hc Hrun].
    rewrite append_cons in *. simpl in Hfuel.
    destruct fuel as [|fuel]; [lia|]. simpl.
    rewrite Ha. simpl. rewrite Hc.
    destruct (Nat.ltb_spec (String.length (run +:+ tl)) (S (String.length (run +:+ tl))));
      [|lia].
    rewrite (IH tl fuel (S i) k e); [done|done|done|lia|].
    simpl in Hk. now replace (S i + String.length run)%nat with (i + S (String.length run))%nat by lia.
Qed.

(** Where the run is empty the star matches the empty text only. *)
Lemma star_stop (body : nat -> string -> cont -> option nat) (p : ascii -> bool) :
  (forall i s k, body i s k = atom p i s k) ->
  forall s fuel i k, stopsAt p s = true -> star_loop body fuel i s k = k i s.
Proof.
  intros Ha s fuel i k Hstop. destruct fuel as [|fuel]; simpl; [done|].
  rewrite Ha. destruct s as [|d s]; simpl; [done|].
  unfold stopsAt in Hstop. simpl in Hstop. apply negb_true_iff in Hstop. now rewrite Hstop.
Qed.

(** The class [\s] as the matcher runs it. *)
Lemma atom_ws i s k :
  atom (fun c => isSpace c || false) i s k = atom isSpace i s k.
Proof. unfold atom. destruct s; [done|]. now rewrite orb_false_r. Qed.

(** The same when the rest of the pattern matches nowhere along the run. *)
Lemma star_run_none (body : nat -> string -> cont -> option nat) (p : ascii -> bool) :
  (forall i s k, body i s k = atom p i s k) ->
  forall run tl fuel i k,
    stopsAt p tl = true ->
    (forall j, (j <= String.length run)%nat ->
               k (i + j)%nat (dropStr j (run +:+ tl)) = None) ->
    star_loop body fuel i (run +:+ tl) k = None.
Proof.
  intros Ha run. induction run as [|c run IH]; intros tl fuel i k Hstop Hk.
  - rewrite append_nil. specialize (Hk 0%nat). simpl in Hk.
    rewrite Nat.add_0_r, append_nil in Hk. specialize (Hk (Nat.le_refl _)).
    destruct fuel as [|fuel]; simpl; [done|].
    rewrite Ha. destruct tl as [|d tl]; simpl; [done|].
    simpl in Hstop. apply negb_true_iff in Hstop. now rewrite Hstop.
  - rewrite append_cons.
    assert (H0 : k i (String c (run +:+ tl)) = None).
    { specialize (Hk 0%nat). simpl in Hk. rewrite Nat.add_0_r in Hk. apply Hk. lia. }
    destruct fuel as [|fuel]; simpl; [done|].
    rewrite Ha. simpl. destruct (p c); [|done].
    destruct (Nat.ltb_spec (String.length (run +:+ tl)) (S (String.length (run +:+ tl))));
      [|lia].
    rewrite (IH tl fuel (S i) k); [done|done|].
    intros j Hj. specialize (Hk (S j)). simpl in Hk.
    replace (S i + j)%nat with (i + S j)%nat by lia. apply Hk. lia.
Qed.

Lemma rmatch_OneOf l i s k : rmatch (OneOf l) i s k = atom (fun c => existsb (inCset c) l) i s k.
Proof. reflexivity. Qed.

Lemma rmatch_NoneOf l i s k :
  rmatch (NoneOf l) i s k = atom (fun c => negb (existsb (inCset c) l)) i s k.
Proof. reflexivity. Qed.

Lemma rmatch_Chr c i s k : rmatch (Chr c) i s k = atom (Ascii.eqb c) i s k.
Proof. reflexivity. Qed.

(** [stream.match] of an anchored pattern, from what the matcher gives on the
    rest of the line. *)
Lemma matchRE_rest (l : list regex) consume stream (r : string) :
  rest stream = r ->
  matchRE (Seqs (Bol :: l)) consume stream =
  match rmatch (Seqs l) 0 r accept with
  | Some e => Some (e, if consume then set_pos (pos stream + e) stream else stream)
  | None => None
  end.
Proof.
  intros <-. unfold matchRE. rewrite exec_Seqs_Bol.
  now destruct (rmatch (Seqs l) 0 (rest stream) accept).
Qed.

(** At the first character of a line, outside math and a code fence, [token]
    is the part for the start of the line followed by the list indentation
    or the inline content. *)
Lemma token_lineStart stream st :
  pos stream = 0%nat -> inside st <> Some math -> inside st <> Some codeFence ->
  token stream st =
  match lineStart stream (set_combineTokens CombineNull st) with
  | Done o => o
  | Next stream state =>
      if bool_decide (inside state = Some listSpace)
      then token_listSpace stream state
      else token_inline stream state
  end.
Proof.
  intros Hpos Hm Hc. unfold token. rewrite Hpos. simpl.
  destruct (inside st) as [[]|]; done.
Qed.

(** After the first character, outside math, a code fence and the list
    indentation, [token] is the inline content. *)
Lemma token_inlinePart stream st :
  pos stream <> 0%nat ->
  inside st <> Some math -> inside st <> Some codeFence -> inside st <> Some listSpace ->
  token stream st = token_inline stream (set_combineTokens CombineNull st).
Proof.
  intros Hpos Hm Hc Hl. unfold token. apply Nat.eqb_neq in Hpos. rewrite Hpos. simpl.
  destruct (inside st) as [[]|]; try done; simpl.
Qed.

Lemma rest_start stream : pos stream = 0%nat -> rest stream = str stream.
Proof. unfold rest. now intros ->. Qed.

Lemma lineStart_lineBegin stream state :
  lineStart stream state =
  let state := lineBegin stream state in
  let indentation := indentation stream in
  match matchRE fenceRE true stream with
  | Some (_, stream') =>
      Done (Ret (Some "line-HyperMD-codeblock line-background-HyperMD-codeblock-bg line-HyperMD-codeblock-begin")
                stream'
                (set_inside (Some codeFence) (set_combineTokens (CombineBool true) state)))
  | None =>
  if (length (listSpaceStack state) =? 0)%nat && (4 <=? indentation)%Z then
    Done (Ret (Some "line-HyperMD-codeblock line-background-HyperMD-codeblock-indented-bg")
              (skipToEnd stream) state)
  else if test headerLineRE (str stream) && negb (prevLineIsEmpty state) then
    let _hlevel := if charIs "=" (charAt 0 (str stream)) then 1%nat else 2%nat in
    Done (Ret (Some ("formatting line-HyperMD-header-line line-HyperMD-header-line-"
                     +:+ showNat _hlevel))
              (skipToEnd stream) state)
  else
  let state := set_prevLineIsEmpty false state in
  match matchRE quoteRE true stream with
  | Some (_, stream') =>
      let '(stream', quoteLevel) := quoteLoop (String.length (rest stream')) stream' 1 in
      Done (Ret (Some ("formatting formatting-quote formatting-quote-" +:+ showNat quoteLevel
                       +:+ " quote quote-" +:+ showNat quoteLevel
                       +:+ " line-HyperMD-quote line-HyperMD-quote-" +:+ showNat quoteLevel))
                stream' (set_quoteLevel quoteLevel state))
  | None =>
  if negb (quoteLevel state =? 0)%nat then
    Done (Ret (Some ("line-HyperMD-quote line-HyperMD-quote-" +:+ showNat (quoteLevel state)))
              (next stream).2 (set_combineTokens (CombineBool true) state))
  else
  match matchRE headerRE true stream with
  | Some (_, stream') =>
      match exec hashesRE (str stream') with
      | Some (i, e) =>
          Done (Ret (Some ("line-HyperMD-header line-HyperMD-header-" +:+ showNat (e - i)))
                    stream' (set_combineTokens (CombineBool true) state))
      | None => Done Stuck
      end
  | None =>
  if negb (length (listSpaceStack state) =? 0)%nat
     || bool_decide (is_Some (matchRE listRE false stream))
  then
    Next stream
      (set_extra (ExtraNum 0)
         (set_inside (Some listSpace)
            (set_listSpaceStack (rebuildStack (listSpaceStack state) indentation) state)))
  else Next stream state
  end end end.
Proof. reflexivity. Qed.

(** What the start of a line keeps of the state. *)
Lemma lineBegin_keeps stream st :
  quoteLevel (lineBegin stream st) = quoteLevel st
  /\ nstyle (lineBegin stream st) = nstyle st
  /\ listSpaceStack (lineBegin stream st) = listSpaceStack st
  /\ prevLineIsEmpty (lineBegin stream st) = prevLineIsEmpty st
  /\ table (lineBegin stream st) = table st
  /\ extra (lineBegin stream st) = extra st
  /\ combineTokens (lineBegin stream st) = combineTokens st
  /\ atBeginning (lineBegin stream st) = true.
Proof. unfold lineBegin. repeat split; repeat case_match; reflexivity. Qed.

Lemma dropStr_add (p k : nat) (s : string) : dropStr (p + k) s = dropStr k (dropStr p s).
Proof.
  revert s. induction p as [|p IH]; intros s; [done|].
  destruct s as [|c s]; simpl; [now destruct k|]. apply IH.
Qed.

Lemma rest_set_pos stream k :
  rest (set_pos (pos stream + k) stream) = dropStr k (rest stream).
Proof. unfold rest. simpl. apply dropStr_add. Qed.

Lemma set_pos_set_pos p q s : set_pos p (set_pos q s) = set_pos p s.
Proof. reflexivity. Qed.

(** A text that is not made of characters of [p] only: the run of [p], the
    character that ends it and the rest. *)
Lemma allb_false (p : ascii -> bool) (s : string) :
  allb p s = false ->
  exists run c tl, s = run +:+ String c tl /\ allb p run = true /\ p c = false.
Proof.
  induction s as [|d s IH]; [done|]. simpl.
  destruct (p d) eqn:Hd; simpl.
  - intros H. destruct (IH H) as (run & c & tl & -> & Hrun & Hc).
    exists (String d run), c, tl. simpl. now rewrite Hd, Hrun.
  - intros _. exists "", d, s. done.
Qed.

Lemma rmatch_Chr_cons c d i s k :
  rmatch (Chr c) i (String d s) k = if Ascii.eqb c d then k (S i) s else None.
Proof. reflexivity. Qed.

(** After the first character, inside the list indentation. *)
Lemma token_listSpacePart stream st :
  pos stream <> 0%nat -> inside st = Some listSpace ->
  token stream st = token_listSpace stream (set_combineTokens CombineNull st).
Proof.
  intros Hpos Hin. unfold token. apply Nat.eqb_neq in Hpos. rewrite Hpos. simpl.
  now rewrite Hin.
Qed.

Lemma token_inline_inlineBegin stream state :
  token_inline stream state =
  let atBeginning := atBeginning state in
  let state := inlineBegin stream state in
  match (if bool_decide (inside state = Some tableTitleSep)
         then matchRE dashRE true stream else None) with
  | Some (_, stream') =>
      Ret (Some "hmd-table-title-dash line-HyperMD-table-row line-HyperMD-table-rowsep ")
          stream' (set_combineTokens (CombineBool false) state)
  | None =>
  match matchRE inlineCodeRE true stream with
  | Some (_, stream') => Ret None stream' state
  | None =>
  match mathOpen stream with
  | (stream', Some tmp0) =>
      Ret (Some ("formatting formatting-math formatting-math-begin math math-"
                 +:+ showNat (String.length tmp0)))
          stream'
          (set_combineTokens (CombineBool false)
             (set_extra (ExtraStr tmp0) (set_inside (Some math) state)))
  | (stream, None) =>
  match tablePart stream state with
  | Done o => o
  | Next stream state => mixablePart atBeginning stream state
  end end end end.
Proof. reflexivity. Qed.

(** What the inline content keeps of the state before it looks at the
    text. *)
Lemma inlineBegin_keeps stream st :
  nstyle (inlineBegin stream st) = nstyle st
  /\ inside (inlineBegin stream st) = inside st
  /\ listSpaceStack (inlineBegin stream st) = listSpaceStack st
  /\ table (inlineBegin stream st) = table st
  /\ quoteLevel (inlineBegin stream st) = quoteLevel st
  /\ extra (inlineBegin stream st) = extra st
  /\ tableCol (inlineBegin stream st) = tableCol st
  /\ tableRow (inlineBegin stream st) = tableRow st
  /\ prevLineIsEmpty (inlineBegin stream st) = prevLineIsEmpty st.
Proof. unfold inlineBegin. repeat split; repeat case_match; reflexivity. Qed.

Lemma inlineBegin_null stream st :
  inlineBegin stream (set_combineTokens CombineNull st) = inlineBegin stream st.
Proof. unfold inlineBegin. simpl. now destruct (_ && _). Qed.

(** A class that excludes one character, as the matcher runs it. *)
Lemma atom_not1 (d : ascii) i s k :
  atom (fun c => negb (Ascii.eqb c d || false)) i s k
  = atom (fun c => negb (Ascii.eqb c d)) i s k.
Proof. unfold atom. destruct s; [done|]. now rewrite orb_false_r. Qed.

Lemma charAt_add (p k : nat) (s : string) : charAt (p + k) s = charAt k (dropStr p s).
Proof.
  revert s. induction p as [|p IH]; intros s; [done|].
  destruct s as [|c s]; simpl; [now destruct k|]. apply IH.
Qed.

Lemma charAt_app_r (u v : string) (k : nat) :
  charAt (String.length u + k) (u +:+ v) = charAt k v.
Proof. now rewrite charAt_add, dropStr_append. Qed.

Lemma charAt_app_l (u v : string) (k : nat) :
  (k < String.length u)%nat -> charAt k (u +:+ v) = charAt k u.
Proof.
  revert k. induction u as [|c u IH]; intros k Hk; simpl in Hk; [lia|].
  rewrite append_cons. destruct k as [|k]; [done|]. simpl. apply IH. lia.
Qed.

Lemma allb_charAt (p : ascii -> bool) (u : string) (k : nat) :
  allb p u = true -> (k < String.length u)%nat -> exists c, charAt k u = Some c /\ p c = true.
Proof.
  revert k. induction u as [|c u IH]; intros k Hu Hk; simpl in Hk; [lia|].
  simpl in Hu. apply andb_true_iff in Hu as [Hc Hu].
  destruct k as [|k]; [now exists c|]. simpl. apply IH; [done|lia].
Qed.

Lemma prefixStr_append (p s : string) : prefixStr p (p +:+ s) = true.
Proof.
  induction p as [|c p IH]; [done|]. rewrite append_cons. simpl.
  now rewrite Ascii.eqb_refl.
Qed.

(** ** Code fences *)

Lemma prefixStr_backquotes s :
  prefixStr "```" s = true -> s = "```" +:+ dropStr 3 s.
Proof.
  destruct s as [|c1 [|c2 [|c3 s]]]; simpl; try done;
    rewrite ?andb_false_r; try done.
  rewrite andb_true_r. intros H.
  apply andb_true_iff in H as [H1 H]. apply andb_true_iff in H as [H2 H3].
  apply Ascii.eqb_eq in H1, H2, H3. now subst.
Qed.

(** The pattern of the closing fence against the shape of the line. *)
Lemma fenceEnd_closes stream :
  pos stream = 0%nat ->
  matchRE fenceEndRE true stream =
  if closesFence (str stream)
  then Some (String.length (str stream), skipToEnd stream)
  else None.
Proof.
  intros Hpos. pose proof (rest_start _ Hpos) as Hrest.
  unfold fenceEndRE. rewrite (matchRE_rest _ _ _ _ Hrest).
  unfold closesFence, skipToEnd. rewrite Hpos. simpl (0 + _)%nat.
  destruct (prefixStr "```" (str stream)) eqn:Hp.
  - rewrite (prefixStr_backquotes _ Hp) at 1 3 4.
    generalize (dropStr 3 (str stream)). intros w. simpl.
    destruct (allb isSpace w) eqn:Hw.
    + rewrite <- (append_empty_r w) at 2.
      rewrite (star_run _ isSpace (fun _ _ _ => atom_ws _ _ _) w "" _ _ _
                 (3 + String.length w)%nat);
        [|done|done|now rewrite append_empty_r|reflexivity].
      now rewrite ?append_nil.
    + apply allb_false in Hw as (run & c & tl & -> & Hrun & Hc).
      rewrite (star_run_none _ isSpace (fun _ _ _ => atom_ws _ _ _) run (String c tl)); [done| |].
      * unfold stopsAt. simpl. now rewrite Hc.
      * intros j Hj.
        assert (Hlen : (j < String.length (run +:+ String c tl))%nat)
          by (rewrite length_append; simpl; lia).
        destruct (dropStr j (run +:+ String c tl)) eqn:Hd; [|done].
        pose proof (length_dropStr j (run +:+ String c tl)) as Hl.
        rewrite Hd in Hl. simpl in Hl. lia.
  - destruct (str stream) as [|c1 [|c2 [|c3 s]]]; simpl in *; try done;
      repeat (match goal with
              | |- context [Ascii.eqb ?a ?b] => destruct (Ascii.eqb a b) eqn:?
              end; simpl in *; try done).
Qed.

(** One call inside a code fence. *)
Lemma token_in_fence stream st :
  inside st = Some codeFence ->
  token stream st =
  Ret (Some (fenceStyle ((pos stream =? 0)%nat && closesFence (str stream))))
      (skipToEnd stream)
      (afterFence ((pos stream =? 0)%nat && closesFence (str stream)) st).
Proof.
  intros Hin. unfold token. simpl. rewrite Hin. unfold token_codeFence.
  destruct (Nat.eqb_spec (pos stream) 0) as [Hpos|Hpos]; simpl.
  - rewrite (fenceEnd_closes _ Hpos).
    destruct (closesFence (str stream)); destruct st; simpl in *; now subst.
  - destruct st; simpl in *; now subst.
Qed.

(** X1: inside a code fence a call of [token] takes the rest of the line,
    wherever it stands; the fence is closed by it exactly when the call is at
    the first character and the line is three backquotes followed by white
    space only, and nothing else of the state changes but [combineTokens].
    So a line inside a fence that is not empty is one token. *)
Theorem fence_consumes_line :
  (forall stream st,
     inside st = Some codeFence ->
     token stream st =
     Ret (Some (fenceStyle ((pos stream =? 0)%nat && closesFence (str stream))))
         (skipToEnd stream)
         (afterFence ((pos stream =? 0)%nat && closesFence (str stream)) st))
  /\ (forall text lineNo following st,
        inside st = Some codeFence -> text <> "" ->
        scanLine text lineNo following st =
        ([Ret (Some (fenceStyle (closesFence text)))
              (skipToEnd (lineStream text lineNo following))
              (afterFence (closesFence text) st)],
         afterFence (closesFence text) st)).
Proof.
  split; [exact token_in_fence|].
  intros text lineNo following st Hin Hne. unfold scanLine.
  destruct text as [|c text]; [done|].
  change (String.length (String c text) =? 0)%nat with false. cbv iota.
  change (String.length (String c text)) with (S (String.length text)).
  cbn [runLine]. change (eol (lineStream (String c text) lineNo following)) with false.
  cbv iota. rewrite (token_in_fence _ _ Hin).
  change (pos (lineStream (String c text) lineNo following) =? 0)%nat with true.
  change (str (lineStream (String c text) lineNo following)) with (String c text).
  cbn [andb].
  change (pos (skipToEnd (lineStream (String c text) lineNo following))
          <=? pos (lineStream (String c text) lineNo following))%nat with false.
  cbv iota.
  assert (Hend : forall fuel st', runLine fuel (skipToEnd (lineStream (String c text) lineNo following)) st'
                 = ([], st')).
  { intros [|fuel] st'; [done|]. cbn [runLine].
    replace (eol (skipToEnd (lineStream (String c text) lineNo following))) with true; [done|].
    unfold eol, skipToEnd. simpl. symmetry. apply Nat.leb_le. lia. }
  now rewrite Hend.
Qed.

Lemma fence_consumes_line_witness :
  scanLine "```js" 4 None (afterFence false startState) =
  ([Ret (Some (fenceStyle false)) (skipToEnd (lineStream "```js" 4 None))
        (afterFence false (afterFence false startState))],
   afterFence false (afterFence false startState)).
Proof.
  apply (proj2 fence_consumes_line "```js" 4%nat None (afterFence false startState));
    [reflexivity|discriminate].
Defined.

(** X2: at the first character of a line, outside a formula and a code
    fence, a line that begins with three backquotes opens a code fence: the
    token is the three backquotes with the style of the opening line, the
    state is inside the fence with [nstyle], the list stack, the quote level
    and [prevLineIsEmpty] as they were, and the next call takes the rest of
    the line as content of the fence. *)
Theorem fence_opens (stream : StringStream) (st : State) :
  pos stream = 0%nat ->
  prefixStr "```" (str stream) = true ->
  inside st <> Some math -> inside st <> Some codeFence ->
  exists st',
    token stream st =
      Ret (Some "line-HyperMD-codeblock line-background-HyperMD-codeblock-bg line-HyperMD-codeblock-begin")
          (set_pos 3 stream) st'
    /\ inside st' = Some codeFence
    /\ nstyle st' = nstyle st /\ listSpaceStack st' = listSpaceStack st
    /\ quoteLevel st' = quoteLevel st /\ prevLineIsEmpty st' = prevLineIsEmpty st
    /\ token (set_pos 3 stream) st' =
         Ret (Some (fenceStyle false)) (skipToEnd stream) (afterFence false st').
Proof.
  intros Hpos Hp Hm Hc.
  rewrite token_lineStart by done.
  pose proof (rest_start _ Hpos) as Hrest.
  rewrite (prefixStr_backquotes _ Hp) in Hrest.
  rewrite lineStart_lineBegin.
  destruct (lineBegin_keeps stream (set_combineTokens CombineNull st))
    as (Kq & Kn & Ks & Kp & _).
  remember (lineBegin stream (set_combineTokens CombineNull st)) as st0 eqn:E. clear E.
  simpl in Kq, Kn, Ks, Kp. cbv zeta.
  unfold fenceRE. rewrite (matchRE_rest _ _ _ _ Hrest). simpl. rewrite Hpos. simpl.
  eexists. split; [reflexivity|]. simpl.
  repeat (split; [done|]).
  now rewrite token_in_fence.
Qed.

Lemma fence_opens_witness :
  exists st',
    token (lineStream "```js" 0 None) startState =
      Ret (Some "line-HyperMD-codeblock line-background-HyperMD-codeblock-bg line-HyperMD-codeblock-begin")
          (set_pos 3 (lineStream "```js" 0 None)) st'
    /\ inside st' = Some codeFence
    /\ nstyle st' = 0 /\ listSpaceStack st' = []
    /\ quoteLevel st' = 0%nat /\ prevLineIsEmpty st' = false
    /\ token (set_pos 3 (lineStream "```js" 0 None)) st' =
         Ret (Some (fenceStyle false)) (skipToEnd (lineStream "```js" 0 None))
             (afterFence false st').
Proof.
  apply (fence_opens (lineStream "```js" 0 None) startState);
    (reflexivity || discriminate).
Defined.

(** ** Indented code *)

(** A line that is indented starts with white space, hence not with a
    fence. *)
Lemma indented_no_fence stream :
  pos stream = 0%nat -> 0 < indentation stream ->
  matchRE fenceRE true stream = None.
Proof.
  intros Hpos Hind. pose proof (rest_start _ Hpos) as Hrest.
  unfold fenceRE. rewrite (matchRE_rest _ _ _ _ Hrest).
  unfold indentation in Hind.
  destruct (str stream) as [|c s]; [simpl in Hind; lia|].
  simpl in Hind.
  destruct (isSpace c) eqn:Hc; [|lia].
  simpl. destruct (Ascii.eqb_spec "`" c) as [<-|Hne]; [discriminate Hc|].
  reflexivity.
Qed.

(** X3: at the first character of a line, outside a formula and a code
    fence and with no list open, a line indented by four columns or more is
    one token with the style of an indented code block; the state takes the
    bookkeeping of the start of a line only: the list stack stays empty and
    [prevLineIsEmpty], the quote level and [nstyle] are kept. *)
Theorem indented_code_block (stream : StringStream) (st : State) :
  pos stream = 0%nat ->
  4 <= indentation stream ->
  listSpaceStack st = [] ->
  inside st <> Some math -> inside st <> Some codeFence ->
  token stream st =
    Ret (Some "line-HyperMD-codeblock line-background-HyperMD-codeblock-indented-bg")
        (skipToEnd stream)
        (lineBegin stream (set_combineTokens CombineNull st))
  /\ listSpaceStack (lineBegin stream (set_combineTokens CombineNull st)) = []
  /\ prevLineIsEmpty (lineBegin stream (set_combineTokens CombineNull st)) = prevLineIsEmpty st
  /\ quoteLevel (lineBegin stream (set_combineTokens CombineNull st)) = quoteLevel st
  /\ nstyle (lineBegin stream (set_combineTokens CombineNull st)) = nstyle st.
Proof.
  intros Hpos Hind Hs Hm Hc.
  destruct (lineBegin_keeps stream (set_combineTokens CombineNull st))
    as (Kq & Kn & Ks & Kp & _).
  simpl in Kq, Kn, Ks, Kp.
  split; [|now rewrite Ks, Kp, Kq, Kn].
  rewrite token_lineStart by done.
  rewrite lineStart_lineBegin.
  remember (lineBegin stream (set_combineTokens CombineNull st)) as st0 eqn:E. clear E.
  cbv zeta. rewrite indented_no_fence by (done || lia).
  rewrite Ks, Hs. simpl.
  destruct (Z.leb_spec 4 (indentation stream)); [reflexivity|lia].
Qed.

Lemma indented_code_block_witness :
  token (lineStream "    x = 1" 0 None) startState =
    Ret (Some "line-HyperMD-codeblock line-background-HyperMD-codeblock-indented-bg")
        (skipToEnd (lineStream "    x = 1" 0 None))
        (lineBegin (lineStream "    x = 1" 0 None) (set_combineTokens CombineNull startState))
  /\ listSpaceStack (lineBegin (lineStream "    x = 1" 0 None) (set_combineTokens CombineNull startState)) = []
  /\ prevLineIsEmpty (lineBegin (lineStream "    x = 1" 0 None) (set_combineTokens CombineNull startState)) = false
  /\ quoteLevel (lineBegin (lineStream "    x = 1" 0 None) (set_combineTokens CombineNull startState)) = 0%nat
  /\ nstyle (lineBegin (lineStream "    x = 1" 0 None) (set_combineTokens CombineNull startState)) = 0.
Proof.
  apply (indented_code_block (lineStream "    x = 1" 0 None) startState);
    (reflexivity || discriminate || (vm_compute; discriminate)).
Defined.

(** ** Headers *)

(** X4: a line of [n + 1] hashes followed by the end of the line or by a
    white-space character, outside a block quote: the token is the hashes and
    that character, and the style names the level [n + 1], whatever [n] (the
    level is not limited to six); the list stack and [nstyle] are kept. *)
Theorem header_level (n : nat) (tl : string) (stream : StringStream) (st : State) :
  pos stream = 0%nat ->
  str stream = nchars (S n) "#" +:+ tl ->
  emptyOr isSpace tl = true ->
  inside st <> Some math -> inside st <> Some codeFence ->
  quoteLevel st = 0%nat ->
  exists st',
    token stream st =
      Ret (Some ("line-HyperMD-header line-HyperMD-header-" +:+ showNat (S n)))
          (set_pos (S n + Nat.min 1 (String.length tl)) stream) st'
    /\ listSpaceStack st' = listSpaceStack st
    /\ nstyle st' = nstyle st
    /\ quoteLevel st' = 0%nat.
Proof.
  intros Hpos Hstr Htl Hm Hc Hq.
  rewrite token_lineStart by done.
  pose proof (rest_start _ Hpos) as Hrest. rewrite Hstr in Hrest. simpl in Hrest.
  rewrite append_cons in Hrest.
  rewrite lineStart_lineBegin.
  destruct (lineBegin_keeps stream (set_combineTokens CombineNull st))
    as (Kq & Kn & Ks & _).
  remember (lineBegin stream (set_combineTokens CombineNull st)) as st0 eqn:E. clear E.
  simpl in Kq, Kn, Ks. cbv zeta.
  unfold fenceRE. rewrite (matchRE_rest _ _ _ _ Hrest). simpl.
  unfold indentation. rewrite Hstr. simpl. rewrite append_cons. simpl.
  rewrite andb_false_r.
  unfold test, headerLineRE. rewrite exec_Seqs_Bol. simpl.
  unfold quoteRE. rewrite (matchRE_rest _ _ _ _ Hrest). simpl.
  rewrite Kq, Hq. simpl.
  unfold headerRE. rewrite (matchRE_rest _ _ _ _ Hrest). simpl.
  assert (Hhash : allb (Ascii.eqb "#") (nchars n "#") = true) by now apply allb_nchars.
  assert (Hstop : stopsAt (Ascii.eqb "#") tl = true).
  { destruct tl as [|c tl]; [done|]. unfold stopsAt, emptyOr in *.
    apply negb_true_iff, Ascii.eqb_neq. intros <-. vm_compute in Htl. discriminate. }
  rewrite (star_run _ (Ascii.eqb "#") (fun _ _ _ => eq_refl) (nchars n "#") tl _ _ _
             (S n + Nat.min 1 (String.length tl))%nat);
    [| done | done | done | ].
  2:{ rewrite length_nchars. unfold accept. destruct tl as [|c tl]; simpl; [f_equal; lia|].
      simpl in Htl. rewrite Htl. simpl. f_equal; lia. }
  simpl. unfold hashesRE. rewrite exec_Seqs_Bol, Hstr. simpl. rewrite append_cons. simpl.
  erewrite (star_run _ (Ascii.eqb "#") (fun _ _ _ => eq_refl) (nchars n "#") tl);
    [| done | done | done | reflexivity].
  rewrite length_nchars, Hpos. replace (1 + n - 0)%nat with (S n) by lia.
  eexists. split; [reflexivity|]. simpl. rewrite Ks, Kn, Kq. done.
Qed.

Lemma header_level_witness :
  exists st',
    token (lineStream "####### seven" 0 None) startState =
      Ret (Some "line-HyperMD-header line-HyperMD-header-7")
          (set_pos 8 (lineStream "####### seven" 0 None)) st'
    /\ listSpaceStack st' = [] /\ nstyle st' = 0 /\ quoteLevel st' = 0%nat.
Proof.
  apply (header_level 6 " seven" (lineStream "####### seven" 0 None) startState);
    (reflexivity || discriminate).
Defined.

(** ** Block quotes *)

Lemma stops_marks ws tl :
  stopsAt spaceOrMark tl = true -> stopsAt isSpace (quoteMarks ws +:+ tl) = true.
Proof.
  destruct ws as [|w ws]; simpl.
  - rewrite append_nil. destruct tl as [|c tl]; [done|].
    unfold stopsAt, spaceOrMark. simpl. intros H. apply negb_true_iff in H.
    apply orb_false_iff in H as [-> _]. done.
  - intros _. reflexivity.
Qed.

Lemma quoteMore_marks w ws tl stream :
  rest stream = quoteMarks (w :: ws) +:+ tl ->
  allb isSpace w = true -> stopsAt spaceOrMark tl = true ->
  matchRE quoteMoreRE true stream
  = Some (S (String.length w), set_pos (pos stream + S (String.length w)) stream).
Proof.
  intros Hrest Hw Htl. simpl in Hrest. rewrite append_cons, append_assoc in Hrest.
  unfold quoteMoreRE. rewrite (matchRE_rest _ _ _ _ Hrest). simpl.
  rewrite (star_run _ isSpace (fun _ _ _ => atom_ws _ _ _) w (quoteMarks ws +:+ tl) _ _ _
             (S (String.length w)));
      [reflexivity|done|now apply stops_marks|done|reflexivity].
Qed.

Lemma quoteMore_end tl stream :
  rest stream = tl -> stopsAt spaceOrMark tl = true ->
  matchRE quoteMoreRE true stream = None.
Proof.
  intros Hrest Htl.
  unfold quoteMoreRE. rewrite (matchRE_rest _ _ _ _ Hrest). simpl.
  rewrite (star_stop _ isSpace (fun _ _ _ => atom_ws _ _ _)).
  - destruct tl as [|c tl]; [done|].
    unfold stopsAt, spaceOrMark, emptyOr in Htl.
    apply negb_true_iff, orb_false_iff in Htl as [_ Hc].
    rewrite Ascii.eqb_sym in Hc. cbv beta. unfold atom. now rewrite Hc.
  - generalize (stops_marks [] tl Htl). simpl. now rewrite append_nil.
Qed.

Lemma quoteLoop_marks ws : forall tl stream fuel q,
  rest stream = quoteMarks ws +:+ tl ->
  Forall (fun w => allb isSpace w = true) ws -> stopsAt spaceOrMark tl = true ->
  (String.length (rest stream) <= fuel)%nat ->
  quoteLoop fuel stream q
  = (set_pos (pos stream + String.length (quoteMarks ws)) stream, (q + length ws)%nat).
Proof.
  induction ws as [|w ws IH]; intros tl stream fuel q Hrest Hws Htl Hfuel.
  - simpl. rewrite !Nat.add_0_r, set_pos_pos.
    destruct fuel as [|fuel]; simpl; [done|].
    simpl in Hrest. rewrite append_nil in Hrest.
    now rewrite (quoteMore_end tl).
  - inversion Hws as [|? ? Hw Hws']; subst.
    destruct fuel as [|fuel].
    { rewrite Hrest in Hfuel. simpl in Hfuel. lia. }
    simpl quoteLoop. rewrite (quoteMore_marks w ws tl) by done.
    rewrite (IH tl); [| | done | done | ].
    + simpl. rewrite length_append. f_equal; [|lia].
      rewrite set_pos_set_pos. f_equal. lia.
    + rewrite rest_set_pos, Hrest. simpl. rewrite ?append_cons, append_assoc. simpl.
      apply dropStr_append.
    + rewrite rest_set_pos, length_dropStr. lia.
Qed.

(** X5: at the first character of a line, outside a formula and a code
    fence, a line that begins with exactly [k + 1] marks [>], each followed by
    white space or by nothing (what follows them begins with neither white
    space nor a mark): the token is all the marks with the white space after
    them, the style and [quoteLevel] are [k + 1], [prevLineIsEmpty] is
    cleared, and the list stack and [nstyle] are kept. *)
Theorem quote_level (w : string) (ws : list string) (tl : string)
    (stream : StringStream) (st : State) :
  pos stream = 0%nat ->
  str stream = quoteMarks (w :: ws) +:+ tl ->
  Forall (fun w => allb isSpace w = true) (w :: ws) ->
  stopsAt spaceOrMark tl = true ->
  inside st <> Some math -> inside st <> Some codeFence ->
  exists st',
    token stream st =
      Ret (Some (quoteStyle (S (length ws))))
          (set_pos (String.length (quoteMarks (w :: ws))) stream) st'
    /\ quoteLevel st' = S (length ws)
    /\ listSpaceStack st' = listSpaceStack st
    /\ nstyle st' = nstyle st
    /\ prevLineIsEmpty st' = false.
Proof.
  intros Hpos Hstr Hws Htl Hm Hc.
  rewrite token_lineStart by done.
  pose proof (rest_start _ Hpos) as Hrest. rewrite Hstr in Hrest.
  inversion Hws as [|? ? Hw Hws']; subst.
  rewrite lineStart_lineBegin.
  destruct (lineBegin_keeps stream (set_combineTokens CombineNull st))
    as (Kq & Kn & Ks & _).
  remember (lineBegin stream (set_combineTokens CombineNull st)) as st0 eqn:E. clear E.
  simpl in Kq, Kn, Ks. cbv zeta.
  assert (Hrest' : rest stream = String ">" (w +:+ (quoteMarks ws +:+ tl))).
  { rewrite Hrest. simpl. now rewrite append_cons, append_assoc. }
  unfold fenceRE. rewrite (matchRE_rest _ _ _ _ Hrest'). simpl.
  unfold indentation. rewrite Hstr. simpl. rewrite ?append_cons. simpl.
  rewrite andb_false_r.
  unfold test, headerLineRE. rewrite exec_Seqs_Bol. simpl.
  unfold quoteRE. rewrite (matchRE_rest _ _ _ _ Hrest'). simpl.
  rewrite (star_run _ isSpace (fun _ _ _ => atom_ws _ _ _) w (quoteMarks ws +:+ tl) _ _ _
             (S (String.length w)));
      [|done|now apply stops_marks|done|reflexivity].
  rewrite (quoteLoop_marks ws tl); [| | done | done | done].
  2:{ rewrite rest_set_pos, Hrest'. simpl. apply dropStr_append. }
  simpl. eexists. split.
  - unfold quoteStyle. rewrite Hpos, length_append. simpl.
    replace (S (String.length w) + String.length (quoteMarks ws))%nat
      with (S (String.length w + String.length (quoteMarks ws))) by lia.
    reflexivity.
  - simpl. now rewrite Ks, Kn.
Qed.

Lemma quote_level_witness :
  exists st',
    token (lineStream "> >  > text" 0 None) startState =
      Ret (Some (quoteStyle 3)) (set_pos 7 (lineStream "> >  > text" 0 None)) st'
    /\ quoteLevel st' = 3%nat /\ listSpaceStack st' = [] /\ nstyle st' = 0
    /\ prevLineIsEmpty st' = false.
Proof.
  apply (quote_level " " ["  "; " "] "text" (lineStream "> >  > text" 0 None) startState);
    try (reflexivity || discriminate).
  repeat constructor.
Defined.

(** ** The list stack *)

Lemma sumZ_app (l k : list Z) : sumZ (l ++ k)%list = sumZ l + sumZ k.
Proof. unfold sumZ. induction l as [|x l IH]; simpl; lia. Qed.

Lemma sumZ_take_S (l : list Z) (n : nat) (x : Z) :
  l !! n = Some x -> sumZ (take (S n) l) = sumZ (take n l) + x.
Proof.
  intros H. rewrite (take_S_r _ _ _ H), sumZ_app. unfold sumZ. simpl. lia.
Qed.

(** The loop of the rebuild, from index [i] with what is left of the
    indentation [ind0] after the levels below [i]. *)
Lemma rebuildLoop_spec (stack : list Z) (ind0 : Z) :
  forall fuel i,
    (length stack - i <= fuel)%nat -> (i <= length stack)%nat ->
    let r := rebuildLoop fuel i stack (ind0 - sumZ (take i stack)) in
    r.2 = ind0 - sumZ r.1
    /\ ((0 < r.2 /\ r.1 = stack)
        \/ (r.2 <= 0
            /\ exists n, (i <= n <= length stack)%nat /\ r.1 = take n stack
                 /\ ((i < n)%nat -> sumZ (take (n - 1) stack) < ind0))).
Proof.
  intros fuel. induction fuel as [|fuel IH]; intros i Hfuel Hi; simpl.
  - assert (i = length stack) by lia. subst i. rewrite firstn_all.
    split; [done|].
    destruct (Z.ltb_spec 0 (ind0 - sumZ stack)); [left; done|right].
    split; [done|]. exists (length stack). rewrite firstn_all. repeat split; lia.
  - destruct (stack !! i) as [w|] eqn:Hw.
    + destruct (Z.ltb_spec 0 (ind0 - sumZ (take i stack))) as [Hpos|Hneg].
      * pose proof (lookup_lt_Some _ _ _ Hw) as Hlt.
        specialize (IH (S i)). rewrite (sumZ_take_S _ _ _ Hw) in IH.
        replace (ind0 - sumZ (take i stack) - w) with (ind0 - (sumZ (take i stack) + w)) by lia.
        destruct IH as [E [L|(Hle & n & Hn & Hr & Hs)]]; [lia|lia| |].
        { split; [exact E|now left]. }
        split; [exact E|right]. split; [exact Hle|].
        exists n. repeat split; [lia|lia|exact Hr|].
        intros _. destruct (decide (n = S i)) as [->|Hne].
        -- replace (S i - 1)%nat with i by lia. lia.
        -- apply Hs. lia.
      * simpl. split; [done|right]. split; [done|].
        pose proof (lookup_lt_Some _ _ _ Hw).
        exists i. repeat split; lia.
    + apply lookup_ge_None in Hw. assert (i = length stack) by lia. subst i.
      rewrite firstn_all. simpl.
      split; [done|].
      destruct (Z.ltb_spec 0 (ind0 - sumZ stack)); [left; done|right].
      split; [done|]. exists (length stack). rewrite firstn_all. repeat split; lia.
Qed.

(** The stack rebuilt for a positive indentation: the levels up to the one
    that covers it, or all of them and a new level for what is left. *)
Lemma rebuildStack_spec (stack : list Z) (ind : Z) :
  0 < ind ->
  (exists n x, stack !! n = Some x /\ rebuildStack stack ind = take (S n) stack
               /\ sumZ (take n stack) < ind <= sumZ (take n stack) + x)
  \/ (sumZ stack < ind /\ rebuildStack stack ind = (stack ++ [ind - sumZ stack])%list).
Proof.
  intros Hind. unfold rebuildStack.
  set (i0 := if bool_decide (stack !! 0%nat = Some 0) then 1%nat else 0%nat).
  assert (Hi0 : (i0 <= length stack)%nat /\ sumZ (take i0 stack) = 0).
  { unfold i0. case_bool_decide as Hz; [|split; [lia|done]].
    destruct stack as [|z stack]; [done|]. simpl in Hz. inversion Hz; subst.
    split; [simpl; lia|]. reflexivity. }
  destruct Hi0 as [Hi0 Hsum].
  pose proof (rebuildLoop_spec stack ind (length stack) i0 ltac:(lia) Hi0) as Hspec.
  rewrite Hsum, Z.sub_0_r in Hspec. cbv zeta in Hspec.
  destruct (rebuildLoop (length stack) i0 stack ind) as [s' ind'].
  simpl in Hspec. destruct Hspec as [E [[Hpos ->]|(Hle & n & Hn & -> & Hs)]].
  - right. destruct (Z.ltb_spec 0 ind'); [|lia].
    rewrite length_app. simpl.
    destruct (Nat.eqb_spec (length stack + 1) 0); [lia|].
    split; [lia|]. now rewrite E.
  - left. destruct (Z.ltb_spec 0 ind'); [lia|].
    assert (Hn1 : (i0 < n)%nat).
    { destruct (decide (n = i0)) as [->|]; [|lia]. rewrite Hsum in E. lia. }
    specialize (Hs Hn1).
    destruct n as [|n]; [lia|]. replace (S n - 1)%nat with n in Hs by lia.
    destruct (lookup_lt_is_Some_2 stack n ltac:(lia)) as [x Hx].
    exists n, x. rewrite length_take.
    destruct (Nat.eqb_spec (S n `min` length stack) 0); [lia|].
    repeat split; [done|done|].
    rewrite (sumZ_take_S _ _ _ Hx) in E. lia.
Qed.

Lemma rebuildStack_zero (stack : list Z) (ind : Z) : ind <= 0 -> rebuildStack stack ind = [0].
Proof.
  intros Hind. unfold rebuildStack.
  destruct stack as [|z stack]; simpl.
  { destruct (Z.ltb_spec 0 ind); [lia|done]. }
  case_bool_decide as Hz.
  - inversion Hz; subst. destruct stack as [|y stack]; simpl.
    + destruct (Z.ltb_spec 0 ind); [lia|done].
    + destruct (Z.ltb_spec 0 ind); [lia|]. simpl.
      destruct (Z.ltb_spec 0 ind); [lia|done].
  - destruct (Z.ltb_spec 0 ind); [lia|]. simpl.
    destruct (Z.ltb_spec 0 ind); [lia|done].
Qed.

(** X6: the list stack as the start of a line rebuilds it.  With no
    indentation the stack is the single level 0.  With an indentation the
    levels of the new stack but the last sum to less than the indentation and
    all of them to at least the indentation; the new stack is the first levels
    of the old one, or the old one with what is left of the indentation as a
    new level. *)
Theorem rebuildStack_covers (stack : list Z) (ind : Z) :
  (ind <= 0 -> rebuildStack stack ind = [0])
  /\ (0 < ind ->
      exists r0 w,
        rebuildStack stack ind = (r0 ++ [w])%list
        /\ sumZ r0 < ind <= sumZ r0 + w
        /\ ((r0 ++ [w])%list `prefix_of` stack \/ (r0 = stack /\ w = ind - sumZ stack))).
Proof.
  split; [apply rebuildStack_zero|].
  intros Hind. destruct (rebuildStack_spec stack ind Hind)
    as [(n & x & Hx & -> & Hs)|[Hs ->]].
  - exists (take n stack), x. rewrite (take_S_r _ _ _ Hx).
    repeat split; [lia|lia|left].
    rewrite <- (take_S_r _ _ _ Hx). apply prefix_take.
  - exists stack, (ind - sumZ stack). repeat split; [lia|lia|right; done].
Qed.

Lemma rebuildStack_covers_witness :
  rebuildStack [2; 4] 0 = [0]
  /\ exists r0 w,
       rebuildStack [2; 4] 3 = (r0 ++ [w])%list
       /\ sumZ r0 < 3 <= sumZ r0 + w
       /\ ((r0 ++ [w])%list `prefix_of` [2; 4] \/ (r0 = [2; 4] /\ w = 3 - sumZ [2; 4])).
Proof.
  split.
  - apply (proj1 (rebuildStack_covers [2; 4] 0)). lia.
  - apply (proj2 (rebuildStack_covers [2; 4] 3)). lia.
Defined.

(** ** The indentation of a list line *)

Lemma rest_peek stream c r : rest stream = String c r -> peek stream = Some c.
Proof.
  unfold rest, peek, charAt. generalize (pos stream) (str stream).
  intros p. induction p as [|p IH]; intros s H; simpl in *.
  - now subst.
  - destruct s as [|d s]; [done|]. simpl. now apply IH.
Qed.

Lemma countColumn_spaces ts n tl k :
  stopsAt isSpace tl = true ->
  countColumn ts (nchars n " " +:+ tl) k = (n + k)%nat.
Proof.
  intros Htl. revert k. induction n as [|n IH]; intros k.
  - simpl. rewrite append_nil. destruct tl as [|c tl]; [done|]. simpl.
    unfold stopsAt in Htl. simpl in Htl. apply negb_true_iff in Htl. now rewrite Htl.
  - simpl. rewrite ?append_cons. simpl.
    change (Ascii.eqb " " tab) with false. cbv iota. rewrite IH. lia.
Qed.

Lemma eatIndent_spaces : forall (w : nat) stream (m : nat) r,
  rest stream = nchars m " " +:+ r -> (w <= m)%nat ->
  eatIndent w stream (Z.of_nat w) = (set_pos (pos stream + w) stream, false).
Proof.
  induction w as [|w IH]; intros stream m r Hrest Hm.
  - simpl. now rewrite Nat.add_0_r, set_pos_pos.
  - destruct m as [|m]; [lia|]. simpl nchars in Hrest. rewrite append_cons in Hrest.
    cbn [eatIndent]. destruct (Z.ltb_spec 0 (Z.of_nat (S w))); [|lia].
    unfold next. rewrite (rest_peek _ _ _ Hrest).
    change (charIs tab (Some " "%char)) with false.
    change (charIs space (Some " "%char)) with true. cbv iota.
    replace (Z.of_nat (S w) - 1) with (Z.of_nat w) by lia.
    rewrite (IH _ m r); [| |lia].
    + rewrite set_pos_set_pos. f_equal. f_equal. simpl. lia.
    + replace (S (pos stream)) with (pos stream + 1)%nat by lia.
      rewrite rest_set_pos, Hrest. reflexivity.
Qed.

(** One call inside the list indentation, at a level that is not the virtual
    one, on a line that has the spaces of the level. *)
Lemma token_listSpace_level stream st (i : nat) (w : Z) (m : nat) r :
  extra st = ExtraNum i ->
  listSpaceStack st !! i = Some w -> 1 <= w ->
  listSpaceStack st !! 0%nat <> Some 0 ->
  rest stream = nchars m " " +:+ r -> (Z.to_nat w <= m)%nat ->
  token_listSpace stream st =
  Ret (Some (indentStyle i (if (i =? 0)%nat then Some (length (listSpaceStack st)) else None)))
      (set_pos (pos stream + Z.to_nat w) stream)
      (set_combineTokens (CombineBool true)
         (set_extra (afterLevel i (length (listSpaceStack st))).2
            (set_inside (if (length (listSpaceStack st) <=? S i)%nat
                         then None else inside st) st))).
Proof.
  intros He Hw Hw1 Hz Hrest Hm.
  unfold token_listSpace. rewrite He. simpl.
  case_bool_decide as Hz'; [done|]. rewrite andb_false_r. simpl.
  rewrite He, Hw.
  rewrite <- (Z2Nat.id w) at 2 by lia.
  rewrite (eatIndent_spaces _ _ m r) by done. simpl.
  unfold indentStyle, afterLevel.
  destruct st; simpl in *; subst. rewrite ?Nat.add_1_r.
  destruct i as [|i]; simpl; destruct (_ <=? _)%nat; reflexivity.
Qed.

Lemma sumZ_take_mono (stack : list Z) :
  Forall (fun w => 1 <= w) stack ->
  forall n m, (n <= m <= length stack)%nat ->
    sumZ (take n stack) + Z.of_nat (m - n) <= sumZ (take m stack).
Proof.
  intros Hall n m. induction m as [|m IH]; intros Hm.
  - assert (n = 0%nat) by lia. subst. simpl. lia.
  - destruct (decide (n = S m)) as [->|Hne].
    + replace (S m - S m)%nat with 0%nat by lia. lia.
    + destruct (lookup_lt_is_Some_2 stack m ltac:(lia)) as [x Hx].
      rewrite (sumZ_take_S _ _ _ Hx).
      pose proof (Forall_lookup_1 _ _ _ _ Hall Hx) as Hx1. simpl in Hx1.
      specialize (IH ltac:(lia)). lia.
Qed.

(** A line indented as deep as the first [j] levels keeps these levels. *)
Lemma rebuildStack_exact (stack : list Z) (j : nat) :
  Forall (fun w => 1 <= w) stack -> (1 <= j <= length stack)%nat ->
  rebuildStack stack (sumZ (take j stack)) = take j stack.
Proof.
  intros Hall Hj.
  pose proof (sumZ_take_mono stack Hall) as Hmono.
  assert (Hpos : 0 < sumZ (take j stack)).
  { specialize (Hmono 0%nat j ltac:(lia)).
    change (sumZ (take 0 stack)) with 0 in Hmono. lia. }
  destruct (rebuildStack_spec stack _ Hpos) as [(n & x & Hx & -> & Hs)|[Hs _]].
  - pose proof (lookup_lt_Some _ _ _ Hx) as Hn.
    rewrite <- (sumZ_take_S _ _ _ Hx) in Hs.
    destruct (decide (j <= n)%nat).
    { specialize (Hmono j n ltac:(lia)). lia. }
    destruct (decide (S n < j)%nat).
    { specialize (Hmono (S n) j ltac:(lia)). lia. }
    f_equal. lia.
  - specialize (Hmono j (length stack) ltac:(lia)). rewrite firstn_all in Hmono. lia.
Qed.

Lemma rest_nchars_drop stream (n k : nat) c tl :
  pos stream = 0%nat -> str stream = nchars n c +:+ tl -> (k <= n)%nat ->
  rest (set_pos k stream) = nchars (n - k) c +:+ tl.
Proof.
  intros Hpos Hstr Hk. unfold rest. simpl. rewrite Hstr. clear Hstr Hpos.
  revert n Hk. induction k as [|k IH]; intros n Hk; simpl.
  - now rewrite Nat.sub_0_r.
  - destruct n as [|n]; [lia|]. simpl. rewrite ?append_cons. simpl. apply IH. lia.
Qed.

(** X7: a line indented by spaces up to the level [j] of a stack of
    positive levels.  The first call takes the indentation of the first level,
    names the depth [j] of the line in its style and cuts the stack down to
    its first [j] levels; the call for a further level [i + 1] takes the
    indentation of that level and names it; after the level [j] the state is
    out of the indentation, before it the state waits for the next level. *)
Theorem list_indent_tokens (stack : list Z) (j : nat) (tl : string) (line : StringStream) :
  Forall (fun w => 1 <= w) stack -> (1 <= j <= length stack)%nat ->
  pos line = 0%nat ->
  str line = nchars (Z.to_nat (sumZ (take j stack))) " " +:+ tl ->
  stopsAt isSpace tl = true ->
  (forall st,
     listSpaceStack st = stack -> quoteLevel st = 0%nat ->
     inside st <> Some math -> inside st <> Some codeFence ->
     exists st',
       token line st =
         Ret (Some (indentStyle 0 (Some j)))
             (set_pos (Z.to_nat (sumZ (take 1 stack))) line) st'
       /\ listSpaceStack st' = take j stack
       /\ (inside st', extra st') = afterLevel 0 j)
  /\ (forall i st,
        (1 <= i < j)%nat ->
        listSpaceStack st = take j stack ->
        inside st = Some listSpace -> extra st = ExtraNum i ->
        exists st',
          token (set_pos (Z.to_nat (sumZ (take i stack))) line) st =
            Ret (Some (indentStyle i None))
                (set_pos (Z.to_nat (sumZ (take (S i) stack))) line) st'
          /\ listSpaceStack st' = take j stack
          /\ (inside st', extra st') = afterLevel i j).
Proof.
  intros Hall Hj Hpos Hstr Htl.
  pose proof (sumZ_take_mono stack Hall) as Hmono.
  assert (Hsum0 : sumZ (take 0 stack) = 0) by reflexivity.
  split.
  - intros st Hstack Hq Hm Hc.
    destruct (lookup_lt_is_Some_2 stack 0 ltac:(lia)) as [w Hw].
    pose proof (Forall_lookup_1 _ _ _ _ Hall Hw) as Hw1. simpl in Hw1.
    pose proof (sumZ_take_S _ _ _ Hw) as Hs1. rewrite Hsum0 in Hs1.
    pose proof (Hmono 1%nat j ltac:(lia)) as Hm1.
    rewrite token_lineStart by done.
    pose proof (rest_start _ Hpos) as Hrest. rewrite Hstr in Hrest.
    assert (Hn : exists n, Z.to_nat (sumZ (take j stack)) = S n).
    { exists (Z.to_nat (sumZ (take j stack)) - 1)%nat. lia. }
    destruct Hn as [n Hn].
    assert (Hrest' : rest line = String " " (nchars n " " +:+ tl)).
    { rewrite Hrest, Hn. simpl. now rewrite ?append_cons. }
    rewrite lineStart_lineBegin.
    destruct (lineBegin_keeps line (set_combineTokens CombineNull st))
      as (Kq & Kn & Ks & _).
    remember (lineBegin line (set_combineTokens CombineNull st)) as st0 eqn:E. clear E.
    simpl in Kq, Kn, Ks. cbv zeta.
    unfold fenceRE. rewrite (matchRE_rest _ _ _ _ Hrest'). simpl.
    rewrite Ks, Hstack.
    destruct (Nat.eqb_spec (length stack) 0) as [|_]; [lia|]. simpl.
    unfold test, headerLineRE. rewrite exec_Seqs_Bol, Hstr, Hn. simpl.
    rewrite ?append_cons. simpl.
    unfold quoteRE. rewrite (matchRE_rest _ _ _ _ Hrest'). simpl.
    rewrite Kq, Hq. simpl.
    unfold headerRE. rewrite (matchRE_rest _ _ _ _ Hrest'). simpl.
    unfold indentation. rewrite Hstr, countColumn_spaces by done.
    rewrite Nat.add_0_r, Z2Nat.id by lia.
    rewrite rebuildStack_exact by done.
    rewrite (token_listSpace_level _ _ 0 w (Z.to_nat (sumZ (take j stack))) tl);
      [| done | | done | | done | ].
    + simpl. rewrite length_take, Hpos, Hs1.
      replace (j `min` length stack)%nat with j by lia.
      eexists. split; [reflexivity|]. simpl. split; [done|].
      unfold afterLevel. destruct (j <=? 1)%nat; reflexivity.
    + simpl. rewrite lookup_take_lt by lia. exact Hw.
    + simpl. rewrite lookup_take_lt by lia. rewrite Hw. intros [=]. lia.
    + lia.
  - intros i st Hi Hstack Hin He.
    destruct (lookup_lt_is_Some_2 stack i ltac:(lia)) as [w Hw].
    destruct (lookup_lt_is_Some_2 stack 0 ltac:(lia)) as [w0 Hw0].
    pose proof (Forall_lookup_1 _ _ _ _ Hall Hw) as Hw1. simpl in Hw1.
    pose proof (Forall_lookup_1 _ _ _ _ Hall Hw0) as Hw01. simpl in Hw01.
    pose proof (sumZ_take_S _ _ _ Hw) as Hs1.
    pose proof (Hmono 0%nat i ltac:(lia)) as Hm0. rewrite Hsum0 in Hm0.
    pose proof (Hmono (S i) j ltac:(lia)) as Hm1.
    rewrite token_listSpacePart; [|simpl; lia|done].
    rewrite (token_listSpace_level _ _ i w
               (Z.to_nat (sumZ (take j stack)) - Z.to_nat (sumZ (take i stack))) tl).
    + simpl. rewrite Hstack, length_take, Hs1.
      replace (j `min` length stack)%nat with j by lia.
      destruct (Nat.eqb_spec i 0); [lia|].
      rewrite Z2Nat.inj_add by lia.
      eexists. split; [reflexivity|]. simpl. split; [done|].
      unfold afterLevel. rewrite Hin. destruct (j <=? S i)%nat; reflexivity.
    + done.
    + simpl. rewrite Hstack, lookup_take_lt by lia. exact Hw.
    + done.
    + simpl. rewrite Hstack, lookup_take_lt by lia. rewrite Hw0. intros [=]. lia.
    + apply rest_nchars_drop; [done|done|lia].
    + lia.
Qed.

Lemma list_indent_tokens_witness :
  (exists st',
     token (lineStream "      - c" 0 None) (listState [2; 4]) =
       Ret (Some (indentStyle 0 (Some 2%nat)))
           (set_pos 2 (lineStream "      - c" 0 None)) st'
     /\ listSpaceStack st' = [2; 4] /\ (inside st', extra st') = afterLevel 0 2)
  /\ (exists st',
        token (set_pos 2 (lineStream "      - c" 0 None)) nestedListState =
          Ret (Some (indentStyle 1 None))
              (set_pos 6 (lineStream "      - c" 0 None)) st'
        /\ listSpaceStack st' = [2; 4] /\ (inside st', extra st') = afterLevel 1 2).
Proof.
  assert (Hall : Forall (fun w => 1 <= w) [2; 4]) by (repeat constructor; lia).
  destruct (list_indent_tokens [2; 4] 2 "- c" (lineStream "      - c" 0 None) Hall)
    as [H1 H2]; [simpl; lia|reflexivity|reflexivity|reflexivity|].
  split.
  - apply (H1 (listState [2; 4])); (reflexivity || discriminate).
  - apply (H2 1%nat nestedListState); [lia|reflexivity..].
Defined.

(** ** List items at the first column *)

Ltac all_chars c := destruct c as [[] [] [] [] [] [] [] []]; vm_compute; try done.

(** What a bullet, a digit and the end of a number are not. *)
Lemma marker_char (c : ascii) :
  isBullet c || isDigit c = true ->
  isSpace c = false /\ Ascii.eqb "`" c = false /\ Ascii.eqb ">" c = false
  /\ Ascii.eqb "#" c = false /\ Ascii.eqb "=" c = false
  /\ (isDigit c = true -> isBullet c = false /\ Ascii.eqb "-" c = false).
Proof. all_chars c; intros _; repeat split; done. Qed.

Lemma numberEnd_char (c : ascii) : isNumberEnd c = true -> isDigit c = false.
Proof. all_chars c. Qed.

(** The pattern of a list item on a marker followed by white space. *)
Lemma listRE_marker (digits : string) (d : ascii) (c : ascii) (w tl : string) consume stream :
  rest stream = digits +:+ String d (String c w +:+ tl) ->
  listMarker digits d = true ->
  allb isSpace (String c w) = true -> stopsAt isSpace tl = true ->
  matchRE listRE consume stream =
  Some (String.length digits + 2 + String.length w,
        if consume then set_pos (pos stream + (String.length digits + 2 + String.length w)) stream
        else stream)%nat.
Proof.
  intros Hrest Hm Hw Htl. simpl in Hw. apply andb_true_iff in Hw as [Hc Hw].
  unfold listRE. rewrite (matchRE_rest _ _ _ _ Hrest).
  assert (E : rmatch (Seqs
       [Star ws; Alt (OneOf [CChr "*"; CChr "-"; CChr "+"])
                   (Seq (Plus digit) (OneOf [CChr "."; CChr ")"]));
        Plus ws]) 0 (digits +:+ String d (String c w +:+ tl)) accept
     = Some (String.length digits + 2 + String.length w)%nat); [|now rewrite E].
  assert (Hplus : forall i, rmatch (Plus ws) i (String c w +:+ tl) (fun i' s' => accept i' s')
                            = Some (i + 1 + String.length w)%nat).
  { intros i. rewrite append_cons. simpl. rewrite Hc. simpl.
    rewrite (star_run _ isSpace (fun _ _ _ => atom_ws _ _ _) w tl _ _ _
               (i + 1 + String.length w)%nat); [done|done|done|done|].
    unfold accept. f_equal. lia. }
  destruct digits as [|c0 digits].
  - simpl in Hm. rewrite append_nil.
    destruct (marker_char d) as (Hs & _); [now rewrite Hm|].
    cbn [Seqs foldr rmatch].
    rewrite (star_stop _ isSpace (fun _ _ _ => atom_ws _ _ _));
      [|unfold stopsAt; simpl; now rewrite Hs].
    unfold isBullet in Hm. cbn [atom]. rewrite Hm.
    rewrite Hplus. f_equal.
  - unfold listMarker in Hm. apply andb_true_iff in Hm as [Hd He].
    simpl in Hd. apply andb_true_iff in Hd as [Hd0 Hd].
    destruct (marker_char c0) as (Hs & _ & _ & _ & _ & Hb); [now rewrite Hd0, orb_true_r|].
    destruct (Hb Hd0) as [Hb0 _].
    rewrite append_cons.
    cbn [Seqs foldr rmatch].
    rewrite (star_stop _ isSpace (fun _ _ _ => atom_ws _ _ _));
      [|unfold stopsAt; simpl; now rewrite Hs].
    unfold isBullet in Hb0. cbn [atom]. rewrite Hb0.
    unfold Plus, digit. cbn [rmatch atom]. unfold isDigit in Hd0. rewrite Hd0.
    rewrite (star_run _ isDigit (fun _ _ _ => eq_refl) digits (String d (String c w +:+ tl))
               _ _ _ (String.length (String c0 digits) + 2 + String.length w)%nat);
      [done|done| |done|].
    + unfold stopsAt. simpl. now rewrite (numberEnd_char d He).
    + cbn [atom]. unfold isNumberEnd in He. rewrite He.
      etrans; [exact (Hplus _)|]. f_equal. simpl. lia.
Qed.

Lemma space_not_dash (c : ascii) : isSpace c = true -> Ascii.eqb "-" c = false.
Proof. all_chars c. Qed.

(** X8: an item of a list at the first column, a bullet or a number with
    its dot or parenthesis, followed by white space: whatever the list stack,
    the token is the marker with the white space after it, with the style of
    a list line of depth 1; the stack becomes the single level 0, the state
    is out of the indentation and [nstyle] is kept. *)
Theorem unindented_item (digits : string) (d c : ascii) (w tl : string)
    (stream : StringStream) (st : State) :
  pos stream = 0%nat ->
  str stream = digits +:+ String d (String c w +:+ tl) ->
  listMarker digits d = true ->
  allb isSpace (String c w) = true -> stopsAt isSpace tl = true ->
  quoteLevel st = 0%nat ->
  inside st <> Some math -> inside st <> Some codeFence ->
  exists st',
    token stream st =
      Ret (Some "line-HyperMD-list-line line-HyperMD-list-line-1")
          (set_pos (String.length digits + 2 + String.length w) stream) st'
    /\ listSpaceStack st' = [0]
    /\ inside st' = None /\ extra st' = ExtraNull
    /\ nstyle st' = nstyle st.
Proof.
  intros Hpos Hstr Hmark Hw Htl Hq Hm Hc.
  rewrite token_lineStart by done.
  pose proof (rest_start _ Hpos) as Hrest. rewrite Hstr in Hrest.
  pose proof (listRE_marker digits d c w tl false stream Hrest Hmark Hw Htl) as Hlist.
  pose proof (listRE_marker digits d c w tl true stream Hrest Hmark Hw Htl) as Hlist'.
  assert (Hfirst : exists f r, rest stream = String f r /\ str stream = String f r
                     /\ isBullet f || isDigit f = true
                     /\ rmatch (Alt (AtLeast3 (Chr "-")) (AtLeast3 (Chr "="))) 0 (String f r)
                          (fun i' s' => rmatch (Seq Eol Eps) i' s' accept) = None).
  { destruct digits as [|c0 digits].
    - exists d, (String c w +:+ tl). rewrite Hrest, Hstr, append_nil.
      simpl in Hmark. repeat split; [now rewrite Hmark|].
      simpl in Hw. apply andb_true_iff in Hw as [Hc' _].
      destruct (marker_char d) as (_ & _ & _ & _ & He & _); [now rewrite Hmark|].
      rewrite append_cons. simpl. rewrite He, (space_not_dash c Hc').
      now destruct (Ascii.eqb "-" d).
    - exists c0, (digits +:+ String d (String c w +:+ tl)).
      rewrite Hrest, Hstr, append_cons.
      unfold listMarker in Hmark. apply andb_true_iff in Hmark as [Hd _].
      simpl in Hd. apply andb_true_iff in Hd as [Hd0 _].
      repeat split; [now rewrite Hd0, orb_true_r|].
      destruct (marker_char c0) as (_ & _ & _ & _ & He & Hb); [now rewrite Hd0, orb_true_r|].
      destruct (Hb Hd0) as [_ Hdash]. simpl. now rewrite He, Hdash. }
  destruct Hfirst as (f & r & Hrest' & Hstr' & Hf & Hsetext).
  destruct (marker_char f Hf) as (Hs & Hbq & Hgt & Hhash & _).
  rewrite lineStart_lineBegin.
  destruct (lineBegin_keeps stream (set_combineTokens CombineNull st))
    as (Kq & Kn & Ks & _).
  remember (lineBegin stream (set_combineTokens CombineNull st)) as st0 eqn:E. clear E.
  simpl in Kq, Kn, Ks. cbv zeta.
  unfold fenceRE. rewrite (matchRE_rest _ _ _ _ Hrest'). simpl. rewrite Hbq.
  unfold indentation. rewrite Hstr'. simpl countColumn. rewrite Hs. simpl.
  rewrite andb_false_r.
  unfold test, headerLineRE. rewrite exec_Seqs_Bol.
  change (rmatch (Seqs [Alt (AtLeast3 (Chr "-")) (AtLeast3 (Chr "=")); Eol]) 0 (String f r) accept)
    with (rmatch (Alt (AtLeast3 (Chr "-")) (AtLeast3 (Chr "="))) 0 (String f r)
            (fun i' s' => rmatch (Seq Eol Eps) i' s' accept)).
  rewrite Hsetext. simpl.
  unfold quoteRE. rewrite (matchRE_rest _ _ _ _ Hrest'). simpl. rewrite Hgt.
  rewrite Kq, Hq. simpl.
  unfold headerRE. rewrite (matchRE_rest _ _ _ _ Hrest'). simpl. rewrite Hhash.
  rewrite Hlist. simpl. rewrite orb_true_r.
  rewrite rebuildStack_zero by lia. simpl.
  unfold token_listSpace. simpl. rewrite Hlist'. simpl. rewrite Hpos. simpl.
  eexists. split; [reflexivity|]. simpl. now rewrite Kn.
Qed.

Lemma unindented_item_witness :
  exists st',
    token (lineStream "12)  text" 0 None) (listState [2; 4]) =
      Ret (Some "line-HyperMD-list-line line-HyperMD-list-line-1")
          (set_pos 5 (lineStream "12)  text" 0 None)) st'
    /\ listSpaceStack st' = [0]
    /\ inside st' = None /\ extra st' = ExtraNull
    /\ nstyle st' = 0.
Proof.
  apply (unindented_item "12" ")" " " " " "text" (lineStream "12)  text" 0 None)
           (listState [2; 4])); (reflexivity || discriminate).
Defined.

(** ** Unmarked lines of a block quote, and the separator line of a table *)

Lemma headerLine_other c tl :
  Ascii.eqb c "-" = false -> Ascii.eqb c "=" = false ->
  test headerLineRE (String c tl) = false.
Proof.
  intros H1 H2. unfold test, headerLineRE.
  rewrite exec_Seqs_Bol. simpl.
  rewrite (Ascii.eqb_sym "-" c), (Ascii.eqb_sym "=" c), H1, H2. reflexivity.
Qed.

(** X9: at the first character of a line, outside a formula and a code
    fence, in a block quote (the level of the quote is not 0), a line that
    begins with a character that is neither white space nor one of [>], a
    backquote, [-] and [=] continues the quote without a mark: the token is
    that one character, the style names
    the level of the quote, which is kept, whatever the line goes on with (a
    line of hashes is no header there); the list stack and [nstyle] are
    kept. *)
Theorem quote_continues (c : ascii) (tl : string) (stream : StringStream) (st : State) :
  pos stream = 0%nat ->
  str stream = String c tl ->
  plainStart c = true ->
  quoteLevel st <> 0%nat ->
  inside st <> Some math -> inside st <> Some codeFence ->
  token stream st =
    Ret (Some ("line-HyperMD-quote line-HyperMD-quote-" +:+ showNat (quoteLevel st)))
        (set_pos 1 stream) (quoteContinued stream st)
  /\ quoteLevel (quoteContinued stream st) = quoteLevel st
  /\ listSpaceStack (quoteContinued stream st) = listSpaceStack st
  /\ nstyle (quoteContinued stream st) = nstyle st.
Proof.
  intros Hpos Hstr Hc Hq Hm Hf.
  unfold plainStart in Hc. simpl in Hc. rewrite orb_false_r in Hc.
  apply andb_true_iff in Hc as [Hsp Hc]. apply negb_true_iff in Hsp, Hc.
  apply orb_false_iff in Hc as [Hgt Hc]. apply orb_false_iff in Hc as [Hbq Hc].
  apply orb_false_iff in Hc as [Hd He].
  unfold quoteContinued.
  destruct (lineBegin_keeps stream (set_combineTokens CombineNull st))
    as (Kq & Kn & Ks & Kp & _).
  simpl in Kq, Kn, Ks, Kp.
  split; [|simpl; now rewrite Kq, Ks, Kn].
  rewrite token_lineStart by done.
  pose proof (rest_start _ Hpos) as Hrest. rewrite Hstr in Hrest.
  rewrite lineStart_lineBegin.
  remember (lineBegin stream (set_combineTokens CombineNull st)) as st0 eqn:E. clear E.
  cbv zeta.
  unfold fenceRE. rewrite (matchRE_rest _ _ _ _ Hrest).
  simpl (rmatch _ _ _ _). rewrite (Ascii.eqb_sym "`" c), Hbq.
  assert (Hind : indentation stream = 0).
  { unfold indentation. rewrite Hstr. simpl. now rewrite Hsp. }
  rewrite Hind. rewrite andb_false_r.
  rewrite Hstr, headerLine_other by done. rewrite andb_false_l.
  unfold quoteRE. rewrite (matchRE_rest _ _ _ _ Hrest).
  simpl (rmatch _ _ _ _). rewrite (Ascii.eqb_sym ">" c), Hgt.
  simpl. rewrite Kq.
  destruct (Nat.eqb_spec (quoteLevel st) 0); [done|]. simpl.
  unfold next. rewrite (rest_peek _ _ _ Hrest), Hpos. reflexivity.
Qed.

Lemma quote_continues_witness :
  token (lineStream "# no header" 1 None) (scanDoc ["> quoted"] 0 startState) =
    Ret (Some ("line-HyperMD-quote line-HyperMD-quote-" +:+ showNat 1))
        (set_pos 1 (lineStream "# no header" 1 None))
        (quoteContinued (lineStream "# no header" 1 None) (scanDoc ["> quoted"] 0 startState))
  /\ quoteLevel (quoteContinued (lineStream "# no header" 1 None)
                   (scanDoc ["> quoted"] 0 startState)) = 1%nat
  /\ listSpaceStack (quoteContinued (lineStream "# no header" 1 None)
                       (scanDoc ["> quoted"] 0 startState)) = []
  /\ nstyle (quoteContinued (lineStream "# no header" 1 None)
               (scanDoc ["> quoted"] 0 startState)) = 0.
Proof.
  apply (quote_continues "#" " no header" (lineStream "# no header" 1 None)
           (scanDoc ["> quoted"] 0 startState));
    (reflexivity || (vm_compute; discriminate)).
Defined.

Lemma append_empty_l (s : string) : "" +:+ s = s.
Proof. reflexivity. Qed.

(** Within white space followed by something that is no colon, no colon is
    found. *)
Lemma no_colon_after_spaces (w tl : string) (k : cont) :
  allb isSpace w = true -> stopsAt (Ascii.eqb ":") tl = true ->
  forall i j, (j <= String.length w)%nat ->
    rmatch (Chr ":") (i + j) (dropStr j (w +:+ tl)) k = None.
Proof.
  intros Hw Htl. induction w as [|c w IH]; intros i j Hj.
  - simpl in Hj. replace j with 0%nat by lia. rewrite append_empty_l. simpl.
    destruct tl as [|d tl]; [reflexivity|].
    simpl in Htl. apply negb_true_iff in Htl. unfold atom. now rewrite Htl.
  - simpl in Hw. apply andb_true_iff in Hw as [Hc Hw].
    destruct j as [|j].
    + simpl. unfold atom.
      destruct (Ascii.eqb_spec ":" c) as [<-|]; [discriminate Hc|reflexivity].
    + rewrite append_cons. simpl dropStr.
      replace (i + S j)%nat with (S i + j)%nat by lia.
      apply IH; [done|]. simpl in Hj. lia.
Qed.

Lemma dashRE_match (lead : option string) (n : nat) (w after : string) :
  from_option (allb isSpace) true lead = true ->
  allb isSpace w = true -> stopsAt isSpace after = true ->
  stopsAt (Ascii.eqb "-") (w +:+ after) = true ->
  rmatch (Seqs [Opt (Seq (Chr ":") (Star ws)); Plus (Chr "-"); Opt (Seq (Star ws) (Chr ":"))])
         0 (leadText lead +:+ nchars (S n) "-" +:+ w +:+ after) accept
  = Some (dashToken lead n w after).
Proof.
  intros Hlead Hw Hafter Hdash.
  assert (Ht : forall i,
    rmatch (Opt (Seq (Star ws) (Chr ":"))) i (w +:+ after) (fun i' s' => accept i' s')
    = Some (i + (if colonNext after then String.length w + 1 else 0))%nat).
  { intros i. simpl.
    destruct (colonNext after) eqn:Hc.
    - erewrite (star_run _ isSpace (fun _ _ _ => atom_ws _ _ _) w);
        [reflexivity|done|done|lia|].
      destruct after as [|d after]; [discriminate Hc|]. simpl in Hc.
      unfold atom, accept. rewrite (Ascii.eqb_sym ":" d), Hc. f_equal. lia.
    - rewrite (star_run_none _ isSpace (fun _ _ _ => atom_ws _ _ _) w after);
        [unfold accept; f_equal; lia|done|].
      intros j Hj. apply (no_colon_after_spaces w after _ Hw); [|done].
      destruct after as [|d after]; [reflexivity|]. simpl in *.
      now rewrite (Ascii.eqb_sym ":" d), Hc. }
  assert (Hd : forall i,
    rmatch (Seqs [Plus (Chr "-"); Opt (Seq (Star ws) (Chr ":"))]) i
      (nchars (S n) "-" +:+ w +:+ after) accept
    = Some (i + S n + (if colonNext after then String.length w + 1 else 0))%nat).
  { intros i.
    change (Seqs [Plus (Chr "-"); Opt (Seq (Star ws) (Chr ":"))])
      with (Seq (Seq (Chr "-") (Star (Chr "-")))
              (Seq (Opt (Seq (Star ws) (Chr ":"))) Eps)).
    simpl nchars. rewrite append_cons.
    remember (Opt (Seq (Star ws) (Chr ":"))) as R eqn:ER.
    simpl.
    erewrite (star_run _ (Ascii.eqb "-") (fun _ _ _ => eq_refl) (nchars n "-"));
      [reflexivity|now apply allb_nchars|done|lia|].
    rewrite length_nchars. rewrite Ht. f_equal. lia. }
  unfold dashToken.
  change (Seqs [Opt (Seq (Chr ":") (Star ws)); Plus (Chr "-"); Opt (Seq (Star ws) (Chr ":"))])
    with (Seq (Opt (Seq (Chr ":") (Star ws)))
              (Seqs [Plus (Chr "-"); Opt (Seq (Star ws) (Chr ":"))])).
  remember (Seqs [Plus (Chr "-"); Opt (Seq (Star ws) (Chr ":"))]) as R eqn:ER.
  destruct lead as [l|]; simpl in Hlead.
  - simpl leadText. rewrite append_cons.
    simpl.
    erewrite (star_run _ isSpace (fun _ _ _ => atom_ws _ _ _) l);
      [reflexivity|done|reflexivity|lia|].
    subst R. rewrite Hd. f_equal; lia.
  - simpl leadText. rewrite append_empty_l.
    simpl.
    subst R. rewrite Hd. f_equal; lia.
Qed.

(** X10: in the separator line of a table, past the first character, a
    cell is one token with the style of the dashes: the colon with the white
    space after it when the cell begins with one, the dashes and, when a colon
    follows the white space after the dashes, that white space and the colon;
    the state changes in nothing but the bookkeeping of the inline content
    and [combineTokens]. *)
Theorem table_separator_dashes (lead : option string) (n : nat) (w after : string)
    (stream : StringStream) (st : State) :
  pos stream <> 0%nat ->
  inside st = Some tableTitleSep ->
  rest stream = leadText lead +:+ nchars (S n) "-" +:+ w +:+ after ->
  from_option (allb isSpace) true lead = true ->
  allb isSpace w = true -> stopsAt isSpace after = true ->
  stopsAt (Ascii.eqb "-") (w +:+ after) = true ->
  token stream st =
    Ret (Some "hmd-table-title-dash line-HyperMD-table-row line-HyperMD-table-rowsep ")
        (set_pos (pos stream + dashToken lead n w after) stream)
        (set_combineTokens (CombineBool false) (inlineBegin stream st)).
Proof.
  intros Hpos Hin Hrest Hlead Hw Hafter Hdash.
  rewrite token_inlinePart by (done || (rewrite Hin; discriminate)).
  rewrite token_inline_inlineBegin. cbv zeta. rewrite inlineBegin_null.
  destruct (inlineBegin_keeps stream st) as (_ & Ki & _).
  rewrite Ki, Hin. rewrite bool_decide_eq_true_2 by done.
  unfold dashRE. rewrite (matchRE_rest _ _ _ _ Hrest).
  now rewrite dashRE_match.
Qed.

Lemma table_separator_dashes_witness :
  token (set_pos 1 (lineStream "|: ---  :| --- |" 1 None))
        (scanDoc ["|a|b|"; "|-|-|"] 0 startState) =
    Ret (Some "hmd-table-title-dash line-HyperMD-table-row line-HyperMD-table-rowsep ")
        (set_pos (1 + dashToken (Some " ") 2 "  " ":| --- |")
                 (set_pos 1 (lineStream "|: ---  :| --- |" 1 None)))
        (set_combineTokens (CombineBool false)
           (inlineBegin (set_pos 1 (lineStream "|: ---  :| --- |" 1 None))
              (scanDoc ["|a|b|"; "|-|-|"] 0 startState))).
Proof.
  apply (table_separator_dashes (Some " ") 2 "  " ":| --- |"
           (set_pos 1 (lineStream "|: ---  :| --- |" 1 None))
           (scanDoc ["|a|b|"; "|-|-|"] 0 startState));
    (reflexivity || discriminate).
Defined.

(** ** Inline code *)

(** X11: inline code, past the first character of a line: a backquote, the
    text up to the next backquote and that backquote (or the rest of the line
    when there is none) are one token with no style, and the state changes in
    nothing but the bookkeeping of the inline content, whatever [nstyle]
    holds. *)
Theorem inline_code_span (body tl : string) (stream : StringStream) (st : State) :
  pos stream <> 0%nat ->
  rest stream = String "`" (body +:+ tl) ->
  allb notBackquote body = true -> emptyOr (Ascii.eqb "`") tl = true ->
  inside st <> Some math -> inside st <> Some codeFence -> inside st <> Some listSpace ->
  token stream st =
    Ret None
        (set_pos (pos stream + 1 + String.length body + Nat.min 1 (String.length tl)) stream)
        (inlineBegin stream st).
Proof.
  intros Hpos Hrest Hbody Htl Hm Hc Hl.
  rewrite token_inlinePart by done.
  rewrite token_inline_inlineBegin, inlineBegin_null. cbv zeta.
  destruct (inlineBegin_keeps stream st) as (_ & Ki & _).
  rewrite Ki.
  assert (Hdash : (if bool_decide (inside st = Some tableTitleSep)
                   then matchRE dashRE true stream else None) = None).
  { case_bool_decide; [|done]. unfold dashRE. now rewrite (matchRE_rest _ _ _ _ Hrest). }
  rewrite Hdash.
  unfold inlineCodeRE. rewrite (matchRE_rest _ _ _ _ Hrest). simpl.
  rewrite (star_run _ notBackquote (fun i s k => atom_not1 "`" i s k) body tl _ _ _
             (1 + String.length body + Nat.min 1 (String.length tl))%nat).
  - do 2 f_equal. destruct (String.length tl); lia.
  - done.
  - destruct tl as [|c tl]; [done|]. unfold stopsAt, notBackquote. simpl in *.
    rewrite Ascii.eqb_sym in Htl. now rewrite Htl.
  - done.
  - destruct tl as [|c tl]; simpl; [unfold accept; f_equal; lia|].
    simpl in Htl. rewrite Htl. unfold accept. f_equal. lia.
Qed.

Lemma inline_code_span_witness :
  token (set_pos 2 (lineStream "a `*b*` c" 0 None)) startState =
    Ret None (set_pos 7 (lineStream "a `*b*` c" 0 None))
        (inlineBegin (set_pos 2 (lineStream "a `*b*` c" 0 None)) startState).
Proof.
  apply (inline_code_span "*b*" "` c" (set_pos 2 (lineStream "a `*b*` c" 0 None)) startState);
    (reflexivity || discriminate).
Defined.

(** ** Plain text *)

Lemma eat_other (x c : ascii) r stream :
  rest stream = String c r -> Ascii.eqb c x = false -> eat x stream = None.
Proof. intros Hrest Hc. unfold eat. now rewrite (rest_peek _ _ _ Hrest), Hc. Qed.

Lemma eat_same (c : ascii) r stream :
  rest stream = String c r -> eat c stream = Some (set_pos (S (pos stream)) stream).
Proof. intros Hrest. unfold eat. now rewrite (rest_peek _ _ _ Hrest), Ascii.eqb_refl. Qed.

Lemma matchStr_other (x c : ascii) p r stream :
  rest stream = String c r -> Ascii.eqb x c = false -> matchStr (String x p) stream = None.
Proof. intros Hrest Hc. unfold matchStr. rewrite Hrest. simpl. now rewrite Hc. Qed.

Lemma dash_skipped stream (st : State) c r :
  rest stream = String c r -> Ascii.eqb ":" c = false -> Ascii.eqb "-" c = false ->
  (if bool_decide (inside st = Some tableTitleSep)
   then matchRE dashRE true stream else None) = None.
Proof.
  intros Hrest H1 H2. case_bool_decide; [|done].
  unfold dashRE. rewrite (matchRE_rest _ _ _ _ Hrest). simpl. now rewrite H1, H2.
Qed.

Lemma inlineCode_other stream c r :
  rest stream = String c r -> Ascii.eqb "`" c = false ->
  matchRE inlineCodeRE true stream = None.
Proof.
  intros Hrest Hc. unfold inlineCodeRE. rewrite (matchRE_rest _ _ _ _ Hrest). simpl.
  now rewrite Hc.
Qed.

Lemma mathOpen_other stream c r :
  rest stream = String c r -> Ascii.eqb "$" c = false -> mathOpen stream = (stream, None).
Proof.
  intros Hrest Hc. unfold mathOpen, dollarsRE. rewrite (matchRE_rest _ _ _ _ Hrest). simpl.
  now rewrite Hc.
Qed.

Lemma tablePart_other stream st c r :
  rest stream = String c r -> Ascii.eqb c "|" = false -> tablePart stream st = Next stream st.
Proof.
  intros Hrest Hc. unfold tablePart. rewrite (eat_other _ _ _ _ Hrest Hc).
  now destruct (_ && _).
Qed.

Lemma linkPart_other atB n ans stream st c r :
  rest stream = String c r ->
  linkBits n <> FOOTREF_BEGIN ->
  Ascii.eqb "[" c = false -> Ascii.eqb c "]" = false -> Ascii.eqb c ")" = false ->
  Ascii.eqb dquote c = false ->
  linkPart atB n ans stream st = Next stream st.
Proof.
  intros Hrest Hn H1 H2 H3 H4. unfold linkPart, linkBits in *.
  destruct (js_and n _link_mask =? 0)%Z.
  - unfold linkBegin, bracketRE. rewrite (matchRE_rest _ _ _ _ Hrest). simpl. now rewrite H1.
  - unfold linkSwitch.
    destruct (Z.eqb_spec (js_and n _link_mask) FOOTREF_BEGIN) as [|_]; [done|].
    rewrite (eat_other "]" _ _ _ Hrest H2), (eat_other ")" _ _ _ Hrest H3).
    rewrite (matchStr_other "]" c _ _ _ Hrest) by (now rewrite Ascii.eqb_sym).
    unfold quotedRE. rewrite (matchRE_rest _ _ _ _ Hrest). simpl. rewrite H4.
    repeat case_match; simplify_eq/=; done.
Qed.

Lemma escapePart_other n ans stream st c r :
  rest stream = String c r -> js_and n ESCAPE = 0 -> Ascii.eqb backslash c = false ->
  escapePart n ans stream st = Next stream st.
Proof.
  intros Hrest Hn Hc. unfold escapePart. rewrite Hn. simpl.
  unfold escapeRE. rewrite (matchRE_rest _ _ _ _ Hrest). simpl. now rewrite Hc.
Qed.

Lemma emphasisPart_other ans stream st c r :
  rest stream = String c r ->
  Ascii.eqb c "*" = false -> Ascii.eqb c "_" = false -> Ascii.eqb c "~" = false ->
  emphasisPart ans stream st = Next stream st.
Proof.
  intros Hrest H1 H2 H3. unfold emphasisPart.
  rewrite (matchStr_other "*" c _ _ _ Hrest) by (now rewrite Ascii.eqb_sym).
  rewrite (matchStr_other "_" c _ _ _ Hrest) by (now rewrite Ascii.eqb_sym).
  rewrite (matchStr_other "~" c _ _ _ Hrest) by (now rewrite Ascii.eqb_sym).
  rewrite (eat_other "*" _ _ _ Hrest H1), (eat_other "_" _ _ _ Hrest H2).
  now destruct (_ || _).
Qed.

(** What a character that cannot form a token is not. *)
Lemma meanless_char (c : ascii) :
  isMeanless c = true ->
  Ascii.eqb "`" c = false /\ Ascii.eqb "$" c = false /\ Ascii.eqb c "|" = false
  /\ Ascii.eqb "[" c = false /\ Ascii.eqb c "]" = false /\ Ascii.eqb c ")" = false
  /\ Ascii.eqb dquote c = false /\ Ascii.eqb backslash c = false
  /\ Ascii.eqb c "*" = false /\ Ascii.eqb c "_" = false /\ Ascii.eqb c "~" = false
  /\ Ascii.eqb ":" c = false.
Proof. all_chars c; intros _; repeat split; done. Qed.

Lemma atom_meanless i s k :
  atom (fun c => negb (existsb (inCset c)
                         (map CChr (list_ascii_of_string possibleTokenChars)))) i s k
  = atom isMeanless i s k.
Proof. reflexivity. Qed.

(** X12: a run of characters that cannot form a token, with no escape
    pending and no footnote reference just opened, is one token: it reaches
    to the first character that can form one, its style is the one [nstyle]
    gives, or none when that is empty, and the state changes in nothing but
    the bookkeeping of the inline content. *)
Theorem plain_text_run (run tl : string) (stream : StringStream) (st : State) :
  pos stream <> 0%nat ->
  rest stream = run +:+ tl -> run <> "" ->
  allb isMeanless run = true -> stopsAt isMeanless tl = true ->
  truthyInside (inside st) = false ->
  js_and (nstyle st) ESCAPE = 0 -> linkBits (nstyle st) <> FOOTREF_BEGIN ->
  token stream st =
    Ret (if (String.length (initialStyle (nstyle st)) =? 0)%nat
         then None else Some (initialStyle (nstyle st)))
        (set_pos (pos stream + String.length run) stream)
        (inlineBegin stream st).
Proof.
  intros Hpos Hrest Hne Hrun Htl Hin Hesc Hlink.
  destruct run as [|c run]; [done|]. rewrite append_cons in Hrest.
  simpl in Hrun. apply andb_true_iff in Hrun as [Hc Hrun].
  destruct (meanless_char c Hc)
    as (Hbq & Hdol & Hpipe & Hlb & Hrb & Hrp & Hdq & Hbs & Hst & Hun & Hti & Hcol).
  assert (Hins : inside st <> Some math /\ inside st <> Some codeFence
                 /\ inside st <> Some listSpace /\ inside st <> Some tableTitleSep).
  { repeat split; intros E; rewrite E in Hin; done. }
  destruct Hins as (Hi1 & Hi2 & Hi3 & Hi4).
  rewrite token_inlinePart by done.
  rewrite token_inline_inlineBegin, inlineBegin_null. cbv zeta.
  destruct (inlineBegin_keeps stream st) as (Kn & Ki & _).
  rewrite Ki.
  assert (Hdash : (if bool_decide (inside st = Some tableTitleSep)
                   then matchRE dashRE true stream else None) = None).
  { case_bool_decide as E; done. }
  rewrite Hdash, (inlineCode_other _ _ _ Hrest Hbq), (mathOpen_other _ _ _ Hrest Hdol).
  rewrite (tablePart_other _ _ _ _ Hrest Hpipe).
  unfold mixablePart. rewrite Kn.
  rewrite (linkPart_other _ _ _ _ _ _ _ Hrest Hlink Hlb Hrb Hrp Hdq).
  rewrite (escapePart_other _ _ _ _ _ _ Hrest Hesc Hbs).
  rewrite (emphasisPart_other _ _ _ _ _ Hrest Hst Hun Hti).
  unfold fallback, meanlessCharsRE. rewrite (matchRE_rest _ _ _ _ Hrest).
  cbn [Seqs foldr rmatch Plus]. rewrite atom_meanless. cbn [atom]. rewrite Hc.
  rewrite (star_run _ isMeanless (fun _ _ _ => eq_refl) run tl _ _ _
             (1 + String.length run)%nat); [|done|done|done|reflexivity].
  simpl. replace (pos stream + S (String.length run))%nat
    with (pos stream + (1 + String.length run))%nat by lia.
  reflexivity.
Qed.

Lemma plain_text_run_witness :
  token (set_pos 1 (lineStream "a plain text, then *" 0 None)) startState =
    Ret None (set_pos 19 (lineStream "a plain text, then *" 0 None))
        (inlineBegin (set_pos 1 (lineStream "a plain text, then *" 0 None)) startState).
Proof.
  apply (plain_text_run " plain text, then " "*"
           (set_pos 1 (lineStream "a plain text, then *" 0 None)) startState);
    (reflexivity || discriminate).
Defined.

(** ** Escapes *)

Lemma lor_clear_bit (n : Z) : Z.land n 8 = 0 -> Z.lor n 8 = n + 8.
Proof. intros H. pose proof (Z.add_lor_land n 8) as E. rewrite H in E. lia. Qed.

Lemma escape_set (n : Z) :
  0 <= n < 65536 -> js_and n ESCAPE = 0 ->
  js_or n ESCAPE = n + 8
  /\ js_and (n + 8) ESCAPE <> 0
  /\ js_and (n + 8) _link_mask = js_and n _link_mask.
Proof.
  intros Hn He. change ESCAPE with 8 in *. change _link_mask with 65280.
  rewrite js_and_land in He by lia.
  assert (Hor : js_or n 8 = n + 8).
  { unfold js_or. rewrite (int32_small n), (int32_small 8) by lia.
    rewrite (lor_clear_bit n He).
    apply int32_small. lia. }
  split; [exact Hor|].
  rewrite (js_and_land (n + 8) 8), (js_and_land (n + 8) 65280), (js_and_land n 65280) by lia.
  rewrite <- (lor_clear_bit n He).
  split.
  - rewrite Z.land_lor_distr_l. change (Z.land 8 8) with 8.
    rewrite He. discriminate.
  - rewrite Z.land_lor_distr_l. change (Z.land 8 65280) with 0. now rewrite Z.lor_0_r.
Qed.

(** X13: a backslash and the character it escapes are two tokens: the
    first is the backslash, with the styles of an escape, and sets the escape
    bit of [nstyle]; the second is the escaped character, and leaves [nstyle]
    as it was before the backslash. *)
Theorem escape_round_trip (c : ascii) (tl : string) (stream : StringStream) (st : State) :
  pos stream <> 0%nat ->
  rest stream = String backslash (String c tl) ->
  isLineTerminator c = false ->
  Ascii.eqb "`" c = false -> Ascii.eqb "$" c = false -> Ascii.eqb "[" c = false ->
  truthyInside (inside st) = false ->
  0 <= nstyle st < 65536 ->
  js_and (nstyle st) ESCAPE = 0 -> linkBits (nstyle st) = 0 ->
  exists st1 st2,
    token stream st =
      Ret (Some (initialStyle (nstyle st) +:+ "hmd-escape " +:+ "hmd-escape-backslash "))
          (set_pos (pos stream + 1) stream) st1
    /\ nstyle st1 = js_or (nstyle st) ESCAPE
    /\ token (set_pos (pos stream + 1) stream) st1 =
         Ret (Some (initialStyle (nstyle st1))) (set_pos (pos stream + 2) stream) st2
    /\ nstyle st2 = nstyle st.
Proof.
  intros Hpos Hrest Hdot Hbq Hdol Hlb Hin Hrange Hesc Hlink.
  assert (Hins : inside st <> Some math /\ inside st <> Some codeFence
                 /\ inside st <> Some listSpace /\ inside st <> Some tableTitleSep).
  { repeat split; intros E; rewrite E in Hin; done. }
  destruct Hins as (Hi1 & Hi2 & Hi3 & Hi4).
  destruct (escape_set _ Hrange Hesc) as (Hor & Hset & Hmask).
  assert (Hrest1 : rest (set_pos (pos stream + 1) stream) = String c tl).
  { rewrite rest_set_pos, Hrest. reflexivity. }
  (* the backslash *)
  rewrite token_inlinePart by done.
  rewrite token_inline_inlineBegin, inlineBegin_null. cbv zeta.
  destruct (inlineBegin_keeps stream st) as (Kn & Ki & _).
  rewrite Ki.
  assert (Hdash : forall s, (if bool_decide (inside st = Some tableTitleSep)
                             then matchRE dashRE true s else None) = None).
  { intros s. case_bool_decide as E; done. }
  rewrite Hdash.
  rewrite (inlineCode_other _ _ _ Hrest eq_refl), (mathOpen_other _ _ _ Hrest eq_refl).
  rewrite (tablePart_other _ _ _ _ Hrest eq_refl).
  unfold mixablePart. rewrite Kn.
  rewrite (linkPart_other _ _ _ _ _ _ _ Hrest) by (try reflexivity; rewrite Hlink; done).
  unfold escapePart at 1. rewrite Hesc. simpl negb. cbv iota.
  unfold escapeRE. rewrite (matchRE_rest _ _ _ _ Hrest).
  cbn [Seqs foldr rmatch atom]. rewrite Ascii.eqb_refl. rewrite Hdot. cbn [negb accept].
  remember (inlineBegin stream st) as st0 eqn:E0.
  exists (set_nstyle (js_or (nstyle st0) ESCAPE) st0). eexists.
  split; [rewrite Kn; reflexivity|]. split; [simpl; now rewrite Kn|].
  (* the character after it *)
  set (st1 := set_nstyle (js_or (nstyle st0) ESCAPE) st0).
  assert (Kn1 : nstyle st1 = nstyle st + 8) by (unfold st1; simpl; now rewrite Kn, Hor).
  assert (Ki1 : inside st1 = inside st) by (unfold st1; simpl; exact Ki).
  rewrite token_inlinePart; [|simpl; lia|now rewrite Ki1..].
  rewrite token_inline_inlineBegin, inlineBegin_null. cbv zeta.
  destruct (inlineBegin_keeps (set_pos (pos stream + 1) stream) st1) as (Kn2 & Ki2 & Ks2 & _).
  rewrite Ki2, Ki1, Hdash.
  rewrite (inlineCode_other _ _ _ Hrest1 Hbq), (mathOpen_other _ _ _ Hrest1 Hdol).
  assert (Htab : forall s, tablePart s (inlineBegin (set_pos (pos stream + 1) stream) st1)
                 = Next s (inlineBegin (set_pos (pos stream + 1) stream) st1)).
  { intros s. unfold tablePart. rewrite Kn2, Kn1.
    destruct (Z.eqb_spec (nstyle st + 8) 0); [lia|]. reflexivity. }
  rewrite Htab. unfold mixablePart. rewrite Kn2, Kn1.
  unfold linkPart. rewrite Hmask. unfold linkBits in Hlink. rewrite Hlink. simpl.
  unfold linkBegin, bracketRE. rewrite (matchRE_rest _ _ _ _ Hrest1).
  cbn [Seqs foldr rmatch atom]. rewrite Hlb.
  unfold escapePart. destruct (Z.eqb_spec (js_and (nstyle st + 8) ESCAPE) 0); [done|].
  simpl negb. cbv iota. unfold next. rewrite (rest_peek _ _ _ Hrest1).
  split.
  - simpl. replace (S (pos stream + 1)) with (pos stream + 2)%nat by lia. reflexivity.
  - cbn [nstyle set_nstyle].
    destruct (_ && _); cbn [nstyle set_nstyle set_atBeginning];
      rewrite Kn, Hor; change ESCAPE with 8; lia.
Qed.

Lemma escape_round_trip_witness :
  exists st1 st2,
    token (set_pos 1 (lineStream "a\*b" 0 None)) startState =
      Ret (Some (initialStyle 0 +:+ "hmd-escape " +:+ "hmd-escape-backslash "))
          (set_pos 2 (lineStream "a\*b" 0 None)) st1
    /\ nstyle st1 = js_or 0 ESCAPE
    /\ token (set_pos 2 (lineStream "a\*b" 0 None)) st1 =
         Ret (Some (initialStyle (nstyle st1))) (set_pos 3 (lineStream "a\*b" 0 None)) st2
    /\ nstyle st2 = 0.
Proof.
  apply (escape_round_trip "*" "b" (set_pos 1 (lineStream "a\*b" 0 None)) startState);
    try (reflexivity || discriminate).
  simpl. lia.
Defined.

(** ** The delimiters of emphasis *)

(** The delimiters by their first character. *)
Lemma delimiter_cases d bit r :
  (d, bit) ∈ emphasisDelimiters -> delimiterNext d r = true ->
  exists c r', r = String c r' /\ isDelimiterChar c = true
    /\ ((d = "**" /\ bit = STRONG /\ c = "*"%char /\ prefixStr "**" r = true)
        \/ (d = "__" /\ bit = STRONG /\ c = "_"%char /\ prefixStr "__" r = true)
        \/ (d = "*" /\ bit = EM /\ c = "*"%char /\ prefixStr "**" r = false)
        \/ (d = "_" /\ bit = EM /\ c = "_"%char /\ prefixStr "__" r = false)
        \/ (d = "~~" /\ bit = DEL /\ c = "~"%char /\ prefixStr "~~" r = true)).
Proof.
  intros Hin Hn. unfold emphasisDelimiters in Hin.
  rewrite !elem_of_cons in Hin. unfold delimiterNext in Hn.
  apply andb_true_iff in Hn as [Hp Hl].
  destruct r as [|c r']; [destruct Hin as [H|[H|[H|[H|[H|H]]]]];
    [inversion H; subst; discriminate Hp..|now apply elem_of_nil in H]|].
  exists c, r'. split; [reflexivity|].
  destruct Hin as [H|[H|[H|[H|[H|H]]]]]; [inversion H; subst; clear H..|now apply elem_of_nil in H];
    simpl in Hp, Hl; apply andb_true_iff in Hp as [Hc Hp];
    apply Ascii.eqb_eq in Hc; subst c; (split; [reflexivity|]).
  - left. repeat split. exact Hp.
  - right; left. repeat split. exact Hp.
  - right; right; left. repeat split. simpl in Hl. now apply negb_true_iff in Hl.
  - right; right; right; left. repeat split. simpl in Hl. now apply negb_true_iff in Hl.
  - right; right; right; right. repeat split. exact Hp.
Qed.

(** What a delimiter character is not. *)
Lemma delimiter_char (c : ascii) :
  isDelimiterChar c = true ->
  isSpace c = false
  /\ Ascii.eqb "`" c = false /\ Ascii.eqb c "-" = false /\ Ascii.eqb c "=" = false
  /\ Ascii.eqb ">" c = false /\ Ascii.eqb "#" c = false
  /\ Ascii.eqb ":" c = false /\ Ascii.eqb "-" c = false
  /\ Ascii.eqb "$" c = false /\ Ascii.eqb c "|" = false
  /\ Ascii.eqb "[" c = false /\ Ascii.eqb c "]" = false /\ Ascii.eqb c ")" = false
  /\ Ascii.eqb dquote c = false /\ Ascii.eqb backslash c = false.
Proof.
  unfold isDelimiterChar. simpl. rewrite orb_false_r. intros H.
  apply orb_true_iff in H as [H|H]; [|apply orb_true_iff in H as [H|H]];
    apply Ascii.eqb_eq in H; subst c; vm_compute; repeat split.
Qed.

(** At the first character of a line that begins with a delimiter, with no
    block quote and no list open, the start of the line hands the line over
    to the inline content. *)
Lemma lineStart_delimiter stream st c r :
  pos stream = 0%nat -> rest stream = String c r -> isDelimiterChar c = true ->
  quoteLevel st = 0%nat -> listSpaceStack st = [] ->
  matchRE listRE false stream = None ->
  lineStart stream st = Next stream (set_prevLineIsEmpty false (lineBegin stream st)).
Proof.
  intros Hpos Hrest Hc Hq Hs Hl.
  destruct (delimiter_char c Hc)
    as (Hsp & Hbq & Hd & He & Hgt & Hh & _).
  rewrite lineStart_lineBegin.
  destruct (lineBegin_keeps stream st) as (Kq & Kn & Ks & Kp & _).
  remember (lineBegin stream st) as st0 eqn:E. clear E.
  cbv zeta.
  unfold fenceRE. rewrite (matchRE_rest _ _ _ _ Hrest).
  simpl (rmatch _ _ _ _). rewrite Hbq.
  assert (Hstr : str stream = String c r) by (now rewrite <- (rest_start _ Hpos)).
  assert (Hind : indentation stream = 0).
  { unfold indentation. rewrite Hstr. simpl. now rewrite Hsp. }
  rewrite Hind, andb_false_r.
  rewrite Hstr, headerLine_other by done. rewrite andb_false_l.
  unfold quoteRE. rewrite (matchRE_rest _ _ _ _ Hrest).
  simpl (rmatch _ _ _ _). rewrite Hgt.
  simpl. rewrite Kq, Hq. simpl.
  unfold headerRE. rewrite (matchRE_rest _ _ _ _ Hrest).
  simpl (rmatch _ _ _ _). rewrite Hh.
  rewrite Ks, Hs, Hl. reflexivity.
Qed.

(** The state in which the inline content is entered: at the first
    character of a line, after the bookkeeping of the start of the line. *)
Lemma token_delimiter_content d stream st c r :
  delimiterReached d stream st -> rest stream = String c r -> isDelimiterChar c = true ->
  exists st0,
    token stream st = token_inline stream st0
    /\ nstyle st0 = nstyle st.
Proof.
  intros (_ & Hm & Hf & Hl & _ & _ & H0) Hrest Hc.
  destruct (Nat.eq_dec (pos stream) 0%nat) as [Hpos|Hpos].
  - destruct (H0 Hpos) as (Hq & Hs & Hli).
    rewrite token_lineStart by done.
    rewrite (lineStart_delimiter _ _ c r) by done.
    destruct (lineBegin_keeps stream (set_combineTokens CombineNull st))
      as (_ & Kn & _).
    assert (Hi : inside (set_prevLineIsEmpty false
                  (lineBegin stream (set_combineTokens CombineNull st))) <> Some listSpace).
    { unfold lineBegin. simpl. repeat case_match; simpl; done. }
    rewrite bool_decide_eq_false_2 by exact Hi.
    eexists. split; [reflexivity|]. simpl. exact Kn.
  - rewrite token_inlinePart by done.
    eexists. split; [reflexivity|]. reflexivity.
Qed.

(** On a delimiter the inline content comes down to the emphasis branch. *)
Lemma token_inline_delimiter stream st c r :
  rest stream = String c r -> isDelimiterChar c = true ->
  js_and (nstyle st) ESCAPE = 0 -> linkBits (nstyle st) <> FOOTREF_BEGIN ->
  token_inline stream st =
  match emphasisPart (initialStyle (nstyle st)) stream (inlineBegin stream st) with
  | Done o => o
  | Next stream' st' => fallback (initialStyle (nstyle st)) stream' st'
  end.
Proof.
  intros Hrest Hc He Hl.
  destruct (delimiter_char c Hc)
    as (_ & Hbq & _ & _ & _ & _ & Hco & Hda & Hdo & Hpi & Hlb & Hrb & Hrp & Hdq & Hbs).
  rewrite token_inline_inlineBegin. cbv zeta.
  destruct (inlineBegin_keeps stream st) as (Kn & _).
  rewrite (dash_skipped _ _ _ _ Hrest Hco Hda).
  rewrite (inlineCode_other _ _ _ Hrest Hbq).
  rewrite (mathOpen_other _ _ _ Hrest Hdo).
  rewrite (tablePart_other _ _ _ _ Hrest Hpi).
  unfold mixablePart. rewrite Kn.
  rewrite (linkPart_other _ _ _ _ _ _ _ Hrest Hl Hlb Hrb Hrp Hdq).
  rewrite (escapePart_other _ _ _ _ _ _ Hrest He Hbs).
  reflexivity.
Qed.

(** Under its guard the emphasis branch takes the delimiter and toggles the
    bit of the delimiter. *)
Lemma emphasisPart_delimiter d bit ans stream st :
  (d, bit) ∈ emphasisDelimiters -> delimiterNext d (rest stream) = true ->
  emphasisGuard stream (nstyle st) = true ->
  emphasisPart ans stream st =
  Done (Ret (Some ans) (set_pos (pos stream + String.length d) stream) (toggle bit st)).
Proof.
  intros Hin Hn Hg. unfold emphasisPart. unfold emphasisGuard in Hg. rewrite Hg.
  destruct (delimiter_cases _ _ _ Hin Hn) as (c & r' & Hrest & _ & H).
  destruct H as [H|[H|[H|[H|H]]]]; destruct H as (-> & -> & -> & Hp).
  - unfold matchStr. now rewrite Hp.
  - rewrite (matchStr_other "*" "_" _ _ _ Hrest) by reflexivity.
    unfold matchStr. now rewrite Hp.
  - unfold matchStr at 1. rewrite Hp.
    rewrite (matchStr_other "_" "*" _ _ _ Hrest) by reflexivity.
    rewrite (eat_same _ _ _ Hrest).
    now replace (pos stream + String.length "*")%nat with (S (pos stream)) by (simpl; lia).
  - rewrite (matchStr_other "*" "_" _ _ _ Hrest) by reflexivity.
    unfold matchStr at 1. rewrite Hp.
    rewrite (eat_other "*" "_" _ _ Hrest) by reflexivity.
    rewrite (eat_same _ _ _ Hrest).
    now replace (pos stream + String.length "_")%nat with (S (pos stream)) by (simpl; lia).
  - rewrite (matchStr_other "*" "~" _ _ _ Hrest) by reflexivity.
    rewrite (matchStr_other "_" "~" _ _ _ Hrest) by reflexivity.
    rewrite (eat_other "*" "~" _ _ Hrest) by reflexivity.
    rewrite (eat_other "_" "~" _ _ Hrest) by reflexivity.
    unfold matchStr. now rewrite Hp.
Qed.

(** A delimiter character is taken alone by the last step. *)
Lemma fallback_delimiter ans stream st c r :
  rest stream = String c r -> isDelimiterChar c = true ->
  fallback ans stream st =
  Ret (if (String.length ans =? 0)%nat then None else Some ans)
      (set_pos (S (pos stream)) stream) st.
Proof.
  intros Hrest Hc. unfold fallback.
  assert (Hm : matchRE meanlessCharsRE true stream = None).
  { unfold meanlessCharsRE. rewrite (matchRE_rest _ _ _ _ Hrest).
    unfold isDelimiterChar in Hc. simpl in Hc. rewrite orb_false_r in Hc.
    apply orb_true_iff in Hc as [H|H]; [|apply orb_true_iff in H as [H|H]];
      apply Ascii.eqb_eq in H; subst c; reflexivity. }
  rewrite Hm. simpl. unfold next. now rewrite (rest_peek _ _ _ Hrest).
Qed.

(** A call of [token] on a delimiter that it reaches as inline content:
    under the guard it takes the delimiter and toggles its bit, otherwise it
    takes one character and leaves [nstyle] alone. *)
Lemma token_delimiter d bit stream st :
  (d, bit) ∈ emphasisDelimiters -> delimiterReached d stream st ->
  exists st',
    token stream st =
      (if emphasisGuard stream (nstyle st)
       then Ret (Some (initialStyle (nstyle st)))
                (set_pos (pos stream + String.length d) stream) st'
       else Ret (if (String.length (initialStyle (nstyle st)) =? 0)%nat
                 then None else Some (initialStyle (nstyle st)))
                (set_pos (S (pos stream)) stream) st')
    /\ nstyle st' =
       if emphasisGuard stream (nstyle st) then js_xor (nstyle st) bit else nstyle st.
Proof.
  intros Hin Hr.
  pose proof Hr as (Hn & _ & _ & _ & He & Hl & _).
  destruct (delimiter_cases _ _ _ Hin Hn) as (c & r & Hrest & Hc & _).
  destruct (token_delimiter_content _ _ _ _ _ Hr Hrest Hc) as (st0 & -> & Hst0).
  rewrite (token_inline_delimiter _ _ _ _ Hrest Hc) by (now rewrite Hst0).
  rewrite Hst0.
  destruct (inlineBegin_keeps stream st0) as (Kn & _).
  destruct (emphasisGuard stream (nstyle st)) eqn:Hg.
  - rewrite (emphasisPart_delimiter d bit) by (done || now rewrite Kn, Hst0).
    eexists. split; [reflexivity|].
    change (js_xor (nstyle (inlineBegin stream st0)) bit = js_xor (nstyle st) bit).
    now rewrite Kn, Hst0.
  - assert (Hno : emphasisPart (initialStyle (nstyle st)) stream (inlineBegin stream st0)
                  = Next stream (inlineBegin stream st0)).
    { unfold emphasisPart. unfold emphasisGuard in Hg. now rewrite Kn, Hst0, Hg. }
    rewrite Hno, (fallback_delimiter _ _ _ _ _ Hrest Hc).
    eexists. split; [reflexivity|]. now rewrite Kn, Hst0.
Qed.

Lemma delimiter_bit d bit :
  (d, bit) ∈ emphasisDelimiters -> bit ∈ [STRONG; EM; DEL].
Proof.
  unfold emphasisDelimiters. rewrite !elem_of_cons.
  intros [H|[H|[H|[H|[H|H]]]]];
    [injection H as _ ->; set_solver..|now apply elem_of_nil in H].
Qed.

(** Once a delimiter has set its bit the guard holds wherever the next
    delimiter stands. *)
Lemma guard_after_opening (n bit : Z) stream :
  bit ∈ [STRONG; EM; DEL] -> js_and n bit = 0 ->
  emphasisGuard stream (js_xor n bit) = true.
Proof.
  intros Hb H0. unfold emphasisGuard.
  apply orb_true_iff. left. apply negb_true_iff, Z.eqb_neq.
  assert (Hbit : 0 < bit < 2 ^ 31 /\ Z.land bit 255 = bit).
  { rewrite !elem_of_cons in Hb. destruct Hb as [->|[->|[->|Hb]]];
      [vm_compute; repeat split..|now apply elem_of_nil in Hb]. }
  destruct Hbit as [Hrange Hsub].
  rewrite js_and_land in H0 by lia.
  rewrite js_and_land by (vm_compute; split; congruence).
  rewrite land_js_xor by (vm_compute; split; congruence).
  change _style_mask with 255. rewrite Hsub.
  intros E. apply Z.lxor_eq in E.
  assert (Z.land n bit = bit).
  { transitivity (Z.land (Z.land n 255) bit).
    - rewrite <- Z.land_assoc. f_equal. now rewrite Z.land_comm.
    - rewrite E. apply Z.land_diag. }
  lia.
Qed.

(** C8 as it is written fails on its general clause: a delimiter does not
    always toggle its bit.  On the line [a*b *] the first star follows a word
    character while no bit of the style mask is set: the call consumes it as
    plain text and toggles nothing; the second star follows a space and sets
    the Emphasis bit, so the two identical delimiters leave the style mask
    changed. *)
Lemma intraword_star_counterexample :
  styleTrace "a*b *" 0 (scanLine "a*b *" 0 None startState).1 =
    [("a", None, 0); ("*", None, 0); ("b ", None, 0); ("*", Some "", EM)]
  /\ inlineStyleMask (scanLine "a*b *" 0 None startState).2 = EM
  /\ inlineStyleMask (scanLine "a*b *" 0 None startState).2 <> inlineStyleMask startState.
Proof.
  split; [vm_compute; reflexivity|].
  split; [vm_compute; reflexivity|].
  vm_compute. discriminate.
Qed.

(** C8, amended: on the line [*a*] from the start state the first call
    consumes the opening star and sets the Emphasis bit, the second consumes
    [a] with no style and leaves the mask alone, the third consumes the
    closing star and clears the bit, so the mask ends at 0.  A call of [token]
    that reaches a delimiter of the emphasis family as inline content
    consumes the delimiter and toggles its bit of [nstyle] by XOR (Strong for
    two stars or two underscores, Emphasis for one star or one underscore,
    Strikethrough for two tildes) when a bit of the style mask is set or the
    character before is no word character; otherwise it consumes one character
    and leaves [nstyle] as it was.  Two calls that toggle on identical
    delimiters, the second in a state with the [nstyle] the first has left,
    give back the style mask and the link state; the second toggles whatever
    stands before it when the first has set the bit. *)
Theorem emphasis_delimiters_toggle :
  styleTrace "*a*" 0 (scanLine "*a*" 0 None startState).1 =
    [("*", Some "", EM); ("a", None, EM); ("*", Some "", 0%Z)]
  /\ inlineStyleMask (scanLine "*a*" 0 None startState).2 = 0%Z
  /\ (forall d bit stream st,
        (d, bit) ∈ emphasisDelimiters -> delimiterReached d stream st ->
        emphasisGuard stream (nstyle st) = true ->
        exists st',
          token stream st =
            Ret (Some (initialStyle (nstyle st)))
                (set_pos (pos stream + String.length d) stream) st'
          /\ nstyle st' = js_xor (nstyle st) bit)
  /\ (forall d bit stream st,
        (d, bit) ∈ emphasisDelimiters -> delimiterReached d stream st ->
        emphasisGuard stream (nstyle st) = false ->
        exists st',
          token stream st =
            Ret (if (String.length (initialStyle (nstyle st)) =? 0)%nat
                 then None else Some (initialStyle (nstyle st)))
                (set_pos (S (pos stream)) stream) st'
          /\ nstyle st' = nstyle st)
  /\ (forall d bit s1 st1 s2 st2 style1 s1' st1' style2 s2' st2',
        (d, bit) ∈ emphasisDelimiters ->
        delimiterReached d s1 st1 -> emphasisGuard s1 (nstyle st1) = true ->
        token s1 st1 = Ret style1 s1' st1' ->
        nstyle st2 = nstyle st1' ->
        delimiterReached d s2 st2 ->
        js_and (nstyle st1) bit = 0 \/ emphasisGuard s2 (nstyle st2) = true ->
        token s2 st2 = Ret style2 s2' st2' ->
        nstyle st1' = js_xor (nstyle st1) bit
        /\ nstyle st2' = js_xor (nstyle st1') bit
        /\ inlineStyleMask st2' = inlineStyleMask st1
        /\ linkState st2' = linkState st1).
Proof.
  split; [vm_compute; reflexivity|].
  split; [vm_compute; reflexivity|].
  split; [|split].
  - intros d bit stream st Hin Hr Hg.
    destruct (token_delimiter d bit stream st Hin Hr) as (st' & Ht & Hn).
    rewrite Hg in Ht, Hn. now exists st'.
  - intros d bit stream st Hin Hr Hg.
    destruct (token_delimiter d bit stream st Hin Hr) as (st' & Ht & Hn).
    rewrite Hg in Ht, Hn. now exists st'.
  - intros d bit s1 st1 s2 st2 style1 s1' st1' style2 s2' st2' Hin Hr1 Hg1 Ht1 Hst2 Hr2 Hg2 Ht2.
    destruct (token_delimiter d bit s1 st1 Hin Hr1) as (x1 & Hx1 & Hn1).
    rewrite Hg1 in Hx1, Hn1. rewrite Ht1 in Hx1. injection Hx1 as _ _ <-.
    pose proof (delimiter_bit _ _ Hin) as Hbit.
    assert (Hg : emphasisGuard s2 (nstyle st2) = true).
    { destruct Hg2 as [H0|Hg2]; [|exact Hg2].
      rewrite Hst2, Hn1. now apply guard_after_opening. }
    destruct (token_delimiter d bit s2 st2 Hin Hr2) as (x2 & Hx2 & Hn2).
    rewrite Hg in Hx2, Hn2. rewrite Ht2 in Hx2. injection Hx2 as _ _ <-.
    split; [exact Hn1|]. split; [now rewrite Hn2, Hst2|].
    unfold inlineStyleMask, linkState. rewrite Hn2, Hst2, Hn1.
    split; apply toggle_twice_masked; vm_compute; split; congruence.
Qed.

Lemma emphasis_delimiters_toggle_witness :
  exists st',
    token (set_pos 2 (lineStream "a **b** c" 0 None)) startState =
      Ret (Some (initialStyle (nstyle startState)))
          (set_pos (2 + String.length "**") (set_pos 2 (lineStream "a **b** c" 0 None))) st'
    /\ nstyle st' = js_xor (nstyle startState) STRONG.
Proof.
  apply (proj1 (proj2 (proj2 emphasis_delimiters_toggle))
           "**" STRONG (set_pos 2 (lineStream "a **b** c" 0 None)) startState).
  - set_solver.
  - repeat split; try discriminate; reflexivity.
  - reflexivity.
Defined.

(** ** The style string *)

(** The style string from the escape bit and the link field alone: the
    bits of Strikethrough, Emphasis and Strong have no style of their own. *)
Lemma initialStyle_fields (n : Z) :
  initialStyle n =
  (if negb (js_and n ESCAPE =? 0)%Z then "hmd-escape " else "")
  +:+ (if negb (js_and n _link_mask =? 0)%Z
       then default "" (HMDStyles (js_and n _link_mask)) else "").
Proof.
  unfold initialStyle, nstyleStandalone. cbn [foldl].
  change (HMDStyles DEL) with (@None string).
  change (HMDStyles EM) with (@None string).
  change (HMDStyles STRONG) with (@None string).
  change (HMDStyles ESCAPE) with (Some "hmd-escape ").
  cbn [default]. rewrite !append_nil.
  destruct (negb (js_and n DEL =? 0)%Z), (negb (js_and n EM =? 0)%Z),
    (negb (js_and n STRONG =? 0)%Z), (negb (js_and n ESCAPE =? 0)%Z),
    (negb (js_and n _link_mask =? 0)%Z); rewrite ?append_nil, ?append_empty_r; reflexivity.
Qed.

(** X14: the bits of Strong, Emphasis and Strikethrough have no style of
    their own: toggling one of them in [nstyle] leaves the style string
    built from [nstyle] as it was. *)
Theorem emphasis_has_no_style (n b : Z) :
  b ∈ [STRONG; EM; DEL] -> initialStyle (js_xor n b) = initialStyle n.
Proof.
  intros Hb. rewrite !initialStyle_fields.
  assert (He : js_and (js_xor n b) ESCAPE = js_and n ESCAPE).
  { change ESCAPE with 8. rewrite !js_and_land, land_js_xor by lia.
    assert (Z.land b 8 = 0) as ->; [|apply Z.lxor_0_r].
    repeat (apply elem_of_cons in Hb; destruct Hb as [->|Hb]; [reflexivity|]).
    now apply elem_of_nil in Hb. }
  assert (Hl : js_and (js_xor n b) _link_mask = js_and n _link_mask).
  { change _link_mask with 65280. rewrite !js_and_land, land_js_xor by lia.
    assert (Z.land b 65280 = 0) as ->; [|apply Z.lxor_0_r].
    repeat (apply elem_of_cons in Hb; destruct Hb as [->|Hb]; [reflexivity|]).
    now apply elem_of_nil in Hb. }
  now rewrite He, Hl.
Qed.

Lemma emphasis_has_no_style_witness : initialStyle (js_xor LINK STRONG) = initialStyle LINK.
Proof. apply (emphasis_has_no_style LINK STRONG). set_solver. Defined.

(** ** Formulas *)

Lemma mathChar_char (c : ascii) :
  isMathChar c = true -> Ascii.eqb "$" c = false /\ Ascii.eqb backslash c = false
                         /\ Ascii.eqb c "$" = false /\ Ascii.eqb c backslash = false.
Proof. all_chars c; intros _; repeat split; done. Qed.

(** A dollar after a body with no backslash: the pattern that looks for
    the closing dollar finds one. *)
Lemma closing_found (body tl : string) :
  body <> "" -> allb isMathChar body = true ->
  test closingDollarRE (body +:+ String "$" tl) = true.
Proof.
  intros Hne Hbody. unfold test, exec. apply bool_decide_eq_true.
  generalize 0%nat. induction body as [|c body IH]; intros i; [done|].
  simpl in Hbody. apply andb_true_iff in Hbody as [Hc Hbody].
  destruct (mathChar_char c Hc) as (_ & _ & Hd & Hb).
  rewrite append_cons. cbn [search].
  destruct body as [|c' body].
  - rewrite append_nil. unfold closingDollarRE. cbn [Seqs foldr rmatch atom existsb inCset].
    rewrite Hb. simpl. rewrite ?Ascii.eqb_refl. simpl. eauto.
  - simpl in Hbody. apply andb_true_iff in Hbody as [Hc' Hbody'].
    destruct (rmatch closingDollarRE i _ accept); [eauto|].
    apply IH; [done|]. simpl. now rewrite Hc', Hbody'.
Qed.

Lemma atom_mathChar i s k :
  atom (fun c => negb (existsb (inCset c) [CChr "$"; CChr backslash])) i s k
  = atom isMathChar i s k.
Proof. reflexivity. Qed.

(** The pattern of the body of a formula on a body with no dollar and no
    backslash, followed by a dollar. *)
Lemma mathBody_run (body tl : string) stream :
  rest stream = body +:+ String "$" tl -> body <> "" -> allb isMathChar body = true ->
  matchRE mathBodyRE true stream
  = Some (String.length body, set_pos (pos stream + String.length body) stream).
Proof.
  intros Hrest Hne Hbody. destruct body as [|c body]; [done|].
  simpl in Hbody. apply andb_true_iff in Hbody as [Hc Hbody].
  rewrite append_cons in Hrest.
  unfold mathBodyRE. rewrite (matchRE_rest _ _ _ _ Hrest).
  cbn [Seqs foldr rmatch Plus]. rewrite atom_mathChar. cbn [atom]. rewrite Hc.
  rewrite (star_run _ isMathChar (fun _ _ _ => eq_refl) body (String "$" tl) _ _ _
             (1 + String.length body)%nat); [reflexivity|done|done|done|].
  cbn [String.length]. cbn [star_loop Nat.ltb Nat.leb].
  destruct (Nat.ltb_spec (S (String.length tl)) (S (String.length (body +:+ String "$" tl))));
    [|rewrite length_append in *; simpl in *; lia].
  simpl. reflexivity.
Qed.

(** X15: a formula between two delimiters, both [$] or both [$$], whose
    text has no dollar and no backslash, is three tokens: the opening
    delimiter, the text and the closing delimiter, with the styles of the
    beginning, the inside and the end of a formula of that delimiter; the
    state is then inside nothing, with the delimiter left in [extra]. *)
Theorem math_round_trip (d body tl : string) (stream : StringStream) (st : State) :
  d = "$" \/ d = "$$" ->
  body <> "" -> allb isMathChar body = true ->
  pos stream <> 0%nat ->
  rest stream = d +:+ body +:+ d +:+ tl ->
  inside st <> Some math -> inside st <> Some codeFence -> inside st <> Some listSpace ->
  let n := String.length d in
  let s1 := set_pos (pos stream + n) stream in
  let s2 := set_pos (pos stream + n + String.length body) stream in
  let s3 := set_pos (pos stream + n + String.length body + n) stream in
  let st1 := mathOpened d stream st in
  token stream st = Ret (Some (mathBeginStyle n)) s1 st1
  /\ token s1 st1 = Ret (Some (mathStyle n)) s2 (set_combineTokens CombineNull st1)
  /\ token s2 (set_combineTokens CombineNull st1)
     = Ret (Some (mathEndStyle n)) s3
           (set_inside (Some nothing) (set_combineTokens CombineNull st1)).
Proof.
  intros Hd Hne Hbody Hpos Hrest Hm Hc Hl. cbv zeta.
  destruct body as [|c body]; [done|].
  pose proof Hbody as Hbody'. simpl in Hbody'. apply andb_true_iff in Hbody' as [Hc0 _].
  destruct (mathChar_char c Hc0) as (Hd1 & Hb1 & _).
  assert (Hopen : mathOpen stream = (set_pos (pos stream + String.length d) stream, Some d)).
  { unfold mathOpen, dollarsRE. rewrite (matchRE_rest _ _ _ _ Hrest).
    destruct Hd as [-> | ->].
    - rewrite !append_cons, append_nil. cbn [Seqs foldr rmatch OneOrTwo Opt atom].
      rewrite Ascii.eqb_refl, Hd1. cbn [accept].
      rewrite (substring_rest _ _ "$" (String c body +:+ "$" +:+ tl)) by exact Hrest.
      replace (dropStr (pos stream + 1) (str stream)) with (String c body +:+ String "$" tl).
      2:{ rewrite dropStr_add. fold (rest stream). now rewrite Hrest. }
      rewrite closing_found by done. reflexivity.
    - rewrite !append_cons, append_nil. cbn [Seqs foldr rmatch OneOrTwo Opt atom].
      rewrite !Ascii.eqb_refl. cbn [accept].
      now rewrite (substring_rest _ _ "$$" (String c body +:+ "$$" +:+ tl)) by exact Hrest. }
  assert (Hfirst : exists r, rest stream = String "$" r).
  { destruct Hd as [-> | ->]; rewrite Hrest, !append_cons; eauto. }
  destruct Hfirst as [r Hfirst].
  split; [|split].
  - rewrite token_inlinePart by done.
    rewrite token_inline_inlineBegin, inlineBegin_null. cbv zeta.
    rewrite (dash_skipped _ _ _ _ Hfirst eq_refl eq_refl).
    rewrite (inlineCode_other _ _ _ Hfirst eq_refl), Hopen. reflexivity.
  - unfold token. simpl. unfold token_math. simpl.
    assert (Hr1 : rest (set_pos (pos stream + String.length d) stream)
                  = String c body +:+ d +:+ tl).
    { rewrite rest_set_pos, Hrest. apply dropStr_append. }
    assert (Hclose : matchStr d (set_pos (pos stream + String.length d) stream) = None).
    { unfold matchStr. rewrite Hr1. rewrite append_cons.
      destruct Hd as [-> | ->]; simpl; now rewrite Hd1. }
    rewrite Hclose.
    assert (Hr1' : exists tl', rest (set_pos (pos stream + String.length d) stream)
                   = String c body +:+ String "$" tl').
    { rewrite Hr1. destruct Hd as [-> | ->]; rewrite !append_cons; eauto. }
    destruct Hr1' as [tl' Hr1'].
    rewrite (mathBody_run _ _ _ Hr1') by done.
    destruct (_ || _); reflexivity.
  - unfold token. simpl. unfold token_math. simpl.
    assert (Hr2 : rest (set_pos (pos stream + String.length d + String.length (String c body)) stream)
                  = d +:+ tl).
    { rewrite <- Nat.add_assoc, rest_set_pos, Hrest.
      rewrite <- append_assoc, <- length_append. apply dropStr_append. }
    assert (Hprev : charIs backslash
              (charAt (pos stream + String.length d + S (String.length body) - 1) (str stream))
              = false).
    { replace (pos stream + String.length d + S (String.length body) - 1)%nat
        with (pos stream + (String.length d + String.length body))%nat by lia.
      rewrite charAt_add. fold (rest stream). rewrite Hrest, charAt_app_r.
      rewrite charAt_app_l by (simpl; lia).
      destruct (allb_charAt isMathChar (String c body) (String.length body) Hbody)
        as (x & Hx & Hpx); [simpl; lia|].
      rewrite Hx. simpl. destruct (mathChar_char x Hpx) as (_ & _ & _ & Hxb). exact Hxb. }
    simpl in Hprev. rewrite Hprev. rewrite orb_true_r.
    unfold matchStr. simpl in Hr2. rewrite Hr2, prefixStr_append. reflexivity.
Qed.

Lemma math_round_trip_witness :
  token (set_pos 2 (lineStream "a $x^2$ b" 0 None)) startState
    = Ret (Some (mathBeginStyle 1)) (set_pos 3 (lineStream "a $x^2$ b" 0 None))
          (mathOpened "$" (set_pos 2 (lineStream "a $x^2$ b" 0 None)) startState)
  /\ token (set_pos 3 (lineStream "a $x^2$ b" 0 None))
       (mathOpened "$" (set_pos 2 (lineStream "a $x^2$ b" 0 None)) startState)
     = Ret (Some (mathStyle 1)) (set_pos 6 (lineStream "a $x^2$ b" 0 None))
           (set_combineTokens CombineNull
              (mathOpened "$" (set_pos 2 (lineStream "a $x^2$ b" 0 None)) startState))
  /\ token (set_pos 6 (lineStream "a $x^2$ b" 0 None))
       (set_combineTokens CombineNull
          (mathOpened "$" (set_pos 2 (lineStream "a $x^2$ b" 0 None)) startState))
     = Ret (Some (mathEndStyle 1)) (set_pos 7 (lineStream "a $x^2$ b" 0 None))
           (set_inside (Some nothing)
              (set_combineTokens CombineNull
                 (mathOpened "$" (set_pos 2 (lineStream "a $x^2$ b" 0 None)) startState))).
Proof.
  apply (math_round_trip "$" "x^2" " b" (set_pos 2 (lineStream "a $x^2$ b" 0 None)) startState);
    try (reflexivity || discriminate).
  now left.
Defined.

(** ** Formulas and the end of the line *)

(** Where the pattern for the closing dollar is found. *)
Lemma closing_witness (s : string) : forall i,
  is_Some (search closingDollarRE i s) ->
  exists q c, charAt q s = Some c /\ c <> backslash /\ charAt (S q) s = Some "$"%char.
Proof.
  induction s as [|c s IH]; intros i H.
  - simpl in H. now destruct H.
  - cbn [search] in H.
    destruct (rmatch closingDollarRE i (String c s) accept) as [e|] eqn:Hm.
    + unfold closingDollarRE in Hm. cbn [Seqs foldr rmatch atom existsb inCset] in Hm.
      rewrite orb_false_r in Hm.
      destruct (Ascii.eqb_spec c backslash) as [|Hc]; [done|]. simpl in Hm.
      destruct s as [|d s]; [done|]. simpl in Hm.
      destruct (Ascii.eqb_spec "$" d) as [<-|]; [|done].
      exists 0%nat, c. done.
    + destruct (IH _ H) as (q & x & Hq & Hx & Hd).
      exists (S q), x. done.
Qed.

Lemma lang_Seq_inv a b w :
  lang (Seq a b) w -> exists u v, w = u +:+ v /\ lang a u /\ lang b v.
Proof. inversion 1; subst; eauto. Qed.

Lemma lang_Star_closed (a : regex) (P : string -> Prop) :
  P "" -> (forall u v, lang a u -> P v -> P (u +:+ v)) ->
  forall w, lang (Star a) w -> P w.
Proof.
  intros H0 Happ w H. remember (Star a) as r eqn:Hr.
  induction H; try discriminate; [exact H0|].
  inversion Hr; subst. apply Happ; auto.
Qed.

Lemma dollarsEscaped_nil : dollarsEscaped "".
Proof. split; [done|]. intros k H. done. Qed.

Lemma dollarsEscaped_app u v : dollarsEscaped u -> dollarsEscaped v -> dollarsEscaped (u +:+ v).
Proof.
  intros [Hu0 Hu] [Hv0 Hv].
  destruct u as [|c u]; [now rewrite append_nil|].
  split.
  - rewrite append_cons. exact Hu0.
  - intros k Hk.
    destruct (decide (S k < String.length (String c u))%nat) as [Hlt|Hge].
    + rewrite charAt_app_l in Hk by done. rewrite charAt_app_l by lia. now apply Hu.
    + replace (S k) with (String.length (String c u) + (S k - String.length (String c u)))%nat
        in Hk by lia.
      rewrite charAt_app_r in Hk.
      destruct (S k - String.length (String c u))%nat as [|j] eqn:Hj; [done|].
      replace k with (String.length (String c u) + j)%nat by lia.
      rewrite charAt_app_r. now apply Hv.
Qed.

(** What the pattern of the body of a formula matches. *)
Lemma lang_mathBody u :
  lang (Seqs [Plus (Alt (Plus (NoneOf [CChr "$"; CChr backslash])) (Seq (Chr backslash) Dot))]) u ->
  dollarsEscaped u.
Proof.
  set (C := NoneOf [CChr "$"; CChr backslash]).
  assert (HC : forall u, lang C u -> exists c, u = String c "" /\ c <> "$"%char).
  { intros w H. inversion H as [| | | |l c Hc| | | | | | | |]; subst.
    exists c. split; [done|]. intros ->. done. }
  assert (Hstar : forall w, lang (Star C) w -> forall k, charAt k w <> Some "$"%char).
  { apply (lang_Star_closed C (fun w => forall k, charAt k w <> Some "$"%char)).
    - intros k. done.
    - intros u0 v H Hv k. destruct (HC _ H) as (c & -> & Hc).
      rewrite append_cons, append_nil. destruct k as [|k]; simpl; [congruence|apply Hv]. }
  assert (Hpiece : forall w, lang (Alt (Plus C) (Seq (Chr backslash) Dot)) w -> dollarsEscaped w).
  { intros w H. inversion H as [| | | | | |a b u0 Hl|a b u0 Hr| | | | |]; subst.
    - apply lang_Seq_inv in Hl as (u1 & v1 & -> & H1 & H2).
      destruct (HC _ H1) as (c & -> & Hc). rewrite append_cons, append_nil.
      split; [simpl; congruence|]. intros k Hk. simpl in Hk. now apply Hstar in Hk.
    - apply lang_Seq_inv in Hr as (u1 & v1 & -> & H1 & H2).
      apply lang_Chr_inv in H1. subst u1.
      inversion H2 as [| |c Hc| | | | | | | | | |]; subst.
      rewrite append_cons, append_nil. split; [intros E; vm_compute in E; discriminate|].
      intros [|k] Hk; [done|]. simpl in Hk. now destruct k. }
  unfold Seqs. simpl. intros H.
  apply lang_Seq_inv in H as (u1 & v1 & -> & H1 & H2).
  inversion H2; subst. rewrite append_empty_r.
  apply lang_Seq_inv in H1 as (u2 & v2 & -> & H3 & H4).
  apply dollarsEscaped_app; [now apply Hpiece|].
  revert H4. apply lang_Star_closed; [apply dollarsEscaped_nil|].
  intros u0 v Hu Hv. apply dollarsEscaped_app; [now apply Hpiece|done].
Qed.

Lemma sameLine_str s s' : sameLine s s' -> str s' = str s.
Proof. unfold sameLine. now intros ->. Qed.

(** A call inside a formula opened by one dollar does not pass the dollar
    that closes it. *)
Lemma token_math_ahead stream st style stream' st' :
  inlineMath st -> dollarAhead (str stream) (pos stream) ->
  token_math stream st = Ret style stream' st' ->
  inlineMath st' -> dollarAhead (str stream') (pos stream').
Proof.
  intros [Hin He] (q & c & Hpq & Hq & Hc & Hd). unfold token_math. rewrite He.
  match goal with
  | |- context [if ?b then matchStr "$" stream else None] =>
      destruct (if b then matchStr "$" stream else None) as [s1|] eqn:Hclose
  end.
  { intros [= <- <- <-] [Hin' _]. simpl in Hin'. done. }
  intros [= <- <- <-] _.
  destruct (decide (q + 1 = pos stream)%nat) as [Heq|Hne].
  { exfalso. revert Hclose.
    replace (pos stream - 1)%nat with q by lia. rewrite Hq.
    simpl. destruct (Ascii.eqb_spec c backslash) as [|_]; [done|].
    simpl. rewrite orb_true_r.
    unfold matchStr, rest. rewrite <- Heq, Nat.add_1_r.
    rewrite (charAt_dropStr _ _ _ Hd). simpl. discriminate. }
  assert (Hle : (pos stream <= q)%nat) by lia.
  unfold mathBodyRE.
  destruct (matchRE _ true stream) as [[n s1]|] eqn:Hm; simpl.
  - apply matchRE_lang in Hm as (u & v & Hrest & Hlang & -> & ->). simpl.
    apply lang_mathBody in Hlang as [_ Hesc].
    exists q, c. repeat split; try done.
    destruct (decide (pos stream + String.length u <= q + 1)%nat) as [|Hgt]; [done|].
    exfalso.
    assert (Hj : exists j, (q = pos stream + j)%nat /\ (S j < String.length u)%nat).
    { exists (q - pos stream)%nat. lia. }
    destruct Hj as (j & -> & Hj).
    assert (Hdj : charAt (S j) u = Some "$"%char).
    { rewrite <- (charAt_app_l u v) by done. rewrite <- Hrest. unfold rest.
      rewrite <- charAt_add. now rewrite Nat.add_succ_r. }
    apply Hesc in Hdj.
    rewrite <- (charAt_app_l u v) in Hdj by lia. rewrite <- Hrest in Hdj. unfold rest in Hdj.
    rewrite <- charAt_add in Hdj. congruence.
  - unfold next. destruct (peek stream); simpl; exists q, c; repeat split; try done; lia.
Qed.

(** A single dollar opens a formula only where the line has a dollar that
    closes it. *)
Lemma mathOpen_ahead stream stream' :
  mathOpen stream = (stream', Some "$") ->
  dollarAhead (str stream') (pos stream')
  /\ pos stream' = (pos stream + 1)%nat /\ str stream' = str stream.
Proof.
  unfold mathOpen, dollarsRE.
  destruct (matchRE _ true stream) as [[n s1]|] eqn:Hm; [|done].
  apply matchRE_lang in Hm as (u & v & Hrest & _ & -> & ->).
  unfold rest in Hrest. rewrite (substring_rest _ _ _ _ Hrest).
  destruct (String.eqb u "$$" || _) eqn:Hcond; [|done].
  intros [= <- Hu]. subst u. simpl in Hcond.
  unfold test in Hcond. apply bool_decide_eq_true in Hcond.
  destruct (closing_witness _ _ Hcond) as (q & c & Hq & Hc & Hd).
  simpl. repeat split; try done.
  exists (pos stream + 1 + q)%nat, c. repeat split; [lia| |done|].
  - now rewrite charAt_add.
  - replace (S (pos stream + 1 + q)) with (pos stream + 1 + S q)%nat by lia.
    now rewrite charAt_add.
Qed.

Lemma lineStart_notMath stream st :
  inside st <> Some math ->
  match lineStart stream st with
  | Done o => notMathOutcome o
  | Next s1 st1 => s1 = stream /\ inside st1 <> Some math
  end.
Proof.
  intros Hin. unfold lineStart.
  repeat (case_match; simplify_eq/=); try done; try (split; done).
Qed.

Lemma token_listSpace_notMath stream st :
  inside st <> Some math -> notMathOutcome (token_listSpace stream st).
Proof.
  intros Hin. unfold token_listSpace.
  repeat (case_match; simplify_eq/=); try done.
Qed.

Lemma mixablePart_inside atB stream st style stream' st' :
  mixablePart atB stream st = Ret style stream' st' -> inside st' = inside st.
Proof.
  unfold mixablePart, linkPart, linkBegin, escapePart, emphasisPart, fallback, toggle.
  intros H. repeat (case_match; simplify_eq/=); reflexivity.
Qed.

Lemma tablePart_inside stream st :
  match tablePart stream st with
  | Done (Ret _ _ st') => inside st' = inside st
  | Done Stuck => True
  | Next _ st' => st' = st
  end.
Proof. unfold tablePart, tableSep. repeat (case_match; simplify_eq/=); done. Qed.

Lemma token_inline_math stream st style stream' st' :
  inside st <> Some math ->
  token_inline stream st = Ret style stream' st' -> inside st' = Some math ->
  exists d, mathOpen stream = (stream', Some d) /\ extra st' = ExtraStr d.
Proof.
  intros Hin. rewrite token_inline_inlineBegin. cbv zeta.
  destruct (inlineBegin_keeps stream st) as (_ & Ki & _).
  remember (inlineBegin stream st) as st0 eqn:E. clear E.
  destruct (if bool_decide _ then _ else _) as [[n s1]|].
  { intros [= <- <- <-] H. simpl in H. congruence. }
  destruct (matchRE inlineCodeRE true stream) as [[n s1]|].
  { intros [= <- <- <-] H. congruence. }
  destruct (mathOpen stream) as [s1 [tmp0|]].
  { intros [= <- <- <-] _. eauto. }
  pose proof (tablePart_inside s1 st0) as Ht.
  destruct (tablePart s1 st0) as [[|? ? st2]|s2 st2].
  - done.
  - intros [= <- <- <-] H. congruence.
  - subst st2. intros H Hm. apply mixablePart_inside in H. congruence.
Qed.

Lemma token_math_extra stream st style stream' st' :
  token_math stream st = Ret style stream' st' ->
  extra st' = extra st /\ (inside st' = Some math -> inside st = Some math).
Proof.
  unfold token_math. intros H. repeat (case_match; simplify_eq/=); done.
Qed.

(** How a call can leave the state inside math: it was there already and
    [extra] is as it was, or the call has opened a formula and [extra] is
    the delimiter. *)
Lemma token_math_origin stream st style stream' st' :
  token stream st = Ret style stream' st' -> inside st' = Some math ->
  (inside st = Some math /\ extra st' = extra st
   /\ token_math stream (set_combineTokens CombineNull st) = Ret style stream' st')
  \/ (inside st <> Some math
      /\ exists d, mathOpen stream = (stream', Some d) /\ extra st' = ExtraStr d).
Proof.
  unfold token. cbv zeta. intros H Hin'.
  remember (set_combineTokens CombineNull st) as st0 eqn:Hst0.
  assert (Ki : inside st0 = inside st) by (subst st0; reflexivity).
  assert (Ke : extra st0 = extra st) by (subst st0; reflexivity).
  clear Hst0.
  assert (Hrest : inside st0 <> Some math ->
            forall st1, inside st1 <> Some math ->
            (if bool_decide (inside st1 = Some listSpace)
             then token_listSpace stream st1 else token_inline stream st1)
            = Ret style stream' st' ->
            inside st <> Some math
            /\ exists d, mathOpen stream = (stream', Some d) /\ extra st' = ExtraStr d).
  { intros H0 st1 H1 Hr. split; [congruence|]. destruct (bool_decide _).
    - pose proof (token_listSpace_notMath stream st1 H1) as Hl. rewrite Hr in Hl. done.
    - exact (token_inline_math _ _ _ _ _ H1 Hr Hin'). }
  destruct (inside st0) as [[| | | |]|] eqn:Hins.
  2:{ left. destruct (token_math_extra _ _ _ _ _ H) as [Hx _].
      split; [congruence|]. split; [congruence|done]. }
  3:{ unfold token_codeFence in H. repeat (case_match; simplify_eq/=); done. }
  all: right;
    (destruct (pos stream =? 0)%nat; [|apply (Hrest ltac:(done) st0); [congruence|done]]);
    pose proof (lineStart_notMath stream st0 ltac:(congruence)) as Hl;
    destruct (lineStart stream st0) as [o|s1 st1];
    [subst o; simpl in Hl; done
    |destruct Hl as [-> Hl]; apply (Hrest ltac:(done) st1); done].
Qed.

Lemma token_inlineMath stream st style stream' st' :
  token stream st = Ret style stream' st' -> inlineMath st' ->
  (inlineMath st
   /\ token_math stream (set_combineTokens CombineNull st) = Ret style stream' st')
  \/ (inside st <> Some math /\ mathOpen stream = (stream', Some "$")).
Proof.
  intros H [Hin' He'].
  destruct (token_math_origin _ _ _ _ _ H Hin') as [(Hi & Hx & Ht)|(Hi & d & Hd & Hx)].
  - left. split; [|done]. split; [done|congruence].
  - right. split; [done|]. rewrite Hx in He'. now inversion He'; subst.
Qed.

Lemma dollarAhead_more line p : dollarAhead line p -> (p < String.length line)%nat.
Proof.
  intros (q & c & Hpq & _ & _ & Hd). apply charAt_length in Hd. lia.
Qed.

(** Along the calls made on a line: where the state is inside a formula
    opened by one dollar, the dollar that closes it is still to come. *)
Lemma runLine_closes : forall fuel stream st,
  (String.length (str stream) - pos stream <= fuel)%nat ->
  (inlineMath st -> dollarAhead (str stream) (pos stream)) ->
  ~ inlineMath (runLine fuel stream st).2.
Proof.
  induction fuel as [|fuel IH]; intros stream st Hfuel HJ; simpl.
  - intros Hm. apply HJ, dollarAhead_more in Hm. lia.
  - unfold eol. destruct (Nat.leb_spec (String.length (str stream)) (pos stream)) as [Heol|Hmore].
    { simpl. intros Hm. apply HJ, dollarAhead_more in Hm. lia. }
    destruct (token stream st) as [|style stream' st'] eqn:Ht.
    { simpl. intros [Hin He]. unfold token in Ht. simpl in Ht. rewrite Hin in Ht.
      unfold token_math in Ht. simpl in Ht. rewrite He in Ht.
      repeat (case_match; simplify_eq/=). }
    pose proof (sameLine_str _ _ (token_sameLine _ _ _ _ _ Ht)) as Hstr.
    assert (HJ' : inlineMath st' ->
                  dollarAhead (str stream') (pos stream') /\ (pos stream < pos stream')%nat).
    { intros Hm'. destruct (token_inlineMath _ _ _ _ _ Ht Hm') as [[Hm Htm]|[Hnm Ho]].
      - split.
        + eapply token_math_ahead; [|apply (HJ Hm)|exact Htm|exact Hm'].
          destruct Hm as [Hi Hx]. split; simpl; done.
        + destruct Hm as [Hi Hx].
          pose proof (token_math_moved stream (set_combineTokens CombineNull st)) as Hmv.
          rewrite Htm in Hmv. apply Hmv.
          * unfold typed. simpl. rewrite Hi. exists "$". now rewrite Hx.
          * exact Hi.
          * exact Hmore.
      - destruct (mathOpen_ahead _ _ Ho) as (Ha & Hp & _). split; [done|lia]. }
    destruct (Nat.leb_spec (pos stream') (pos stream)) as [Hstall|Hadv].
    + simpl. intros Hm'. apply HJ' in Hm'. lia.
    + specialize (IH stream' st').
      destruct (runLine fuel stream' st') as [calls final]. simpl in *.
      apply IH; [rewrite Hstr; lia|]. intros Hm'. now apply HJ'.
Qed.

(** X16: a formula opened by a single dollar is closed on its line: a
    line that starts outside such a formula ends outside one, and no document
    leaves the state inside one. *)
Theorem inline_math_closes_on_its_line :
  (forall text lineNo following st,
     ~ inlineMath st -> ~ inlineMath (scanLine text lineNo following st).2)
  /\ (forall lines, ~ inlineMath (scanDoc lines 0 startState)).
Proof.
  assert (Hline : forall text lineNo following st,
            ~ inlineMath st -> ~ inlineMath (scanLine text lineNo following st).2).
  { intros text lineNo following st Hst. unfold scanLine.
    destruct (String.length text =? 0)%nat.
    - simpl. exact Hst.
    - apply runLine_closes; [simpl; lia|]. intros Hm. done. }
  split; [exact Hline|].
  assert (Hdoc : forall lines lineNo st, ~ inlineMath st -> ~ inlineMath (scanDoc lines lineNo st)).
  { induction lines as [|text lines IH]; intros lineNo st Hst; simpl; [done|].
    apply IH, Hline, Hst. }
  intros lines. apply Hdoc. intros [Hin _]. done.
Qed.

Lemma inline_math_closes_on_its_line_witness :
  inside startState = Some nothing
  /\ ~ inlineMath (scanLine "a $x$ and $y" 0 None startState).2.
Proof.
  split; [reflexivity|].
  apply (proj1 inline_math_closes_on_its_line "a $x$ and $y" 0%nat None startState).
  intros [Hin _]. discriminate Hin.
Defined.

(** ** The fields of [nstyle] *)

Lemma nstyleOkb_ok (n : Z) : nstyleOkb n = true -> nstyleOk n.
Proof.
  unfold nstyleOkb. intros H. apply andb_true_iff in H as [H1 H2].
  apply bool_decide_eq_true in H1, H2.
  exists (Z.land n 15), (Z.land n 65280). repeat split; [done| | |done].
  - apply Z.land_nonneg. lia.
  - change 15 with (Z.ones 4). rewrite Z.land_ones by lia.
    apply Z.mod_pos_bound. lia.
Qed.

(** The values [nstyleOk] allows, one by one. *)
Ltac each_nstyle H :=
  let s := fresh "s" in let l := fresh "l" in
  let Hs := fresh "Hs" in let Hl := fresh "Hl" in
  destruct H as (s & l & -> & Hs & Hl);
  assert (s = 0 \/ s = 1 \/ s = 2 \/ s = 3 \/ s = 4 \/ s = 5 \/ s = 6 \/ s = 7 \/ s = 8
          \/ s = 9 \/ s = 10 \/ s = 11 \/ s = 12 \/ s = 13 \/ s = 14 \/ s = 15) as Hs' by lia;
  clear Hs;
  unfold linkValues in Hl;
  repeat (apply elem_of_cons in Hl; destruct Hl as [->|Hl]);
  [..|now apply elem_of_nil in Hl];
  repeat (destruct Hs' as [->|Hs']); try subst s.

Lemma nstyleOk_okb (n : Z) : nstyleOk n -> nstyleOkb n = true.
Proof. intros H. each_nstyle H; vm_compute; reflexivity. Qed.

Lemma ok_escape (n : Z) : nstyleOk n -> nstyleOk (js_or n ESCAPE).
Proof. intros H. apply nstyleOkb_ok. each_nstyle H; vm_compute; reflexivity. Qed.

Lemma ok_unescape (n : Z) : nstyleOk n -> js_and n ESCAPE <> 0 -> nstyleOk (n - ESCAPE).
Proof.
  intros H He. apply nstyleOkb_ok. revert He.
  each_nstyle H; vm_compute; (reflexivity || (intros He; exfalso; now apply He)).
Qed.

Lemma ok_toggle (n b : Z) : nstyleOk n -> b ∈ [STRONG; EM; DEL] -> nstyleOk (js_xor n b).
Proof.
  intros H Hb. apply nstyleOkb_ok.
  repeat (apply elem_of_cons in Hb; destruct Hb as [->|Hb]); [..|now apply elem_of_nil in Hb];
    each_nstyle H; vm_compute; reflexivity.
Qed.

Lemma ok_linkBegin (n l : Z) :
  nstyleOk n -> js_and n _link_mask = 0 ->
  l ∈ [FOOTNOTE_NAME; FOOTREF_BEGIN; BARELINK; LINK] -> nstyleOk (js_or n l).
Proof.
  intros H Hn Hl. apply nstyleOkb_ok. revert Hn.
  repeat (apply elem_of_cons in Hl; destruct Hl as [->|Hl]); [..|now apply elem_of_nil in Hl];
    each_nstyle H; vm_compute; (reflexivity || discriminate).
Qed.

Lemma ok_linkSwitch (n v : Z) :
  nstyleOk n -> v ∈ [FOOTREF; 0; LINK_URL] ->
  nstyleOk (js_or (js_and n (js_not _link_mask)) v).
Proof.
  intros H Hv. apply nstyleOkb_ok.
  repeat (apply elem_of_cons in Hv; destruct Hv as [->|Hv]); [..|now apply elem_of_nil in Hv];
    each_nstyle H; vm_compute; reflexivity.
Qed.

Lemma linkPart_ok atB ans stream st :
  nstyleOk (nstyle st) ->
  match linkPart atB (nstyle st) ans stream st with
  | Done o => okOutcome o
  | Next _ st' => st' = st
  end.
Proof.
  intros Hok. unfold linkPart, linkBegin.
  destruct (Z.eqb_spec (js_and (nstyle st) _link_mask) 0) as [Hz|Hz].
  - destruct (matchRE bracketRE false stream); [|reflexivity].
    simpl. apply ok_linkBegin; [done|done|].
    repeat case_match; set_solver.
  - destruct (linkSwitch _ stream) as [[v|] stream'] eqn:Hsw; [|reflexivity].
    simpl. apply ok_linkSwitch; [done|]. eapply linkSwitch_value; eauto.
Qed.

Lemma escapePart_ok ans stream st :
  nstyleOk (nstyle st) ->
  match escapePart (nstyle st) ans stream st with
  | Done o => okOutcome o
  | Next _ st' => st' = st
  end.
Proof.
  intros Hok. unfold escapePart.
  destruct (Z.eqb_spec (js_and (nstyle st) ESCAPE) 0) as [Hz|Hz]; simpl.
  - destruct (matchRE escapeRE true stream) as [[n stream']|]; [|reflexivity].
    simpl. now apply ok_escape.
  - now apply ok_unescape.
Qed.

Lemma emphasisPart_ok ans stream st :
  nstyleOk (nstyle st) ->
  match emphasisPart ans stream st with
  | Done o => okOutcome o
  | Next _ st' => st' = st
  end.
Proof.
  intros Hok. unfold emphasisPart, toggle.
  repeat case_match; simplify_eq/=; try reflexivity;
    apply ok_toggle; (done || set_solver).
Qed.

Lemma mixablePart_ok atB stream st :
  nstyleOk (nstyle st) -> okOutcome (mixablePart atB stream st).
Proof.
  intros Hok. unfold mixablePart.
  pose proof (linkPart_ok atB (initialStyle (nstyle st)) stream st Hok) as Hl.
  destruct (linkPart _ _ _ _ _) as [o|stream1 st1]; [exact Hl|]. subst st1.
  pose proof (escapePart_ok (initialStyle (nstyle st)) stream1 st Hok) as He.
  destruct (escapePart _ _ _ _) as [o|stream2 st2]; [exact He|]. subst st2.
  pose proof (emphasisPart_ok (initialStyle (nstyle st)) stream2 st Hok) as Hm.
  destruct (emphasisPart _ _ _) as [o|stream3 st3]; [exact Hm|]. subst st3.
  simpl. exact Hok.
Qed.

(** A call leaves [nstyle] as it was, or as the part for the mixable styles
    leaves it from a state with the same [nstyle]. *)
Lemma token_inline_mixable stream st style stream' st' :
  token_inline stream st = Ret style stream' st' ->
  nstyle st' = nstyle st
  \/ exists atB s0 st0, nstyle st0 = nstyle st
                        /\ mixablePart atB s0 st0 = Ret style stream' st'.
Proof.
  rewrite token_inline_inlineBegin. cbv zeta.
  destruct (inlineBegin_keeps stream st) as (Kn & _).
  remember (inlineBegin stream st) as st0 eqn:E. clear E.
  destruct (if bool_decide _ then _ else _) as [[n s1]|].
  { intros [= <- <- <-]. left. exact Kn. }
  destruct (matchRE inlineCodeRE true stream) as [[n s1]|].
  { intros [= <- <- <-]. left. exact Kn. }
  destruct (mathOpen stream) as [s1 [tmp0|]].
  { intros [= <- <- <-]. left. exact Kn. }
  pose proof (tablePart_nstyle s1 st0) as Ht.
  destruct (tablePart s1 st0) as [o|s2 st2].
  - intros ->. left. simpl in Ht. now rewrite Ht.
  - subst st2. intros H. right. eauto.
Qed.

Lemma token_mixable stream st style stream' st' :
  token stream st = Ret style stream' st' ->
  nstyle st' = nstyle st
  \/ exists atB s0 st0, nstyle st0 = nstyle st
                        /\ mixablePart atB s0 st0 = Ret style stream' st'.
Proof.
  unfold token. cbv zeta. intros H.
  remember (set_combineTokens CombineNull st) as st0 eqn:Hst0.
  assert (Hn : nstyle st0 = nstyle st) by (subst st0; reflexivity).
  clear Hst0.
  assert (Hsame : forall o, sameNstyle st0 o -> o = Ret style stream' st' ->
                            nstyle st' = nstyle st).
  { intros o Ho ->. simpl in Ho. now rewrite Ho. }
  assert (Hrest : forall s1 st1, nstyle st1 = nstyle st ->
            (if bool_decide (inside st1 = Some listSpace)
             then token_listSpace s1 st1 else token_inline s1 st1) = Ret style stream' st' ->
            nstyle st' = nstyle st
            \/ exists atB s0 st0, nstyle st0 = nstyle st
                                  /\ mixablePart atB s0 st0 = Ret style stream' st').
  { intros s1 st1 H1 Hr. destruct (bool_decide _).
    - pose proof (token_listSpace_nstyle s1 st1) as Hl. rewrite Hr in Hl.
      simpl in Hl. left. now rewrite Hl.
    - destruct (token_inline_mixable _ _ _ _ _ Hr) as [E|(atB & s0 & st2 & E & Hmx)].
      + left. now rewrite E.
      + right. exists atB, s0, st2. split; [now rewrite E|done]. }
  destruct (inside st0) as [[| | | |]|];
    try (left; eapply Hsame; [|exact H];
         first [apply token_math_nstyle | apply token_codeFence_nstyle]);
    (destruct (pos stream =? 0)%nat; [|now apply (Hrest stream st0)];
     pose proof (lineStart_nstyle stream st0) as Hl;
     destruct (lineStart stream st0) as [o|s1 st1];
     [left; eapply Hsame; eauto | apply (Hrest s1 st1); [congruence | exact H]]).
Qed.

Lemma token_ok stream st style stream' st' :
  nstyleOk (nstyle st) -> token stream st = Ret style stream' st' -> nstyleOk (nstyle st').
Proof.
  intros Hok H. destruct (token_mixable _ _ _ _ _ H) as [E|(atB & s0 & st0 & E & Hmx)].
  - now rewrite E.
  - pose proof (mixablePart_ok atB s0 st0) as Hm. rewrite Hmx in Hm. apply Hm.
    now rewrite E.
Qed.

Lemma nstyleOk_zero : nstyleOk 0.
Proof. apply nstyleOkb_ok. reflexivity. Qed.

Lemma reachable_ok st : reachable st -> nstyleOk (nstyle st).
Proof.
  induction 1 as [|stream st style stream' st' _ IH Ht|st _ IH|st _ IH].
  - exact nstyleOk_zero.
  - eapply token_ok; eauto.
  - exact nstyleOk_zero.
  - exact IH.
Qed.

(** X17: in every state the tokenizer reaches, [nstyle] is the sum of its
    four standalone bits and of one value of the link field, which is 0 or one
    of the six named link values; so the link field always names a kind of
    link and, when it is not 0, has a style. *)
Theorem nstyle_fields (st : State) :
  reachable st ->
  nstyleOk (nstyle st)
  /\ nstyle st = inlineStyleMask st + linkState st
  /\ is_Some (linkKindOf (linkState st))
  /\ (linkState st <> 0 -> is_Some (HMDStyles (linkState st))).
Proof.
  intros Hr. pose proof (reachable_ok st Hr) as Hok. split; [exact Hok|].
  unfold inlineStyleMask, linkState. revert Hok. generalize (nstyle st). intros n Hok.
  each_nstyle Hok; vm_compute; repeat split; eauto; try congruence.
Qed.

Lemma nstyle_fields_witness :
  nstyleOk (nstyle afterOpeningBracket)
  /\ nstyle afterOpeningBracket
     = inlineStyleMask afterOpeningBracket + linkState afterOpeningBracket
  /\ is_Some (linkKindOf (linkState afterOpeningBracket))
  /\ (linkState afterOpeningBracket <> 0 -> is_Some (HMDStyles (linkState afterOpeningBracket))).
Proof.
  apply (nstyle_fields afterOpeningBracket).
  apply (reach_token (lineStream "[text](url)" 0 None) startState
           (Some "hmd-link ") (set_pos 1 (lineStream "[text](url)" 0 None)));
    [apply reach_start|vm_compute; reflexivity].
Defined.

(** ** Blocks *)

Lemma quoteLoop_level fuel stream q : (q <= (quoteLoop fuel stream q).2)%nat.
Proof.
  revert stream q. induction fuel as [|fuel IH]; intros stream q; simpl; [done|].
  destruct (matchRE quoteMoreRE true stream) as [[n s']|]; simpl; [|done].
  specialize (IH s' (S q)). lia.
Qed.

Lemma sameBlock_step stream st o : sameBlock st o -> blockOutcome stream st o.
Proof. destruct o; [done|]. unfold blockOutcome, blockStep. simpl. intros [-> ->]. auto. Qed.

Lemma sameBlock_ext st1 st2 o :
  table st1 = table st2 -> quoteLevel st1 = quoteLevel st2 ->
  sameBlock st1 o -> sameBlock st2 o.
Proof. destruct o; [done|]. simpl. now intros -> ->. Qed.

Lemma token_math_block stream st : sameBlock st (token_math stream st).
Proof. unfold token_math. split_cases. Qed.

Lemma token_codeFence_block stream st : sameBlock st (token_codeFence stream st).
Proof. unfold token_codeFence. split_cases. Qed.

Lemma lineStart_block stream st :
  pos stream = 0%nat -> blockStage stream st (lineStart stream st).
Proof.
  intros Hpos. rewrite lineStart_lineBegin.
  destruct (lineBegin_keeps stream st) as (Kq & _ & _ & _ & Kt & _).
  remember (lineBegin stream st) as st0 eqn:E. clear E. cbv zeta.
  unfold blockStage, blockOutcome, blockStep.
  destruct (matchRE fenceRE true stream) as [[? ?]|]; [simpl; auto|].
  destruct (_ && _); [simpl; auto|].
  destruct (_ && _); [simpl; auto|].
  destruct (matchRE quoteRE true stream) as [[? s1]|].
  { pose proof (quoteLoop_level (String.length (rest s1)) s1 1) as Hq.
    destruct (quoteLoop _ s1 1) as [s2 q]. simpl in *.
    split; [now left|right; auto]. }
  destruct (negb _); [simpl; auto|].
  destruct (matchRE headerRE true stream) as [[? s1]|].
  { destruct (exec hashesRE _) as [[? ?]|]; simpl; auto. }
  destruct (_ || _); simpl; auto.
Qed.

Lemma token_listSpace_block stream st : sameBlock st (token_listSpace stream st).
Proof. unfold token_listSpace. split_cases. Qed.

Lemma linkPart_block atB n ans stream st :
  match linkPart atB n ans stream st with
  | Done o => sameBlock st o
  | Next _ st' => st' = st
  end.
Proof. unfold linkPart, linkBegin. split_cases. Qed.

Lemma escapePart_block n ans stream st :
  match escapePart n ans stream st with
  | Done o => sameBlock st o
  | Next _ st' => st' = st
  end.
Proof. unfold escapePart. split_cases. Qed.

Lemma emphasisPart_block ans stream st :
  match emphasisPart ans stream st with
  | Done o => sameBlock st o
  | Next _ st' => st' = st
  end.
Proof. unfold emphasisPart, toggle. split_cases. Qed.

Lemma mixablePart_block atB stream st : sameBlock st (mixablePart atB stream st).
Proof.
  unfold mixablePart.
  pose proof (linkPart_block atB (nstyle st) (initialStyle (nstyle st)) stream st) as H1.
  destruct (linkPart _ _ _ _ _) as [o|s1 st1]; [exact H1|subst st1].
  pose proof (escapePart_block (nstyle st) (initialStyle (nstyle st)) s1 st) as H2.
  destruct (escapePart _ _ _ _) as [o|s2 st2]; [exact H2|subst st2].
  pose proof (emphasisPart_block (initialStyle (nstyle st)) s2 st) as H3.
  destruct (emphasisPart _ _ _) as [o|s3 st3]; [exact H3|subst st3].
  unfold fallback. simpl. done.
Qed.

Lemma mathOpen_lineNo stream stream' d :
  mathOpen stream = (stream', d) -> lineNo stream' = lineNo stream.
Proof.
  unfold mathOpen, matchRE. intros H. repeat (case_match; simplify_eq/=); done.
Qed.

Lemma tablePart_block stream st :
  match tablePart stream st with
  | Done o => blockOutcome stream st o
  | Next _ st' => st' = st
  end.
Proof.
  unfold tablePart, tableSep, blockOutcome, blockStep.
  repeat (case_match; simplify_eq/=); auto.
  split; [|now left]. right. split; [|done]. now apply negb_true_iff.
Qed.

Lemma token_inline_block stream st : blockOutcome stream st (token_inline stream st).
Proof.
  unfold token_inline.
  set (st0 := set_combineTokens _ _).
  assert (Kt : table st0 = table st) by (unfold st0; now destruct (_ && _)).
  assert (Kq : quoteLevel st0 = quoteLevel st) by (unfold st0; now destruct (_ && _)).
  clearbody st0.
  destruct (if bool_decide _ then _ else _) as [[? ?]|].
  { apply sameBlock_step. simpl. auto. }
  destruct (matchRE inlineCodeRE true stream) as [[? ?]|].
  { apply sameBlock_step. simpl. auto. }
  destruct (mathOpen stream) as [s1 [d|]] eqn:Hm.
  { apply sameBlock_step. simpl. auto. }
  pose proof (mathOpen_lineNo _ _ _ Hm) as Hl.
  pose proof (tablePart_block s1 st0) as Ht.
  destruct (tablePart s1 st0) as [o|s2 st2].
  - destruct o; [done|]. unfold blockOutcome, blockStep in *.
    rewrite Hl, Kt, Kq in Ht. destruct Ht as [Ht [Hq|[Hq ?]]]; split; auto.
    (* position of s1 *)
    right. split; [|done].
    unfold mathOpen, matchRE in Hm. repeat (case_match; simplify_eq/=); try done.
    simpl in Hq. lia.
  - subst st2. apply sameBlock_step.
    eapply sameBlock_ext; [exact Kt|exact Kq|]. apply mixablePart_block.
Qed.

Theorem token_block stream st style stream' st' :
  token stream st = Ret style stream' st' -> blockStep stream st st'.
Proof.
  intros H.
  assert (Hb : blockOutcome stream st (token stream st)); [|now rewrite H in Hb].
  clear H. unfold token.
  set (st0 := set_combineTokens CombineNull st).
  assert (E : blockOutcome stream st0 (match inside st0 with
    | Some math => token_math stream st0
    | Some codeFence => token_codeFence stream st0
    | _ => match (if (pos stream =? 0)%nat then lineStart stream st0 else Next stream st0) with
           | Done o => o
           | Next stream state =>
               if bool_decide (inside state = Some listSpace)
               then token_listSpace stream state
               else token_inline stream state
           end
    end)); [|exact E].
  clearbody st0.
  assert (Hrest : blockOutcome stream st0
    match (if (pos stream =? 0)%nat then lineStart stream st0 else Next stream st0) with
    | Done o => o
    | Next stream state =>
        if bool_decide (inside state = Some listSpace)
        then token_listSpace stream state
        else token_inline stream state
    end).
  { destruct (Nat.eqb_spec (pos stream) 0) as [Hpos|Hpos].
    - pose proof (lineStart_block stream st0 Hpos) as Hs.
      destruct (lineStart stream st0) as [o|s1 st1] eqn:Hls; [exact Hs|].
      destruct Hs as [Kt Kq].
      assert (Hs1 : s1 = stream).
      { rewrite lineStart_lineBegin in Hls. cbv zeta in Hls.
        repeat (case_match; simplify_eq/=); done. }
      subst s1.
      assert (Hx : blockOutcome stream st1
                (if bool_decide (inside st1 = Some listSpace)
                 then token_listSpace stream st1 else token_inline stream st1)).
      { destruct (bool_decide _);
          [apply sameBlock_step, token_listSpace_block|apply token_inline_block]. }
      destruct (if bool_decide _ then _ else _); [done|].
      unfold blockOutcome, blockStep in *. now rewrite Kt, Kq in Hx.
    - destruct (bool_decide _);
        [apply sameBlock_step, token_listSpace_block|apply token_inline_block]. }
  destruct (inside st0) as [[]|]; try exact Hrest.
  - apply sameBlock_step, token_math_block.
  - apply sameBlock_step, token_codeFence_block.
Qed.

Lemma blocksKept_refl st : blocksKept st st.
Proof. unfold blocksKept. auto. Qed.

Lemma blocksKept_trans a b c : blocksKept a b -> blocksKept b c -> blocksKept a c.
Proof.
  unfold blocksKept. intros (T1 & Q1 & S1) (T2 & Q2 & S2). repeat split.
  - intros H. rewrite <- (T1 H). apply T2. now rewrite (T1 H).
  - auto.
  - auto.
Qed.

Lemma token_blocksKept stream st style stream' st' :
  token stream st = Ret style stream' st' -> blocksKept st st'.
Proof.
  intros H. destruct (token_block _ _ _ _ _ H) as [Ht Hq].
  repeat split.
  - intros Htr. destruct Ht as [Ht|[Hf _]]; [done|congruence].
  - intros Hn. destruct Hq as [Hq|[_ Hq]]; lia.
  - intros Hn. destruct (token_stack _ _ _ _ _ H) as [Hs|Hs]; rewrite Hs; [done|].
    apply rebuildStack_nonempty.
Qed.

(** What every call keeps, the calls made on a line keep. *)
Lemma runLine_steps (R : State -> State -> Prop) :
  (forall st, R st st) ->
  (forall a b c, R a b -> R b c -> R a c) ->
  (forall stream st style stream' st',
     token stream st = Ret style stream' st' -> R st st') ->
  forall fuel stream st, R st (runLine fuel stream st).2.
Proof.
  intros Hrefl Htrans Hstep fuel. induction fuel as [|fuel IH]; intros stream st; simpl; [done|].
  destruct (eol stream); [done|].
  destruct (token stream st) as [|style stream' st'] eqn:Ht; [done|].
  destruct (pos stream' <=? pos stream)%nat; simpl; [eauto|].
  specialize (IH stream' st'). destruct (runLine fuel stream' st') as [calls final].
  simpl in *. eauto.
Qed.

(** X18: a table, a block quote and a list, once open, stay open through
    every call of [token], hence through every line that is not empty: only
    [blankLine] ends them. *)
Theorem blocks_end_at_blank_line :
  (forall stream st style stream' st',
     token stream st = Ret style stream' st' -> blocksKept st st')
  /\ (forall text lineNo following st,
        text <> "" -> blocksKept st (scanLine text lineNo following st).2).
Proof.
  split; [exact token_blocksKept|].
  intros text lineNo following st Hne. unfold scanLine.
  destruct text as [|c text]; [done|]. simpl String.length. cbv iota beta.
  change (S (String.length text) =? 0)%nat with false. cbv iota.
  apply runLine_steps;
    [exact blocksKept_refl | exact blocksKept_trans | exact token_blocksKept].
Qed.

Lemma blocks_end_at_blank_line_witness :
  blocksKept (scanDoc ["> a"] 0 startState) (scanLine "b" 1 None (scanDoc ["> a"] 0 startState)).2
  /\ quoteLevel (scanDoc ["> a"; "b"] 0 startState) = 1%nat.
Proof.
  split; [|vm_compute; reflexivity].
  apply (proj2 blocks_end_at_blank_line "b" 1%nat None (scanDoc ["> a"] 0 startState)).
  discriminate.
Defined.

(** ** Progress *)

(** The delimiter that opens a formula is one dollar or two. *)
Lemma mathOpen_dollars stream stream' d :
  mathOpen stream = (stream', Some d) -> d = "$" \/ d = "$$".
Proof.
  unfold mathOpen, dollarsRE.
  destruct (matchRE _ true stream) as [[n s1]|] eqn:Hm; [|done].
  apply matchRE_lang in Hm as (u & v & Hrest & Hlang & -> & ->).
  unfold rest in Hrest. rewrite (substring_rest _ _ _ _ Hrest).
  destruct (String.eqb u "$$" || _); [|done].
  intros [= _ <-].
  unfold Seqs, OneOrTwo, Opt in Hlang. simpl in Hlang.
  apply lang_Seq_inv in Hlang as (u1 & v1 & -> & H1 & H2).
  inversion H2; subst. rewrite append_empty_r.
  apply lang_Seq_inv in H1 as (u2 & v2 & -> & H3 & H4).
  apply lang_Chr_inv in H3. subst u2.
  inversion H4 as [| | | | | |a b u0 Hl|a b u0 Hr| | | | |]; subst.
  - apply lang_Chr_inv in Hl. subst. now right.
  - inversion Hr; subst. now left.
Qed.

Lemma reachable_mathDelimiter st : reachable st -> mathDelimiter st.
Proof.
  induction 1 as [|stream st style stream' st' _ IH Ht|st _ IH|st _ IH].
  - intros H. done.
  - intros Hin'.
    destruct (token_math_origin _ _ _ _ _ Ht Hin') as [(Hi & Hx & _)|(Hi & d & Hd & Hx)].
    + rewrite Hx. now apply IH.
    + rewrite Hx. destruct (mathOpen_dollars _ _ _ Hd) as [-> | ->]; auto.
  - exact IH.
  - exact IH.
Qed.

(** X19: in a state the tokenizer reaches, [token] raises no exception on
    any stream; inside a formula [extra] is the delimiter, [$] or [$$], and
    inside the indentation of a list it is a positive level number. *)
Theorem token_never_raises (st : State) :
  reachable st ->
  (forall stream, token stream st <> Stuck)
  /\ (inside st = Some math -> extra st = ExtraStr "$" \/ extra st = ExtraStr "$$")
  /\ (inside st = Some listSpace -> exists n, extra st = ExtraNum (S n)).
Proof.
  intros Hr. pose proof (reachable_typed st Hr) as Ht.
  split; [intros stream; now apply typed_token_not_stuck|].
  split; [now apply reachable_mathDelimiter|].
  intros Hin. unfold typed in Ht. now rewrite Hin in Ht.
Qed.

Lemma token_never_raises_witness :
  (forall stream, token stream nestedListState <> Stuck)
  /\ (inside nestedListState = Some math ->
      extra nestedListState = ExtraStr "$" \/ extra nestedListState = ExtraStr "$$")
  /\ (inside nestedListState = Some listSpace -> exists n, extra nestedListState = ExtraNum (S n)).
Proof. apply (token_never_raises nestedListState), nestedListState_reachable. Defined.

(** X20: in a state the tokenizer reaches whose level number is within
    the list stack, a call of [token] on a stream that is not at the end of
    its line returns, consumes at least one character, stays within the line
    and leaves the text of the line as it is. *)
Theorem progress_in_range (stream : StringStream) (st : State) :
  reachable st -> indexInRange st -> more stream ->
  exists style stream' st',
    token stream st = Ret style stream' st'
    /\ (pos stream < pos stream' <= String.length (str stream))%nat
    /\ str stream' = str stream.
Proof.
  intros Hr Hi Hm. pose proof (reachable_token_moved stream st Hr Hi Hm) as Hmv.
  destruct (token stream st) as [|style stream' st'] eqn:Ht; [done|].
  exists style, stream', st'. split; [done|].
  destruct Hmv as [[Hs Hb] Hlt]. rewrite Hs. simpl. split; [lia|done].
Qed.

Lemma progress_in_range_witness :
  exists style stream' st',
    token (set_pos 2 (lineStream "      - c" 0 None)) nestedListState = Ret style stream' st'
    /\ (2 < pos stream' <= 9)%nat
    /\ str stream' = "      - c".
Proof.
  apply (progress_in_range (set_pos 2 (lineStream "      - c" 0 None)) nestedListState).
  - apply nestedListState_reachable.
  - intros _. exists 1%nat. split; [reflexivity|simpl; lia].
  - unfold more. simpl. lia.
Defined.

(** ** Configuration objects *)

Lemma copyProperties_union (t s : object) : copyProperties t s = s ∪ t.
Proof.
  unfold copyProperties.
  apply (map_fold_weak_ind (fun r (m : object) => r = m ∪ t)).
  - now rewrite (left_id_L ∅ (∪)).
  - intros i x m r Hi Hr. simpl in *. subst r. apply insert_union_l.
Qed.

Lemma lookup_copyProperties (t s : object) k :
  copyProperties t s !! k = Quick.orElse (s !! k) (t !! k).
Proof.
  rewrite copyProperties_union, lookup_union.
  destruct (s !! k), (t !! k); reflexivity.
Qed.

Lemma lookup_assign_snoc t sources s k :
  Quick.__assign t (sources ++ [s])%list !! k =
  Quick.orElse (Quick.sourceProperty s k) (Quick.__assign t sources !! k).
Proof.
  unfold Quick.__assign. rewrite foldl_app. simpl.
  destruct s as [s|]; simpl; [apply lookup_copyProperties|reflexivity].
Qed.

Lemma lookup_assign_nil t k : Quick.__assign t [] !! k = t !! k.
Proof. reflexivity. Qed.

Lemma lookup_normalDefaults k :
  ({[ "theme" := JStr "default";
      "hmdFold" := JBool false;
      "hmdHideToken" := JBool false;
      "hmdTableAlign" := JBool false ]} : object) !! k = Quick.normalDefaults k.
Proof.
  unfold Quick.normalDefaults.
  destruct (String.eqb_spec k "theme") as [->|H1]; [reflexivity|].
  rewrite lookup_insert_ne by done.
  destruct (String.eqb_spec k "hmdFold") as [->|H2]; [reflexivity|].
  rewrite lookup_insert_ne by done.
  destruct (String.eqb_spec k "hmdHideToken") as [->|H3]; [reflexivity|].
  rewrite lookup_insert_ne by done.
  destruct (String.eqb_spec k "hmdTableAlign") as [->|H4]; [reflexivity|].
  simpl. now rewrite lookup_singleton_ne.
Qed.

(** X21: the configuration handed to the GFM mode: its name is gfm
    whatever the mode configuration says; any other attribute is the one of
    the mode configuration when it has it and the default otherwise, so an
    attribute that has no default is passed through as it is. *)
Theorem gfm_config_merge (modeConfig : object) :
  gfmConfigFor modeConfig !! "name" = Some (JStr "gfm")
  /\ (forall k, k <> "name" ->
        gfmConfigFor modeConfig !! k =
        Quick.orElse (modeConfig !! k) (gfmDefaults !! k))
  /\ (forall k, k <> "name" -> k <> "highlightFormatting" -> k <> "tokenTypeOverrides" ->
        gfmConfigFor modeConfig !! k = modeConfig !! k).
Proof.
  unfold gfmConfigFor.
  split; [apply lookup_insert_eq|].
  assert (H : forall k, k <> "name" ->
            <["name" := JStr "gfm"]> (copyProperties gfmDefaults modeConfig) !! k =
            Quick.orElse (modeConfig !! k) (gfmDefaults !! k)).
  { intros k Hk. rewrite lookup_insert_ne by done. apply lookup_copyProperties. }
  split; [exact H|].
  intros k H1 H2 H3. rewrite H by done.
  unfold gfmDefaults. rewrite !lookup_insert_ne by done. rewrite lookup_singleton_ne by done.
  destruct (modeConfig !! k); reflexivity.
Qed.

(** X22: the options the three functions pass on.  An option the argument
    names has the argument's value, and a theme given as a string is the
    option [theme] alone.  [fromTextArea] and [switchToHyperMD] take any other
    option from the suggested configuration and pass nothing else;
    [switchToNormal] always passes the theme and the three HyperMD switches,
    off unless the argument says otherwise.  With the suggested configuration
    of the file, [switchToHyperMD] passes none of the three switches unless
    its argument names it. *)
Theorem options_passed_on (suggested : object) (a : Quick.options_or_theme) :
  (forall config k,
     Quick.fromTextArea suggested config !! k =
       Quick.orElse (Quick.sourceProperty config k) (suggested !! k))
  /\ (forall k,
        Quick.switchToHyperMD suggested a !! k =
          Quick.orElse (Quick.sourceProperty (Quick.asOptions a) k) (suggested !! k)
        /\ Quick.switchToNormal a !! k =
          Quick.orElse (Quick.sourceProperty (Quick.asOptions a) k) (Quick.normalDefaults k))
  /\ (forall name k,
        Quick.sourceProperty (Quick.asOptions (Quick.Theme name)) k =
        if String.eqb k "theme" then Some (JStr name) else None)
  /\ (forall k, k ∈ ["hmdFold"; "hmdHideToken"; "hmdTableAlign"] ->
        Quick.switchToNormal Quick.NoOptions !! k = Some (JBool false)
        /\ Quick.switchToHyperMD Quick.suggestedEditorConfig a !! k =
           Quick.sourceProperty (Quick.asOptions a) k).
Proof.
  assert (H : forall sg s k, Quick.__assign ∅ [Some sg; s] !! k =
                Quick.orElse (Quick.sourceProperty s k) (sg !! k)).
  { intros sg s k.
    change [Some sg; s] with ([Some sg] ++ [s])%list.
    rewrite lookup_assign_snoc.
    change [Some sg] with ([] ++ [Some sg])%list.
    rewrite lookup_assign_snoc, lookup_assign_nil, lookup_empty. simpl.
    now destruct (sg !! k). }
  assert (N : forall b k, Quick.switchToNormal b !! k =
                Quick.orElse (Quick.sourceProperty (Quick.asOptions b) k)
                             (Quick.normalDefaults k)).
  { intros b k. unfold Quick.switchToNormal.
    change [Quick.asOptions b] with ([] ++ [Quick.asOptions b])%list.
    rewrite lookup_assign_snoc, lookup_assign_nil, lookup_normalDefaults. reflexivity. }
  split; [|split; [|split]].
  - intros config k. apply H.
  - intros k. split; [apply H|apply N].
  - intros name k. simpl.
    destruct (String.eqb_spec k "theme") as [->|Hk]; [reflexivity|].
    now rewrite lookup_singleton_ne.
  - intros k Hk. rewrite N. unfold Quick.switchToHyperMD. rewrite H.
    assert (E : Quick.normalDefaults k = Some (JBool false)
                /\ Quick.suggestedEditorConfig !! k = None).
    { rewrite !elem_of_cons in Hk. destruct Hk as [->|[->|[->|Hk]]].
      - split; reflexivity.
      - split; reflexivity.
      - split; reflexivity.
      - now apply elem_of_nil in Hk. }
    destruct E as [-> ->]. split; [reflexivity|].
    now destruct (Quick.sourceProperty (Quick.asOptions a) k).
Qed.

(** ** The helpers of the mode tests *)

Import TestBase.

Lemma strLeb_refl a : strLeb a a = true.
Proof. induction a as [|x a IH]; simpl; [done|]. now rewrite N.eqb_refl, IH, orb_true_r. Qed.

Lemma code_inj x y : code x = code y -> x = y.
Proof.
  unfold code. intros H. rewrite <- (ascii_N_embedding x), <- (ascii_N_embedding y).
  now rewrite H.
Qed.

Global Instance strLe_trans : Transitive strLe.
Proof.
  unfold strLe. intros a. induction a as [|x a IH]; intros b c Hab Hbc; [done|].
  destruct b as [|y b]; [done|]. destruct c as [|z c]; [done|]. simpl in *.
  apply orb_true_iff in Hab, Hbc. apply orb_true_iff.
  destruct Hab as [Hab|Hab], Hbc as [Hbc|Hbc].
  - left. apply N.ltb_lt in Hab, Hbc. apply N.ltb_lt. lia.
  - left. apply andb_true_iff in Hbc as [E _]. apply N.eqb_eq in E.
    apply N.ltb_lt in Hab. apply N.ltb_lt. lia.
  - left. apply andb_true_iff in Hab as [E _]. apply N.eqb_eq in E.
    apply N.ltb_lt in Hbc. apply N.ltb_lt. lia.
  - right. apply andb_true_iff in Hab as [E1 H1]. apply andb_true_iff in Hbc as [E2 H2].
    apply N.eqb_eq in E1, E2. apply andb_true_iff. split; [apply N.eqb_eq; lia|].
    eapply IH; eauto.
Qed.

Global Instance strLe_total : Total strLe.
Proof.
  unfold strLe. intros a. induction a as [|x a IH]; intros b; [now left|].
  destruct b as [|y b]; [now right|]. simpl.
  destruct (N.lt_trichotomy (code x) (code y)) as [H|[H|H]].
  - left. apply N.ltb_lt in H. now rewrite H.
  - rewrite H, N.eqb_refl, N.ltb_irrefl. simpl. apply IH.
  - right. apply N.ltb_lt in H. now rewrite H.
Qed.

Global Instance strLe_antisymm : AntiSymm (=) strLe.
Proof.
  unfold strLe. intros a. induction a as [|x a IH]; intros b Hab Hba.
  - now destruct b.
  - destruct b as [|y b]; [done|]. simpl in *.
    apply orb_true_iff in Hab, Hba.
    destruct Hab as [Hab|Hab], Hba as [Hba|Hba];
      try apply N.ltb_lt in Hab; try apply N.ltb_lt in Hba;
      try (apply andb_true_iff in Hab as [E1 H1]; apply N.eqb_eq in E1);
      try (apply andb_true_iff in Hba as [E2 H2]; apply N.eqb_eq in E2);
      try lia.
    f_equal; [now apply code_inj|now apply IH].
Qed.

Lemma jsSort_sorted l : StronglySorted strLe (jsSort l).
Proof. apply StronglySorted_merge_sort; apply _. Qed.

Lemma jsSort_perm l : jsSort l ≡ₚ l.
Proof. apply merge_sort_Permutation. Qed.

Lemma jsSort_unique l1 l2 : l1 ≡ₚ l2 -> jsSort l1 = jsSort l2.
Proof.
  intros H. apply (StronglySorted_unique strLe); [apply jsSort_sorted..|].
  now rewrite !jsSort_perm.
Qed.

Lemma jsSort_idem l : jsSort (jsSort l) = jsSort l.
Proof.
  apply (StronglySorted_unique strLe); [apply jsSort_sorted..|]. apply jsSort_perm.
Qed.

Lemma splitWs_word (w : string) : forall s cur b,
  allb notSpace w = true -> w <> "" ->
  splitWs (w +:+ s) cur b = splitWs s (cur +:+ w) false.
Proof.
  induction w as [|c w IH]; intros s cur b Hw Hne; [done|].
  simpl in Hw. apply andb_true_iff in Hw as [Hc Hw].
  unfold notSpace in Hc. apply negb_true_iff in Hc.
  rewrite append_cons. simpl. rewrite Hc.
  destruct w as [|d w].
  - rewrite append_nil. reflexivity.
  - rewrite IH by done. now rewrite append_assoc.
Qed.

Lemma splitWs_join (l : list string) : forall b,
  Forall isStyle l -> l <> [] -> splitWs (join l) "" b = l.
Proof.
  induction l as [|w l IH]; intros b Hl Hne; [done|].
  inversion Hl as [|? ? [Hw1 Hw2] Hl']; subst.
  destruct l as [|w' l].
  - simpl. rewrite <- (append_empty_r w) at 1.
    rewrite splitWs_word by done. now rewrite append_nil.
  - change (join (w :: w' :: l)) with (w +:+ " " +:+ join (w' :: l)).
    rewrite splitWs_word by done. rewrite append_nil, append_cons, append_nil.
    simpl splitWs at 1. change (isSpace " ") with true. cbv iota.
    now rewrite IH.
Qed.

Lemma trimStart_ws pre s : allb isSpace pre = true -> trimStart (pre +:+ s) = trimStart s.
Proof.
  induction pre as [|c pre IH]; intros H; [now rewrite append_nil|].
  simpl in H. apply andb_true_iff in H as [Hc H]. rewrite append_cons. simpl.
  rewrite Hc. now apply IH.
Qed.

Lemma trimEnd_ws_only post : allb isSpace post = true -> trimEnd post = "".
Proof.
  induction post as [|c post IH]; intros H; [done|].
  simpl in H. apply andb_true_iff in H as [Hc H]. simpl. now rewrite IH, Hc.
Qed.

Lemma trimEnd_ws s post : allb isSpace post = true -> trimEnd (s +:+ post) = trimEnd s.
Proof.
  intros H. induction s as [|c s IH].
  - rewrite append_nil. now apply trimEnd_ws_only.
  - rewrite append_cons. simpl. now rewrite IH.
Qed.

Lemma trimEnd_fixed_app u v : trimEnd v = v -> v <> "" -> trimEnd (u +:+ v) = u +:+ v.
Proof.
  intros Hv Hne. induction u as [|c u IH]; [now rewrite append_nil|].
  rewrite append_cons. simpl. rewrite IH.
  destruct (u +:+ v) eqn:E; [|done].
  destruct u; [rewrite append_nil in E|rewrite append_cons in E]; done.
Qed.

Lemma trimEnd_word w : allb notSpace w = true -> trimEnd w = w.
Proof.
  induction w as [|c w IH]; intros H; [done|].
  simpl in H. apply andb_true_iff in H as [Hc H]. simpl. rewrite IH by done.
  unfold notSpace in Hc. apply negb_true_iff in Hc. rewrite Hc. now destruct w.
Qed.

Lemma join_styles l :
  Forall isStyle l -> l <> [] ->
  join l <> "" /\ trimEnd (join l) = join l /\ trimStart (join l) = join l.
Proof.
  induction l as [|w l IH]; intros Hl Hne; [done|].
  inversion Hl as [|? ? [Hw1 Hw2] Hl']; subst.
  assert (Hstart : forall s, trimStart (w +:+ s) = w +:+ s).
  { intros s. destruct w as [|c w]; [done|]. simpl in Hw2.
    apply andb_true_iff in Hw2 as [Hc _]. apply negb_true_iff in Hc.
    rewrite append_cons. simpl. now rewrite Hc. }
  destruct l as [|w' l].
  - simpl. repeat split; [done|now apply trimEnd_word|].
    rewrite <- (append_empty_r w). apply Hstart.
  - change (join (w :: w' :: l)) with (w +:+ " " +:+ join (w' :: l)).
    destruct IH as (Hn & He & _); [done|done|].
    repeat split.
    + destruct w; [done|]. now rewrite append_cons.
    + rewrite <- append_assoc. now apply trimEnd_fixed_app.
    + apply Hstart.
Qed.

Lemma trim_padded pre post l :
  Forall isStyle l -> l <> [] ->
  allb isSpace pre = true -> allb isSpace post = true ->
  trim (pre +:+ join l +:+ post) = join l.
Proof.
  intros Hl Hne Hpre Hpost. destruct (join_styles l Hl Hne) as (Hn & He & Hs).
  unfold trim. rewrite trimStart_ws by done.
  assert (Hst : trimStart (join l +:+ post) = join l +:+ post).
  { destruct (join l) as [|c s] eqn:E; [done|]. rewrite append_cons.
    simpl in Hs. simpl. destruct (isSpace c); [|done].
    exfalso. assert (Hlen : String.length (trimStart s) = String.length (String c s))
      by now rewrite Hs.
    assert (Hle : forall t, (String.length (trimStart t) <= String.length t)%nat).
    { induction t as [|d t IHt]; simpl; [lia|]. destruct (isSpace d); simpl; lia. }
    specialize (Hle s). simpl in Hlen. lia. }
  rewrite Hst, trimEnd_ws by done. exact He.
Qed.

Lemma onlyEmpty_styles l : Forall isStyle l -> onlyEmpty (jsSort l) = false.
Proof.
  intros Hl. destruct (jsSort l) as [|x [|y r]] eqn:E; try done.
  simpl. assert (Hx : x ∈ l) by (rewrite <- (jsSort_perm l), E; set_solver).
  rewrite Forall_forall in Hl. destruct (Hl x Hx) as [Hne _].
  destruct x; [done|reflexivity].
Qed.

Lemma trim_ws_only pre post :
  allb isSpace pre = true -> allb isSpace post = true ->
  trim (pre +:+ post) = "".
Proof.
  intros Hpre Hpost. unfold trim. rewrite trimStart_ws by done.
  assert (H : forall t, allb isSpace t = true -> trimStart t = "").
  { induction t as [|c t IH]; simpl; [done|]. intros H.
    apply andb_true_iff in H as [Hc H]. rewrite Hc. now apply IH. }
  now rewrite H.
Qed.

(** X23: [toStyleArray] on the styles [l], given as one string (joined by
    spaces, with any white space around) or as an array, gives the same
    array: [l] sorted by code units, a permutation of [l]; the array given is
    itself left sorted, and the order in which the string lists the styles
    does not matter. *)
Theorem toStyleArray_styles (l : list string) (pre post : string) :
  Forall isStyle l ->
  allb isSpace pre = true -> allb isSpace post = true ->
  (toStyleArray (StylesStr (pre +:+ join l +:+ post))).1 = jsSort l
  /\ toStyleArray (StylesArr l) = (jsSort l, StylesArr (jsSort l))
  /\ StronglySorted strLe (jsSort l) /\ jsSort l ≡ₚ l
  /\ (forall l', l' ≡ₚ l ->
        (toStyleArray (StylesStr (join l'))).1 = (toStyleArray (StylesStr (join l))).1).
Proof.
  intros Hl Hpre Hpost.
  assert (Hstr : forall k pre post, Forall isStyle k ->
            allb isSpace pre = true -> allb isSpace post = true ->
            (toStyleArray (StylesStr (pre +:+ join k +:+ post))).1 = jsSort k).
  { clear. intros k pre post Hk Hpre Hpost. unfold toStyleArray.
    destruct (String.length _ =? 0)%nat eqn:Hlen; [|].
    - simpl. destruct k as [|w k]; [reflexivity|]. exfalso.
      destruct (join_styles (w :: k) Hk) as (Hn & _); [done|].
      apply Nat.eqb_eq in Hlen. rewrite !length_append in Hlen.
      destruct (join (w :: k)); [done|]. simpl in Hlen. lia.
    - destruct k as [|w k].
      + simpl join. rewrite append_nil. rewrite append_nil in Hlen.
        rewrite trim_ws_only by done. reflexivity.
      + rewrite trim_padded by done. unfold split.
        rewrite splitWs_join by done. simpl. now rewrite onlyEmpty_styles. }
  split; [now apply Hstr|].
  split; [unfold toStyleArray; now rewrite onlyEmpty_styles|].
  split; [apply jsSort_sorted|]. split; [apply jsSort_perm|].
  intros l' Hperm.
  assert (Hl' : Forall isStyle l') by now rewrite Hperm.
  pose proof (Hstr l' "" "" Hl' eq_refl eq_refl) as H1.
  pose proof (Hstr l "" "" Hl eq_refl eq_refl) as H2.
  rewrite !append_nil, !append_empty_r in H1, H2.
  rewrite H1, H2. now apply jsSort_unique.
Qed.

Lemma toStyleArray_styles_witness :
  (toStyleArray (StylesStr (" " +:+ join ["hmd-link"; "formatting"] +:+ " "))).1
    = jsSort ["hmd-link"; "formatting"]
  /\ jsSort ["hmd-link"; "formatting"] = ["formatting"; "hmd-link"].
Proof.
  split; [|vm_compute; reflexivity].
  apply (toStyleArray_styles ["hmd-link"; "formatting"] " " " ");
    [repeat constructor; discriminate|reflexivity|reflexivity].
Defined.

(** The loop of [checkResult] from index [i]. *)
Lemma checkFrom_spec {T} (expect : list Expect) : forall (i : Z) (data : list (Answer T)),
  0 <= i ->
  let r := (checkFrom i data expect).1 in
  (r = -1 <-> Forall2 agrees data expect \/ (i = 0 /\ data = [] /\ expect <> []))
  /\ (r = -1 \/ i - 1 <= r <= i + Z.of_nat (length expect))
  /\ (i <= r ->
      Forall2 agrees (take (Z.to_nat (r - i)) data) (take (Z.to_nat (r - i)) expect)).
Proof.
  induction expect as [|b expect IH]; intros i data Hi; cbv zeta.
  - destruct data as [|a data]; simpl.
    + split; [split; [left; constructor|done]|]. split; [now left|]. intros _.
      rewrite !take_nil. constructor.
    + split.
      { split; [lia|]. intros [H|(_ & H & _)]; [inversion H|done]. }
      split; [right; lia|]. intros _. rewrite Z.sub_diag. simpl. constructor.
  - destruct data as [|a data].
    { simpl. split.
      - split.
        + intros H. right. repeat split; [lia|done].
        + intros [H|(-> & _)]; [inversion H|done].
      - split; [right; lia|]. lia. }
    cbn [checkFrom].
    destruct (String.eqb_spec (text a) (etext b)) as [Ht|Ht]; simpl negb; cbv iota.
    2:{ simpl. split.
        - split; [lia|]. intros [H|(_ & H & _)]; [|done].
          inversion H as [|? ? ? ? [E _]]; subst. done.
        - split; [right; lia|]. intros _. rewrite Z.sub_diag. simpl. constructor. }
    destruct (toStyleArray (estyles b)) as [arr sorted] eqn:Hts.
    destruct (String.eqb_spec (join (styles a)) (join arr)) as [Hs|Hs]; simpl negb; cbv iota.
    2:{ simpl. split.
        - split; [lia|]. intros [H|(_ & H & _)]; [|done].
          inversion H as [|? ? ? ? [_ E]]; subst. rewrite Hts in E. done.
        - split; [right; lia|]. intros _. rewrite Z.sub_diag. simpl. constructor. }
    specialize (IH (i + 1) data ltac:(lia)). cbv zeta in IH.
    destruct (checkFrom (i + 1) data expect) as [r rest]. simpl in *.
    destruct IH as (IH1 & IH2 & IH3).
    assert (Hab : agrees a b) by (split; [done|now rewrite Hts]).
    split; [|split].
    + rewrite IH1. split.
      * intros [H|(? & _)]; [|lia]. left. now constructor.
      * intros [H|(_ & H & _)]; [|done]. left. now inversion H.
    + destruct IH2 as [->|IH2]; [now left|right]. lia.
    + intros Hr. destruct IH2 as [->|IH2]; [lia|].
      destruct (decide (r = i)) as [->|Hne].
      * rewrite Z.sub_diag. simpl. constructor.
      * replace (Z.to_nat (r - i)) with (S (Z.to_nat (r - (i + 1)))) by lia.
        simpl. constructor; [done|]. apply IH3. lia.
Qed.

(** X24: the index [checkResult] returns is -1 exactly when no token was
    given or the tokens are as many as expected and each agrees with what is
    expected at its place, in text and in styles; otherwise it is an index
    from 0 to the number of expected tokens, and the tokens before it agree
    with what is expected. *)
Theorem checkResult_index {T} (data : list (Answer T)) (expect : list Expect) :
  let r := (checkResult data expect).1 in
  (r = -1 <-> data = [] \/ Forall2 agrees data expect)
  /\ -1 <= r <= Z.of_nat (length expect)
  /\ (0 <= r ->
      Forall2 agrees (take (Z.to_nat r) data) (take (Z.to_nat r) expect)).
Proof.
  cbv zeta. unfold checkResult.
  destruct (checkFrom_spec expect 0 data ltac:(lia)) as (H1 & H2 & H3).
  cbv zeta in *. split; [|split].
  - rewrite H1. split.
    + intros [H|(_ & -> & _)]; [now right|now left].
    + intros [->|H]; [|now left].
      destruct expect as [|b expect]; [left; constructor|right; done].
  - lia.
  - intros Hr. rewrite Z.sub_0_r in H3. now apply H3.
Qed.

Lemma checkResult_index_witness :
  (checkResult (T := unit) [] [mkExpect "a" (StylesStr "x")]).1 = -1
  /\ (checkResult [mkAnswer "a" ["x"] tt] [mkExpect "a" (StylesStr "x"); mkExpect "b" StylesNone]).1
     = 0.
Proof.
  split; [|vm_compute; reflexivity].
  apply (proj2 (proj1 (checkResult_index (T := unit) [] [mkExpect "a" (StylesStr "x")]))).
  now left.
Defined.
